(** * deslop: run orchestration, verification loop and markdown codec

    A shallow embedding of the orchestration core of the deslop CLI
    (the [App] controller, the verification discoverer and executor, and the
    markdown parsers of the run manager), with the properties the
    specification states about them.

    Conventions.
    - A JavaScript string is the list of its UTF-16 code units ([JS.jsstring]).
    - React state is threaded explicitly: every [setX(prev => ...)] of the
      source is a function on the application state.
    - External collaborators (the spawned process, the agent, the file
      system) are oracles or event traces supplied as arguments. *)

From Stdlib Require Import NArith ZArith Lia Bool String Ascii.
From Stdlib Require DecimalPos DecimalN.
From stdpp Require Import base list.
Import ListNotations.

Open Scope nat_scope.

(* ===================================================================== *)
(** * Part I: definitions *)
(* ===================================================================== *)

(** ** JavaScript strings *)

Module JS.

Definition jsstring := list N.

(** A literal of the source, as code units. *)
Definition js (s : string) : jsstring :=
  List.map N_of_ascii (list_ascii_of_string s).

Definition nl : N := 10%N.

Fixpoint eqb (a b : jsstring) : bool :=
  match a, b with
  | [], [] => true
  | c :: a', d :: b' => N.eqb c d && eqb a' b'
  | _, _ => false
  end.

(** [s] starts with [w], and [w] occurs in [s], when code units are compared
    by [eq] (the unit of [w] first). *)
Fixpoint startsWithBy (eq : N -> N -> bool) (w s : jsstring) : bool :=
  match w, s with
  | [], _ => true
  | c :: w', d :: s' => eq c d && startsWithBy eq w' s'
  | _ :: _, [] => false
  end.

Fixpoint includesBy (eq : N -> N -> bool) (s w : jsstring) : bool :=
  startsWithBy eq w s ||
  match s with
  | [] => false
  | _ :: s' => includesBy eq s' w
  end.

(** [s.startsWith(w)] and [s.includes(w)] *)
Definition startsWith (w s : jsstring) : bool := startsWithBy N.eqb w s.

Definition includes (s w : jsstring) : bool := includesBy N.eqb s w.

(** [arr.includes(x)] on an array of strings. *)
Definition arrayIncludes (arr : list jsstring) (x : jsstring) : bool :=
  existsb (eqb x) arr.

(** LineTerminator code units: LF, CR, LS, PS. *)
Definition isLineTerminator (c : N) : bool :=
  N.eqb c 10 || N.eqb c 13 || N.eqb c 8232 || N.eqb c 8233.

(** WhiteSpace and LineTerminator code units: what [\s] matches and what
    [trim] and [parseInt] strip. *)
Definition isWhiteSpace (c : N) : bool :=
  N.eqb c 9 || N.eqb c 10 || N.eqb c 11 || N.eqb c 12 || N.eqb c 13 ||
  N.eqb c 32 || N.eqb c 160 || N.eqb c 5760 ||
  (N.leb 8192 c && N.leb c 8202) ||
  N.eqb c 8232 || N.eqb c 8233 || N.eqb c 8239 || N.eqb c 8287 ||
  N.eqb c 12288 || N.eqb c 65279.

Definition isDigit (c : N) : bool := N.leb 48 c && N.leb c 57.

Definition isWordChar (c : N) : bool :=
  (N.leb 97 c && N.leb c 122) || (N.leb 65 c && N.leb c 90) ||
  isDigit c || N.eqb c 95.

Fixpoint trimStart (s : jsstring) : jsstring :=
  match s with
  | c :: s' => if isWhiteSpace c then trimStart s' else s
  | [] => []
  end.

Definition trimEnd (s : jsstring) : jsstring := rev (trimStart (rev s)).

(** [s.trim()] *)
Definition trim (s : jsstring) : jsstring := trimEnd (trimStart s).

(** [s.toLowerCase()] on the ASCII range; the parsers only apply it to a
    capture of [\w+], which holds ASCII code units only. *)
Definition lowerUnit (c : N) : N :=
  if N.leb 65 c && N.leb c 90 then (c + 32)%N else c.

Definition toLowerCase (s : jsstring) : jsstring := List.map lowerUnit s.

(** The digits read by [parseInt(_, 10)]: the longest prefix of decimal
    digits, accumulated left to right. [None] when there is no digit. *)
Fixpoint parseDigits (acc : option Z) (s : jsstring) : option Z :=
  match s with
  | c :: s' =>
      if isDigit c
      then parseDigits (Some (10 * default 0%Z acc + (Z.of_N c - 48))%Z) s'
      else acc
  | [] => acc
  end.

(** [parseInt(s, 10)]: leading white space is skipped, then an optional sign,
    then decimal digits; [None] stands for NaN. The result is the exact
    integer (a JavaScript number agrees with it up to 2^53). *)
Definition parseInt10 (s : jsstring) : option Z :=
  match trimStart s with
  | c :: s' =>
      if N.eqb c 45 then option_map Z.opp (parseDigits None s')
      else if N.eqb c 43 then parseDigits None s'
      else parseDigits None (c :: s')
  | [] => None
  end.

(** [x || undefined] for a number [x]: NaN and 0 are falsy. *)
Definition numberOrUndefined (x : option Z) : option Z :=
  match x with
  | Some 0%Z => None
  | other => other
  end.

(** [x || d] for a string-or-null [x]: null and the empty string are falsy. *)
Definition stringOr (x : option jsstring) (d : jsstring) : jsstring :=
  match x with
  | Some (c :: s) => c :: s
  | _ => d
  end.

(** [s.slice(-n)]: the last [n] code units. [-0] is [0], so at [n = 0] it
    is [s.slice(0)], the whole string. *)
Definition sliceLast (n : nat) (s : jsstring) : jsstring :=
  match n with
  | 0 => s
  | S _ => drop (length s - n) s
  end.

End JS.

(** ** The data model ([types.ts]) *)

Module Types.
Import JS.

Record SlopItem := {
  si_id : jsstring;
  si_title : jsstring;
  si_description : jsstring;
  si_file : jsstring;
  si_line : option Z;
  si_severity : jsstring;
  si_category : jsstring;
  si_selected : bool
}.

Definition HINT_ONLY_CATEGORIES : list jsstring := [js "ui-slop"].

Inductive TaskStatus := TPending | TInProgress | TCompleted | TFailed.

Record Task := {
  t_id : jsstring;
  t_title : jsstring;
  t_description : jsstring;
  t_status : TaskStatus;
  t_file : option jsstring;
  t_slopItemId : jsstring
}.

Record ReviewSuggestion := {
  rs_id : jsstring;
  rs_title : jsstring;
  rs_description : jsstring;
  rs_file : jsstring;
  rs_line : option Z;
  rs_severity : jsstring
}.

Inductive CommandType := Build | Test | Lint | Typecheck.

Inductive CommandStatus := Pending | Running | Passed | Failed | Skipped.

Record VerificationCommand := {
  vc_id : jsstring;
  vc_name : jsstring;
  vc_command : jsstring;
  vc_type : CommandType;
  vc_optional : bool;
  vc_status : CommandStatus;
  vc_output : option jsstring;
  vc_exitCode : option Z
}.

Record VerificationResult := {
  vr_command : VerificationCommand;
  vr_success : bool;
  vr_output : jsstring;
  vr_exitCode : Z;
  vr_duration : Z
}.

Inductive VerificationStatus :=
  Discovering | VRunning | Fixing | VPassed | VFailed.

Record VerificationState := {
  vs_commands : list VerificationCommand;
  vs_currentCommandIndex : nat;
  vs_attempt : nat;
  vs_maxAttempts : nat;
  vs_status : VerificationStatus
}.

Inductive AppPhase :=
  Scanning | Results | Executing | Verifying | Reviewing | Complete.

End Types.

(** ** The results phase: selection handlers and the proceed transition *)

Module Selection.
Import JS Types.

Definition isHintOnly (item : SlopItem) : bool :=
  arrayIncludes HINT_ONLY_CATEGORIES (si_category item).

Definition setSelected (b : bool) (item : SlopItem) : SlopItem :=
  {| si_id := si_id item; si_title := si_title item;
     si_description := si_description item; si_file := si_file item;
     si_line := si_line item; si_severity := si_severity item;
     si_category := si_category item; si_selected := b |}.

(** [handleToggle(id)] *)
Definition handleToggle (id : jsstring) (slopItems : list SlopItem) : list SlopItem :=
  List.map (fun item =>
    if eqb (si_id item) id then setSelected (negb (si_selected item)) item else item)
    slopItems.

(** [handleSelectAll()] *)
Definition handleSelectAll (slopItems : list SlopItem) : list SlopItem :=
  List.map (setSelected true) slopItems.

(** [handleDeselectAll()] *)
Definition handleDeselectAll (slopItems : list SlopItem) : list SlopItem :=
  List.map (setSelected false) slopItems.

(** [generateTasksForSlopItem(item)] *)
Definition generateTasksForSlopItem (item : SlopItem) : list Task :=
  [ {| t_id := js "task-" ++ si_id item;
       t_title := js "Fix: " ++ si_title item;
       t_description := si_description item;
       t_status := TPending;
       t_file := Some (si_file item);
       t_slopItemId := si_id item |} ].

(** The two lists [handleProceed] computes: the findings kept and the tasks
    generated from them. *)
Definition proceedSelected (slopItems : list SlopItem) : list SlopItem :=
  List.filter (fun item => si_selected item && negb (isHintOnly item)) slopItems.

Definition handleProceed (slopItems : list SlopItem) : list Task * list SlopItem :=
  let selectedItems := proceedSelected slopItems in
  let generatedTasks := List.flat_map generateTasksForSlopItem selectedItems in
  (generatedTasks, selectedItems).

(** The keys the findings list reacts to, and the selection part of its
    [useInput] handler: the findings after the key, given the cursor. *)
Inductive Key := KSpace | KSelectAll | KDeselectAll | KOther.

Definition slopListInput (key : Key) (cursor : nat) (items : list SlopItem)
  : list SlopItem :=
  match key with
  | KSpace =>
      match items !! cursor with
      | Some item => if negb (isHintOnly item) then handleToggle (si_id item) items else items
      | None => items
      end
  | KSelectAll => handleSelectAll items
  | KDeselectAll => handleDeselectAll items
  | KOther => items
  end.

(** The findings a run may fix: selected, and of a category that is not
    hint-only. *)
Definition fixable (item : SlopItem) : Prop :=
  si_selected item = true /\ si_category item <> js "ui-slop".

Fixpoint countFixable (items : list SlopItem) : nat :=
  match items with
  | [] => 0
  | item :: rest =>
      (if si_selected item && negb (eqb (si_category item) (js "ui-slop")) then 1 else 0)
      + countFixable rest
  end.

(** The findings, in order, that satisfy [fixable]. *)
Inductive FixableOf : list SlopItem -> list SlopItem -> Prop :=
| fo_nil : FixableOf [] []
| fo_keep item items kept :
    fixable item -> FixableOf items kept -> FixableOf (item :: items) (item :: kept)
| fo_drop item items kept :
    ~ fixable item -> FixableOf items kept -> FixableOf (item :: items) kept.

(** A hint-only finding, not selected, as the findings parser would return
    it. *)
Definition uiSlopFinding : SlopItem :=
  {| si_id := js "slop-0"; si_title := js "Start Case label";
     si_description := js "Label text is in Start Case";
     si_file := js "src/Login.tsx"; si_line := Some 12%Z;
     si_severity := js "low"; si_category := js "ui-slop";
     si_selected := false |}.

(** A selected finding of a fixable category. *)
Definition plainFinding : SlopItem :=
  {| si_id := js "slop-1"; si_title := js "Obvious comment";
     si_description := js "Comment restates the code";
     si_file := js "src/a.ts"; si_line := None;
     si_severity := js "high"; si_category := js "extra-comments";
     si_selected := true |}.

End Selection.

(** ** The verification phase ([executeVerification] of the [App] controller) *)

Module Verify.
Import JS Types.

(** What the run observes of its collaborators: the result of the command at
    index [idx] in the pass of attempt [attempt] (the value the promise of
    [runVerificationCommand] resolves with), and whether the agent call of
    the fix attempt after that pass throws. One run asks each question at
    most once, so the oracle is as general as any environment in which the
    command runs resolve; a run whose promise rejects is not covered here. *)
Record World := {
  runCommand : nat -> nat -> VerificationCommand -> VerificationResult;
  fixThrows : nat -> bool
}.

(** The calls the orchestrator makes, in order. *)
Inductive Event :=
| EvRun (attempt idx : nat) (cmd : VerificationCommand)
| EvFix (attempt : nat) (failedCommand : VerificationCommand) (failedOutput : jsstring)
| EvReview.

(** The part of the React state the verification phase reads and writes. *)
Record AppState := {
  verificationState : option VerificationState;
  phase : AppPhase;
  events : list Event
}.

(** [setVerificationState(prev => prev ? f(prev) : null)] *)
Definition setVerificationState (f : VerificationState -> VerificationState)
  (st : AppState) : AppState :=
  {| verificationState := option_map f (verificationState st);
     phase := phase st;
     events := events st |}.

Definition emit (e : Event) (st : AppState) : AppState :=
  {| verificationState := verificationState st;
     phase := phase st;
     events := events st ++ [e] |}.

Definition withStatus (s : CommandStatus) (c : VerificationCommand) : VerificationCommand :=
  {| vc_id := vc_id c; vc_name := vc_name c; vc_command := vc_command c;
     vc_type := vc_type c; vc_optional := vc_optional c; vc_status := s;
     vc_output := vc_output c; vc_exitCode := vc_exitCode c |}.

(** [{ ...c, exitCode, output }] *)
Definition withResult (exitCode : Z) (output : jsstring) (c : VerificationCommand)
  : VerificationCommand :=
  {| vc_id := vc_id c; vc_name := vc_name c; vc_command := vc_command c;
     vc_type := vc_type c; vc_optional := vc_optional c; vc_status := vc_status c;
     vc_output := Some output; vc_exitCode := Some exitCode |}.

(** [prev.commands.map((c, idx) => idx === i ? g(c) : c)] *)
Definition mapAt (i : nat) (g : VerificationCommand -> VerificationCommand)
  (cs : list VerificationCommand) : list VerificationCommand :=
  imap (fun idx c => if Nat.eqb idx i then g c else c) cs.

Definition setCommands (g : list VerificationCommand -> list VerificationCommand)
  (vs : VerificationState) : VerificationState :=
  {| vs_commands := g (vs_commands vs);
     vs_currentCommandIndex := vs_currentCommandIndex vs;
     vs_attempt := vs_attempt vs; vs_maxAttempts := vs_maxAttempts vs;
     vs_status := vs_status vs |}.

Definition setCurrentIndex (i : nat) (vs : VerificationState) : VerificationState :=
  {| vs_commands := vs_commands vs;
     vs_currentCommandIndex := i;
     vs_attempt := vs_attempt vs; vs_maxAttempts := vs_maxAttempts vs;
     vs_status := vs_status vs |}.

Definition setStatus (s : VerificationStatus) (vs : VerificationState) : VerificationState :=
  {| vs_commands := vs_commands vs;
     vs_currentCommandIndex := vs_currentCommandIndex vs;
     vs_attempt := vs_attempt vs; vs_maxAttempts := vs_maxAttempts vs;
     vs_status := s |}.

(** [{ ...prev, commands: freshCommands, attempt: attempt + 1, status: 'running' }] *)
Definition restartWith (fresh : list VerificationCommand) (attempt : nat)
  (vs : VerificationState) : VerificationState :=
  {| vs_commands := fresh;
     vs_currentCommandIndex := vs_currentCommandIndex vs;
     vs_attempt := attempt; vs_maxAttempts := vs_maxAttempts vs;
     vs_status := VRunning |}.

(** The three locals of [executeVerification] that the loop assigns. *)
Record PassVars := {
  allPassed : bool;
  failedCommand : option VerificationCommand;
  failedOutput : jsstring
}.

Definition initialVars : PassVars :=
  {| allPassed := true; failedCommand := None; failedOutput := [] |}.

(** The three state updates of one loop iteration: the command at index [i]
    is shown running and its run is started; it is marked failed with its
    result; it is marked passed, or skipped when it failed and is optional. *)
Definition beginCommand (attempt i : nat) (cmd : VerificationCommand) (st : AppState)
  : AppState :=
  emit (EvRun attempt i cmd)
    (setVerificationState
       (fun prev => setCommands (mapAt i (withStatus Running)) (setCurrentIndex i prev))
       st).

Definition markFailed (i : nat) (result : VerificationResult) (st : AppState) : AppState :=
  setVerificationState
    (setCommands
       (mapAt i (fun c => withResult (vr_exitCode result) (vr_output result)
                            (withStatus Failed c)))) st.

Definition doneStatus (result : VerificationResult) : CommandStatus :=
  if vr_success result then Passed else Skipped.

Definition markDone (i : nat) (result : VerificationResult) (st : AppState) : AppState :=
  setVerificationState (setCommands (mapAt i (withStatus (doneStatus result)))) st.

(** The locals after a required failure. *)
Definition failureVars (result : VerificationResult) (cmd : VerificationCommand)
  : PassVars :=
  {| allPassed := false;
     failedCommand := Some (withResult (vr_exitCode result) (vr_output result) cmd);
     failedOutput := vr_output result |}.

(** The [for] loop of [executeVerification], from index [i] on; [cmds] is
    [commands.slice(i)]. The [break] is the branch that does not recurse. *)
Fixpoint passLoop (w : World) (attempt : nat) (i : nat)
  (cmds : list VerificationCommand) (vars : PassVars) (st : AppState)
  : AppState * PassVars :=
  match cmds with
  | [] => (st, vars)
  | cmd :: rest =>
      let st := beginCommand attempt i cmd st in
      let result := runCommand w attempt i cmd in
      if negb (vr_success result) && negb (vc_optional cmd) then
        (markFailed i result st, failureVars result cmd)
      else
        passLoop w attempt (S i) rest vars (markDone i result st)
  end.

(** One verification pass: the loop from index 0 with fresh locals. *)
Definition runPass (w : World) (attempt : nat) (commands : list VerificationCommand)
  (st : AppState) : AppState * PassVars :=
  passLoop w attempt 0 commands initialVars st.

(** [runReview()], as far as the verification phase is concerned: the phase
    changes and the review agent is called. *)
Definition runReview (st : AppState) : AppState :=
  emit EvReview
    {| verificationState := verificationState st;
       phase := Reviewing;
       events := events st |}.

(** [commands.map(c => ({ ...c, status: 'pending' }))] *)
Definition freshCommands (commands : list VerificationCommand) : list VerificationCommand :=
  List.map (withStatus Pending) commands.

(** [executeVerification(commands, attempt)]. The recursion is on the attempt
    number, which the source bounds by [maxRetries]; [fuel] bounds it here and
    [None] is returned only when the fuel runs out. *)
Fixpoint executeVerification (fuel : nat) (maxRetries : nat) (w : World)
  (commands : list VerificationCommand) (attempt : nat) (st : AppState)
  : option AppState :=
  match fuel with
  | 0 => None
  | S fuel' =>
      let '(st, vars) := runPass w attempt commands st in
      if allPassed vars then
        Some (runReview (setVerificationState (setStatus VPassed) st))
      else
        match failedCommand vars with
        | Some failed =>
            if Nat.ltb attempt maxRetries then
              let st := setVerificationState (setStatus Fixing) st in
              let st := emit (EvFix attempt failed (failedOutput vars)) st in
              if fixThrows w attempt then
                Some (setVerificationState (setStatus VFailed) st)
              else
                let fresh := freshCommands commands in
                let st := setVerificationState (restartWith fresh (attempt + 1)) st in
                executeVerification fuel' maxRetries w fresh (attempt + 1) st
            else
              Some (setVerificationState (setStatus VFailed) st)
        | None =>
            Some (setVerificationState (setStatus VFailed) st)
        end
  end.

(** The state [runVerification] installs before the first pass. *)
Definition initialState (maxRetries : nat) (commands : list VerificationCommand)
  : AppState :=
  {| verificationState :=
       Some {| vs_commands := commands; vs_currentCommandIndex := 0;
               vs_attempt := 1; vs_maxAttempts := maxRetries;
               vs_status := VRunning |};
     phase := Verifying;
     events := [] |}.

(** The state when [runVerification] has set the phase, in the first
    verification of a run: no verification state is installed yet. *)
Definition startState : AppState :=
  {| verificationState := None; phase := Verifying; events := [] |}.

(** [runVerification()], given the commands discovery has found. With no
    command the review is started at once and nothing else is done; else the
    state is installed and the first pass is attempt 1. *)
Definition runVerification (maxRetries : nat) (w : World)
  (commands : list VerificationCommand) : option AppState :=
  match commands with
  | [] => Some (runReview startState)
  | _ :: _ =>
      executeVerification (S maxRetries) maxRetries w commands 1
        (initialState maxRetries commands)
  end.

(** Observations used in the statements. *)
Definition isFix (e : Event) : bool :=
  match e with EvFix _ _ _ => true | _ => false end.

Definition fixCount (st : AppState) : nat :=
  length (List.filter isFix (events st)).

Definition statusOf (st : AppState) : option VerificationStatus :=
  option_map vs_status (verificationState st).

Definition commandStatus (st : AppState) (i : nat) : option CommandStatus :=
  match verificationState st with
  | Some vs => option_map vc_status (vs_commands vs !! i)
  | None => None
  end.

(** The command at index [i] fails and is required, in the pass of [attempt]. *)
Definition requiredFailure (w : World) (attempt : nat) (i : nat)
  (cmd : VerificationCommand) : bool :=
  negb (vr_success (runCommand w attempt i cmd)) && negb (vc_optional cmd).

(** The [EvRun] events of commands [from], [from+1], ... *)
Fixpoint runEvents (attempt : nat) (from : nat) (cmds : list VerificationCommand)
  : list Event :=
  match cmds with
  | [] => []
  | c :: rest => EvRun attempt from c :: runEvents attempt (S from) rest
  end.

(** The state holds a verification state with [n] commands. *)
Definition tracks (n : nat) (st : AppState) : Prop :=
  exists vs, verificationState st = Some vs /\ length (vs_commands vs) = n.

(** The status of command [j] once the command at [i] is given status [s]. *)
Definition statusSet (i : nat) (s : CommandStatus) (st : AppState) (j : nat)
  : option CommandStatus :=
  if Nat.eqb j i then (fun _ => s) <$> commandStatus st j else commandStatus st j.

(** What a pass leaves of the state it started from: the phase, the
    verification status, and that the commands are tracked. *)
Definition sameFrame (st st' : AppState) : Prop :=
  phase st' = phase st /\
  statusOf st' = statusOf st /\
  forall n, tracks n st -> tracks n st'.

(** The attempt a call belongs to. *)
Definition attemptOf (e : Event) : option nat :=
  match e with
  | EvRun a _ _ => Some a
  | EvFix a _ _ => Some a
  | EvReview => None
  end.

(** In the pass of [attempt] over [cmds], numbered from [i]: no command
    fails that is required; the command at offset [k] is the first that
    does. *)
Definition noRequiredFailure (w : World) (attempt i : nat)
  (cmds : list VerificationCommand) : Prop :=
  forall k c, cmds !! k = Some c -> requiredFailure w attempt (i + k) c = false.

Definition firstRequiredFailure (w : World) (attempt i : nat)
  (cmds : list VerificationCommand) (k : nat) (c : VerificationCommand) : Prop :=
  cmds !! k = Some c /\
  requiredFailure w attempt (i + k) c = true /\
  forall k' c', k' < k -> cmds !! k' = Some c' ->
    requiredFailure w attempt (i + k') c' = false.

(** The fix prompt sent after the command [c] at index [k] failed. *)
Definition fixEvent (w : World) (attempt k : nat) (c : VerificationCommand) : Event :=
  let result := runCommand w attempt k c in
  EvFix attempt (withResult (vr_exitCode result) (vr_output result) c)
    (vr_output result).

(** The shape of an automatic verification cycle that starts with the pass
    of [attempt]: the calls made and the status it ends with. A pass without
    required failure ends the cycle in a review; a required failure ends it
    as failed when the attempts are used up or the fix attempt throws, and
    otherwise is followed by a fix and the cycle of the next attempt. *)
Inductive Cycle (maxRetries : nat) (w : World)
  : list VerificationCommand -> nat -> list Event -> VerificationStatus -> Prop :=
| cycle_passed cmds attempt :
    noRequiredFailure w attempt 0 cmds ->
    Cycle maxRetries w cmds attempt (runEvents attempt 0 cmds ++ [EvReview]) VPassed
| cycle_exhausted cmds attempt k c :
    firstRequiredFailure w attempt 0 cmds k c ->
    maxRetries <= attempt ->
    Cycle maxRetries w cmds attempt (runEvents attempt 0 (take (S k) cmds)) VFailed
| cycle_fix_throws cmds attempt k c :
    firstRequiredFailure w attempt 0 cmds k c ->
    attempt < maxRetries ->
    fixThrows w attempt = true ->
    Cycle maxRetries w cmds attempt
      (runEvents attempt 0 (take (S k) cmds) ++ [fixEvent w attempt k c]) VFailed
| cycle_retry cmds attempt k c evs status :
    firstRequiredFailure w attempt 0 cmds k c ->
    attempt < maxRetries ->
    fixThrows w attempt = false ->
    Cycle maxRetries w (freshCommands cmds) (attempt + 1) evs status ->
    Cycle maxRetries w cmds attempt
      (runEvents attempt 0 (take (S k) cmds) ++ fixEvent w attempt k c :: evs) status.

Definition countFixes (evs : list Event) : nat := length (List.filter isFix evs).

(** The state at the start of a pass over [commands], as [runVerification],
    the retry of [executeVerification] and [handleVerificationRetry] leave it:
    a verification state whose commands are those of the pass, all pending. *)
Definition passStart (commands : list VerificationCommand) (st : AppState) : Prop :=
  exists vs,
    verificationState st = Some vs /\
    length (vs_commands vs) = length commands /\
    forall j c, vs_commands vs !! j = Some c -> vc_status c = Pending.

(** The fix-retry branch of [executeVerification], entered from the state
    [st'] a pass has left with the failed command [c] at index [k]. *)
Definition fixRetryBranch (fuel maxRetries : nat) (w : World)
  (commands : list VerificationCommand) (attempt k : nat) (c : VerificationCommand)
  (st' : AppState) : option AppState :=
  if Nat.ltb attempt maxRetries then
    let st := emit (fixEvent w attempt k c)
                (setVerificationState (setStatus Fixing) st') in
    if fixThrows w attempt then Some (setVerificationState (setStatus VFailed) st)
    else
      executeVerification fuel maxRetries w (freshCommands commands) (attempt + 1)
        (setVerificationState
           (restartWith (freshCommands commands) (attempt + 1)) st)
  else Some (setVerificationState (setStatus VFailed) st').

(** The scenarios of the specification: build, test and lint, where the
    build fails; build and lint, where the optional lint fails. *)
Definition command (name : string) (type : CommandType) (optional : bool)
  : VerificationCommand :=
  {| vc_id := js name; vc_name := js name; vc_command := js name;
     vc_type := type; vc_optional := optional; vc_status := Pending;
     vc_output := None; vc_exitCode := None |}.

Definition result (cmd : VerificationCommand) (success : bool) : VerificationResult :=
  {| vr_command := cmd; vr_success := success; vr_output := js "output";
     vr_exitCode := if success then 0%Z else 1%Z; vr_duration := 5%Z |}.

Definition buildTestLint : list VerificationCommand :=
  [command "build" Build false; command "test" Test false; command "lint" Lint true].

(** Every command fails and no fix attempt throws. *)
Definition allFail : World :=
  {| runCommand := fun _ _ cmd => result cmd false;
     fixThrows := fun _ => false |}.

Definition buildLint : list VerificationCommand :=
  [command "build" Build false; command "lint" Lint true].

(** The command at index 1 fails, the others pass. *)
Definition secondFails : World :=
  {| runCommand := fun _ i cmd => result cmd (negb (Nat.eqb i 1));
     fixThrows := fun _ => false |}.

(** [handleVerificationRetry()]: the manual retry offered once the status is
    'failed'. Nothing happens without a verification state; otherwise the
    commands are reset to pending, the attempt to 1, the status to 'running',
    and [executeVerification(freshCommands, 1)] is started. *)
Definition handleVerificationRetry (fuel maxRetries : nat) (w : World) (st : AppState)
  : option AppState :=
  match verificationState st with
  | None => Some st
  | Some vs =>
      let fresh := freshCommands (vs_commands vs) in
      executeVerification fuel maxRetries w fresh 1
        {| verificationState :=
             Some {| vs_commands := fresh;
                     vs_currentCommandIndex := vs_currentCommandIndex vs;
                     vs_attempt := 1; vs_maxAttempts := vs_maxAttempts vs;
                     vs_status := VRunning |};
           phase := phase st;
           events := events st |}
  end.

(** [handleVerificationSkip()] *)
Definition handleVerificationSkip (st : AppState) : AppState := runReview st.




(** Two command records that differ at most in status, output and exit
    code. *)
Definition sameCommand (c c' : VerificationCommand) : Prop :=
  vc_id c' = vc_id c /\ vc_name c' = vc_name c /\ vc_command c' = vc_command c /\
  vc_type c' = vc_type c /\ vc_optional c' = vc_optional c.

(** The state shows the commands of [commands] (up to status, output and
    exit code), the retry limit [maxRetries] and the attempt [attempt]. *)
Definition shows (commands : list VerificationCommand) (maxRetries attempt : nat)
  (st : AppState) : Prop :=
  exists vs,
    verificationState st = Some vs /\
    Forall2 sameCommand commands (vs_commands vs) /\
    vs_maxAttempts vs = maxRetries /\ vs_attempt vs = attempt.



(** No fix attempt throws; the command at index 0 fails in attempt 1 and
    every command passes afterwards. *)
Definition fixedAfterOne : World :=
  {| runCommand := fun a i cmd => result cmd (negb (Nat.eqb a 1 && Nat.eqb i 0));
     fixThrows := fun _ => false |}.

End Verify.

(** ** Regular expressions, as the JavaScript engine matches them

    A backtracking matcher that returns every way a pattern can match at a
    position, best first (the order in which the engine would try them): the
    first element is the match the engine reports. It covers the constructs
    the source's patterns use; no capture group stands under a quantifier
    there, so a group's capture is the text it spans. *)

Module Regex.
Import JS.

Inductive regex :=
| Eps
| Chr (p : N -> bool)
| Seq (r1 r2 : regex)
| Alt (r1 r2 : regex)
| Star (greedy : bool) (r : regex)
| Group (r : regex)
| Lookahead (r : regex)
| Bol
| Eol.

(** A position in the input: the code unit before it (for [^]), the input
    from it on, and the captures made so far, in group order. *)
Record mstate := {
  prev : option N;
  rest : jsstring;
  caps : list jsstring
}.

Definition progress (st st' : mstate) : bool :=
  Nat.ltb (length (rest st')) (length (rest st)).

(** [r*] and [r*?]: an iteration that consumes nothing is rejected, as in
    ECMAScript, so [fuel = length (rest st)] iterations are all there can be. *)
Fixpoint starLoop (step : mstate -> list mstate) (greedy : bool) (fuel : nat)
  (st : mstate) : list mstate :=
  match fuel with
  | 0 => [st]
  | S n =>
      let more := List.flat_map (starLoop step greedy n)
                    (List.filter (progress st) (step st)) in
      if greedy then more ++ [st] else st :: more
  end.

Definition capture (st st' : mstate) : mstate :=
  {| prev := prev st'; rest := rest st';
     caps := caps st' ++ [take (length (rest st) - length (rest st')) (rest st)] |}.

Fixpoint run (r : regex) (st : mstate) : list mstate :=
  match r with
  | Eps => [st]
  | Chr p =>
      match rest st with
      | c :: s => if p c then [{| prev := Some c; rest := s; caps := caps st |}] else []
      | [] => []
      end
  | Seq r1 r2 => List.flat_map (run r2) (run r1 st)
  | Alt r1 r2 => run r1 st ++ run r2 st
  | Star g r' => starLoop (run r') g (length (rest st)) st
  | Group r' => List.map (capture st) (run r' st)
  | Lookahead r' =>
      match run r' st with
      | [] => []
      | _ :: _ => [st]
      end
  | Bol =>
      match prev st with
      | None => [st]
      | Some c => if isLineTerminator c then [st] else []
      end
  | Eol =>
      match rest st with
      | [] => [st]
      | _ :: _ => []
      end
  end.

(** The leftmost match at or after the current position: what [exec] finds
    from [lastIndex], and what [String.prototype.match] finds from 0. *)
Fixpoint searchFrom (r : regex) (p : option N) (s : jsstring) : option mstate :=
  match run r {| prev := p; rest := s; caps := [] |} with
  | st' :: _ => Some st'
  | [] =>
      match s with
      | [] => None
      | c :: s' => searchFrom r (Some c) s'
      end
  end.

(** [text.match(r)] for a pattern without the [g] flag: the captures of the
    first match, or [None] for null. *)
Definition matchFirst (r : regex) (s : jsstring) : option (list jsstring) :=
  option_map caps (searchFrom r None s).

(** [while ((match = r.exec(content)) !== null) { ... }] for a pattern with the
    [g] flag: the captures of the successive matches. A match that consumes
    nothing leaves [lastIndex] where it was and the source's loop never ends:
    that is [None], as is running out of fuel. *)
Fixpoint execLoop (fuel : nat) (r : regex) (p : option N) (s : jsstring)
  : option (list (list jsstring)) :=
  match fuel with
  | 0 => None
  | S n =>
      match searchFrom r p s with
      | None => Some []
      | Some st' =>
          if Nat.ltb (length (rest st')) (length s)
          then option_map (cons (caps st')) (execLoop n r (prev st') (rest st'))
          else None
      end
  end.

Definition execAll (r : regex) (s : jsstring) : option (list (list jsstring)) :=
  execLoop (S (length s)) r None s.

(** Pattern syntax: a literal, its code units compared by [eq]. *)
Fixpoint LitBy (eq : N -> N -> bool) (w : jsstring) : regex :=
  match w with
  | [] => Eps
  | c :: w' => Seq (Chr (eq c)) (LitBy eq w')
  end.

Definition Lit (w : jsstring) : regex := LitBy N.eqb w.

(** Canonicalize of the [i] flag, on the ASCII range: a code unit above it
    never canonicalizes to an ASCII one, so it matches no ASCII pattern
    character. *)
Definition canon (c : N) : N :=
  if N.leb 97 c && N.leb c 122 then (c - 32)%N else c.

Definition eqbI (c x : N) : bool := N.eqb (canon c) (canon x).

Definition LitI (w : jsstring) : regex := LitBy eqbI w.

Definition Plus (greedy : bool) (r : regex) : regex := Seq r (Star greedy r).

Definition digit : regex := Chr isDigit.
Definition word : regex := Chr isWordChar.
Definition dot : regex := Chr (fun c => negb (isLineTerminator c)).
Definition space : regex := Chr isWhiteSpace.
(** [[\s\S]] *)
Definition anyUnit : regex := Chr (fun c => isWhiteSpace c || negb (isWhiteSpace c)).

(** A syntactic check that a pattern cannot match the empty string. *)
Fixpoint mayMatchEmpty (r : regex) : bool :=
  match r with
  | Chr _ => false
  | Seq r1 r2 => mayMatchEmpty r1 && mayMatchEmpty r2
  | Alt r1 r2 => mayMatchEmpty r1 || mayMatchEmpty r2
  | Group r' => mayMatchEmpty r'
  | Eps | Star _ _ | Lookahead _ | Bol | Eol => true
  end.

(** *** Notions for reasoning about matches

    The patterns of the source have no [^] except the Makefile target
    pattern, so what a match leads to is stated for every preceding unit. *)
Definition at_ (p : option N) (s : jsstring) (cs : list jsstring) : mstate :=
  {| prev := p; rest := s; caps := cs |}.

(** On input [s] with captures [cs], the first way [r] matches leaves the
    input [s'] and the captures [cs']. *)
Definition Leads (r : regex) (s : jsstring) (cs : list jsstring)
  (s' : jsstring) (cs' : list jsstring) : Prop :=
  forall p, exists p' tl, run r (at_ p s cs) = at_ p' s' cs' :: tl.

(** [r] does not match at the start of [s]. *)
Definition Fails (r : regex) (s : jsstring) : Prop :=
  forall p cs, run r (at_ p s cs) = [].

(** The leftmost match of [r] in [text] leaves [s'] with captures [cs'];
    [r] matches nowhere in [text]. *)
Definition Finds (r : regex) (text s' : jsstring) (cs' : list jsstring) : Prop :=
  forall p, exists p', searchFrom r p text = Some (at_ p' s' cs').

Definition NotFound (r : regex) (text : jsstring) : Prop :=
  forall p, searchFrom r p text = None.

(** [w] starts at none of the first [n] positions of [s]. *)
Definition freeUpTo (eq : N -> N -> bool) (w : jsstring) (n : nat) (s : jsstring)
  : Prop :=
  forall i, i < n -> startsWithBy eq w (drop i s) = false.

(** [w] and [t] differ at a position both have: then [w] starts no text that
    starts with [t]. *)
Fixpoint clashes (eq : N -> N -> bool) (w t : jsstring) : bool :=
  match w, t with
  | c :: w', d :: t' => if eq c d then clashes eq w' t' else true
  | _, _ => false
  end.

(** [w] clashes with [a] at every position of [a]. *)
Fixpoint clashesAll (eq : N -> N -> bool) (w a : jsstring) : bool :=
  match a with
  | [] => true
  | _ :: a' => clashes eq w a && clashesAll eq w a'
  end.

(** No unit of [w] after its first is matched by [d]. *)
Definition noneMatch (eq : N -> N -> bool) (w : jsstring) (d : N) : bool :=
  forallb (fun c => negb (eq c d)) (tail w).

(** The first unit of [s], if any, is not in the class [pr]. *)
Definition headFails (pr : N -> bool) (s : jsstring) : bool :=
  match s with
  | [] => true
  | d :: _ => negb (pr d)
  end.

(** The positions of [s] from its start to its end. *)
Fixpoint suffixStates (p : option N) (s : jsstring) (cs : list jsstring)
  : list mstate :=
  at_ p s cs ::
  match s with
  | [] => []
  | c :: s' => suffixStates (Some c) s' cs
  end.

(** The unit before the position reached by consuming [pre] from a position
    that has [p] before it. *)
Definition unitBefore (p : option N) (pre : jsstring) : option N :=
  fold_left (fun _ c => Some c) pre p.

End Regex.

(** ** The verification command discoverer ([discoverVerificationCommands]) *)

Module Discover.
Import JS Types Regex.

(** What probing a manifest path can give: [existsSync] is false; the file
    exists but reading or parsing it throws (the [catch] swallows it); or the
    content the block goes on to inspect. *)
Inductive Probe (A : Type) :=
| Absent
| Unreadable
| Content (a : A).
Arguments Absent {A}.
Arguments Unreadable {A}.
Arguments Content {A} a.

(** The truthiness of the entries of [pkg.scripts || {}] the block reads. *)
Record Scripts := {
  scr_build : bool;
  scr_typecheck : bool;
  scr_type_check : bool;
  scr_test : bool;
  scr_lint : bool
}.

(** The project directory, as far as discovery looks at it. For
    [package.json], [Unreadable] also stands for invalid JSON and for a
    document on which reading [pkg.scripts] throws. *)
Record Project := {
  packageJson : Probe Scripts;
  cargoToml : bool;
  pyproject : Probe jsstring;
  goMod : bool;
  makefile : Probe jsstring
}.

Record DiscoveryResult := {
  commands : list VerificationCommand;
  sources : list jsstring
}.

(** [id.replace(/-/g, ' ')] *)
Definition dashesToSpaces (s : jsstring) : jsstring :=
  List.map (fun c => if N.eqb c 45 then 32%N else c) s.

Definition createCommand (id command : jsstring) (type : CommandType) (optional : bool)
  : VerificationCommand :=
  {| vc_id := id; vc_name := dashesToSpaces id; vc_command := command;
     vc_type := type; vc_optional := optional; vc_status := Pending;
     vc_output := None; vc_exitCode := None |}.

(** The target pattern of [extractMakeTargets], flags [g] and [m]: at the
    start of a line, a group holding a letter or underscore followed by any
    number of letters, digits, underscores and dashes, then a colon. *)
Definition isTargetStart (c : N) : bool :=
  (N.leb 97 c && N.leb c 122) || (N.leb 65 c && N.leb c 90) || N.eqb c 95.

Definition isTargetUnit (c : N) : bool :=
  isTargetStart c || isDigit c || N.eqb c 45.

Definition targetRegex : regex :=
  Seq Bol (Seq (Group (Seq (Chr isTargetStart) (Star true (Chr isTargetUnit))))
               (Chr (N.eqb 58))).

Definition extractMakeTargets (content : jsstring) : option (list jsstring) :=
  option_map (List.map (fun m => nth 0 m [])) (execAll targetRegex content).

(** [arr.push(x)] and a conditional push. *)
Definition push {A} (x : A) (l : list A) : list A := l ++ [x].
Definition pushIf {A} (b : bool) (x : A) (l : list A) : list A :=
  if b then push x l else l.

Definition pushSource (name : jsstring) (r : DiscoveryResult) : DiscoveryResult :=
  {| commands := commands r; sources := push name (sources r) |}.

Definition pushSourceIfAny (name : jsstring) (r : DiscoveryResult) : DiscoveryResult :=
  if Nat.ltb 0 (length (commands r)) then pushSource name r else r.

Definition withCommands (cs : list VerificationCommand) (r : DiscoveryResult)
  : DiscoveryResult :=
  {| commands := cs; sources := sources r |}.

Definition noCommandsYet (r : DiscoveryResult) : bool :=
  Nat.eqb (length (commands r)) 0.

(** The five blocks of the function, each acting on the two accumulators. *)
Definition packageJsonBlock (p : Project) (r : DiscoveryResult) : DiscoveryResult :=
  match packageJson p with
  | Content scripts =>
      let cs := commands r in
      let cs := pushIf (scr_build scripts)
                  (createCommand (js "build") (js "npm run build") Build false) cs in
      let cs := if scr_typecheck scripts
                then push (createCommand (js "typecheck") (js "npm run typecheck") Typecheck true) cs
                else pushIf (scr_type_check scripts)
                       (createCommand (js "typecheck") (js "npm run type-check") Typecheck true) cs in
      let cs := pushIf (scr_test scripts)
                  (createCommand (js "test") (js "npm run test") Test false) cs in
      let cs := pushIf (scr_lint scripts)
                  (createCommand (js "lint") (js "npm run lint") Lint true) cs in
      pushSourceIfAny (js "package.json") (withCommands cs r)
  | _ => r
  end.

Definition cargoBlock (p : Project) (r : DiscoveryResult) : DiscoveryResult :=
  if cargoToml p && noCommandsYet r then
    let cs := commands r in
    let cs := push (createCommand (js "cargo-build") (js "cargo build") Build false) cs in
    let cs := push (createCommand (js "cargo-test") (js "cargo test") Test false) cs in
    let cs := push (createCommand (js "cargo-clippy") (js "cargo clippy -- -D warnings") Lint true) cs in
    pushSource (js "Cargo.toml") (withCommands cs r)
  else r.

Definition pyprojectBlock (p : Project) (r : DiscoveryResult) : DiscoveryResult :=
  match pyproject p with
  | Content content =>
      if noCommandsYet r then
        let cs := commands r in
        let cs := pushIf (includes content (js "[tool.pytest]") || includes content (js "pytest"))
                    (createCommand (js "pytest") (js "pytest") Test false) cs in
        let cs := pushIf (includes content (js "[tool.mypy]") || includes content (js "mypy"))
                    (createCommand (js "mypy") (js "mypy .") Typecheck true) cs in
        let cs := pushIf (includes content (js "[tool.ruff]") || includes content (js "ruff"))
                    (createCommand (js "ruff") (js "ruff check .") Lint true) cs in
        pushSourceIfAny (js "pyproject.toml") (withCommands cs r)
      else r
  | _ => r
  end.

Definition goModBlock (p : Project) (r : DiscoveryResult) : DiscoveryResult :=
  if goMod p && noCommandsYet r then
    let cs := commands r in
    let cs := push (createCommand (js "go-build") (js "go build ./...") Build false) cs in
    let cs := push (createCommand (js "go-test") (js "go test ./...") Test false) cs in
    let cs := push (createCommand (js "go-vet") (js "go vet ./...") Lint true) cs in
    pushSource (js "go.mod") (withCommands cs r)
  else r.

(** The Makefile block; [None] only if the target scan does not terminate. *)
Definition makefileBlock (p : Project) (r : DiscoveryResult) : option DiscoveryResult :=
  match makefile p with
  | Content content =>
      if noCommandsYet r then
        match extractMakeTargets content with
        | Some targets =>
            let cs := commands r in
            let cs := pushIf (arrayIncludes targets (js "build"))
                        (createCommand (js "make-build") (js "make build") Build false) cs in
            let cs := pushIf (arrayIncludes targets (js "test"))
                        (createCommand (js "make-test") (js "make test") Test false) cs in
            let cs := pushIf (arrayIncludes targets (js "lint"))
                        (createCommand (js "make-lint") (js "make lint") Lint true) cs in
            let cs := pushIf (arrayIncludes targets (js "typecheck") ||
                              arrayIncludes targets (js "type-check"))
                        (createCommand (js "make-typecheck")
                           (js "make " ++ (if arrayIncludes targets (js "typecheck")
                                           then js "typecheck" else js "type-check"))
                           Typecheck true) cs in
            Some (pushSourceIfAny (js "Makefile") (withCommands cs r))
        | None => None
        end
      else Some r
  | _ => Some r
  end.

Definition emptyResult : DiscoveryResult := {| commands := []; sources := [] |}.

Definition discoverVerificationCommands (p : Project) : option DiscoveryResult :=
  makefileBlock p (goModBlock p (pyprojectBlock p (cargoBlock p
    (packageJsonBlock p emptyResult)))).

(** The manifests in the order they are probed, each with what its block
    yields when it is the first to run. *)
Definition ecosystemYields (p : Project) : list (option DiscoveryResult) :=
  [ Some (packageJsonBlock p emptyResult);
    Some (cargoBlock p emptyResult);
    Some (pyprojectBlock p emptyResult);
    Some (goModBlock p emptyResult);
    makefileBlock p emptyResult ].

Fixpoint firstYield (ys : list (option DiscoveryResult)) : option DiscoveryResult :=
  match ys with
  | [] => Some emptyResult
  | None :: _ => None
  | Some y :: ys' => if noCommandsYet y then firstYield ys' else Some y
  end.

(** The type priority the specification names: build, typecheck, test, lint. *)
Definition typeRank (t : CommandType) : nat :=
  match t with Build => 0 | Typecheck => 1 | Test => 2 | Lint => 3 end.

Fixpoint ascending (l : list nat) : bool :=
  match l with
  | a :: ((b :: _) as l') => Nat.ltb a b && ascending l'
  | _ => true
  end.

Definition inTypePriority (cs : list VerificationCommand) : bool :=
  ascending (List.map (fun c => typeRank (vc_type c)) cs).

(** A command is required exactly when it is a build or a test. *)
Definition optionalByType (c : VerificationCommand) : bool :=
  match vc_type c with
  | Build | Test => negb (vc_optional c)
  | Typecheck | Lint => vc_optional c
  end.

Definition typeEqb (a b : CommandType) : bool :=
  match a, b with
  | Build, Build | Test, Test | Lint, Lint | Typecheck, Typecheck => true
  | _, _ => false
  end.

(** [l] is [order] with some elements left out. *)
Fixpoint subsequence (l order : list CommandType) : bool :=
  match l, order with
  | [], _ => true
  | _ :: _, [] => false
  | x :: l', y :: order' =>
      if typeEqb x y then subsequence l' order' else subsequence l order'
  end.

(** The order in which each block pushes its commands. *)
Definition ecosystemOrders : list (jsstring * list CommandType) :=
  [ (js "package.json", [Build; Typecheck; Test; Lint]);
    (js "Cargo.toml", [Build; Test; Lint]);
    (js "pyproject.toml", [Test; Typecheck; Lint]);
    (js "go.mod", [Build; Test; Lint]);
    (js "Makefile", [Build; Test; Lint; Typecheck]) ].

(** What one block yields: nothing at all, or commands of its manifest
    alone, in the block's order, each required exactly when it is a build or
    a test. *)
Definition yieldOf (name : jsstring) (order : list CommandType)
  (y : DiscoveryResult) : Prop :=
  Forall (fun c => optionalByType c = true) (commands y) /\
  ((commands y = [] /\ sources y = []) \/
   (commands y <> [] /\ sources y = [name] /\
    subsequence (List.map vc_type (commands y)) order = true)).

(** A Python project whose [pyproject.toml] configures pytest and mypy, and a
    project with only a Makefile that has all four targets. *)
Definition pythonProject : Project :=
  {| packageJson := Absent; cargoToml := false;
     pyproject := Content (js "[tool.pytest]" ++ [nl] ++ js "[tool.mypy]" ++ [nl]);
     goMod := false; makefile := Absent |}.

Definition makeProject : Project :=
  {| packageJson := Absent; cargoToml := false; pyproject := Absent; goMod := false;
     makefile := Content (js "typecheck:" ++ [nl] ++ js "lint:" ++ [nl] ++
                          js "test: build" ++ [nl] ++ js "build:" ++ [nl]) |}.

(** Observations on a result: the ids are pairwise distinct; a command is as
    [createCommand] makes it (pending, without output or exit code, named by
    its id with the dashes turned into spaces). *)
Fixpoint distinct (ids : list jsstring) : bool :=
  match ids with
  | [] => true
  | x :: rest => negb (arrayIncludes rest x) && distinct rest
  end.

Definition freshlyCreated (c : VerificationCommand) : bool :=
  match vc_status c, vc_output c, vc_exitCode c with
  | Pending, None, None => eqb (vc_name c) (dashesToSpaces (vc_id c))
  | _, _, _ => false
  end.

Definition wellFormed (r : DiscoveryResult) : bool :=
  distinct (List.map vc_id (commands r)) && forallb freshlyCreated (commands r) &&
  Nat.leb (length (commands r)) 4 && Nat.leb (length (sources r)) 1.

(** A target name of a Makefile, as the target pattern captures it. *)
Definition validTarget (t : jsstring) : bool :=
  match t with
  | [] => false
  | c :: cs => isTargetStart c && forallb isTargetUnit cs
  end.

(** [t], followed by a colon, stands at the start of a line of [content]. *)
Definition targetLineOf (content t : jsstring) : Prop :=
  exists a b,
    content = a ++ t ++ 58%N :: b /\
    (a = [] \/ exists a' c, a = a' ++ [c] /\ isLineTerminator c = true).

End Discover.

(** ** The verification executor ([runVerificationCommand]) *)

Module Runner.
Import JS Types.

(** What the spawned process emits, in order: data on either stream, the
    [close] event with the exit code ([None] for null, a process ended by a
    signal such as the timeout's), or the [error] event of a failed spawn. The
    terminal events carry the clock reading [Date.now()] gives at that time. *)
Inductive ProcEvent :=
| Stdout (data : jsstring)
| Stderr (data : jsstring)
| Close (code : option Z) (now : Z)
| SpawnError (message : jsstring) (now : Z).

(** The cap on the captured output, in code units. *)
Definition maxOutputLength : nat := N.to_nat 10000.

Definition truncationMarker : jsstring := js "...[truncated]..." ++ [nl].

Definition truncateOutput (output : jsstring) (maxLength : nat) : jsstring :=
  if Nat.leb (length output) maxLength then output
  else truncationMarker ++ sliceLast maxLength output.

(** [code === 0] and [code ?? 1] *)
Definition isZero (code : option Z) : bool :=
  match code with Some 0%Z => true | _ => false end.

Definition codeOr (code : option Z) (d : Z) : Z := default d code.

(** The handlers, once [spawn] has returned the process: they run event by
    event on the captured [output]; the first [close] or [error] resolves
    the promise, later events change nothing. [None]: the trace holds no
    terminal event and the promise stays pending. *)
Fixpoint settle (command : VerificationCommand) (startTime : Z)
  (output : jsstring) (evs : list ProcEvent) : option VerificationResult :=
  match evs with
  | [] => None
  | Stdout data :: evs' => settle command startTime (output ++ data) evs'
  | Stderr data :: evs' => settle command startTime (output ++ data) evs'
  | Close code now :: _ =>
      Some {| vr_command := command;
              vr_success := isZero code;
              vr_output := truncateOutput output maxOutputLength;
              vr_exitCode := codeOr code 1;
              vr_duration := now - startTime |}
  | SpawnError message now :: _ =>
      Some {| vr_command := command;
              vr_success := false;
              vr_output := js "Failed to run command: " ++ message ++ [nl] ++ output;
              vr_exitCode := 1;
              vr_duration := now - startTime |}
  end.

(** What [spawn(command.command, { cwd, shell: true, timeout })] does: it
    throws at once, before any process exists (Node checks the arguments
    first: the command line must not be empty, the timeout must be an
    integer that is not negative), or it returns the process, which then
    emits its events. *)
Inductive Spawned :=
| SpawnThrows (message : jsstring)
| Spawns (evs : list ProcEvent).

(** The environment: [spawn], given the command line, the working directory
    and the timeout option. *)
Definition Spawn := jsstring -> jsstring -> Z -> Spawned.

(** How the promise settles: [Unsettled] is the promise that stays pending. *)
Inductive Settled :=
| Resolved (r : VerificationResult)
| Rejected (message : jsstring)
| Unsettled.

(** [runVerificationCommand(command, directory, timeout)], with the clock
    reading taken at its start. [spawn] is called inside the executor of the
    promise, which has no handler for what it throws: a throw of [spawn]
    rejects the promise. The timeout is taken as an integer number of
    seconds. *)
Definition runVerificationCommand (spawn : Spawn) (command : VerificationCommand)
  (directory : jsstring) (timeout : Z) (startTime : Z) : Settled :=
  match spawn (vc_command command) directory (timeout * 1000)%Z with
  | SpawnThrows message => Rejected message
  | Spawns evs =>
      match settle command startTime [] evs with
      | Some r => Resolved r
      | None => Unsettled
      end
  end.

(** Observations of a trace: its first terminal event, and the output
    captured before it. *)
Fixpoint firstTerminal (evs : list ProcEvent) : option ProcEvent :=
  match evs with
  | [] => None
  | Stdout _ :: evs' | Stderr _ :: evs' => firstTerminal evs'
  | e :: _ => Some e
  end.

Fixpoint captured (evs : list ProcEvent) : jsstring :=
  match evs with
  | Stdout data :: evs' | Stderr data :: evs' => data ++ captured evs'
  | _ => []
  end.

(** A command and a run that writes 6000 code units to each stream before
    it exits with code 0. *)
Definition exampleCommand : VerificationCommand :=
  {| vc_id := js "build"; vc_name := js "build"; vc_command := js "npm run build";
     vc_type := Build; vc_optional := false; vc_status := Pending;
     vc_output := None; vc_exitCode := None |}.

Definition longRun : list ProcEvent :=
  [Stdout (List.repeat 111%N (N.to_nat 6000));
   Stderr (List.repeat 101%N (N.to_nat 6000));
   Close (Some 0%Z) 350].

(** An environment in which every command produces the run above. *)
Definition alwaysLongRun : Spawn := fun _ _ _ => Spawns longRun.

(** An environment that refuses a negative timeout, as Node's [spawn] does
    with ERR_OUT_OF_RANGE, and otherwise starts a process that prints
    nothing and exits with code 0. *)
Definition refusesNegativeTimeout : Spawn :=
  fun _ _ timeout =>
    if Z.ltb timeout 0 then SpawnThrows (js "ERR_OUT_OF_RANGE")
    else Spawns [Close (Some 0%Z) 101].

(** An environment whose process is killed by a signal after one line. *)
Definition killedRun : Spawn :=
  fun _ _ _ => Spawns [Stdout (js "killed"); Close None 400].

End Runner.

(** ** The markdown parsers of the run manager *)

Module RunManager.
Import JS Types Regex.

(** The block pattern of both parsers, flag [g]: the heading
    "### <digits>. [<word>] <title>" up to a line feed, then lazily any text up
    to a position followed by "### <digits>.", by "## ", or by the end
    ([blockEnd], the alternatives of the lookahead). *)
Definition blockEnd : regex :=
  Alt (Seq (Lit (js "### ")) (Seq (Plus true digit) (Chr (N.eqb 46))))
    (Alt (Lit (js "## ")) Eol).

Definition blockRegex : regex :=
  Seq (Lit (js "### ")) (Seq (Plus true digit) (Seq (Lit (js ". ["))
    (Seq (Group (Plus true word)) (Seq (Lit (js "] "))
      (Seq (Group (Plus true dot)) (Seq (Chr (N.eqb nl))
        (Seq (Group (Star false anyUnit)) (Lookahead blockEnd)))))))).

Definition issueRegex : regex := blockRegex.
Definition suggestionRegex : regex := blockRegex.

(** The pattern [extractField] builds, flag [i]: the label "**<field>:**",
    white space, then a group with the rest of the line. The four fields the
    source asks for are plain words, so the label is a literal. *)
Definition label (field : jsstring) : jsstring := js "**" ++ field ++ js ":**".

Definition fieldRegex (field : jsstring) : regex :=
  Seq (LitI (label field)) (Seq (Star true space) (Group (Plus true dot))).

Definition extractField (text field : jsstring) : option jsstring :=
  match matchFirst (fieldRegex field) text with
  | Some m => Some (trim (nth 0 m []))
  | None => None
  end.

(** The decimal digits of a number, as a template literal prints it. *)
Fixpoint unitsOfUint (u : Decimal.uint) : jsstring :=
  match u with
  | Decimal.Nil => []
  | Decimal.D0 u' => 48%N :: unitsOfUint u'
  | Decimal.D1 u' => 49%N :: unitsOfUint u'
  | Decimal.D2 u' => 50%N :: unitsOfUint u'
  | Decimal.D3 u' => 51%N :: unitsOfUint u'
  | Decimal.D4 u' => 52%N :: unitsOfUint u'
  | Decimal.D5 u' => 53%N :: unitsOfUint u'
  | Decimal.D6 u' => 54%N :: unitsOfUint u'
  | Decimal.D7 u' => 55%N :: unitsOfUint u'
  | Decimal.D8 u' => 56%N :: unitsOfUint u'
  | Decimal.D9 u' => 57%N :: unitsOfUint u'
  end.

Definition numberToString (n : N) : jsstring := unitsOfUint (N.to_uint n).

(** The record built from one match ([match[1]], [match[2]], [match[3]]) and
    the running index. *)
Definition findingOfMatch (index : nat) (m : list jsstring) : SlopItem :=
  let severity := toLowerCase (nth 0 m []) in
  let title := trim (nth 1 m []) in
  let body := nth 2 m [] in
  let file := stringOr (extractField body (js "File")) (js "unknown") in
  let line := numberOrUndefined
                (parseInt10 (stringOr (extractField body (js "Line")) (js "0"))) in
  let category := stringOr (extractField body (js "Category")) (js "style-inconsistency") in
  let description := stringOr (extractField body (js "Description")) [] in
  {| si_id := js "slop-" ++ numberToString (N.of_nat index);
     si_title := title;
     si_description := description;
     si_file := file;
     si_line := line;
     si_severity := severity;
     si_category := category;
     si_selected := false |}.

(** [parseFindingsMarkdown(content)]; [None] only if the loop does not end. *)
Definition parseFindingsMarkdown (content : jsstring) : option (list SlopItem) :=
  option_map (imap findingOfMatch) (execAll issueRegex content).

Definition suggestionOfMatch (index : nat) (m : list jsstring) : ReviewSuggestion :=
  let severity := toLowerCase (nth 0 m []) in
  let title := trim (nth 1 m []) in
  let body := nth 2 m [] in
  let file := stringOr (extractField body (js "File")) (js "unknown") in
  let line := numberOrUndefined
                (parseInt10 (stringOr (extractField body (js "Line")) (js "0"))) in
  let description := stringOr (extractField body (js "Description")) [] in
  {| rs_id := js "review-" ++ numberToString (N.of_nat index);
     rs_title := title;
     rs_description := description;
     rs_file := file;
     rs_line := line;
     rs_severity := severity |}.

(** The sentinel test at the head of [parseReviewMarkdown]. *)
Definition hasNoSuggestionsMarker (content : jsstring) : bool :=
  includes content (js "No suggestions") ||
  includes content (js "NO_SUGGESTIONS") ||
  includes content (js "looks good").

Definition parseReviewMarkdown (content : jsstring) : option (list ReviewSuggestion) :=
  if hasNoSuggestionsMarker content then Some []
  else option_map (imap suggestionOfMatch) (execAll suggestionRegex content).

(** *** The write grammar of the scan prompt

    The format [generateSlopDetectionPrompt] instructs the agent to write:
    a title, the "Issues Found" heading, then one block per issue, the blocks
    separated by a blank line. The severity is one of the three the prompt
    allows; the line bullet is left out when the issue has no line. *)
Inductive Severity := HIGH | MEDIUM | LOW.

Definition severityWritten (s : Severity) : jsstring :=
  match s with HIGH => js "HIGH" | MEDIUM => js "MEDIUM" | LOW => js "LOW" end.

Definition severityRead (s : Severity) : jsstring :=
  match s with HIGH => js "high" | MEDIUM => js "medium" | LOW => js "low" end.

Record Issue := {
  i_severity : Severity;
  i_title : jsstring;
  i_file : jsstring;
  i_line : option N;
  i_category : jsstring;
  i_description : jsstring
}.

(** One bullet, "- **<field>:** <value>" and a line feed, and the bullets of
    an issue. *)
Definition bullet (field value : jsstring) : jsstring :=
  js "- " ++ label field ++ [32%N] ++ value ++ [nl].

Definition renderBulletList (bs : list (jsstring * jsstring)) : jsstring :=
  concat (List.map (fun fv => bullet (fst fv) (snd fv)) bs).

Definition bulletsOf (x : Issue) : list (jsstring * jsstring) :=
  [(js "File", i_file x)] ++
  match i_line x with
  | Some n => [(js "Line", numberToString n)]
  | None => []
  end ++
  [(js "Category", i_category x); (js "Description", i_description x)].

Definition renderBullets (x : Issue) : jsstring := renderBulletList (bulletsOf x).

Definition renderIssue (ordinal : N) (x : Issue) : jsstring :=
  js "### " ++ numberToString ordinal ++ js ". [" ++ severityWritten (i_severity x) ++
  js "] " ++ i_title x ++ [nl] ++ renderBullets x.

Fixpoint renderIssues (ordinal : N) (xs : list Issue) : jsstring :=
  match xs with
  | [] => []
  | [x] => renderIssue ordinal x
  | x :: xs' => renderIssue ordinal x ++ [nl] ++ renderIssues (N.succ ordinal) xs'
  end.

Definition findingsHeader : jsstring :=
  js "# Deslop Scan Results" ++ [nl; nl] ++ js "## Issues Found" ++ [nl; nl].

Definition renderFindings (xs : list Issue) : jsstring :=
  findingsHeader ++ renderIssues 1 xs.

(** The record a written issue should come back as. *)
Definition expectedItem (index : nat) (x : Issue) : SlopItem :=
  {| si_id := js "slop-" ++ numberToString (N.of_nat index);
     si_title := i_title x;
     si_description := i_description x;
     si_file := i_file x;
     si_line := option_map Z.of_N (i_line x);
     si_severity := severityRead (i_severity x);
     si_category := i_category x;
     si_selected := false |}.

(** Conditions on written values. [plain]: not empty, on one line, no white
    space at either end. [startsWithI] and [includesI] compare as the [i]
    flag does. *)
Definition plain (v : jsstring) : bool :=
  match v with
  | [] => false
  | c :: _ =>
      negb (isWhiteSpace c) && negb (isWhiteSpace (List.last v c)) &&
      forallb (fun u => negb (isLineTerminator u)) v
  end.

Definition startsWithI (w s : jsstring) : bool := startsWithBy eqbI w s.

Definition includesI (s w : jsstring) : bool := includesBy eqbI s w.

(** The text has a bullet label for [field], in any letter case. *)
Definition hasLabel (text field : jsstring) : bool := includesI text (label field).

Definition fieldNames : list jsstring :=
  [js "File"; js "Line"; js "Category"; js "Description"].

(** A bullet value the parser reads back unchanged: plain, free of "## "
    (which would end the block early) and of bullet labels (which would be
    read as fields). *)
Definition cleanValue (v : jsstring) : bool :=
  plain v && negb (includes v (js "## ")) &&
  forallb (fun f => negb (hasLabel v f)) fieldNames.

(** A written line number is positive and, so that a JavaScript number holds
    it exactly, at most 2^53. *)
Definition positiveLine (line : option N) : bool :=
  match line with
  | Some n => N.ltb 0 n && N.leb n 9007199254740992
  | None => true
  end.

Definition cleanIssue (x : Issue) : bool :=
  plain (i_title x) && cleanValue (i_file x) && cleanValue (i_category x) &&
  cleanValue (i_description x) && positiveLine (i_line x).

(** The value of the first bullet for [field]. *)
Fixpoint lookupField (field : jsstring) (bs : list (jsstring * jsstring))
  : option jsstring :=
  match bs with
  | [] => None
  | (f, v) :: bs' => if eqb f field then Some v else lookupField field bs'
  end.

(** The captures of the matches of a rendered list of issues: the severity
    as written, the title, and the bullets, with the blank line that follows
    them unless the issue is the last. *)
Fixpoint blocksOf (xs : list Issue) : list (list jsstring) :=
  match xs with
  | [] => []
  | [x] => [[severityWritten (i_severity x); i_title x; renderBullets x]]
  | x :: xs' =>
      [severityWritten (i_severity x); i_title x; renderBullets x ++ [nl]]
      :: blocksOf xs'
  end.

(** The well-formedness of a list of bullets: known fields, clean values. *)
Definition okBullets (bs : list (jsstring * jsstring)) : Prop :=
  Forall (fun fv => In (fst fv) fieldNames /\ cleanValue (snd fv) = true) bs.

(** The text of a bullet before its value. *)
Definition bulletHead (field : jsstring) : jsstring :=
  js "- " ++ label field ++ [32%N].

(** The separator after the bullets of a block: nothing at the end of the
    document, a blank line before the next block. *)
Definition separates (sep next : jsstring) : Prop :=
  (sep = [] /\ next = []) \/
  (sep = [nl] /\ exists ds r, ds <> [] /\ forallb isDigit ds = true /\
                              next = js "### " ++ ds ++ 46%N :: r).

(** Three issues as an agent would write them; the description of [issue2]
    quotes a markdown heading. *)
Definition issue1 : Issue :=
  {| i_severity := HIGH; i_title := js "Obvious comment"; i_file := js "src/a.ts";
     i_line := Some 42%N; i_category := js "extra-comments";
     i_description := js "Comment restates the code" |}.

Definition issue2 : Issue :=
  {| i_severity := MEDIUM; i_title := js "Boilerplate section";
     i_file := js "README.md"; i_line := Some 3%N;
     i_category := js "generated-docs";
     i_description := js "The ## Overview section is generic filler" |}.

Definition issue2' : Issue :=
  {| i_severity := MEDIUM; i_title := js "Boilerplate section";
     i_file := js "README.md"; i_line := Some 3%N;
     i_category := js "generated-docs";
     i_description := js "The Overview section is generic filler" |}.

Definition issue3 : Issue :=
  {| i_severity := LOW; i_title := js "Any cast"; i_file := js "src/b.ts";
     i_line := Some 7%N; i_category := js "any-cast";
     i_description := js "Cast hides a type error" |}.

Definition issue4 : Issue :=
  {| i_severity := LOW; i_title := js "Unused helper"; i_file := js "src/c.ts";
     i_line := None; i_category := js "reinventing-wheel";
     i_description := js "The codebase already has this helper" |}.

(** A review with one suggestion block whose description says that the rest
    "looks good". *)
Definition reviewWithSentinel : jsstring :=
  js "# Deslop Review Results" ++ [nl; nl] ++ js "## Suggestions" ++ [nl; nl] ++
  js "### 1. [HIGH] Incomplete fix" ++ [nl] ++
  js "- **File:** src/a.ts" ++ [nl] ++
  js "- **Line:** 4" ++ [nl] ++
  js "- **Description:** The null check is gone but the rest looks good" ++ [nl].

(** A unit of a lower-cased word: a lower-case letter, a digit or an
    underscore. *)
Definition isLowerWordChar (c : N) : bool :=
  (N.leb 97 c && N.leb c 122) || isDigit c || N.eqb c 95.

(** A value as the parsers hand it on: empty, or plain. *)
Definition emptyOrPlain (v : jsstring) : bool :=
  match v with [] => true | _ => plain v end.

(** The documents the two prompts ask for when nothing is found. *)
Definition noIssuesDocument : jsstring :=
  js "# Deslop Scan Results" ++ [nl; nl] ++ js "## No Issues Found" ++ [nl].

Definition noSuggestionsDocument : jsstring :=
  js "# Deslop Review Results" ++ [nl; nl] ++ js "## No Suggestions" ++ [nl; nl] ++
  js "The code changes look good. No further improvements needed." ++ [nl].

(** The body has a bullet for [field]: "- **<field>:**" at the start of one
    of its lines. *)
Definition hasBullet (body field : jsstring) : bool :=
  startsWith (js "- " ++ label field) body ||
  includes body (nl :: js "- " ++ label field).

(** A findings document with one block that has a Category and a
    Description bullet only; the description quotes two other labels. *)
Definition quotedLabels : jsstring :=
  js "### 1. [LOW] Stale note" ++ [nl] ++
  js "- **Category:** docs" ++ [nl] ++
  js "- **Description:** Says **File:** legacy.ts / **Line:** 7" ++ [nl].

End RunManager.


(** ** The key handlers of the results list and of the review screen *)

Module Views.
Import JS Types Selection RunManager.

(** The key events a list reacts to, in the order its handler tests them. *)
Inductive ListInput :=
| IUp | IDown | ISpace | IReturn | IKeyA | IKeyN | IKeyS | IKeyX | IOther.

(** The component state: the cursor and the first visible row. *)
Record View := {
  cursor : Z;
  scrollOffset : Z
}.

(** The props a handler calls. *)
Inductive Callback :=
| OnToggle (id : jsstring)
| OnProceed
| OnSelectAll
| OnDeselectAll
| OnMarkNotSlop (id : jsstring)
| OnApply
| OnSkip.

(** [items[i]] for a number [i]: undefined below 0 and from the length on. *)
Definition itemAt {A} (items : list A) (i : Z) : option A :=
  if Z.ltb i 0 then None else items !! Z.to_nat i.

Definition lengthZ {A} (items : list A) : Z := Z.of_nat (length items).

Definition moveUp (v : View) : View :=
  let newCursor := Z.max 0 (cursor v - 1) in
  {| cursor := newCursor;
     scrollOffset := if Z.ltb newCursor (scrollOffset v) then newCursor
                     else scrollOffset v |}.

Definition moveDown (visibleItems len : Z) (v : View) : View :=
  let newCursor := Z.min (len - 1) (cursor v + 1) in
  {| cursor := newCursor;
     scrollOffset := if Z.leb (scrollOffset v + visibleItems) newCursor
                     then newCursor - visibleItems + 1
                     else scrollOffset v |}.

(** [useInput] of [SlopList]: the state after the key and the props called. *)
Definition slopListVisible : Z := 10.

Definition selectedCount (items : list SlopItem) : nat :=
  length (List.filter si_selected items).

Definition slopListKey (items : list SlopItem) (v : View) (k : ListInput)
  : View * list Callback :=
  match k with
  | IUp => (moveUp v, [])
  | IDown => (moveDown slopListVisible (lengthZ items) v, [])
  | ISpace =>
      match itemAt items (cursor v) with
      | Some item => if negb (isHintOnly item) then (v, [OnToggle (si_id item)]) else (v, [])
      | None => (v, [])
      end
  | IReturn => if Nat.ltb 0 (selectedCount items) then (v, [OnProceed]) else (v, [])
  | IKeyA => (v, [OnSelectAll])
  | IKeyN => (v, [OnDeselectAll])
  | IKeyX =>
      match itemAt items (cursor v) with
      | Some item =>
          (if Z.leb (lengthZ items - 1) (cursor v) && Z.ltb 0 (cursor v)
           then {| cursor := cursor v - 1; scrollOffset := scrollOffset v |}
           else v,
           [OnMarkNotSlop (si_id item)])
      | None => (v, [])
      end
  | IKeyS | IOther => (v, [])
  end.

(** [handleMarkNotSlop(id)], as far as the findings are concerned. *)
Definition handleMarkNotSlop (id : jsstring) (slopItems : list SlopItem)
  : list SlopItem :=
  match List.find (fun i => eqb (si_id i) id) slopItems with
  | Some _ => List.filter (fun i => negb (eqb (si_id i) id)) slopItems
  | None => slopItems
  end.

(** The findings after the props a key of the results list has called. *)
Definition applyToFindings (cb : Callback) (slopItems : list SlopItem)
  : list SlopItem :=
  match cb with
  | OnToggle id => handleToggle id slopItems
  | OnSelectAll => handleSelectAll slopItems
  | OnDeselectAll => handleDeselectAll slopItems
  | OnMarkNotSlop id => handleMarkNotSlop id slopItems
  | OnProceed | OnApply | OnSkip => slopItems
  end.

Definition slopListStep (state : list SlopItem * View) (k : ListInput)
  : list SlopItem * View :=
  let '(items, v) := state in
  let '(v', cbs) := slopListKey items v k in
  (fold_left (fun its cb => applyToFindings cb its) cbs items, v').

(** The rows the list shows: [items.slice(scrollOffset, scrollOffset + 10)]
    for a scroll offset that is not negative. *)
Definition displayItems {A} (visibleItems : Z) (items : list A) (v : View) : list A :=
  take (Z.to_nat visibleItems) (drop (Z.to_nat (scrollOffset v)) items).

(** The cursor is on an item, and that item is among the rows shown. *)
Definition onScreen (visibleItems len : Z) (v : View) : Prop :=
  (0 <= cursor v < len)%Z /\
  (0 <= scrollOffset v <= cursor v)%Z /\
  (cursor v < scrollOffset v + visibleItems)%Z.

(** [useInput] of [ReviewResults]. *)
Definition reviewVisible : Z := 8.

Definition reviewResultsKey (suggestions : list ReviewSuggestion) (isLoading : bool)
  (v : View) (k : ListInput) : View * list Callback :=
  if isLoading then (v, [])
  else
    let some := Nat.ltb 0 (length suggestions) in
    match k with
    | IUp => if some then (moveUp v, []) else (v, [])
    | IDown =>
        if some then (moveDown reviewVisible (lengthZ suggestions) v, []) else (v, [])
    | IKeyA => if some then (v, [OnApply]) else (v, [])
    | IKeyS | IReturn =>
        if Nat.eqb (length suggestions) 0 then (v, [OnSkip]) else (v, [])
    | _ => (v, [])
    end.

(** [handleApplySuggestions()]: the findings made from the review
    suggestions. *)
Definition slopItemOfSuggestion (index : nat) (suggestion : ReviewSuggestion) : SlopItem :=
  {| si_id := js "review-slop-" ++ numberToString (N.of_nat index);
     si_title := rs_title suggestion;
     si_description := rs_description suggestion;
     si_file := rs_file suggestion;
     si_line := rs_line suggestion;
     si_severity := rs_severity suggestion;
     si_category := js "style-inconsistency";
     si_selected := true |}.

Definition handleApplySuggestions (reviewSuggestions : list ReviewSuggestion)
  : list SlopItem :=
  imap slopItemOfSuggestion reviewSuggestions.

(** Twelve findings with distinct ids, for the examples. *)
Definition finding (n : N) : SlopItem :=
  {| si_id := js "slop-" ++ numberToString n; si_title := js "Obvious comment";
     si_description := js "Comment restates the code"; si_file := js "src/a.ts";
     si_line := None; si_severity := js "low"; si_category := js "extra-comments";
     si_selected := false |}.

Definition twelveFindings : list SlopItem :=
  List.map finding [0; 1; 2; 3; 4; 5; 6; 7; 8; 9; 10; 11]%N.

End Views.

(** ** The executing phase: tasks grouped by file *)

Module Tasks.
Import JS Types Selection.

(** [task.file || 'unknown'] *)
Definition fileKey (task : Task) : jsstring := stringOr (t_file task) (js "unknown").

(** A [Map<string, Task[]>], in insertion order. One step of the loop of
    [groupTasksByFile]: a file that is not yet a key is set to the empty
    array, then the task is pushed onto the array of its file. *)
Definition Groups := list (jsstring * list Task).

Fixpoint pushTo (file : jsstring) (task : Task) (groups : Groups) : Groups :=
  match groups with
  | [] => [(file, [task])]
  | (f, ts) :: rest =>
      if eqb f file then (f, ts ++ [task]) :: rest
      else (f, ts) :: pushTo file task rest
  end.

(** [groupTasksByFile(taskList)] *)
Definition groupTasksByFile (taskList : list Task) : Groups :=
  fold_left (fun groups task => pushTo (fileKey task) task groups) taskList [].

(** [groups.get(file)], the empty list standing for undefined. *)
Fixpoint tasksOf (file : jsstring) (groups : Groups) : list Task :=
  match groups with
  | [] => []
  | (f, ts) :: rest => if eqb f file then ts else tasksOf file rest
  end.

(** The tasks of a list that belong to a file, in order. *)
Definition onFile (file : jsstring) (taskList : list Task) : list Task :=
  List.filter (fun t => eqb (fileKey t) file) taskList.

(** [selectedItems.find(s => s.id === task.slopItemId)] of [executeTask]. *)
Definition findingOfTask (task : Task) (selectedItems : list SlopItem) : option SlopItem :=
  List.find (fun s => eqb (si_id s) (t_slopItemId task)) selectedItems.

(** The status updates of [executeTask]:
    [prev.map(t => t.id === task.id ? { ...t, status } : t)]. *)
Definition withTaskStatus (s : TaskStatus) (t : Task) : Task :=
  {| t_id := t_id t; t_title := t_title t; t_description := t_description t;
     t_status := s; t_file := t_file t; t_slopItemId := t_slopItemId t |}.

Definition setTaskStatus (id : jsstring) (s : TaskStatus) (tasks : list Task)
  : list Task :=
  List.map (fun t => if eqb (t_id t) id then withTaskStatus s t else t) tasks.

(** Three tasks on two files, the first and the last on the same one. *)
Definition taskOn (id file : string) : Task :=
  {| t_id := js id; t_title := js "Fix: Obvious comment";
     t_description := js "Comment restates the code"; t_status := TPending;
     t_file := Some (js file); t_slopItemId := js id |}.

Definition threeTasks : list Task :=
  [taskOn "task-slop-0" "src/a.ts"; taskOn "task-slop-1" "src/b.ts";
   taskOn "task-slop-2" "src/a.ts"].

(** The task generated for [plainFinding]. *)
Definition plainTask : Task :=
  {| t_id := js "task-slop-1"; t_title := js "Fix: Obvious comment";
     t_description := js "Comment restates the code"; t_status := TPending;
     t_file := Some (js "src/a.ts"); t_slopItemId := js "slop-1" |}.

End Tasks.

(** ** The configuration loader ([config.ts]) *)

Module Config.
Import JS Discover.

Record Models := {
  planning : jsstring;
  executing : jsstring;
  verification : jsstring
}.

Record VerificationSettings := {
  cfg_maxRetries : Z;
  cfg_timeout : Z
}.

Record DeslopsConfig := {
  cfg_models : Models;
  cfg_verification : VerificationSettings
}.

Definition DEFAULT_CONFIG : DeslopsConfig :=
  {| cfg_models := {| planning := js "claude-4.5-opus-high";
                      executing := js "claude-4.5-opus-high";
                      verification := js "claude-4.5-opus-high" |};
     cfg_verification := {| cfg_maxRetries := 3; cfg_timeout := 300 |} |}.

(** What the TOML parser hands over, a [Partial<DeslopsConfig>]: a table or
    a key that the file does not have is undefined. *)
Record ParsedModels := {
  p_planning : option jsstring;
  p_executing : option jsstring;
  p_verification : option jsstring
}.

Record ParsedVerification := {
  p_maxRetries : option Z;
  p_timeout : option Z
}.

Record Parsed := {
  parsed_models : option ParsedModels;
  parsed_verification : option ParsedVerification
}.

(** [parsed.models?.key] and [parsed.verification?.key] *)
Definition modelKey (key : ParsedModels -> option jsstring) (parsed : Parsed)
  : option jsstring :=
  match parsed_models parsed with Some m => key m | None => None end.

Definition verificationKey (key : ParsedVerification -> option Z) (parsed : Parsed)
  : option Z :=
  match parsed_verification parsed with Some v => key v | None => None end.

(** The record [parseConfigFile] builds from a parsed file: [||] for the
    model names, [??] for the numbers. *)
Definition withDefaults (parsed : Parsed) : DeslopsConfig :=
  {| cfg_models :=
       {| planning := stringOr (modelKey p_planning parsed)
                        (planning (cfg_models DEFAULT_CONFIG));
          executing := stringOr (modelKey p_executing parsed)
                         (executing (cfg_models DEFAULT_CONFIG));
          verification := stringOr (modelKey p_verification parsed)
                            (verification (cfg_models DEFAULT_CONFIG)) |};
     cfg_verification :=
       {| cfg_maxRetries := default (cfg_maxRetries (cfg_verification DEFAULT_CONFIG))
                              (verificationKey p_maxRetries parsed);
          cfg_timeout := default (cfg_timeout (cfg_verification DEFAULT_CONFIG))
                           (verificationKey p_timeout parsed) |} |}.

(** [parseConfigFile(configPath)]: null when reading or parsing throws. *)
Definition parseConfigFile (file : Probe Parsed) : option DeslopsConfig :=
  match file with
  | Content parsed => Some (withDefaults parsed)
  | Absent | Unreadable => None
  end.

Definition existsSync {A} (file : Probe A) : bool :=
  match file with Absent => false | _ => true end.

(** [loadGlobalConfig()] and [loadConfig(directory)], given the global file
    and the project's [deslop.toml]. *)
Definition loadGlobalConfig (globalFile : Probe Parsed) : DeslopsConfig :=
  if existsSync globalFile then
    match parseConfigFile globalFile with
    | Some config => config
    | None => DEFAULT_CONFIG
    end
  else DEFAULT_CONFIG.

Definition loadConfig (projectFile globalFile : Probe Parsed) : DeslopsConfig :=
  let fallBack :=
    if existsSync globalFile then
      match parseConfigFile globalFile with
      | Some config => config
      | None => DEFAULT_CONFIG
      end
    else DEFAULT_CONFIG in
  if existsSync projectFile then
    match parseConfigFile projectFile with
    | Some config => config
    | None => fallBack
    end
  else fallBack.

(** A project file that names only the planning model, and a global file
    that sets the retry limit and an empty executing model. *)
Definition projectOnlyPlanning : Parsed :=
  {| parsed_models := Some {| p_planning := Some (js "claude-4.5-haiku");
                              p_executing := None; p_verification := None |};
     parsed_verification := None |}.

Definition globalFiveRetries : Parsed :=
  {| parsed_models := Some {| p_planning := None; p_executing := Some [];
                              p_verification := None |};
     parsed_verification := Some {| p_maxRetries := Some 5%Z; p_timeout := Some 0%Z |} |}.

End Config.

(** ** Run ids ([createRun]) *)

Module Runs.
Import JS.

(** [s.replace(/[:.]/g, '-')] *)
Definition replaceColonsAndDots (s : jsstring) : jsstring :=
  List.map (fun c => if N.eqb c 58 || N.eqb c 46 then 45%N else c) s.

(** [s.replace('T', '-')]: the first occurrence only. *)
Fixpoint replaceFirst (x y : N) (s : jsstring) : jsstring :=
  match s with
  | [] => []
  | c :: s' => if N.eqb c x then y :: s' else c :: replaceFirst x y s'
  end.

(** The run id [createRun] derives from [now.toISOString()]. *)
Definition runIdOf (iso : jsstring) : jsstring :=
  take 19 (replaceFirst 84 45 (replaceColonsAndDots iso)).

(** An ISO timestamp as [toISOString] prints it for a year of four digits:
    YYYY-MM-DDTHH:mm:ss.sssZ. *)
Record Timestamp := {
  year : jsstring; month : jsstring; day : jsstring;
  hours : jsstring; minutes : jsstring; seconds : jsstring;
  milliseconds : jsstring
}.

Definition toISOString (t : Timestamp) : jsstring :=
  year t ++ js "-" ++ month t ++ js "-" ++ day t ++ js "T" ++
  hours t ++ js ":" ++ minutes t ++ js ":" ++ seconds t ++ js "." ++
  milliseconds t ++ js "Z".

Definition digitsOfLength (n : nat) (s : jsstring) : bool :=
  Nat.eqb (length s) n && forallb isDigit s.

Definition wellFormedTimestamp (t : Timestamp) : bool :=
  digitsOfLength 4 (year t) && digitsOfLength 2 (month t) && digitsOfLength 2 (day t) &&
  digitsOfLength 2 (hours t) && digitsOfLength 2 (minutes t) &&
  digitsOfLength 2 (seconds t) && digitsOfLength 3 (milliseconds t).

Definition sameSecond (t u : Timestamp) : Prop :=
  year t = year u /\ month t = month u /\ day t = day u /\
  hours t = hours u /\ minutes t = minutes u /\ seconds t = seconds u.

Definition isDigitOrDash (c : N) : bool := isDigit c || N.eqb c 45.

Definition exampleTimestamp : Timestamp :=
  {| year := js "2025"; month := js "01"; day := js "31"; hours := js "23";
     minutes := js "59"; seconds := js "07"; milliseconds := js "123" |}.

End Runs.

(** ** The executing phase: [executeTask] and [executeTasks] *)

Module Execution.
Import JS Types Selection Tasks.

(** The updates of the task list that [executeTask] queues:
    [setTasks(prev => prev.map(t => t.id === task.id ? {...t, status} : t))]. *)
Inductive Step := Mark (id : jsstring) (status : TaskStatus).

Definition statusEqb (a b : TaskStatus) : bool :=
  match a, b with
  | TPending, TPending | TInProgress, TInProgress
  | TCompleted, TCompleted | TFailed, TFailed => true
  | _, _ => false
  end.

Definition stepEqb (a b : Step) : bool :=
  match a, b with
  | Mark i s, Mark j t => eqb i j && statusEqb s t
  end.

Definition applyStep (tasks : list Task) (step : Step) : list Task :=
  match step with
  | Mark id status => setTaskStatus id status tasks
  end.

(** The task list after the updates of a schedule, applied in order. *)
Definition runSchedule (tasks : list Task) (schedule : list Step) : list Task :=
  fold_left applyStep schedule tasks.

Section Agent.

(** Whether the agent (its [submit] or its stream) throws for a task. *)
Variable agentThrows : Task -> bool.

Definition outcome (task : Task) : TaskStatus :=
  if agentThrows task then TFailed else TCompleted.

(** [executeTask(task, agent, selectedItems)]: nothing when no finding has
    the task's [slopItemId]; else the task is marked in progress, the agent
    runs, and the task is marked completed, or failed when the agent threw. *)
Definition executeTask (task : Task) (selectedItems : list SlopItem) : list Step :=
  match findingOfTask task selectedItems with
  | None => []
  | Some _ => [Mark (t_id task) TInProgress; Mark (t_id task) (outcome task)]
  end.

(** The loop over one file group: its tasks one after the other. *)
Definition groupSteps (selectedItems : list SlopItem) (fileTasks : list Task)
  : list Step :=
  List.flat_map (fun task => executeTask task selectedItems) fileTasks.

(** [executeTasks(taskList, selectedItems)]: one sequence of updates per
    file group. The groups run concurrently under [Promise.all]: the updates
    are applied in some interleaving of the sequences (every schedule the
    event loop can produce is one of them). *)
Definition executeTasks (taskList : list Task) (selectedItems : list SlopItem)
  : list (list Step) :=
  List.map (fun group => groupSteps selectedItems (snd group))
           (groupTasksByFile taskList).

End Agent.

(** The interleavings of a family of sequences: each step of the schedule is
    the next step of one of the sequences, and all are used up at the end. *)
Inductive Interleaving : list (list Step) -> list Step -> Prop :=
| Interleaving_nil (ls : list (list Step)) :
    Forall (fun l => l = []) ls -> Interleaving ls []
| Interleaving_cons (pre : list (list Step)) (x : Step) (l : list Step)
    (post : list (list Step)) (rest : list Step) :
    Interleaving (pre ++ l :: post) rest ->
    Interleaving (pre ++ (x :: l) :: post) (x :: rest).

(** The families left after taking [x] as the next step of one sequence. *)
Fixpoint takeHeads (x : Step) (pre ls : list (list Step)) : list (list (list Step)) :=
  match ls with
  | [] => []
  | l :: post =>
      match l with
      | y :: l' => if stepEqb x y then [pre ++ l' :: post] else []
      | [] => []
      end ++ takeHeads x (pre ++ [l]) post
  end.

Definition isNil (l : list Step) : bool :=
  match l with [] => true | _ :: _ => false end.

Fixpoint isInterleaving (ls : list (list Step)) (schedule : list Step) : bool :=
  match schedule with
  | [] => forallb isNil ls
  | x :: rest => existsb (fun ls' => isInterleaving ls' rest) (takeHeads x [] ls)
  end.

(** The updates of a schedule that concern the task with a given id. *)
Definition marksFor (id : jsstring) (schedule : list Step) : list Step :=
  List.filter (fun step => match step with Mark j _ => eqb id j end) schedule.

Definition applyMarks (marks : list Step) (task : Task) : Task :=
  fold_left (fun t step => match step with Mark _ status => withTaskStatus status t end)
            marks task.

(** Three selected findings on two files, the first and the last on the
    same file; the agent fails on the second task. *)
Definition findingOn (id file : string) : SlopItem :=
  {| si_id := js id; si_title := js "Obvious comment";
     si_description := js "Comment restates the code";
     si_file := js file; si_line := None;
     si_severity := js "low"; si_category := js "extra-comments";
     si_selected := true |}.

Definition threeFindings : list SlopItem :=
  [findingOn "slop-0" "src/a.ts"; findingOn "slop-1" "src/b.ts";
   findingOn "slop-2" "src/a.ts"].

Definition failsOnSecond (task : Task) : bool := eqb (t_id task) (js "task-slop-1").

(** A schedule in which the two file groups alternate. *)
Definition alternating : list Step :=
  [Mark (js "task-slop-0") TInProgress; Mark (js "task-slop-1") TInProgress;
   Mark (js "task-slop-0") TCompleted; Mark (js "task-slop-2") TInProgress;
   Mark (js "task-slop-1") TFailed; Mark (js "task-slop-2") TCompleted].

(** The third task, as it is while the agent works on it. *)
Definition thirdInProgress : Task :=
  {| t_id := js "task-slop-2"; t_title := js "Fix: Obvious comment";
     t_description := js "Comment restates the code"; t_status := TInProgress;
     t_file := Some (js "src/a.ts"); t_slopItemId := js "slop-2" |}.

End Execution.

(** ** Lines of a text, code snippets and the preview *)

Module Lines.
Import JS.

(** [s.split('\n')] *)
Fixpoint splitLines (s : jsstring) : list jsstring :=
  match s with
  | [] => [[]]
  | c :: s' =>
      if N.eqb c nl then [] :: splitLines s'
      else match splitLines s' with
           | l :: ls => (c :: l) :: ls
           | [] => [[c]]
           end
  end.

(** [lines.join('\n')] *)
Fixpoint joinLines (lines : list jsstring) : jsstring :=
  match lines with
  | [] => []
  | [l] => l
  | l :: rest => l ++ nl :: joinLines rest
  end.

(** [array.slice(start, end)] for indices that are not negative. *)
Definition slice {A : Type} (start finish : nat) (l : list A) : list A :=
  take (finish - start) (drop start l).

Definition noLineFeed (l : jsstring) : bool :=
  forallb (fun c => negb (N.eqb c nl)) l.

End Lines.

Module Snippet.
Import JS Discover Lines.

(** [getCodeSnippet(baseDir, filePath, line, contextLines)], on what the
    file system holds at the path. *)
Definition getCodeSnippet (file : Probe jsstring) (line : option Z)
  (contextLines : nat) : jsstring :=
  match file with
  | Absent => js "(File not found)"
  | Unreadable => js "(Error reading file)"
  | Content content =>
      let lines := splitLines content in
      let firstLines := joinLines (slice 0 (contextLines * 2 + 1) lines) in
      match line with
      | None => firstLines
      | Some n =>
          if Z.eqb n 0 || Z.ltb n 1 then firstLines
          else
            let startLine := Z.max 0 (n - 1 - Z.of_nat contextLines) in
            let endLine := Z.min (Z.of_nat (length lines)) (n + Z.of_nat contextLines) in
            joinLines (slice (Z.to_nat startLine) (Z.to_nat endLine) lines)
      end
  end.

(** The rows of [CodePreview]: the number shown, the text, and whether the
    row is highlighted as the flagged line. *)
Record Row := {
  lineNum : Z;
  lineContent : jsstring;
  isTargetLine : bool
}.

Definition codePreviewRows (file : Probe jsstring) (line : option Z) : list Row :=
  let snippet := getCodeSnippet file line 5 in
  let lines := splitLines snippet in
  let startLine :=
    match line with
    | Some n => if Z.eqb n 0 then 1%Z else Z.max 1 (n - 5)
    | None => 1%Z
    end in
  imap (fun i content =>
          {| lineNum := startLine + Z.of_nat i;
             lineContent := content;
             isTargetLine :=
               match line with
               | Some n => negb (Z.eqb n 0) && Z.eqb (startLine + Z.of_nat i) n
               | None => false
               end |})
       lines.

(** A file of twenty numbered lines, the last without a line feed. *)
Definition twentyLines : jsstring :=
  joinLines (List.map (fun n => js "line " ++ RunManager.numberToString n)
                      [1; 2; 3; 4; 5; 6; 7; 8; 9; 10;
                       11; 12; 13; 14; 15; 16; 17; 18; 19; 20]%N).

End Snippet.

(** ** The final screen: commit message, pull request ([Complete]) *)

Module Complete.
Import JS Types Regex RunManager.

(** [title.split(':')[0]]: the part before the first colon, the whole string
    when there is none. *)
Fixpoint beforeColon (s : jsstring) : jsstring :=
  match s with
  | [] => []
  | c :: s' => if N.eqb c 58 then [] else c :: beforeColon s'
  end.

(** [[...new Set(values)]]: the values in the order of their first
    occurrence. *)
Definition setOf (values : list jsstring) : list jsstring :=
  fold_left (fun seen v => if existsb (eqb v) seen then seen else seen ++ [v])
            values [].

(** [lines.join('\n')] *)
Fixpoint joinLines (lines : list jsstring) : jsstring :=
  match lines with
  | [] => []
  | [l] => l
  | l :: rest => l ++ nl :: joinLines rest
  end.

Definition hasStatus (s : TaskStatus) (t : Task) : bool :=
  match s, t_status t with
  | TPending, TPending | TInProgress, TInProgress
  | TCompleted, TCompleted | TFailed, TFailed => true
  | _, _ => false
  end.

Definition bullet (t : Task) : jsstring := js "- " ++ t_title t.

Definition lengthString {A : Type} (l : list A) : jsstring :=
  numberToString (N.of_nat (length l)).

Section Lowering.

(** [String.prototype.toLowerCase], on any string. *)
Variable lower : jsstring -> jsstring.

(** [generateCommitMessage(tasks)] *)
Definition generateCommitMessage (tasks : list Task) : jsstring :=
  let completed := List.filter (hasStatus TCompleted) tasks in
  let categories := setOf (List.map (fun t => beforeColon (t_title t)) completed) in
  match categories with
  | [category] => js "chore: deslop - " ++ lower category
  | _ =>
      js "chore: deslop codebase" ++ [nl; nl] ++
      js "Fixed " ++ lengthString completed ++ js " issues:" ++ [nl] ++
      joinLines (List.map bullet (take 10 completed)) ++
      (if Nat.ltb 10 (length completed)
       then nl :: js "... and " ++ numberToString (N.of_nat (length completed - 10))
            ++ js " more"
       else [])
  end.

End Lowering.

(** [generatePRBody(tasks)] *)
Definition generatePRBody (tasks : list Task) : jsstring :=
  let completed := List.filter (hasStatus TCompleted) tasks in
  let failed := List.filter (hasStatus TFailed) tasks in
  js "## Summary" ++ [nl; nl] ++
  js "Automated cleanup of codebase issues using [deslop](https://github.com/anthropics/deslop)."
  ++ [nl; nl] ++
  js "### Fixed (" ++ lengthString completed ++ js ")" ++ [nl; nl] ++
  joinLines (List.map bullet completed) ++
  (if Nat.ltb 0 (length failed)
   then [nl; nl] ++ js "### Failed (" ++ lengthString failed ++ js ")" ++ [nl; nl] ++
        joinLines (List.map bullet failed)
   else []) ++
  [nl; nl] ++ js "---" ++ [nl] ++ js "*Generated by deslop*".

(** What [runCommand] settles with. Its promise resolves with the success
    flag and the output of the process; it rejects only when [spawn] itself
    throws, with the message of what was thrown. *)
Record CommandResult := { success : bool; output : jsstring }.

Inductive Settled := Resolved (r : CommandResult) | Rejected (message : jsstring).

(** The commands [createPR] runs. *)
Inductive Command :=
| BranchShowCurrent
| CheckoutNewBranch (branchName : jsstring)
| AddAll
| Commit (message : jsstring)
| Push
| PrCreate (body : jsstring).

Definition World := Command -> Settled.

Inductive PRStatus := Prompt | Checking | Creating | Done | Error | NoChanges | NotGit.

(** The body of the [try] of [createPR]: the commands run so far are threaded
    through, and a throw ends it with the message. *)
Definition Try (A : Type) : Type := list Command -> list Command * (jsstring + A).

Definition ret {A : Type} (a : A) : Try A := fun trace => (trace, inr a).

Definition throw {A : Type} (message : jsstring) : Try A :=
  fun trace => (trace, inl message).

Definition bind {A B : Type} (m : Try A) (f : A -> Try B) : Try B :=
  fun trace =>
    match m trace with
    | (trace', inl message) => (trace', inl message)
    | (trace', inr a) => f a trace'
    end.

Local Notation "'let*' x ':=' m 'in' f" := (bind m (fun x => f))
  (at level 10, x name, m at level 100, f at level 200).

(** [await runCommand(...)] *)
Definition await (w : World) (c : Command) : Try CommandResult :=
  fun trace =>
    match w c with
    | Resolved r => (trace ++ [c], inr r)
    | Rejected message => (trace ++ [c], inl message)
    end.

(** [if (!result.success) throw new Error(`${what}: ${result.output}`)] *)
Definition check (what : jsstring) (r : CommandResult) : Try unit :=
  if negb (success r) then throw (what ++ js ": " ++ output r) else ret tt.

(** [/https:\/\/github\.com\/[^\s]+/], grouped as a whole so that the first
    capture is [urlMatch[0]]. *)
Definition urlRegex : regex :=
  Group (Seq (Lit (js "https://github.com/"))
             (Plus true (Chr (fun c => negb (isWhiteSpace c))))).

Definition urlMatch (text : jsstring) : option jsstring :=
  match matchFirst urlRegex text with
  | Some (url :: _) => Some url
  | _ => None
  end.

Definition onMainBranch (currentBranch : jsstring) : bool :=
  eqb currentBranch (js "main") || eqb currentBranch (js "master").

Record PRState := {
  prStatus : PRStatus;
  prUrl : jsstring;
  errorMessage : jsstring
}.

Section CreatePR.

Variable lower : jsstring -> jsstring.
(** [Date.now()], printed. *)
Variable now : jsstring.
Variable tasks : list Task.
Variable w : World.

Definition createPRBody : Try (option jsstring) :=
  let* branchResult := await w BranchShowCurrent in
  let currentBranch := trim (output branchResult) in
  let* _ := (if onMainBranch currentBranch
             then let* checkoutResult :=
                    await w (CheckoutNewBranch (js "deslop/" ++ now)) in
                  check (js "Failed to create branch") checkoutResult
             else ret tt) in
  let* addResult := await w AddAll in
  let* _ := check (js "Failed to stage changes") addResult in
  let* commitResult := await w (Commit (generateCommitMessage lower tasks)) in
  let* _ := check (js "Failed to commit") commitResult in
  let* pushResult := await w Push in
  let* _ := check (js "Failed to push") pushResult in
  let* prResult := await w (PrCreate (generatePRBody tasks)) in
  let* _ := check (js "Failed to create PR") prResult in
  ret (urlMatch (output prResult)).

(** [createPR()]: the commands run, and the state of the screen at its end
    (the url and the message start empty). *)
Definition createPR : list Command * PRState :=
  match createPRBody [] with
  | (trace, inr url) =>
      (trace, {| prStatus := Done; prUrl := default [] url; errorMessage := [] |})
  | (trace, inl message) =>
      (trace, {| prStatus := Error; prUrl := []; errorMessage := message |})
  end.

End CreatePR.

(** Notions for stating what [createPR] does. A command lets [createPR] go
    on when it resolves and, the branch query apart, succeeds. *)
Definition letsThrough (w : World) (c : Command) : bool :=
  match w c with
  | Rejected _ => false
  | Resolved r => match c with BranchShowCurrent => true | _ => success r end
  end.

Definition reportsMain (w : World) : bool :=
  match w BranchShowCurrent with
  | Resolved r => onMainBranch (trim (output r))
  | Rejected _ => false
  end.

(** The commands of a pull request, in order. *)
Definition plan (lower : jsstring -> jsstring) (now : jsstring) (tasks : list Task)
  (w : World) : list Command :=
  BranchShowCurrent ::
  (if reportsMain w then [CheckoutNewBranch (js "deslop/" ++ now)] else []) ++
  [AddAll; Commit (generateCommitMessage lower tasks); Push;
   PrCreate (generatePRBody tasks)].

Fixpoint upToFirstFailure (w : World) (cs : list Command) : list Command :=
  match cs with
  | [] => []
  | c :: cs' => if letsThrough w c then c :: upToFirstFailure w cs' else [c]
  end.

(** A task as the executing phase leaves it. *)
Definition doneTask (id title : string) (status : TaskStatus) : Task :=
  {| t_id := js id; t_title := js title; t_description := [];
     t_status := status; t_file := Some (js "src/a.ts"); t_slopItemId := js id |}.

Definition twoFixed : list Task :=
  [doneTask "task-slop-0" "Fix: Obvious comment" TCompleted;
   doneTask "task-slop-1" "Fix: Unused import" TCompleted;
   doneTask "task-slop-2" "Fix: Defensive check" TFailed].

(** A repository on [main] where every command succeeds and [gh] prints the
    url of the pull request; and one where the commit fails. *)
Definition allSucceed : World :=
  fun c =>
    match c with
    | BranchShowCurrent => Resolved {| success := true; output := js "main" ++ [nl] |}
    | PrCreate _ =>
        Resolved {| success := true;
                    output := js "https://github.com/acme/app/pull/7" ++ [nl] |}
    | _ => Resolved {| success := true; output := [] |}
    end.

Definition commitFails : World :=
  fun c =>
    match c with
    | BranchShowCurrent => Resolved {| success := true; output := js "main" ++ [nl] |}
    | Commit _ => Resolved {| success := false; output := js "nothing to commit" |}
    | _ => Resolved {| success := true; output := [] |}
    end.

(** A directory that is not a git repository: every command fails. *)
Definition notARepository : World :=
  fun _ => Resolved {| success := false; output := js "fatal: not a git repository" |}.

End Complete.

(** ** The model configuration screen ([ConfigEditor]) *)

Module Editor.
Import JS Config.

Inductive EditStep := Menu | Planning | Executing | Verification | Custom.

Inductive Field := FPlanning | FExecuting | FVerification.

Inductive MenuOption := MField (field : Field) | MSave.

Inductive ModelOption := MName (name : jsstring) | MCustom.

Definition MODEL_OPTIONS : list ModelOption :=
  [MName (js "claude-4.5-opus-high"); MName (js "claude-4.5-sonnet-high");
   MName (js "claude-4.5-haiku"); MCustom].

Definition MENU_OPTIONS : list MenuOption :=
  [MField FPlanning; MField FExecuting; MField FVerification; MSave].

Definition stepOf (field : Field) : EditStep :=
  match field with
  | FPlanning => Planning
  | FExecuting => Executing
  | FVerification => Verification
  end.

Record State := {
  step : EditStep;
  cursor : Z;
  config : DeslopsConfig;
  customInput : jsstring;
  editingField : Field
}.

(** [{ ...prev, models: { ...prev.models, [editingField]: name } }] *)
Definition setModel (field : Field) (name : jsstring) (prev : DeslopsConfig)
  : DeslopsConfig :=
  let m := cfg_models prev in
  {| cfg_models :=
       match field with
       | FPlanning =>
           {| planning := name; executing := executing m; verification := verification m |}
       | FExecuting =>
           {| planning := planning m; executing := name; verification := verification m |}
       | FVerification =>
           {| planning := planning m; executing := executing m; verification := name |}
       end;
     cfg_verification := cfg_verification prev |}.

Definition initialState (currentConfig : DeslopsConfig) : State :=
  {| step := Menu; cursor := 0; config := currentConfig; customInput := [];
     editingField := FPlanning |}.

Inductive EditorKey := KEscape | KUp | KDown | KTab | KReturn | KOther.

(** What reaches the screen: a key for its [useInput] handler, and, from
    the text input of the custom step, a changed value or a submit. *)
Inductive Event := Key (key : EditorKey) | Change (value : jsstring) | Submit.

Inductive Effect := CallExit | CallOnSave (saved : DeslopsConfig).

Definition withCursor (c : Z) (s : State) : State :=
  {| step := step s; cursor := c; config := config s;
     customInput := customInput s; editingField := editingField s |}.

Definition itemAtCursor {A : Type} (options : list A) (c : Z) : option A :=
  if Z.ltb c 0 then None else options !! Z.to_nat c.

(** The [useInput] handler. [None] is the TypeError of reading [selected.id]
    when no option is at the cursor. *)
Definition useInput (s : State) (key : EditorKey) : option (State * list Effect) :=
  match step s with
  | Custom => Some (s, [])
  | _ =>
      match key with
      | KEscape =>
          match step s with
          | Menu => Some (s, [CallExit])
          | _ =>
              Some ({| step := Menu; cursor := 0; config := config s;
                       customInput := customInput s; editingField := editingField s |}, [])
          end
      | KUp => Some (withCursor (Z.max 0 (cursor s - 1)) s, [])
      | KDown => Some (withCursor (Z.min (4 - 1) (cursor s + 1)) s, [])
      | KTab => Some (withCursor (Z.rem (cursor s + 1) 4) s, [])
      | KReturn =>
          match step s with
          | Menu =>
              match itemAtCursor MENU_OPTIONS (cursor s) with
              | None => None
              | Some MSave => Some (s, [CallOnSave (config s)])
              | Some (MField field) =>
                  Some ({| step := stepOf field; cursor := 0; config := config s;
                           customInput := customInput s; editingField := field |}, [])
              end
          | _ =>
              match itemAtCursor MODEL_OPTIONS (cursor s) with
              | None => None
              | Some MCustom =>
                  Some ({| step := Custom; cursor := cursor s; config := config s;
                           customInput := []; editingField := editingField s |}, [])
              | Some (MName name) =>
                  Some ({| step := Menu; cursor := 0;
                           config := setModel (editingField s) name (config s);
                           customInput := customInput s;
                           editingField := editingField s |}, [])
              end
          end
      | KOther => Some (s, [])
      end
  end.

(** [handleCustomSubmit] *)
Definition handleCustomSubmit (s : State) : State :=
  match trim (customInput s) with
  | [] => s
  | name =>
      {| step := Menu; cursor := 0;
         config := setModel (editingField s) name (config s);
         customInput := []; editingField := editingField s |}
  end.

(** One event. The text input exists only in the custom step: its events
    reach nothing in the other steps. *)
Definition handle (s : State) (event : Event) : option (State * list Effect) :=
  match event with
  | Key key => useInput s key
  | Change value =>
      match step s with
      | Custom =>
          Some ({| step := step s; cursor := cursor s; config := config s;
                   customInput := value; editingField := editingField s |}, [])
      | _ => Some (s, [])
      end
  | Submit =>
      match step s with
      | Custom => Some (handleCustomSubmit s, [])
      | _ => Some (s, [])
      end
  end.

Fixpoint run (s : State) (events : list Event) : option (State * list Effect) :=
  match events with
  | [] => Some (s, [])
  | event :: rest =>
      match handle s event with
      | None => None
      | Some (s', effects) =>
          match run s' rest with
          | None => None
          | Some (s'', effects') => Some (s'', effects ++ effects')
          end
      end
  end.

(** A configuration the screen may hold, given the one it started from:
    the verification settings are the original ones, and a model name is the
    original one or is not empty. *)
Definition derivedFrom (original c : DeslopsConfig) : Prop :=
  cfg_verification c = cfg_verification original /\
  (planning (cfg_models c) = planning (cfg_models original) \/
   planning (cfg_models c) <> []) /\
  (executing (cfg_models c) = executing (cfg_models original) \/
   executing (cfg_models c) <> []) /\
  (verification (cfg_models c) = verification (cfg_models original) \/
   verification (cfg_models c) <> []).

(** The cursor is on one of the four options. *)
Definition inRange (s : State) : Prop := (0 <= cursor s <= 3)%Z.

End Editor.

(** ** Learnings: the not-slop file ([learnings.ts]) *)

Module Learnings.
Import JS Types Regex Discover RunManager Lines.

Record NotSlopEntry := {
  ns_file : jsstring;
  ns_line : option Z;
  ns_category : jsstring;
  ns_title : jsstring;
  ns_codeSnippet : jsstring;
  ns_timestamp : jsstring
}.

(** [/## Entry \d+/] *)
Definition entryHeading : regex := Seq (Lit (js "## Entry ")) (Plus true digit).

(** [/## Entry \d+\n([\s\S]*?)(?=## Entry \d+|$)/g] *)
Definition entryRegex : regex :=
  Seq entryHeading (Seq (Chr (N.eqb nl))
    (Seq (Group (Star false anyUnit)) (Lookahead (Alt entryHeading Eol)))).

(** [/```[\s\S]*?\n([\s\S]*?)```/] *)
Definition codeRegex : regex :=
  Seq (Lit (js "```")) (Seq (Star false anyUnit) (Seq (Chr (N.eqb nl))
    (Seq (Group (Star false anyUnit)) (Lit (js "```"))))).

(** The entry built from the body of one match. [extractField] is the same
    function as in the run manager. *)
Definition entryOfMatch (m : list jsstring) : NotSlopEntry :=
  let body := nth 0 m [] in
  {| ns_file := stringOr (extractField body (js "File")) (js "unknown");
     ns_line := numberOrUndefined
                  (parseInt10 (stringOr (extractField body (js "Line")) (js "0")));
     ns_category := stringOr (extractField body (js "Category")) (js "unknown");
     ns_title := stringOr (extractField body (js "Original title")) (js "unknown");
     ns_codeSnippet :=
       match matchFirst codeRegex body with
       | Some codeMatch => trim (nth 0 codeMatch [])
       | None => []
       end;
     ns_timestamp := stringOr (extractField body (js "Marked as not slop on")) [] |}.

(** [parseNotSlopMarkdown(content)]; [None] only if the loop does not end. *)
Definition parseNotSlopMarkdown (content : jsstring) : option (list NotSlopEntry) :=
  option_map (List.map entryOfMatch) (execAll entryRegex content).

(** [loadNotSlopEntries(baseDir)], on what the file system holds at the path
    of the not-slop file; [None] when reading throws or the loop does not
    end. *)
Definition loadNotSlopEntries (file : Probe jsstring) : option (list NotSlopEntry) :=
  match file with
  | Absent => Some []
  | Unreadable => None
  | Content content => parseNotSlopMarkdown content
  end.

(** A number as a template literal prints it. *)
Definition printZ (n : Z) : jsstring :=
  if Z.ltb n 0 then js "-" ++ numberToString (Z.to_N (- n)) else numberToString (Z.to_N n).

Definition notSlopHeader : jsstring :=
  js "# Deslop Learnings - Not Slop" ++ [nl; nl] ++
  js "These patterns were flagged but the user marked them as NOT slop." ++ [nl] ++
  js "This context is included in future scans to avoid similar false positives."
  ++ [nl; nl].

(** The text [addNotSlopEntry] appends. *)
Definition renderEntry (entryNumber : nat) (item : SlopItem)
  (codeSnippet timestamp : jsstring) : jsstring :=
  js "## Entry " ++ numberToString (N.of_nat entryNumber) ++ [nl] ++
  js "- **File:** " ++ si_file item ++ [nl] ++
  (match si_line item with
   | Some n => if Z.eqb n 0 then [] else js "- **Line:** " ++ printZ n
   | None => []
   end) ++ [nl] ++
  js "- **Category:** " ++ si_category item ++ [nl] ++
  js "- **Original title:** " ++ si_title item ++ [nl] ++
  js "- **Code snippet:**" ++ [nl] ++
  js "```" ++ [nl] ++
  codeSnippet ++ [nl] ++
  js "```" ++ [nl] ++
  js "- **Marked as not slop on:** " ++ timestamp ++ [nl; nl].

(** [addNotSlopEntry(baseDir, item, codeSnippet)]: the new content of the
    file, given the old one and the date; [None] when reading throws or the
    count does not end. *)
Definition addNotSlopEntry (file : Probe jsstring) (item : SlopItem)
  (codeSnippet timestamp : jsstring) : option jsstring :=
  match file with
  | Unreadable => None
  | _ =>
      let content := match file with Content c => c | _ => notSlopHeader end in
      match execAll entryHeading content with
      | None => None
      | Some found =>
          Some (content ++ renderEntry (length found + 1) item codeSnippet timestamp)
      end
  end.

(** [getLearningsPromptContext(baseDir)], from the entries loaded. *)
Definition describeEntry (i : nat) (entry : NotSlopEntry) : jsstring :=
  numberToString (N.of_nat (i + 1)) ++ js ". In " ++ ns_file entry ++
  (match ns_line entry with
   | Some n => if Z.eqb n 0 then [] else js ":" ++ printZ n
   | None => []
   end) ++
  js " (" ++ ns_category entry ++ js "):" ++ [nl] ++
  js "   " ++ [34%N] ++ ns_title entry ++ [34%N] ++ js " was marked as acceptable." ++ [nl] ++
  js "   Code: " ++ take 100 (ns_codeSnippet entry) ++
  (if Nat.ltb 100 (length (ns_codeSnippet entry)) then js "..." else []) ++ [nl; nl].

Definition promptContextOf (entries : list NotSlopEntry) : jsstring :=
  match entries with
  | [] => []
  | _ =>
      [nl] ++
      js "IMPORTANT: The user has previously marked these patterns as NOT slop. Do NOT flag similar patterns:"
      ++ [nl; nl] ++
      concat (imap describeEntry entries) ++
      js "Avoid flagging similar patterns to the above." ++ [nl]
  end.

Definition getLearningsPromptContext (file : Probe jsstring) : option jsstring :=
  option_map promptContextOf (loadNotSlopEntries file).

(** A finding without a line whose code holds a line label. *)
Definition labelledFinding : SlopItem :=
  {| si_id := js "slop-3"; si_title := js "Odd template";
     si_description := js "Template text"; si_file := js "docs/report.ts";
     si_line := None; si_severity := js "low";
     si_category := js "style-inconsistency"; si_selected := false |}.

Definition labelledCode : jsstring := js "const row = '- **Line:** 7';".

End Learnings.
(* ===================================================================== *)
(** * Part II: properties *)
(* ===================================================================== *)

(** ** Strings *)

Module JSFacts.
Import JS.

Lemma eqb_eq (a b : jsstring) : eqb a b = true <-> a = b.
Proof.
  revert b; induction a as [|c a IH]; intros [|d b]; simpl; try easy.
  rewrite andb_true_iff, N.eqb_eq, IH.
  split; [intros [-> ->]; reflexivity | intros [= -> ->]; auto].
Qed.

Lemma eqb_refl (a : jsstring) : eqb a a = true.
Proof. apply eqb_eq; reflexivity. Qed.

Lemma eqb_neq (a b : jsstring) : eqb a b = false <-> a <> b.
Proof.
  rewrite <- eqb_eq. destruct (eqb a b); split; congruence.
Qed.

Lemma startsWith_app (w s : jsstring) : startsWith w (w ++ s) = true.
Proof.
  unfold startsWith. induction w as [|c w IH]; simpl; [reflexivity|].
  rewrite N.eqb_refl, IH; reflexivity.
Qed.

Lemma startsWith_true (w s : jsstring) :
  startsWith w s = true <-> exists t, s = w ++ t.
Proof.
  split.
  - unfold startsWith. revert s; induction w as [|c w IH]; intros s H; simpl in *.
    + exists s; reflexivity.
    + destruct s as [|d s]; [discriminate|].
      apply andb_true_iff in H as [Hc Hw]. apply N.eqb_eq in Hc; subst d.
      destruct (IH _ Hw) as [t ->]. exists t; reflexivity.
  - intros [t ->]; apply startsWith_app.
Qed.

Lemma sliceLast_pos (n : nat) (s : jsstring) :
  1 <= n -> sliceLast n s = drop (length s - n) s.
Proof. intros H; destruct n; [lia | reflexivity]. Qed.

Lemma sliceLast_length (n : nat) (s : jsstring) :
  1 <= n -> n <= length s -> length (sliceLast n s) = n.
Proof. intros Hn H; rewrite sliceLast_pos by exact Hn; rewrite length_drop; lia. Qed.

Lemma sliceLast_suffix (n : nat) (s : jsstring) :
  exists pre, s = pre ++ sliceLast n s.
Proof.
  destruct n as [|n]; [exists []; reflexivity|].
  exists (take (length s - S n) s); unfold sliceLast; symmetry; apply take_drop.
Qed.

Lemma sliceLast_app (n : nat) (a s : jsstring) :
  1 <= n -> n <= length s -> sliceLast n (a ++ s) = sliceLast n s.
Proof.
  intros Hn H; rewrite !sliceLast_pos by exact Hn.
  rewrite length_app.
  replace (length a + length s - n) with (length a + (length s - n)) by lia.
  apply drop_app_add.
Qed.

End JSFacts.

(** ** The matcher: matches never grow the input, and a pattern that cannot
    match the empty string makes every scan terminate *)

Module RegexFacts.
Import JS Regex.

Lemma starLoop_le (step : mstate -> list mstate) (g : bool) :
  (forall st st', In st' (step st) -> length (rest st') <= length (rest st)) ->
  forall fuel st st',
    In st' (starLoop step g fuel st) -> length (rest st') <= length (rest st).
Proof.
  intros Hstep fuel; induction fuel as [|n IH]; intros st st' Hin; simpl in Hin.
  - destruct Hin as [<-|[]]; lia.
  - assert (Hmore : forall x,
      In x (List.flat_map (starLoop step g n) (List.filter (progress st) (step st))) ->
      length (rest x) <= length (rest st)).
    { intros x Hx. apply in_flat_map in Hx as (st1 & H1 & H2).
      apply List.filter_In in H1 as [H1 _].
      specialize (IH _ _ H2). specialize (Hstep _ _ H1). lia. }
    destruct g.
    + apply in_app_or in Hin as [Hin|[<-|[]]]; [auto | lia].
    + destruct Hin as [<-|Hin]; [lia | auto].
Qed.

Lemma run_le (r : regex) :
  forall st st', In st' (run r st) -> length (rest st') <= length (rest st).
Proof.
  induction r as [|p|r1 IH1 r2 IH2|r1 IH1 r2 IH2|g r IH|r IH|r IH| |];
    intros st st' Hin; simpl in Hin.
  - destruct Hin as [<-|[]]; lia.
  - destruct (rest st) as [|c s] eqn:E; [destruct Hin|].
    destruct (p c); [|destruct Hin].
    destruct Hin as [<-|[]]; simpl; lia.
  - apply in_flat_map in Hin as (st1 & H1 & H2).
    specialize (IH1 _ _ H1); specialize (IH2 _ _ H2); lia.
  - apply in_app_or in Hin as [Hin|Hin]; auto.
  - eapply starLoop_le; eauto.
  - apply in_map_iff in Hin as (st1 & <- & H1). simpl. auto.
  - destruct (run r st); [destruct Hin|]. destruct Hin as [<-|[]]; lia.
  - destruct (prev st) as [c|]; [destruct (isLineTerminator c)|];
      try destruct Hin as [<-|[]]; try destruct Hin; lia.
  - destruct (rest st) eqn:E; [|destruct Hin].
    destruct Hin as [<-|[]]. rewrite E. simpl; lia.
Qed.

Lemma run_lt (r : regex) :
  mayMatchEmpty r = false ->
  forall st st', In st' (run r st) -> length (rest st') < length (rest st).
Proof.
  induction r as [|p|r1 IH1 r2 IH2|r1 IH1 r2 IH2|g r IH|r IH|r IH| |];
    simpl; intros Hne st st' Hin; try discriminate.
  - destruct (rest st) as [|c s] eqn:E; [destruct Hin|].
    destruct (p c); [|destruct Hin].
    destruct Hin as [<-|[]]; simpl; lia.
  - apply in_flat_map in Hin as (st1 & H1 & H2).
    apply andb_false_iff in Hne as [Hne|Hne].
    + specialize (IH1 Hne _ _ H1). pose proof (run_le _ _ _ H2). lia.
    + specialize (IH2 Hne _ _ H2). pose proof (run_le _ _ _ H1). lia.
  - apply orb_false_iff in Hne as [Hn1 Hn2].
    apply in_app_or in Hin as [Hin|Hin]; auto.
  - apply in_map_iff in Hin as (st1 & <- & H1). simpl. auto.
Qed.

Lemma searchFrom_lt (r : regex) :
  mayMatchEmpty r = false ->
  forall s p st', searchFrom r p s = Some st' -> length (rest st') < length s.
Proof.
  intros Hne s; induction s as [|c s IH]; intros p st' H; simpl in H.
  - destruct (run r _) as [|x l] eqn:E; [discriminate|].
    injection H as <-.
    assert (Hin : In x (run r {| prev := p; rest := []; caps := [] |}))
      by (rewrite E; left; reflexivity).
    apply (run_lt r Hne) in Hin. simpl in Hin. lia.
  - destruct (run r _) as [|x l] eqn:E.
    + apply IH in H. simpl. lia.
    + injection H as <-.
      assert (Hin : In x (run r {| prev := p; rest := c :: s; caps := [] |}))
        by (rewrite E; left; reflexivity).
      apply (run_lt r Hne) in Hin. exact Hin.
Qed.

(** With enough fuel the scan loop does not depend on the fuel. *)
Lemma execLoop_fuel (r : regex) :
  mayMatchEmpty r = false ->
  forall n m p s, length s < n -> length s < m ->
    execLoop n r p s = execLoop m r p s.
Proof.
  intros Hne n; induction n as [|n IH]; intros m p s Hn Hm; [lia|].
  destruct m as [|m]; [lia|]. simpl.
  destruct (searchFrom r p s) as [st'|] eqn:E; [|reflexivity].
  pose proof (searchFrom_lt r Hne _ _ _ E) as Hlt.
  destruct (Nat.ltb_spec (length (rest st')) (length s)); [|lia].
  f_equal. apply IH; lia.
Qed.

Lemma execLoop_total (r : regex) :
  mayMatchEmpty r = false ->
  forall n p s, length s < n -> exists ms, execLoop n r p s = Some ms.
Proof.
  intros Hne n; induction n as [|n IH]; intros p s Hn; [lia|]. simpl.
  destruct (searchFrom r p s) as [st'|] eqn:E; [|eexists; reflexivity].
  pose proof (searchFrom_lt r Hne _ _ _ E) as Hlt.
  destruct (Nat.ltb_spec (length (rest st')) (length s)); [|lia].
  destruct (IH (prev st') (rest st')) as [ms Hms]; [lia|].
  rewrite Hms. eexists; reflexivity.
Qed.

Lemma execAll_total (r : regex) (s : jsstring) :
  mayMatchEmpty r = false -> exists ms, execAll r s = Some ms.
Proof. intros Hne. apply execLoop_total; [assumption | lia]. Qed.

End RegexFacts.

(** ** The results phase *)

Module SelectionFacts.
Import JS Types Selection JSFacts.

Lemma isHintOnly_spec (item : SlopItem) :
  isHintOnly item = true <-> si_category item = js "ui-slop".
Proof.
  unfold isHintOnly, HINT_ONLY_CATEGORIES, arrayIncludes; simpl.
  rewrite orb_false_r. apply eqb_eq.
Qed.

Lemma keep_fixable (item : SlopItem) :
  si_selected item && negb (isHintOnly item) = true <-> fixable item.
Proof.
  unfold fixable. rewrite andb_true_iff, negb_true_iff.
  rewrite <- isHintOnly_spec. destruct (isHintOnly item); intuition congruence.
Qed.

Lemma proceedSelected_fixable (items : list SlopItem) :
  FixableOf items (proceedSelected items).
Proof.
  induction items as [|item items IH]; simpl; [constructor|].
  unfold proceedSelected in *; simpl.
  destruct (si_selected item && negb (isHintOnly item)) eqn:E.
  - apply fo_keep; [apply keep_fixable; exact E | exact IH].
  - apply fo_drop; [rewrite <- keep_fixable; congruence | exact IH].
Qed.

Lemma proceedSelected_count (items : list SlopItem) :
  length (proceedSelected items) = countFixable items.
Proof.
  induction items as [|item items IH]; simpl; [reflexivity|].
  unfold proceedSelected in *; simpl.
  unfold isHintOnly, HINT_ONLY_CATEGORIES, arrayIncludes; simpl.
  rewrite orb_false_r.
  destruct (si_selected item && negb (eqb (si_category item) (js "ui-slop")));
    simpl; rewrite <- IH; reflexivity.
Qed.

Lemma tasks_of_selected (kept : list SlopItem) :
  Forall2 (fun item task =>
             t_id task = js "task-" ++ si_id item /\
             t_slopItemId task = si_id item)
          kept (List.flat_map generateTasksForSlopItem kept).
Proof.
  induction kept as [|item kept IH]; simpl; constructor; auto.
Qed.

(** C5. At the proceed transition the generated tasks correspond one to one,
    in order, to the findings that are selected and not hint-only: there are
    as many tasks as such findings, and the task of a finding has the id
    "task-" followed by the finding's id and that finding's id as its
    slopItemId. *)
Theorem proceed_tasks_one_per_fixable_finding (slopItems : list SlopItem) :
  let tasks := fst (handleProceed slopItems) in
  length tasks = countFixable slopItems /\
  exists kept,
    FixableOf slopItems kept /\
    Forall2 (fun item task =>
               t_id task = js "task-" ++ si_id item /\
               t_slopItemId task = si_id item)
            kept tasks.
Proof.
  simpl. split.
  - rewrite <- proceedSelected_count.
    pose proof (tasks_of_selected (proceedSelected slopItems)) as H.
    symmetry; exact (Forall2_length _ _ _ H).
  - exists (proceedSelected slopItems).
    split; [apply proceedSelected_fixable | apply tasks_of_selected].
Qed.

(** C4, on a hint-only finding. The select-all key of the findings list sets
    [selected] on a hint-only finding, which the toggle key refuses to do;
    the proceed transition still generates no task for it. *)
Theorem select_all_selects_hint_only_finding :
  let items := slopListInput KSelectAll 0 [uiSlopFinding] in
  isHintOnly uiSlopFinding = true /\
  si_selected uiSlopFinding = false /\
  List.map si_selected items = [true] /\
  List.map isHintOnly items = [true] /\
  slopListInput KSpace 0 [uiSlopFinding] = [uiSlopFinding] /\
  fst (handleProceed items) = [].
Proof. vm_compute. repeat split; reflexivity. Qed.

(** The toggle key on a hint-only finding changes nothing. *)
Theorem space_key_skips_hint_only (cursor : nat) (items : list SlopItem)
  (item : SlopItem) :
  items !! cursor = Some item ->
  isHintOnly item = true ->
  slopListInput KSpace cursor items = items.
Proof. intros Hc Hh; simpl. rewrite Hc, Hh. reflexivity. Qed.

Lemma space_key_skips_hint_only_witness :
  slopListInput KSpace 0 [uiSlopFinding] = [uiSlopFinding].
Proof.
  apply (space_key_skips_hint_only 0 [uiSlopFinding] uiSlopFinding);
    reflexivity.
Defined.

(** Whatever the selection flags, no task is generated for a hint-only
    finding: every task comes from a selected finding that is not
    hint-only. *)
Theorem proceed_excludes_hint_only (slopItems : list SlopItem) (task : Task) :
  In task (fst (handleProceed slopItems)) ->
  exists item,
    In item slopItems /\ t_slopItemId task = si_id item /\
    si_selected item = true /\ isHintOnly item = false.
Proof.
  simpl. intros Hin.
  apply in_flat_map in Hin as (item & Hitem & Htask).
  unfold proceedSelected in Hitem.
  apply List.filter_In in Hitem as [Hitem Hkeep].
  apply andb_true_iff in Hkeep as [Hsel Hhint].
  apply negb_true_iff in Hhint.
  destruct Htask as [<-|[]].
  exists item; auto.
Qed.

Lemma proceed_excludes_hint_only_witness :
  exists item,
    In item [setSelected true uiSlopFinding; plainFinding] /\
    js "slop-1" = si_id item /\
    si_selected item = true /\ isHintOnly item = false.
Proof.
  apply (proceed_excludes_hint_only
           [setSelected true uiSlopFinding; plainFinding]
           {| t_id := js "task-slop-1"; t_title := js "Fix: Obvious comment";
              t_description := js "Comment restates the code";
              t_status := TPending; t_file := Some (js "src/a.ts");
              t_slopItemId := js "slop-1" |}).
  vm_compute. left; reflexivity.
Defined.

End SelectionFacts.

(** ** The verification pass and the fix-retry cycle *)

Module VerifyFacts.
Import JS Types Verify.

(** *** State updates of one iteration *)

Lemma lookup_mapAt (i : nat) (g : VerificationCommand -> VerificationCommand)
  (cs : list VerificationCommand) (j : nat) :
  mapAt i g cs !! j = if Nat.eqb j i then g <$> cs !! j else cs !! j.
Proof.
  unfold mapAt. rewrite list_lookup_imap.
  destruct (Nat.eqb j i); [reflexivity|].
  destruct (cs !! j); reflexivity.
Qed.

Lemma length_mapAt (i : nat) (g : VerificationCommand -> VerificationCommand)
  (cs : list VerificationCommand) : length (mapAt i g cs) = length cs.
Proof. unfold mapAt. apply length_imap. Qed.

Lemma commandStatus_mapAt (i : nat) (g : VerificationCommand -> VerificationCommand)
  (s : CommandStatus) (st : AppState) (j : nat) :
  (forall c, vc_status (g c) = s) ->
  commandStatus (setVerificationState (setCommands (mapAt i g)) st) j
  = statusSet i s st j.
Proof.
  intros Hg. unfold statusSet, commandStatus, setVerificationState; simpl.
  destruct (verificationState st) as [vs|]; simpl.
  - rewrite lookup_mapAt. destruct (Nat.eqb j i); [|reflexivity].
    destruct (vs_commands vs !! j); simpl; [rewrite Hg|]; reflexivity.
  - destruct (Nat.eqb j i); reflexivity.
Qed.

Lemma commandStatus_emit (e : Event) (st : AppState) (j : nat) :
  commandStatus (emit e st) j = commandStatus st j.
Proof. reflexivity. Qed.

Lemma commandStatus_begin (a i : nat) (cmd : VerificationCommand) (st : AppState)
  (j : nat) :
  commandStatus (beginCommand a i cmd st) j = statusSet i Running st j.
Proof.
  unfold beginCommand. rewrite commandStatus_emit.
  unfold statusSet, commandStatus, setVerificationState; simpl.
  destruct (verificationState st) as [vs|]; simpl.
  - rewrite lookup_mapAt. destruct (Nat.eqb j i); [|reflexivity].
    destruct (vs_commands vs !! j); reflexivity.
  - destruct (Nat.eqb j i); reflexivity.
Qed.

Lemma commandStatus_markFailed (i : nat) (res : VerificationResult) (st : AppState)
  (j : nat) :
  commandStatus (markFailed i res st) j = statusSet i Failed st j.
Proof. apply commandStatus_mapAt. reflexivity. Qed.

Lemma commandStatus_markDone (i : nat) (res : VerificationResult) (st : AppState)
  (j : nat) :
  commandStatus (markDone i res st) j = statusSet i (doneStatus res) st j.
Proof. apply commandStatus_mapAt. reflexivity. Qed.

Lemma statusSet_other (i : nat) (s : CommandStatus) (st : AppState) (j : nat) :
  j <> i -> statusSet i s st j = commandStatus st j.
Proof.
  intros Hne. unfold statusSet.
  destruct (Nat.eqb_spec j i); [contradiction | reflexivity].
Qed.

Lemma tracks_setCommands_mapAt (n i : nat)
  (g : VerificationCommand -> VerificationCommand) (st : AppState) :
  tracks n st -> tracks n (setVerificationState (setCommands (mapAt i g)) st).
Proof.
  intros (vs & Hvs & Hlen). unfold tracks, setVerificationState; simpl.
  rewrite Hvs; simpl. eexists; split; [reflexivity|].
  simpl. rewrite length_mapAt. exact Hlen.
Qed.

Lemma tracks_begin (n a i : nat) (cmd : VerificationCommand) (st : AppState) :
  tracks n st -> tracks n (beginCommand a i cmd st).
Proof.
  intros (vs & Hvs & Hlen). unfold tracks, beginCommand, emit, setVerificationState.
  simpl. rewrite Hvs; simpl. eexists; split; [reflexivity|].
  simpl. rewrite length_mapAt. exact Hlen.
Qed.

Lemma tracks_status (n : nat) (st : AppState) (j : nat) :
  tracks n st -> j < n -> exists s, commandStatus st j = Some s.
Proof.
  intros (vs & Hvs & Hlen) Hj. unfold commandStatus. rewrite Hvs.
  destruct (lookup_lt_is_Some_2 (vs_commands vs) j) as [c Hc]; [lia|].
  rewrite Hc. eexists; reflexivity.
Qed.

(** *** One pass *)

Lemma sameFrame_refl (st : AppState) : sameFrame st st.
Proof. repeat split; auto. Qed.

Lemma sameFrame_trans (a b c : AppState) :
  sameFrame a b -> sameFrame b c -> sameFrame a c.
Proof.
  intros (H1 & H2 & H3) (H4 & H5 & H6). repeat split; try congruence; auto.
Qed.

Lemma statusOf_setCommands (g : list VerificationCommand -> list VerificationCommand)
  (st : AppState) :
  statusOf (setVerificationState (setCommands g) st) = statusOf st.
Proof.
  unfold statusOf, setVerificationState; simpl.
  destruct (verificationState st); reflexivity.
Qed.

Lemma sameFrame_begin (a i : nat) (cmd : VerificationCommand) (st : AppState) :
  sameFrame st (beginCommand a i cmd st).
Proof.
  repeat split.
  - unfold statusOf, beginCommand, emit, setVerificationState; simpl.
    destruct (verificationState st); reflexivity.
  - intros n; apply tracks_begin.
Qed.

Lemma sameFrame_markFailed (i : nat) (res : VerificationResult) (st : AppState) :
  sameFrame st (markFailed i res st).
Proof.
  repeat split.
  - apply statusOf_setCommands.
  - intros n; apply tracks_setCommands_mapAt.
Qed.

Lemma sameFrame_markDone (i : nat) (res : VerificationResult) (st : AppState) :
  sameFrame st (markDone i res st).
Proof.
  repeat split.
  - apply statusOf_setCommands.
  - intros n; apply tracks_setCommands_mapAt.
Qed.

Lemma passLoop_failure (w : World) (a i : nat) (cmd : VerificationCommand)
  (rest : list VerificationCommand) (vars : PassVars) (st : AppState) :
  requiredFailure w a i cmd = true ->
  passLoop w a i (cmd :: rest) vars st
  = (markFailed i (runCommand w a i cmd) (beginCommand a i cmd st),
     failureVars (runCommand w a i cmd) cmd).
Proof. unfold requiredFailure; intros H; simpl; rewrite H; reflexivity. Qed.

Lemma passLoop_continue (w : World) (a i : nat) (cmd : VerificationCommand)
  (rest : list VerificationCommand) (vars : PassVars) (st : AppState) :
  requiredFailure w a i cmd = false ->
  passLoop w a i (cmd :: rest) vars st
  = passLoop w a (S i) rest vars
      (markDone i (runCommand w a i cmd) (beginCommand a i cmd st)).
Proof. unfold requiredFailure; intros H; simpl; rewrite H; reflexivity. Qed.

Lemma done_after_running (i : nat) (s : CommandStatus) (a : nat)
  (cmd : VerificationCommand) (st : AppState) (j : nat)
  (mark : AppState -> AppState) :
  (forall st0 j0, commandStatus (mark st0) j0 = statusSet i s st0 j0) ->
  commandStatus (mark (beginCommand a i cmd st)) j = statusSet i s st j.
Proof.
  intros Hmark. rewrite Hmark. unfold statusSet.
  rewrite commandStatus_begin. unfold statusSet.
  destruct (Nat.eqb j i); [|reflexivity].
  destruct (commandStatus st j); reflexivity.
Qed.

(** A pass in which no required command fails runs every command, in order,
    leaves the locals alone and marks each command passed or skipped. *)
Lemma passLoop_no_failure (w : World) (a : nat) :
  forall cmds i vars st,
    noRequiredFailure w a i cmds ->
    exists st',
      passLoop w a i cmds vars st = (st', vars) /\
      events st' = events st ++ runEvents a i cmds /\
      sameFrame st st' /\
      (forall j, j < i \/ i + length cmds <= j ->
                 commandStatus st' j = commandStatus st j) /\
      (forall k c, cmds !! k = Some c ->
                   commandStatus st' (i + k)
                   = (fun _ => doneStatus (runCommand w a (i + k) c))
                       <$> commandStatus st (i + k)).
Proof.
  induction cmds as [|cmd rest IH]; intros i vars st Hno.
  - exists st; simpl. rewrite app_nil_r.
    repeat split; auto. intros k c Hk; rewrite lookup_nil in Hk; discriminate.
  - assert (H0 : requiredFailure w a i cmd = false).
    { specialize (Hno 0 cmd eq_refl). rewrite Nat.add_0_r in Hno. exact Hno. }
    assert (Hrest : noRequiredFailure w a (S i) rest).
    { intros k c Hk. specialize (Hno (S k) c Hk).
      rewrite <- Nat.add_succ_comm in Hno. exact Hno. }
    rewrite (passLoop_continue _ _ _ _ _ _ _ H0).
    set (st1 := markDone i (runCommand w a i cmd) (beginCommand a i cmd st)).
    destruct (IH (S i) vars st1 Hrest) as (st' & Hrun & Hev & Hframe & Hout & Hin).
    assert (Hst1 : forall j, commandStatus st1 j
                             = statusSet i (doneStatus (runCommand w a i cmd)) st j).
    { intros j. unfold st1.
      apply (done_after_running i _ a cmd st j (markDone i (runCommand w a i cmd))).
      intros; apply commandStatus_markDone. }
    exists st'. split; [exact Hrun|]. split; [|split; [|split]].
    + rewrite Hev. subst st1. simpl. rewrite <- app_assoc. reflexivity.
    + eapply sameFrame_trans; [|exact Hframe].
      eapply sameFrame_trans; [apply sameFrame_begin | apply sameFrame_markDone].
    + intros j Hj. simpl in Hj. rewrite Hout by lia.
      rewrite Hst1. apply statusSet_other. lia.
    + intros k c Hk. destruct k as [|k]; simpl in Hk.
      * injection Hk as <-. rewrite Nat.add_0_r.
        rewrite Hout by lia. rewrite Hst1. unfold statusSet.
        rewrite Nat.eqb_refl. reflexivity.
      * rewrite <- Nat.add_succ_comm. rewrite (Hin k c Hk).
        rewrite Hst1. rewrite statusSet_other by lia. reflexivity.
Qed.

(** A pass stops at the first required failure: it has run the commands up
    to it, in order, marked it failed and recorded it in the locals, and has
    left every later command as it was. *)
Lemma passLoop_first_failure (w : World) (a : nat) :
  forall cmds i vars st k c,
    firstRequiredFailure w a i cmds k c ->
    exists st',
      passLoop w a i cmds vars st
      = (st', failureVars (runCommand w a (i + k) c) c) /\
      events st' = events st ++ runEvents a i (take (S k) cmds) /\
      sameFrame st st' /\
      (forall j, j < i \/ i + k < j -> commandStatus st' j = commandStatus st j) /\
      commandStatus st' (i + k) = (fun _ => Failed) <$> commandStatus st (i + k) /\
      (forall k' c', k' < k -> cmds !! k' = Some c' ->
                     commandStatus st' (i + k')
                     = (fun _ => doneStatus (runCommand w a (i + k') c'))
                         <$> commandStatus st (i + k')).
Proof.
  induction cmds as [|cmd rest IH]; intros i vars st k c (Hk & Hfail & Hbefore).
  - rewrite lookup_nil in Hk; discriminate.
  - destruct k as [|k]; simpl in Hk.
    + injection Hk as <-. rewrite Nat.add_0_r in *.
      rewrite (passLoop_failure _ _ _ _ _ _ _ Hfail).
      eexists; split; [reflexivity|].
      assert (Hst1 : forall j,
        commandStatus (markFailed i (runCommand w a i cmd) (beginCommand a i cmd st)) j
        = statusSet i Failed st j).
      { intros j.
        apply (done_after_running i _ a cmd st j (markFailed i (runCommand w a i cmd))).
        intros; apply commandStatus_markFailed. }
      split; [reflexivity|]. split; [|split; [|split]].
      * eapply sameFrame_trans; [apply sameFrame_begin | apply sameFrame_markFailed].
      * intros j Hj. rewrite Hst1. apply statusSet_other. lia.
      * rewrite Hst1. unfold statusSet. rewrite Nat.eqb_refl. reflexivity.
      * intros k' c' Hlt; lia.
    + assert (H0 : requiredFailure w a i cmd = false).
      { specialize (Hbefore 0 cmd ltac:(lia) eq_refl).
        rewrite Nat.add_0_r in Hbefore. exact Hbefore. }
      assert (Hrest : firstRequiredFailure w a (S i) rest k c).
      { split; [exact Hk|]. split.
        - rewrite Nat.add_succ_comm. exact Hfail.
        - intros k' c' Hlt Hk'. rewrite Nat.add_succ_comm.
          apply (Hbefore (S k') c'); [lia | exact Hk']. }
      rewrite (passLoop_continue _ _ _ _ _ _ _ H0).
      set (st1 := markDone i (runCommand w a i cmd) (beginCommand a i cmd st)).
      destruct (IH (S i) vars st1 k c Hrest)
        as (st' & Hrun & Hev & Hframe & Hout & Hat & Hin).
      assert (Hst1 : forall j, commandStatus st1 j
                               = statusSet i (doneStatus (runCommand w a i cmd)) st j).
      { intros j. unfold st1.
      apply (done_after_running i _ a cmd st j (markDone i (runCommand w a i cmd))).
      intros; apply commandStatus_markDone. }
      exists st'. rewrite <- Nat.add_succ_comm.
      split; [exact Hrun|]. split; [|split; [|split; [|split]]].
      * rewrite Hev. subst st1. simpl. rewrite <- app_assoc. reflexivity.
      * eapply sameFrame_trans; [|exact Hframe].
        eapply sameFrame_trans; [apply sameFrame_begin | apply sameFrame_markDone].
      * intros j Hj. rewrite Hout by lia.
        rewrite Hst1. apply statusSet_other. lia.
      * rewrite Hat. rewrite Hst1. rewrite statusSet_other by lia. reflexivity.
      * intros k' c' Hlt Hk'. destruct k' as [|k']; simpl in Hk'.
        -- injection Hk' as <-. rewrite Nat.add_0_r.
           rewrite Hout by lia. rewrite Hst1. unfold statusSet.
           rewrite Nat.eqb_refl. reflexivity.
        -- rewrite <- Nat.add_succ_comm. rewrite (Hin k' c') by (lia || assumption).
           rewrite Hst1. rewrite statusSet_other by lia. reflexivity.
Qed.

(** Every pass is of one of the two kinds. *)
Lemma failure_or_not (w : World) (a : nat) :
  forall cmds i,
    noRequiredFailure w a i cmds \/
    exists k c, firstRequiredFailure w a i cmds k c.
Proof.
  induction cmds as [|cmd rest IH]; intros i.
  - left. intros k c Hk. rewrite lookup_nil in Hk; discriminate.
  - destruct (requiredFailure w a i cmd) eqn:E.
    + right. exists 0, cmd. split; [reflexivity|]. rewrite Nat.add_0_r.
      split; [exact E|]. intros k' c' Hlt; lia.
    + destruct (IH (S i)) as [Hno|(k & c & Hk & Hfail & Hbefore)].
      * left. intros k c Hk. destruct k as [|k]; simpl in Hk.
        -- injection Hk as <-. rewrite Nat.add_0_r. exact E.
        -- rewrite <- Nat.add_succ_comm. apply Hno. exact Hk.
      * right. exists (S k), c. split; [exact Hk|].
        rewrite <- Nat.add_succ_comm. split; [exact Hfail|].
        intros k' c' Hlt Hk'. destruct k' as [|k']; simpl in Hk'.
        -- injection Hk' as <-. rewrite Nat.add_0_r. exact E.
        -- rewrite <- Nat.add_succ_comm. apply Hbefore; [lia | exact Hk'].
Qed.

(** *** The cycle of passes and fixes *)

Lemma runEvents_lookup (a : nat) :
  forall cmds i n, runEvents a i cmds !! n = EvRun a (i + n) <$> cmds !! n.
Proof.
  induction cmds as [|c cmds IH]; intros i n; simpl.
  - rewrite !lookup_nil. reflexivity.
  - destruct n as [|n]; simpl.
    + rewrite Nat.add_0_r. reflexivity.
    + rewrite IH. rewrite <- Nat.add_succ_comm. reflexivity.
Qed.

Lemma length_runEvents (a : nat) :
  forall cmds i, length (runEvents a i cmds) = length cmds.
Proof. induction cmds as [|c cmds IH]; intros i; simpl; auto. Qed.

Lemma countFixes_app (l1 l2 : list Event) :
  countFixes (l1 ++ l2) = countFixes l1 + countFixes l2.
Proof. unfold countFixes. rewrite List.filter_app, length_app. reflexivity. Qed.

Lemma countFixes_runEvents (a : nat) :
  forall cmds i, countFixes (runEvents a i cmds) = 0.
Proof. induction cmds as [|c cmds IH]; intros i; simpl; auto. apply IH. Qed.

Lemma statusOf_setStatus (s : VerificationStatus) (st : AppState) :
  is_Some (statusOf st) ->
  statusOf (setVerificationState (setStatus s) st) = Some s.
Proof.
  unfold statusOf, setVerificationState; simpl.
  destruct (verificationState st); simpl; [reflexivity|].
  intros [x Hx]; discriminate.
Qed.

(** [executeVerification] follows the cycle: with fuel for the attempts that
    are left it returns, the calls it has added to the trace are those of a
    cycle starting at [attempt], and the status it leaves is the cycle's. *)
Lemma executeVerification_cycle (maxRetries : nat) (w : World) :
  forall fuel commands attempt st,
    maxRetries - attempt < fuel ->
    exists st' evs status,
      executeVerification fuel maxRetries w commands attempt st = Some st' /\
      events st' = events st ++ evs /\
      Cycle maxRetries w commands attempt evs status /\
      (is_Some (statusOf st) -> statusOf st' = Some status).
Proof.
  induction fuel as [|fuel IH]; intros commands attempt st Hfuel; [lia|].
  simpl. unfold runPass.
  destruct (failure_or_not w attempt commands 0) as [Hno|(k & c & Hfirst)].
  - destruct (passLoop_no_failure w attempt commands 0 initialVars st Hno)
      as (st1 & -> & Hev & (_ & Hstatus & _) & _).
    simpl. eexists _, _, VPassed. split; [reflexivity|].
    split; [|split].
    + simpl. rewrite Hev, <- app_assoc. reflexivity.
    + apply cycle_passed; exact Hno.
    + intros Hsome. unfold runReview, emit, statusOf; simpl.
      apply statusOf_setStatus. rewrite Hstatus. exact Hsome.
  - destruct (passLoop_first_failure w attempt commands 0 initialVars st k c Hfirst)
      as (st1 & -> & Hev & (_ & Hstatus & _) & _).
    simpl.
    destruct (Nat.ltb_spec attempt maxRetries) as [Hlt|Hge].
    + destruct (fixThrows w attempt) eqn:Hthrow.
      * eexists _, _, VFailed. split; [reflexivity|]. split; [|split].
        -- simpl. rewrite Hev, <- app_assoc. reflexivity.
        -- apply cycle_fix_throws; assumption.
        -- intros Hsome.
           change (statusOf (setVerificationState (setStatus VFailed)
                     (setVerificationState (setStatus Fixing) st1)) = Some VFailed).
           apply statusOf_setStatus. rewrite statusOf_setStatus; [eauto|].
           rewrite Hstatus. exact Hsome.
      * match goal with
        | |- context [executeVerification fuel maxRetries w ?cs ?a ?s] =>
            destruct (IH cs a s ltac:(lia)) as (st' & evs & status & Hrun & Hev' & Hcyc & Hst)
        end.
        exists st', (runEvents attempt 0 (take (S k) commands)
                       ++ fixEvent w attempt k c :: evs), status.
        split; [exact Hrun|]. split; [|split].
        -- rewrite Hev'. simpl. rewrite Hev, <- !app_assoc. reflexivity.
        -- apply cycle_retry; assumption.
        -- intros Hsome. apply Hst.
           unfold statusOf, setVerificationState, emit; simpl.
           unfold statusOf in Hstatus, Hsome. rewrite <- Hstatus in Hsome.
           destruct (verificationState st1); simpl; [eauto|].
           destruct Hsome; discriminate.
    + eexists _, _, VFailed. split; [reflexivity|]. split; [|split].
      * simpl. exact Hev.
      * eapply cycle_exhausted; eassumption.
      * intros Hsome. apply statusOf_setStatus. rewrite Hstatus. exact Hsome.
Qed.

(** Fuel beyond the attempts that are left changes nothing. *)
Lemma executeVerification_fuel (maxRetries : nat) (w : World) :
  forall n m commands attempt st,
    maxRetries - attempt < n -> maxRetries - attempt < m ->
    executeVerification n maxRetries w commands attempt st
    = executeVerification m maxRetries w commands attempt st.
Proof.
  induction n as [|n IH]; intros m commands attempt st Hn Hm; [lia|].
  destruct m as [|m]; [lia|]. simpl.
  destruct (runPass w attempt commands st) as [st1 vars].
  destruct (allPassed vars); [reflexivity|].
  destruct (failedCommand vars); [|reflexivity].
  destruct (Nat.ltb_spec attempt maxRetries); [|reflexivity].
  destruct (fixThrows w attempt); [reflexivity|].
  apply IH; lia.
Qed.

(** A cycle that starts at [attempt] sends at most [maxRetries - attempt]
    fix prompts. *)
Lemma Cycle_fix_bound (maxRetries : nat) (w : World) cmds attempt evs status :
  Cycle maxRetries w cmds attempt evs status ->
  countFixes evs <= maxRetries - attempt.
Proof.
  induction 1 as [cmds a Hno|cmds a k c Hf Hge|cmds a k c Hf Hlt Hthrow
                 |cmds a k c evs status Hf Hlt Hthrow Hcyc IH].
  - rewrite countFixes_app, countFixes_runEvents. unfold countFixes; simpl. lia.
  - rewrite countFixes_runEvents. lia.
  - rewrite countFixes_app, countFixes_runEvents. unfold countFixes; simpl. lia.
  - rewrite countFixes_app, countFixes_runEvents.
    change (countFixes (fixEvent w a k c :: evs)) with (S (countFixes evs)).
    simpl. lia.
Qed.

Lemma run_prefix_lookup (a : nat) (cmds : list VerificationCommand) (k n : nat)
  (e : Event) :
  runEvents a 0 (take (S k) cmds) !! n = Some e ->
  exists c, cmds !! n = Some c /\ n <= k /\ e = EvRun a n c.
Proof.
  rewrite runEvents_lookup. simpl.
  destruct (take (S k) cmds !! n) as [c|] eqn:E; simpl; [|discriminate].
  intros [= <-]. apply lookup_take_Some in E as [Hc Hn].
  exists c. repeat split; [exact Hc | lia].
Qed.

Lemma run_prefix_length (a : nat) (cmds : list VerificationCommand) (k : nat)
  (c : VerificationCommand) :
  cmds !! k = Some c ->
  length (runEvents a 0 (take (S k) cmds)) = S k.
Proof.
  intros Hk. rewrite length_runEvents, length_take.
  apply lookup_lt_Some in Hk. lia.
Qed.

Lemma run_prefix_last (a : nat) (cmds : list VerificationCommand) (k : nat)
  (c : VerificationCommand) :
  cmds !! k = Some c ->
  runEvents a 0 (take (S k) cmds) !! k = Some (EvRun a k c).
Proof.
  intros Hk. rewrite runEvents_lookup. simpl.
  rewrite lookup_take_lt by lia. rewrite Hk. reflexivity.
Qed.

(** Every fix prompt of a cycle comes right after the run of a required
    command that failed, in a pass whose attempt is below [maxRetries]. *)
Lemma Cycle_fix_after_failure (maxRetries : nat) (w : World) cmds attempt evs status :
  Cycle maxRetries w cmds attempt evs status ->
  forall n a fc out,
    evs !! n = Some (EvFix a fc out) ->
    attempt <= a < maxRetries /\
    exists i c,
      evs !! (n - 1) = Some (EvRun a i c) /\ 0 < n /\
      requiredFailure w a i c = true /\
      EvFix a fc out = fixEvent w a i c.
Proof.
  induction 1 as [cmds a0 Hno|cmds a0 k c Hf Hge|cmds a0 k c Hf Hlt Hthrow
                 |cmds a0 k c evs status Hf Hlt Hthrow Hcyc IH];
    intros n a fc out Hn.
  - destruct (Nat.lt_ge_cases n (length (runEvents a0 0 cmds))) as [Hl|Hl].
    + rewrite lookup_app_l in Hn by exact Hl.
      rewrite runEvents_lookup in Hn.
      destruct (cmds !! n); discriminate.
    + rewrite lookup_app_r in Hn by exact Hl.
      destruct (n - length (runEvents a0 0 cmds)) as [|m]; simpl in Hn;
        [discriminate | rewrite lookup_nil in Hn; discriminate].
  - apply run_prefix_lookup in Hn as (c' & _ & _ & [=]).
  - destruct Hf as (Hk & Hfail & Hbefore).
    pose proof (run_prefix_length a0 cmds k c Hk) as Hlen.
    destruct (Nat.lt_ge_cases n (S k)) as [Hl|Hl].
    + rewrite lookup_app_l in Hn by lia.
      apply run_prefix_lookup in Hn as (c' & _ & _ & [=]).
    + rewrite lookup_app_r in Hn by lia. rewrite Hlen in Hn.
      destruct (n - S k) as [|m] eqn:Em; simpl in Hn;
        [|rewrite lookup_nil in Hn; discriminate].
      assert (n = S k) by lia; subst n.
      unfold fixEvent in Hn. injection Hn as <- <- <-.
      split; [lia|]. exists k, c.
      rewrite lookup_app_l by lia.
      replace (S k - 1) with k by lia.
      rewrite (run_prefix_last a0 cmds k c Hk).
      repeat split; [lia | exact Hfail].
  - destruct Hf as (Hk & Hfail & Hbefore).
    pose proof (run_prefix_length a0 cmds k c Hk) as Hlen.
    destruct (Nat.lt_ge_cases n (S k)) as [Hl|Hl].
    + rewrite lookup_app_l in Hn by lia.
      apply run_prefix_lookup in Hn as (c' & _ & _ & [=]).
    + rewrite lookup_app_r in Hn by lia. rewrite Hlen in Hn.
      destruct (n - S k) as [|m] eqn:Em; simpl in Hn.
      * assert (n = S k) by lia; subst n.
        unfold fixEvent in Hn. injection Hn as <- <- <-.
        split; [lia|]. exists k, c.
        rewrite lookup_app_l by lia.
        replace (S k - 1) with k by lia.
        rewrite (run_prefix_last a0 cmds k c Hk).
        repeat split; [lia | exact Hfail].
      * destruct (IH m a fc out Hn) as (Ha & i & c' & Hprev & Hpos & Hreq & Heq).
        split; [lia|]. exists i, c'.
        rewrite lookup_app_r by lia. rewrite Hlen.
        replace (n - 1 - S k) with (S (m - 1)) by lia. simpl.
        repeat split; [exact Hprev | lia | exact Hreq | exact Heq].
Qed.

(** The events of a cycle belong to passes from [attempt] on. *)
Lemma Cycle_attempts (maxRetries : nat) (w : World) cmds attempt evs status :
  Cycle maxRetries w cmds attempt evs status ->
  forall n e a, evs !! n = Some e -> attemptOf e = Some a -> attempt <= a.
Proof.
  induction 1 as [cmds a0 Hno|cmds a0 k c Hf Hge|cmds a0 k c Hf Hlt Hthrow
                 |cmds a0 k c evs status Hf Hlt Hthrow Hcyc IH];
    intros n e a Hn Ha.
  - apply lookup_app_Some in Hn as [Hn|[_ Hn]].
    + rewrite runEvents_lookup in Hn. destruct (cmds !! n); [|discriminate].
      injection Hn as <-. injection Ha as <-. lia.
    + destruct (n - _) as [|m]; simpl in Hn;
        [injection Hn as <-; discriminate | rewrite lookup_nil in Hn; discriminate].
  - apply run_prefix_lookup in Hn as (c' & _ & _ & ->). injection Ha as <-. lia.
  - apply lookup_app_Some in Hn as [Hn|[_ Hn]].
    + apply run_prefix_lookup in Hn as (c' & _ & _ & ->). injection Ha as <-. lia.
    + destruct (n - _) as [|m]; simpl in Hn;
        [injection Hn as <-; injection Ha as <-; lia
        | rewrite lookup_nil in Hn; discriminate].
  - apply lookup_app_Some in Hn as [Hn|[_ Hn]].
    + apply run_prefix_lookup in Hn as (c' & _ & _ & ->). injection Ha as <-. lia.
    + destruct (n - _) as [|m]; simpl in Hn.
      * injection Hn as <-; injection Ha as <-; lia.
      * specialize (IH m e a Hn Ha). lia.
Qed.

(** A required failure in a pass whose attempt has reached [maxRetries] is
    the last call of the cycle, which ends failed. *)
Lemma Cycle_exhausted_stops (maxRetries : nat) (w : World) cmds attempt evs status :
  Cycle maxRetries w cmds attempt evs status ->
  forall n a i c,
    evs !! n = Some (EvRun a i c) ->
    maxRetries <= a ->
    requiredFailure w a i c = true ->
    status = VFailed /\ length evs = S n.
Proof.
  induction 1 as [cmds a0 Hno|cmds a0 k c0 Hf Hge|cmds a0 k c0 Hf Hlt Hthrow
                 |cmds a0 k c0 evs status Hf Hlt Hthrow Hcyc IH];
    intros n a i c Hn Ha Hreq.
  - apply lookup_app_Some in Hn as [Hn|[_ Hn]].
    + rewrite runEvents_lookup in Hn.
      destruct (cmds !! n) as [c'|] eqn:E; [|discriminate].
      injection Hn as <- <- <-. simpl in Hreq.
      specialize (Hno n c' E). simpl in Hno. congruence.
    + destruct (n - _) as [|m]; simpl in Hn;
        [discriminate | rewrite lookup_nil in Hn; discriminate].
  - destruct Hf as (Hk & Hfail & Hbefore).
    rewrite (run_prefix_length a0 cmds k c0 Hk).
    apply run_prefix_lookup in Hn as (c' & Hc' & Hle & [= -> -> ->]).
    split; [reflexivity|].
    destruct (Nat.eq_dec n k) as [->|Hne]; [reflexivity|].
    specialize (Hbefore n c' ltac:(lia) Hc'). simpl in Hbefore. congruence.
  - apply lookup_app_Some in Hn as [Hn|[_ Hn]].
    + apply run_prefix_lookup in Hn as (c' & _ & _ & [= -> -> ->]). lia.
    + destruct (n - _) as [|m]; simpl in Hn;
        [discriminate | rewrite lookup_nil in Hn; discriminate].
  - destruct Hf as (Hk & Hfail & Hbefore).
    pose proof (run_prefix_length a0 cmds k c0 Hk) as Hlen.
    apply lookup_app_Some in Hn as [Hn|[Hge Hn]].
    + apply run_prefix_lookup in Hn as (c' & _ & _ & [= -> -> ->]). lia.
    + rewrite Hlen in Hn, Hge.
      destruct (n - S k) as [|m] eqn:Em; simpl in Hn; [discriminate|].
      destruct (IH m a i c Hn Ha Hreq) as [-> Hl].
      split; [reflexivity|]. rewrite length_app, Hlen. simpl. lia.
Qed.

(** A fix attempt that throws is the last call of the cycle, which ends
    failed. *)
Lemma Cycle_fix_throws_stops (maxRetries : nat) (w : World) cmds attempt evs status :
  Cycle maxRetries w cmds attempt evs status ->
  forall n a fc out,
    evs !! n = Some (EvFix a fc out) ->
    fixThrows w a = true ->
    status = VFailed /\ length evs = S n.
Proof.
  induction 1 as [cmds a0 Hno|cmds a0 k c0 Hf Hge|cmds a0 k c0 Hf Hlt Hthrow
                 |cmds a0 k c0 evs status Hf Hlt Hthrow Hcyc IH];
    intros n a fc out Hn Ht.
  - apply lookup_app_Some in Hn as [Hn|[_ Hn]].
    + rewrite runEvents_lookup in Hn. destruct (cmds !! n); discriminate.
    + destruct (n - _) as [|m]; simpl in Hn;
        [discriminate | rewrite lookup_nil in Hn; discriminate].
  - apply run_prefix_lookup in Hn as (c' & _ & _ & [=]).
  - destruct Hf as (Hk & Hfail & Hbefore).
    pose proof (run_prefix_length a0 cmds k c0 Hk) as Hlen.
    apply lookup_app_Some in Hn as [Hn|[Hge Hn]].
    + apply run_prefix_lookup in Hn as (c' & _ & _ & [=]).
    + rewrite Hlen in Hn, Hge.
      destruct (n - S k) as [|m] eqn:Em; simpl in Hn;
        [|rewrite lookup_nil in Hn; discriminate].
      split; [reflexivity|]. rewrite length_app, Hlen. simpl. lia.
  - destruct Hf as (Hk & Hfail & Hbefore).
    pose proof (run_prefix_length a0 cmds k c0 Hk) as Hlen.
    apply lookup_app_Some in Hn as [Hn|[Hge Hn]].
    + apply run_prefix_lookup in Hn as (c' & _ & _ & [=]).
    + rewrite Hlen in Hn, Hge.
      destruct (n - S k) as [|m] eqn:Em; simpl in Hn.
      * unfold fixEvent in Hn. injection Hn as <- _ _. congruence.
      * destruct (IH m a fc out Hn Ht) as [-> Hl].
        split; [reflexivity|]. rewrite length_app, Hlen. simpl. lia.
Qed.

(** *** The retry bound, the halting pass and optional failures *)


Lemma passStart_pending (commands : list VerificationCommand) (st : AppState) (j : nat) :
  passStart commands st -> j < length commands ->
  commandStatus st j = Some Pending.
Proof.
  intros (vs & Hvs & Hlen & Hpend) Hj. unfold commandStatus. rewrite Hvs.
  destruct (lookup_lt_is_Some_2 (vs_commands vs) j) as [c Hc]; [lia|].
  rewrite Hc. simpl. rewrite (Hpend j c Hc). reflexivity.
Qed.

Lemma passStart_initialState (maxRetries : nat) (commands : list VerificationCommand) :
  Forall (fun c => vc_status c = Pending) commands ->
  passStart commands (initialState maxRetries commands).
Proof.
  intros Hall. eexists; split; [reflexivity|]. split; [reflexivity|].
  intros j c Hc. simpl in Hc.
  rewrite Forall_forall in Hall. apply Hall.
  eapply list_elem_of_lookup_2; exact Hc.
Qed.


(** The cycle that starts at attempt 1 on the state [runVerification]
    installs. *)
Lemma firstCycle (maxRetries : nat) (w : World)
  (commands : list VerificationCommand) :
  exists st' status,
    executeVerification (S maxRetries) maxRetries w commands 1
      (initialState maxRetries commands) = Some st' /\
    Cycle maxRetries w commands 1 (events st') status /\
    statusOf st' = Some status.
Proof.
  destruct (executeVerification_cycle maxRetries w (S maxRetries) commands 1
              (initialState maxRetries commands) ltac:(lia))
    as (st' & evs & status & Hrun & Hev & Hcyc & Hst).
  exists st', status. simpl in Hev. subst evs.
  repeat split; [exact Hrun | exact Hcyc |].
  apply Hst. simpl. eauto.
Qed.

(** [runVerification] with at least one command is that cycle. *)
Lemma runVerification_commands (maxRetries : nat) (w : World)
  (commands : list VerificationCommand) :
  commands <> [] ->
  runVerification maxRetries w commands
  = executeVerification (S maxRetries) maxRetries w commands 1
      (initialState maxRetries commands).
Proof. destruct commands; [congruence | reflexivity]. Qed.

Lemma runVerification_cycle (maxRetries : nat) (w : World)
  (commands : list VerificationCommand) :
  commands <> [] ->
  exists st' status,
    runVerification maxRetries w commands = Some st' /\
    Cycle maxRetries w commands 1 (events st') status /\
    statusOf st' = Some status.
Proof.
  intros Hne. rewrite (runVerification_commands _ _ _ Hne). apply firstCycle.
Qed.

(** C1. Bounded verification retry. With maxRetries = 3, for every command
    list and every behaviour of the commands and of the agent,
    [executeVerification], called at attempt 1 on the state [runVerification]
    installs (which is what [runVerification] does when there is a command),
    returns (with the same state for any fuel of at least 3), and in the
    calls it has made: there are at
    most 2 fix prompts; every fix prompt belongs to an
    attempt below 3 and comes right after the run of a required command that
    failed in that attempt; a required command that fails in attempt 3 (or
    later) is the last call and the status is 'failed'; and a fix attempt
    that throws is the last call and the status is 'failed'. *)
Theorem verification_retry_bounded (w : World) (commands : list VerificationCommand) :
  exists st',
    executeVerification 4 3 w commands 1 (initialState 3 commands) = Some st' /\
    (commands <> [] -> runVerification 3 w commands = Some st') /\
    (forall fuel, 3 <= fuel ->
       executeVerification fuel 3 w commands 1 (initialState 3 commands) = Some st') /\
    fixCount st' <= 2 /\
    (forall n a fc out,
        events st' !! n = Some (EvFix a fc out) ->
        1 <= a < 3 /\
        exists i c,
          0 < n /\ events st' !! (n - 1) = Some (EvRun a i c) /\
          requiredFailure w a i c = true /\
          EvFix a fc out = fixEvent w a i c) /\
    (forall n a i c,
        events st' !! n = Some (EvRun a i c) ->
        3 <= a -> requiredFailure w a i c = true ->
        statusOf st' = Some VFailed /\ length (events st') = S n) /\
    (forall n a fc out,
        events st' !! n = Some (EvFix a fc out) ->
        fixThrows w a = true ->
        statusOf st' = Some VFailed /\ length (events st') = S n).
Proof.
  destruct (firstCycle 3 w commands) as (st' & status & Hrun & Hcyc & Hst).
  exists st'. split; [exact Hrun|]. split; [|split; [|split; [|split; [|split]]]].
  - intros Hne. rewrite (runVerification_commands _ _ _ Hne). exact Hrun.
  - intros fuel Hfuel. rewrite <- Hrun.
    apply executeVerification_fuel; lia.
  - pose proof (Cycle_fix_bound _ _ _ _ _ _ Hcyc) as Hb.
    unfold fixCount. unfold countFixes in Hb. lia.
  - intros n a fc out Hn.
    destruct (Cycle_fix_after_failure _ _ _ _ _ _ Hcyc n a fc out Hn)
      as (Ha & i & c & Hprev & Hpos & Hreq & Heq).
    split; [exact Ha|]. exists i, c. auto.
  - intros n a i c Hn Ha Hreq.
    destruct (Cycle_exhausted_stops _ _ _ _ _ _ Hcyc n a i c Hn Ha Hreq) as [-> Hl].
    auto.
  - intros n a fc out Hn Ht.
    destruct (Cycle_fix_throws_stops _ _ _ _ _ _ Hcyc n a fc out Hn Ht) as [-> Hl].
    auto.
Qed.

(** The unfolding of [executeVerification] after a pass with a required
    failure, and after one without. *)
Lemma executeVerification_after_failure (fuel maxRetries : nat) (w : World)
  (commands : list VerificationCommand) (attempt : nat) (st st' : AppState)
  (k : nat) (c : VerificationCommand) :
  runPass w attempt commands st
  = (st', failureVars (runCommand w attempt k c) c) ->
  executeVerification (S fuel) maxRetries w commands attempt st
  = fixRetryBranch fuel maxRetries w commands attempt k c st'.
Proof.
  intros Hpass. simpl. rewrite Hpass. simpl. unfold fixRetryBranch, fixEvent.
  destruct (attempt <? maxRetries); reflexivity.
Qed.

Lemma executeVerification_after_success (fuel maxRetries : nat) (w : World)
  (commands : list VerificationCommand) (attempt : nat) (st st' : AppState) :
  runPass w attempt commands st = (st', initialVars) ->
  executeVerification (S fuel) maxRetries w commands attempt st
  = Some (runReview (setVerificationState (setStatus VPassed) st')).
Proof. intros Hpass. simpl. rewrite Hpass. reflexivity. Qed.

(** C2. The first required failure halts the pass. In a pass started on
    pending commands, if the command at index k is the first required command
    that fails, then the pass has run exactly the commands 0..k, in list
    order; the command k is marked 'failed'; every later command is still
    'pending'; the pass-level flag is false with the failed command recorded;
    and [executeVerification] continues with the fix-retry branch. *)
Theorem required_failure_halts_pass (w : World) (maxRetries attempt : nat)
  (commands : list VerificationCommand) (st : AppState)
  (k : nat) (c : VerificationCommand) :
  passStart commands st ->
  firstRequiredFailure w attempt 0 commands k c ->
  exists st' vars,
    runPass w attempt commands st = (st', vars) /\
    events st' = events st ++ runEvents attempt 0 (take (S k) commands) /\
    commandStatus st' k = Some Failed /\
    (forall j, k < j -> j < length commands -> commandStatus st' j = Some Pending) /\
    allPassed vars = false /\
    failedCommand vars
    = Some (withResult (vr_exitCode (runCommand w attempt k c))
              (vr_output (runCommand w attempt k c)) c) /\
    forall fuel,
      executeVerification (S fuel) maxRetries w commands attempt st
      = fixRetryBranch fuel maxRetries w commands attempt k c st'.
Proof.
  intros Hstart Hfirst.
  destruct (passLoop_first_failure w attempt commands 0 initialVars st k c Hfirst)
    as (st' & Hrun & Hev & _ & Hout & Hat & _).
  simpl in Hrun, Hat.
  assert (Hk : k < length commands).
  { destruct Hfirst as (Hk & _). apply lookup_lt_Some in Hk. exact Hk. }
  exists st', (failureVars (runCommand w attempt k c) c).
  split; [exact Hrun|]. split; [exact Hev|]. split; [|split; [|split; [|split]]].
  - rewrite Hat, (passStart_pending commands st k Hstart Hk). reflexivity.
  - intros j Hj Hlen. rewrite Hout by (simpl; lia).
    apply (passStart_pending commands st j Hstart Hlen).
  - reflexivity.
  - reflexivity.
  - intros fuel. apply executeVerification_after_failure. exact Hrun.
Qed.

Lemma required_failure_halts_pass_witness :
  exists st' vars,
    runPass allFail 1 buildTestLint (initialState 3 buildTestLint) = (st', vars) /\
    events st' = events (initialState 3 buildTestLint)
                 ++ runEvents 1 0 (take 1 buildTestLint) /\
    commandStatus st' 0 = Some Failed /\
    (forall j, 0 < j -> j < length buildTestLint -> commandStatus st' j = Some Pending) /\
    allPassed vars = false /\
    failedCommand vars
    = Some (withResult (vr_exitCode (runCommand allFail 1 0 (command "build" Build false)))
              (vr_output (runCommand allFail 1 0 (command "build" Build false)))
              (command "build" Build false)) /\
    forall fuel,
      executeVerification (S fuel) 3 allFail buildTestLint 1 (initialState 3 buildTestLint)
      = fixRetryBranch fuel 3 allFail buildTestLint 1 0 (command "build" Build false) st'.
Proof.
  apply (required_failure_halts_pass allFail 3 1 buildTestLint
           (initialState 3 buildTestLint) 0 (command "build" Build false)).
  - apply passStart_initialState. repeat constructor.
  - split; [reflexivity|]. split; [reflexivity|]. intros k' c' Hlt; lia.
Defined.

Lemma review_after_pass (st' : AppState) :
  is_Some (statusOf st') ->
  let st'' := runReview (setVerificationState (setStatus VPassed) st') in
  statusOf st'' = Some VPassed /\ phase st'' = Reviewing /\
  events st'' = events st' ++ [EvReview].
Proof.
  intros Hsome. simpl. repeat split.
  unfold runReview, emit, statusOf; simpl.
  apply statusOf_setStatus. exact Hsome.
Qed.

(** C3. Optional failures never block. In a pass started on pending
    commands: a failing optional command that the pass reaches is marked
    'skipped' and the command after it is run; the pass-level flag allPassed
    is false only when a required command fails, so it stays true when only
    optional commands fail; and when every command ends 'passed' or
    'skipped', [executeVerification] sets the status to 'passed' and starts
    the review, without entering the fix-retry branch. *)
Theorem optional_failure_never_blocks (w : World) (maxRetries attempt : nat)
  (commands : list VerificationCommand) (st : AppState) :
  passStart commands st ->
  exists st' vars,
    runPass w attempt commands st = (st', vars) /\
    (forall i c,
        commands !! i = Some c ->
        vc_optional c = true ->
        vr_success (runCommand w attempt i c) = false ->
        noRequiredFailure w attempt 0 (take i commands) ->
        commandStatus st' i = Some Skipped /\
        forall c', commands !! (S i) = Some c' ->
                   events st' !! (length (events st) + S i)
                   = Some (EvRun attempt (S i) c')) /\
    (allPassed vars = false ->
     exists k c, firstRequiredFailure w attempt 0 commands k c) /\
    (noRequiredFailure w attempt 0 commands -> allPassed vars = true) /\
    ((forall j, j < length commands ->
                commandStatus st' j = Some Passed \/ commandStatus st' j = Some Skipped) ->
     allPassed vars = true /\
     forall fuel,
       exists st'',
         executeVerification (S fuel) maxRetries w commands attempt st = Some st'' /\
         statusOf st'' = Some VPassed /\ phase st'' = Reviewing /\
         events st'' = events st' ++ [EvReview] /\
         fixCount st'' = fixCount st').
Proof.
  intros Hstart.
  assert (Hsome : is_Some (statusOf st)).
  { destruct Hstart as (vs & Hvs & _). unfold statusOf. rewrite Hvs. simpl. eauto. }
  destruct (failure_or_not w attempt commands 0) as [Hno|(k & c0 & Hfirst)].
  - destruct (passLoop_no_failure w attempt commands 0 initialVars st Hno)
      as (st' & Hrun & Hev & (_ & Hstatus & _) & _ & Hin).
    exists st', initialVars. split; [exact Hrun|].
    split; [|split; [|split]].
    + intros i c Hi Hopt Hfail _. split.
      * specialize (Hin i c Hi). simpl in Hin. rewrite Hin.
        rewrite (passStart_pending commands st i Hstart)
          by (apply lookup_lt_Some in Hi; exact Hi).
        simpl. unfold doneStatus. rewrite Hfail. reflexivity.
      * intros c' Hc'. rewrite Hev, lookup_app_r by lia.
        replace (length (events st) + S i - length (events st)) with (S i) by lia.
        rewrite runEvents_lookup, Hc'. reflexivity.
    + discriminate.
    + reflexivity.
    + intros _. split; [reflexivity|]. intros fuel.
      eexists. split; [apply executeVerification_after_success; exact Hrun|].
      destruct (review_after_pass st') as (H1 & H2 & H3);
        [rewrite Hstatus; exact Hsome|].
      split; [exact H1|]. split; [exact H2|]. split; [exact H3|].
      unfold fixCount. rewrite H3, List.filter_app, length_app. simpl. lia.
  - destruct (passLoop_first_failure w attempt commands 0 initialVars st k c0 Hfirst)
      as (st' & Hrun & Hev & _ & _ & Hat & Hin).
    pose proof Hfirst as (Hk & Hfail & Hbefore).
    assert (Hklen : k < length commands) by (apply lookup_lt_Some in Hk; exact Hk).
    exists st', (failureVars (runCommand w attempt (0 + k) c0) c0).
    split; [exact Hrun|]. split; [|split; [|split]].
    + intros i c Hi Hopt Hfl Hreach.
      assert (Hik : i < k).
      { destruct (Nat.lt_trichotomy i k) as [Hlt|[Heq|Hgt]]; [exact Hlt| |].
        - subst i. rewrite Hk in Hi. injection Hi as ->.
          unfold requiredFailure in Hfail. rewrite Hopt in Hfail.
          rewrite andb_false_r in Hfail. discriminate.
        - specialize (Hreach k c0). rewrite lookup_take_lt in Hreach by exact Hgt.
          specialize (Hreach Hk). congruence. }
      split.
      * specialize (Hin i c Hik Hi). simpl in Hin. rewrite Hin.
        rewrite (passStart_pending commands st i Hstart) by lia.
        simpl. unfold doneStatus. rewrite Hfl. reflexivity.
      * intros c' Hc'. rewrite Hev, lookup_app_r by lia.
        replace (length (events st) + S i - length (events st)) with (S i) by lia.
        rewrite runEvents_lookup, lookup_take_lt by lia. rewrite Hc'. reflexivity.
    + intros _. exists k, c0. exact Hfirst.
    + intros Hno. specialize (Hno k c0 Hk). congruence.
    + intros Hall. exfalso. specialize (Hall k Hklen).
      simpl in Hat. rewrite Hat in Hall.
      rewrite (passStart_pending commands st k Hstart Hklen) in Hall.
      simpl in Hall. destruct Hall; discriminate.
Qed.

Lemma optional_failure_never_blocks_witness :
  exists st' vars,
    runPass secondFails 1 buildLint (initialState 3 buildLint) = (st', vars) /\
    (forall i c,
        buildLint !! i = Some c ->
        vc_optional c = true ->
        vr_success (runCommand secondFails 1 i c) = false ->
        noRequiredFailure secondFails 1 0 (take i buildLint) ->
        commandStatus st' i = Some Skipped /\
        forall c', buildLint !! (S i) = Some c' ->
                   events st' !! (length (events (initialState 3 buildLint)) + S i)
                   = Some (EvRun 1 (S i) c')) /\
    (allPassed vars = false ->
     exists k c, firstRequiredFailure secondFails 1 0 buildLint k c) /\
    (noRequiredFailure secondFails 1 0 buildLint -> allPassed vars = true) /\
    ((forall j, j < length buildLint ->
                commandStatus st' j = Some Passed \/ commandStatus st' j = Some Skipped) ->
     allPassed vars = true /\
     forall fuel,
       exists st'',
         executeVerification (S fuel) 3 secondFails buildLint 1 (initialState 3 buildLint)
         = Some st'' /\
         statusOf st'' = Some VPassed /\ phase st'' = Reviewing /\
         events st'' = events st' ++ [EvReview] /\
         fixCount st'' = fixCount st').
Proof.
  apply (optional_failure_never_blocks secondFails 3 1 buildLint
           (initialState 3 buildLint)).
  apply passStart_initialState. repeat constructor.
Defined.

(** The two scenarios of the specification, run from [runVerification]. *)
Example build_fails_scenario :
  option_map (fun st => (statusOf st, List.map (commandStatus st) [0; 1; 2], fixCount st))
    (runVerification 3 allFail buildTestLint)
  = Some (Some VFailed, [Some Failed; Some Pending; Some Pending], 2).
Proof. vm_compute. reflexivity. Qed.

Example optional_lint_fails_scenario :
  option_map (fun st => (statusOf st, List.map (commandStatus st) [0; 1], fixCount st,
                         phase st))
    (runVerification 3 secondFails buildLint)
  = Some (Some VPassed, [Some Passed; Some Skipped], 0, Reviewing).
Proof. vm_compute. reflexivity. Qed.

End VerifyFacts.

(** ** The verification executor *)

Module RunnerFacts.
Import JS Types Runner JSFacts.

(** The promise is settled by the first terminal event, on the output
    captured up to it. *)
Lemma settle_spec (command : VerificationCommand) (startTime : Z) :
  forall evs output,
    settle command startTime output evs
    = match firstTerminal evs with
      | Some (Close code now) =>
          Some {| vr_command := command;
                  vr_success := isZero code;
                  vr_output := truncateOutput (output ++ captured evs) maxOutputLength;
                  vr_exitCode := codeOr code 1;
                  vr_duration := now - startTime |}
      | Some (SpawnError message now) =>
          Some {| vr_command := command;
                  vr_success := false;
                  vr_output := js "Failed to run command: " ++ message ++ [nl]
                               ++ output ++ captured evs;
                  vr_exitCode := 1;
                  vr_duration := now - startTime |}
      | _ => None
      end.
Proof.
  induction evs as [|e evs IH]; intros output; simpl; [reflexivity|].
  destruct e as [data|data|code now|message now]; simpl.
  - rewrite IH, <- app_assoc. reflexivity.
  - rewrite IH, <- app_assoc. reflexivity.
  - rewrite app_nil_r. reflexivity.
  - rewrite app_nil_r. reflexivity.
Qed.

Lemma firstTerminal_terminal (evs : list ProcEvent) (e : ProcEvent) :
  firstTerminal evs = Some e ->
  (exists code now, e = Close code now) \/ (exists message now, e = SpawnError message now).
Proof.
  induction evs as [|x evs IH]; simpl; [discriminate|].
  destruct x; auto; intros [= <-]; eauto.
Qed.

Lemma truncateOutput_tail (output : jsstring) (n : nat) :
  n < length output ->
  truncateOutput output n = truncationMarker ++ sliceLast n output.
Proof.
  intros H. unfold truncateOutput.
  destruct (Nat.leb_spec (length output) n); [lia | reflexivity].
Qed.

Lemma truncateOutput_short (output : jsstring) (n : nat) :
  length output <= n -> truncateOutput output n = output.
Proof.
  intros H. unfold truncateOutput.
  destruct (Nat.leb_spec (length output) n); [reflexivity | lia].
Qed.

Lemma isZero_spec (code : option Z) : isZero code = true <-> code = Some 0%Z.
Proof.
  destruct code as [[| |]|]; simpl; split; congruence.
Qed.

(** Once [spawn] has returned the process, the promise of
    [runVerificationCommand] does not reject: when the process emits a
    terminal event it resolves, with success exactly when that event is a
    close with exit code 0; as a failed result with the synthetic exit code 1
    when it is a spawn error; and, when more than 10000 code units were
    captured, with an output that ends with the last 10000 code units of
    what was captured (after the truncation marker, on the close path). *)
Lemma runVerificationCommand_resolves (spawn : Spawn) (command : VerificationCommand)
  (directory : jsstring) (timeout startTime : Z) (evs : list ProcEvent) (e : ProcEvent) :
  spawn (vc_command command) directory (timeout * 1000)%Z = Spawns evs ->
  firstTerminal evs = Some e ->
  exists r,
    runVerificationCommand spawn command directory timeout startTime = Resolved r /\
    (vr_success r = true <-> exists now, e = Close (Some 0%Z) now) /\
    (forall code now, e = Close code now -> vr_exitCode r = codeOr code 1) /\
    (forall message now,
        e = SpawnError message now -> vr_success r = false /\ vr_exitCode r = 1%Z) /\
    (maxOutputLength < length (captured evs) ->
     (exists pre, vr_output r = pre ++ sliceLast maxOutputLength (captured evs)) /\
     (forall code now, e = Close code now ->
        vr_output r = truncationMarker ++ sliceLast maxOutputLength (captured evs))) /\
    (length (captured evs) <= maxOutputLength ->
     forall code now, e = Close code now -> vr_output r = captured evs).
Proof.
  intros Hspawn Hterm. unfold runVerificationCommand.
  rewrite Hspawn, settle_spec, Hterm. simpl.
  destruct (firstTerminal_terminal evs e Hterm)
    as [(code & now & ->)|(message & now & ->)].
  - eexists; split; [reflexivity|]. simpl.
    split; [|split; [|split; [|split]]].
    + rewrite isZero_spec. split.
      * intros ->. eauto.
      * intros [now' [= -> _]]. reflexivity.
    + intros code' now' [= -> _]. reflexivity.
    + intros message now' [=].
    + intros Hlong. rewrite (truncateOutput_tail _ _ Hlong). split.
      * eexists; reflexivity.
      * intros; reflexivity.
    + intros Hshort code' now' _. apply truncateOutput_short. exact Hshort.
  - eexists; split; [reflexivity|]. simpl.
    split; [|split; [|split; [|split]]].
    + split; [discriminate | intros [now' [=]]].
    + intros code now' [=].
    + intros message' now' _. split; reflexivity.
    + intros Hlong. split.
      * destruct (sliceLast_suffix maxOutputLength (captured evs)) as [pre Hpre].
        exists (js "Failed to run command: " ++ message ++ [nl] ++ pre).
        rewrite Hpre at 1. rewrite <- !app_assoc. reflexivity.
      * intros code now' [=].
    + intros _ code now' [=].
Qed.

(** The lemma at a run that captures 12000 code units and exits with 0. *)
Example long_run_resolves :
  exists r,
    runVerificationCommand alwaysLongRun exampleCommand (js "/repo") 300 100
    = Resolved r /\
    vr_success r = true /\ vr_exitCode r = 0%Z /\
    vr_output r = truncationMarker ++ sliceLast maxOutputLength (captured longRun).
Proof.
  destruct (runVerificationCommand_resolves alwaysLongRun exampleCommand (js "/repo")
              300 100 longRun (Close (Some 0%Z) 350) eq_refl eq_refl)
    as (r & Hr & Hs & Hc & _ & Hlong & _).
  exists r. split; [exact Hr|]. split; [apply Hs; eauto|].
  split; [apply (Hc (Some 0%Z) 350%Z eq_refl)|].
  assert (Hcap : maxOutputLength < length (captured longRun))
    by (apply Nat.ltb_lt; vm_compute; reflexivity).
  destruct (Hlong Hcap) as [_ Hout]. apply (Hout (Some 0%Z) 350%Z eq_refl).
Qed.

(** C8. The executor does reject. [spawn] is called inside the executor of
    the promise and nothing handles what it throws: with the timeout -1
    (which the configuration loader lets through) under a [spawn] that
    refuses a negative timeout, the promise of [runVerificationCommand]
    rejects, where the claim says it never does. With a timeout that is
    accepted the same call resolves. *)
Theorem negative_timeout_rejects :
  runVerificationCommand refusesNegativeTimeout exampleCommand (js "/repo") (-1) 100
  = Rejected (js "ERR_OUT_OF_RANGE") /\
  exists r,
    runVerificationCommand refusesNegativeTimeout exampleCommand (js "/repo") 300 100
    = Resolved r /\ vr_success r = true.
Proof.
  split; [reflexivity|]. eexists. split; reflexivity.
Qed.

(** The long run captured more than the cap, and a spawn failure that
    arrives as the error event resolves too. *)
Example longRun_exceeds_cap :
  Nat.ltb maxOutputLength (length (captured longRun)) = true.
Proof. vm_compute. reflexivity. Qed.

Example spawn_failure_resolves :
  match runVerificationCommand
          (fun _ _ _ => Spawns [SpawnError (js "spawn ENOENT") 101; Close (Some (-2)%Z) 102])
          exampleCommand (js "/repo") 300 100 with
  | Resolved r => Some (vr_success r, vr_exitCode r)
  | _ => None
  end = Some (false, 1%Z).
Proof. reflexivity. Qed.

End RunnerFacts.

(** ** The verification command discoverer *)

Module DiscoverFacts.
Import JS Types Regex Discover RegexFacts.

Lemma extractMakeTargets_total (content : jsstring) :
  exists targets, extractMakeTargets content = Some targets.
Proof.
  unfold extractMakeTargets.
  destruct (execAll_total targetRegex content eq_refl) as [ms ->].
  eexists; reflexivity.
Qed.

(** A block after the first does nothing once there are commands. *)
Lemma cargoBlock_skip (p : Project) (r : DiscoveryResult) :
  noCommandsYet r = false -> cargoBlock p r = r.
Proof. intros H. unfold cargoBlock. rewrite H, andb_false_r. reflexivity. Qed.

Lemma pyprojectBlock_skip (p : Project) (r : DiscoveryResult) :
  noCommandsYet r = false -> pyprojectBlock p r = r.
Proof. intros H. unfold pyprojectBlock. rewrite H. destruct (pyproject p); reflexivity. Qed.

Lemma goModBlock_skip (p : Project) (r : DiscoveryResult) :
  noCommandsYet r = false -> goModBlock p r = r.
Proof. intros H. unfold goModBlock. rewrite H, andb_false_r. reflexivity. Qed.

Lemma makefileBlock_skip (p : Project) (r : DiscoveryResult) :
  noCommandsYet r = false -> makefileBlock p r = Some r.
Proof. intros H. unfold makefileBlock. rewrite H. destruct (makefile p); reflexivity. Qed.

(** What each block yields when it is the first to find anything. *)
Ltac yield_cases :=
  unfold yieldOf; simpl;
  first [ split; [repeat constructor | left; split; reflexivity]
        | split; [repeat constructor | right; split; [discriminate | split; reflexivity]] ].

Lemma packageJson_yield (p : Project) :
  yieldOf (js "package.json") [Build; Typecheck; Test; Lint]
    (packageJsonBlock p emptyResult).
Proof.
  unfold packageJsonBlock.
  destruct (packageJson p) as [| |[b tc tc' t l]]; try yield_cases.
  destruct b, tc, tc', t, l; yield_cases.
Qed.

Lemma cargo_yield (p : Project) :
  yieldOf (js "Cargo.toml") [Build; Test; Lint] (cargoBlock p emptyResult).
Proof. unfold cargoBlock. destruct (cargoToml p); yield_cases. Qed.

Lemma pyproject_yield (p : Project) :
  yieldOf (js "pyproject.toml") [Test; Typecheck; Lint] (pyprojectBlock p emptyResult).
Proof.
  unfold pyprojectBlock.
  destruct (pyproject p) as [| |content]; try yield_cases.
  simpl.
  generalize (includes content (js "[tool.pytest]") || includes content (js "pytest")).
  generalize (includes content (js "[tool.mypy]") || includes content (js "mypy")).
  generalize (includes content (js "[tool.ruff]") || includes content (js "ruff")).
  intros b1 b2 b3. destruct b1, b2, b3; yield_cases.
Qed.

Lemma goMod_yield (p : Project) :
  yieldOf (js "go.mod") [Build; Test; Lint] (goModBlock p emptyResult).
Proof. unfold goModBlock. destruct (goMod p); yield_cases. Qed.

Lemma makefile_yield (p : Project) :
  exists y,
    makefileBlock p emptyResult = Some y /\
    yieldOf (js "Makefile") [Build; Test; Lint; Typecheck] y.
Proof.
  unfold makefileBlock.
  destruct (makefile p) as [| |content];
    try (eexists; split; [reflexivity | yield_cases]).
  simpl. destruct (extractMakeTargets_total content) as [targets ->].
  generalize (arrayIncludes targets (js "build")).
  generalize (arrayIncludes targets (js "test")).
  generalize (arrayIncludes targets (js "lint")).
  generalize (arrayIncludes targets (js "typecheck")).
  generalize (arrayIncludes targets (js "type-check")).
  intros b1 b2 b3 b4 b5.
  eexists; split; [reflexivity|].
  destruct b1, b2, b3, b4, b5; yield_cases.
Qed.

Lemma yield_empty (name : jsstring) (order : list CommandType) (y : DiscoveryResult) :
  yieldOf name order y -> noCommandsYet y = true -> y = emptyResult.
Proof.
  intros [_ [[Hc Hs]|[Hc _]]] Hno.
  - destruct y; simpl in *; subst; reflexivity.
  - unfold noCommandsYet in Hno. destruct (commands y); [congruence | discriminate].
Qed.

(** The blocks in sequence give the yield of the first manifest, in probing
    order, that yields a command. *)
Lemma discover_first_yield (p : Project) :
  discoverVerificationCommands p = firstYield (ecosystemYields p).
Proof.
  unfold discoverVerificationCommands, ecosystemYields. simpl.
  destruct (noCommandsYet (packageJsonBlock p emptyResult)) eqn:E1.
  2:{ rewrite (cargoBlock_skip _ _ E1), (pyprojectBlock_skip _ _ E1),
        (goModBlock_skip _ _ E1), (makefileBlock_skip _ _ E1). reflexivity. }
  rewrite (yield_empty _ _ _ (packageJson_yield p) E1).
  destruct (noCommandsYet (cargoBlock p emptyResult)) eqn:E2.
  2:{ rewrite (pyprojectBlock_skip _ _ E2),
        (goModBlock_skip _ _ E2), (makefileBlock_skip _ _ E2). reflexivity. }
  rewrite (yield_empty _ _ _ (cargo_yield p) E2).
  destruct (noCommandsYet (pyprojectBlock p emptyResult)) eqn:E3.
  2:{ rewrite (goModBlock_skip _ _ E3), (makefileBlock_skip _ _ E3). reflexivity. }
  rewrite (yield_empty _ _ _ (pyproject_yield p) E3).
  destruct (noCommandsYet (goModBlock p emptyResult)) eqn:E4.
  2:{ rewrite (makefileBlock_skip _ _ E4). reflexivity. }
  rewrite (yield_empty _ _ _ (goMod_yield p) E4).
  destruct (makefile_yield p) as (y & -> & Hy).
  destruct (noCommandsYet y) eqn:E5; [|reflexivity].
  rewrite (yield_empty _ _ _ Hy E5). reflexivity.
Qed.

(** C6, as the code has it. For every project, discovery returns, and its
    result is the yield of the first manifest, in the order package.json,
    Cargo.toml, pyproject.toml, go.mod, Makefile, that yields a command
    (ecosystems are never merged); every command is required exactly when it
    is a build or a test; and the commands stand in the fixed order of the
    winning manifest's block, which is build, typecheck, test, lint for
    package.json only. *)
Theorem discovery_first_ecosystem_wins (p : Project) :
  exists r,
    discoverVerificationCommands p = Some r /\
    firstYield (ecosystemYields p) = Some r /\
    Forall (fun c => optionalByType c = true) (commands r) /\
    ((commands r = [] /\ sources r = []) \/
     exists source order,
       In (source, order) ecosystemOrders /\
       commands r <> [] /\ sources r = [source] /\
       subsequence (List.map vc_type (commands r)) order = true).
Proof.
  rewrite discover_first_yield. unfold ecosystemYields. simpl.
  assert (Hgen : forall name order y,
    In (name, order) ecosystemOrders -> yieldOf name order y ->
    Forall (fun c => optionalByType c = true) (commands y) /\
    ((commands y = [] /\ sources y = []) \/
     exists source order,
       In (source, order) ecosystemOrders /\
       commands y <> [] /\ sources y = [source] /\
       subsequence (List.map vc_type (commands y)) order = true)).
  { intros name order y Hin [Hopt [Hempty|(Hne & Hsrc & Hsub)]].
    - split; [exact Hopt | left; exact Hempty].
    - split; [exact Hopt | right; exists name, order; auto]. }
  destruct (noCommandsYet (packageJsonBlock p emptyResult)) eqn:E1.
  2:{ eexists; split; [reflexivity|]. split; [reflexivity|].
      refine (Hgen _ _ _ _ (packageJson_yield p)); simpl; auto 10. }
  destruct (noCommandsYet (cargoBlock p emptyResult)) eqn:E2.
  2:{ eexists; split; [reflexivity|]. split; [reflexivity|].
      refine (Hgen _ _ _ _ (cargo_yield p)); simpl; auto 10. }
  destruct (noCommandsYet (pyprojectBlock p emptyResult)) eqn:E3.
  2:{ eexists; split; [reflexivity|]. split; [reflexivity|].
      refine (Hgen _ _ _ _ (pyproject_yield p)); simpl; auto 10. }
  destruct (noCommandsYet (goModBlock p emptyResult)) eqn:E4.
  2:{ eexists; split; [reflexivity|]. split; [reflexivity|].
      refine (Hgen _ _ _ _ (goMod_yield p)); simpl; auto 10. }
  destruct (makefile_yield p) as (y & -> & Hy).
  destruct (noCommandsYet y) eqn:E5.
  - eexists; split; [reflexivity|]. split; [reflexivity|].
    split; [constructor | left; split; reflexivity].
  - eexists; split; [reflexivity|]. split; [reflexivity|].
    refine (Hgen _ _ _ _ Hy); simpl; auto 10.
Qed.

(** C6 as stated fails: a [pyproject.toml] that configures pytest and mypy
    yields the test command before the typecheck command, which is not the
    priority build, typecheck, test, lint. *)
Lemma discovery_order_counterexample :
  exists r,
    discoverVerificationCommands pythonProject = Some r /\
    List.map vc_type (commands r) = [Test; Typecheck] /\
    inTypePriority (commands r) = false.
Proof. eexists. split; [vm_compute; reflexivity|]. split; reflexivity. Qed.

(** The Makefile block puts the typecheck command last. *)
Example makefile_order :
  option_map (fun r => List.map vc_type (commands r))
    (discoverVerificationCommands makeProject)
  = Some [Build; Test; Lint; Typecheck].
Proof. vm_compute. reflexivity. Qed.

End DiscoverFacts.

(** ** What the first match of a pattern is *)

Module MatchFacts.
Import JS Regex RegexFacts.

Lemma Leads_seq (r1 r2 : regex) s cs s1 cs1 s2 cs2 :
  Leads r1 s cs s1 cs1 -> Leads r2 s1 cs1 s2 cs2 -> Leads (Seq r1 r2) s cs s2 cs2.
Proof.
  intros H1 H2 p.
  destruct (H1 p) as (p1 & tl1 & E1). destruct (H2 p1) as (p2 & tl2 & E2).
  exists p2. simpl. rewrite E1. simpl. rewrite E2. simpl. eauto.
Qed.

Lemma Leads_chr (pr : N -> bool) c s cs :
  pr c = true -> Leads (Chr pr) (c :: s) cs s cs.
Proof. intros H p. simpl. rewrite H. eauto. Qed.

Lemma Leads_lit (eq : N -> N -> bool) (w : jsstring) s cs :
  (forall c, eq c c = true) -> Leads (LitBy eq w) (w ++ s) cs s cs.
Proof.
  intros Hrefl. induction w as [|c w IH].
  - intros p. simpl. eauto.
  - simpl. eapply Leads_seq; [apply Leads_chr; apply Hrefl | exact IH].
Qed.

Lemma Fails_lit (eq : N -> N -> bool) (w : jsstring) :
  forall s, startsWithBy eq w s = false -> Fails (LitBy eq w) s.
Proof.
  induction w as [|c w IH]; intros s H; [discriminate|].
  intros p cs. simpl. destruct s as [|d s]; [reflexivity|].
  simpl in H. destruct (eq c d); simpl; [|reflexivity].
  rewrite (IH s H). reflexivity.
Qed.

Lemma Fails_seq (r1 r2 : regex) s : Fails r1 s -> Fails (Seq r1 r2) s.
Proof. intros H p cs. simpl. rewrite H. reflexivity. Qed.

Lemma Fails_alt (r1 r2 : regex) s : Fails r1 s -> Fails r2 s -> Fails (Alt r1 r2) s.
Proof. intros H1 H2 p cs. simpl. rewrite H1, H2. reflexivity. Qed.

Lemma Fails_lookahead (r : regex) s : Fails r s -> Fails (Lookahead r) s.
Proof. intros H p cs. simpl. rewrite H. reflexivity. Qed.

Lemma Fails_eol c s : Fails Eol (c :: s).
Proof. intros p cs. reflexivity. Qed.

Lemma Leads_alt_l (r1 r2 : regex) s cs s' cs' :
  Leads r1 s cs s' cs' -> Leads (Alt r1 r2) s cs s' cs'.
Proof.
  intros H p. destruct (H p) as (p' & tl & E). simpl. rewrite E. simpl. eauto.
Qed.

Lemma Leads_alt_r (r1 r2 : regex) s cs s' cs' :
  Fails r1 s -> Leads r2 s cs s' cs' -> Leads (Alt r1 r2) s cs s' cs'.
Proof.
  intros H1 H2 p. destruct (H2 p) as (p' & tl & E). simpl. rewrite H1, E. simpl. eauto.
Qed.

Lemma Leads_lookahead (r : regex) s cs s' cs' :
  Leads r s cs s' cs' -> Leads (Lookahead r) s cs s cs.
Proof.
  intros H p. destruct (H p) as (p' & tl & E). simpl. rewrite E. eauto.
Qed.

Lemma Leads_eol cs : Leads Eol [] cs [] cs.
Proof. intros p. simpl. eauto. Qed.

Lemma starLoop_S (step : mstate -> list mstate) (g : bool) (n : nat) (st : mstate) :
  starLoop step g (S n) st
  = (let more := List.flat_map (starLoop step g n)
                   (List.filter (progress st) (step st)) in
     if g then more ++ [st] else st :: more).
Proof. reflexivity. Qed.

Lemma run_chr_cons (pr : N -> bool) p c s cs :
  run (Chr pr) (at_ p (c :: s) cs) = if pr c then [at_ (Some c) s cs] else [].
Proof. reflexivity. Qed.

Lemma run_chr_nil (pr : N -> bool) p cs : run (Chr pr) (at_ p [] cs) = [].
Proof. reflexivity. Qed.

Lemma progress_cons p c s cs p' cs' :
  progress (at_ p (c :: s) cs) (at_ p' s cs') = true.
Proof. unfold progress; simpl. apply Nat.ltb_lt. lia. Qed.

(** A greedy class star takes the whole run of the class first. *)
Lemma starLoop_class (pr : N -> bool) :
  forall us s,
    forallb pr us = true -> headFails pr s = true ->
    forall fuel p cs,
      length (us ++ s) <= fuel ->
      exists p' tl,
        starLoop (run (Chr pr)) true fuel (at_ p (us ++ s) cs)
        = at_ p' s cs :: tl.
Proof.
  induction us as [|c us IH]; intros s Hus Hs fuel p cs Hfuel.
  - simpl app. destruct fuel as [|n]; [simpl; eauto|].
    rewrite starLoop_S.
    destruct s as [|d s].
    + rewrite run_chr_nil. simpl. eauto.
    + simpl in Hs. apply negb_true_iff in Hs.
      rewrite run_chr_cons, Hs. simpl. eauto.
  - simpl in Hus. apply andb_true_iff in Hus as [Hc Hus].
    destruct fuel as [|n]; [simpl in Hfuel; lia|].
    simpl in Hfuel.
    destruct (IH s Hus Hs n (Some c) cs ltac:(lia)) as (p' & tl & E).
    exists p'. rewrite starLoop_S.
    change ((c :: us) ++ s) with (c :: (us ++ s)).
    rewrite run_chr_cons, Hc.
    cbn [List.filter]. rewrite progress_cons.
    cbn [List.flat_map]. rewrite E. simpl. eauto.
Qed.

Lemma Leads_star_class (pr : N -> bool) us s cs :
  forallb pr us = true -> headFails pr s = true ->
  Leads (Star true (Chr pr)) (us ++ s) cs s cs.
Proof.
  intros Hus Hs p. change (Regex.run (Star true (Chr pr)) (at_ p (us ++ s) cs))
    with (starLoop (Regex.run (Chr pr)) true (length (us ++ s)) (at_ p (us ++ s) cs)).
  apply starLoop_class; auto.
Qed.

Lemma Leads_plus_class (pr : N -> bool) us s cs :
  us <> [] -> forallb pr us = true -> headFails pr s = true ->
  Leads (Plus true (Chr pr)) (us ++ s) cs s cs.
Proof.
  intros Hne Hus Hs. destruct us as [|c us]; [contradiction|].
  simpl in Hus. apply andb_true_iff in Hus as [Hc Hus].
  unfold Plus. eapply Leads_seq.
  - simpl app. apply Leads_chr. exact Hc.
  - apply Leads_star_class; assumption.
Qed.

(** A group records the text its pattern passed over. *)
Lemma Leads_group (r : regex) a s cs :
  Leads r (a ++ s) cs s cs -> Leads (Group r) (a ++ s) cs s (cs ++ [a]).
Proof.
  intros H p. destruct (H p) as (p' & tl & E). simpl. rewrite E. simpl.
  exists p'. eexists. f_equal. unfold capture, at_. simpl. f_equal. f_equal. f_equal.
  rewrite length_app. replace (length a + length s - length s) with (length a) by lia.
  apply take_app_length.
Qed.

(** The lazy star over any unit offers every position, nearest first. *)
Lemma anyUnit_true c : isWhiteSpace c || negb (isWhiteSpace c) = true.
Proof. apply orb_negb_r. Qed.

Lemma starLoop_lazy_any :
  forall s fuel p cs,
    length s <= fuel ->
    starLoop (run anyUnit) false fuel (at_ p s cs) = suffixStates p s cs.
Proof.
  induction s as [|c s IH]; intros fuel p cs Hfuel.
  - destruct fuel; reflexivity.
  - destruct fuel as [|n]; [simpl in Hfuel; lia|]. simpl in Hfuel.
    rewrite starLoop_S. unfold anyUnit at 2.
    rewrite run_chr_cons, anyUnit_true.
    cbn [List.filter]. rewrite progress_cons.
    cbn [List.flat_map]. rewrite app_nil_r.
    rewrite IH by lia. reflexivity.
Qed.

Lemma lazy_scan (k : regex) (whole b : jsstring) (cs : list jsstring) s' cs' p0 :
  forall a pre p,
    whole = pre ++ a ++ b ->
    (forall i, i < length a -> Fails k (drop i (a ++ b))) ->
    Leads k b (cs ++ [pre ++ a]) s' cs' ->
    exists p' tl,
      List.flat_map (run k)
        (List.map (capture (at_ p0 whole cs)) (suffixStates p (a ++ b) cs))
      = at_ p' s' cs' :: tl.
Proof.
  induction a as [|c a IH]; intros pre p Hwhole Hfail Hk.
  - simpl app in *. rewrite app_nil_r in Hk.
    destruct (Hk p) as (p' & tl & E). exists p'.
    assert (Hcap : capture (at_ p0 whole cs) (at_ p b cs) = at_ p b (cs ++ [pre])).
    { unfold capture, at_; simpl. f_equal. f_equal. f_equal. subst whole.
      rewrite length_app.
      replace (length pre + length b - length b) with (length pre) by lia.
      apply take_app_length. }
    destruct b as [|d b]; simpl; rewrite Hcap, E; simpl; eauto.
  - simpl app. simpl suffixStates. simpl List.map. simpl List.flat_map.
    assert (H0 : run k (capture (at_ p0 whole cs) (at_ p (c :: a ++ b) cs)) = []).
    { unfold capture. simpl. apply (Hfail 0). simpl; lia. }
    rewrite H0. simpl.
    apply (IH (pre ++ [c]) (Some c)).
    + rewrite Hwhole, <- app_assoc. reflexivity.
    + intros i Hi. apply (Hfail (S i)). simpl; lia.
    + rewrite <- app_assoc. exact Hk.
Qed.

Lemma Leads_lazy_then (k : regex) a b cs s' cs' :
  (forall i, i < length a -> Fails k (drop i (a ++ b))) ->
  Leads k b (cs ++ [a]) s' cs' ->
  Leads (Seq (Group (Star false anyUnit)) k) (a ++ b) cs s' cs'.
Proof.
  intros Hfail Hk p.
  change (run (Seq (Group (Star false anyUnit)) k) (at_ p (a ++ b) cs))
    with (List.flat_map (run k)
            (List.map (capture (at_ p (a ++ b) cs))
               (starLoop (run anyUnit) false (length (a ++ b)) (at_ p (a ++ b) cs)))).
  rewrite starLoop_lazy_any by lia.
  apply (lazy_scan k (a ++ b) b cs s' cs' p a [] p); auto.
Qed.

(** *** Free positions *)

Lemma clashes_startsWith (eq : N -> N -> bool) :
  forall w t x, clashes eq w t = true -> startsWithBy eq w (t ++ x) = false.
Proof.
  induction w as [|c w IH]; intros t x H; [discriminate|].
  destruct t as [|d t]; [discriminate|]. simpl in *.
  destruct (eq c d); simpl; [apply IH; exact H | reflexivity].
Qed.

Lemma freeUpTo_nil (eq : N -> N -> bool) w s : freeUpTo eq w 0 s.
Proof. intros i Hi; lia. Qed.

Lemma freeUpTo_concrete (eq : N -> N -> bool) w :
  forall a x, clashesAll eq w a = true -> freeUpTo eq w (length a) (a ++ x).
Proof.
  induction a as [|c a IH]; intros x H i Hi; [simpl in Hi; lia|].
  simpl in H. apply andb_true_iff in H as [H0 H].
  destruct i as [|i].
  - simpl drop. apply (clashes_startsWith eq w (c :: a) x H0).
  - simpl. apply IH; [exact H | simpl in Hi; lia].
Qed.

Lemma freeUpTo_app (eq : N -> N -> bool) w a s n :
  freeUpTo eq w (length a) (a ++ s) -> freeUpTo eq w n s ->
  freeUpTo eq w (length a + n) (a ++ s).
Proof.
  intros Ha Hs i Hi. destruct (Nat.lt_ge_cases i (length a)) as [Hlt|Hge].
  - apply Ha; exact Hlt.
  - rewrite drop_app_ge by exact Hge. apply Hs. lia.
Qed.

Lemma startsWithBy_extend (eq : N -> N -> bool) d x :
  forall w t,
    t <> [] -> startsWithBy eq w t = false -> noneMatch eq w d = true ->
    startsWithBy eq w (t ++ d :: x) = false.
Proof.
  induction w as [|c w IH]; intros t Ht H Hd; [discriminate|].
  destruct t as [|e t]; [contradiction|]. simpl in *.
  destruct (eq c e); simpl; [|reflexivity].
  unfold noneMatch in Hd. simpl in Hd.
  destruct t as [|e' t].
  - destruct w as [|c' w]; [discriminate|]. simpl.
    simpl in Hd. apply andb_true_iff in Hd as [Hd _].
    apply negb_true_iff in Hd. rewrite Hd. reflexivity.
  - apply IH; [discriminate | exact H |].
    unfold noneMatch. destruct w as [|c' w]; [reflexivity|].
    simpl in Hd. apply andb_true_iff in Hd as [_ Hd]. exact Hd.
Qed.

Lemma includesBy_false (eq : N -> N -> bool) w :
  forall v i, includesBy eq v w = false -> startsWithBy eq w (drop i v) = false.
Proof.
  induction v as [|c v IH]; intros i H.
  - rewrite drop_nil. simpl in H. apply orb_false_iff in H as [H _]. exact H.
  - simpl in H. apply orb_false_iff in H as [H0 H].
    destruct i as [|i]; [exact H0 | simpl; apply IH; exact H].
Qed.

(** A value free of [w] stays free when followed by a unit that continues
    no occurrence of [w]. *)
Lemma freeUpTo_value (eq : N -> N -> bool) w v d x :
  includesBy eq v w = false -> noneMatch eq w d = true ->
  freeUpTo eq w (length v) (v ++ d :: x).
Proof.
  intros Hv Hd i Hi. rewrite drop_app_le by lia.
  apply startsWithBy_extend; [|apply includesBy_false; exact Hv | exact Hd].
  intros E. apply (f_equal length) in E. rewrite length_drop in E. simpl in E. lia.
Qed.

(** *** Searching and scanning *)

Lemma searchFrom_eq (r : regex) p s :
  searchFrom r p s
  = match run r (at_ p s []) with
    | st' :: _ => Some st'
    | [] => match s with
            | [] => None
            | c :: s' => searchFrom r (Some c) s'
            end
    end.
Proof. destruct s; reflexivity. Qed.

Lemma Finds_here (r : regex) s s' cs' : Leads r s [] s' cs' -> Finds r s s' cs'.
Proof.
  intros H p. destruct (H p) as (p' & tl & E).
  exists p'. rewrite searchFrom_eq, E. reflexivity.
Qed.

Lemma Finds_skip (r : regex) s' cs' :
  forall a s,
    (forall i, i < length a -> Fails r (drop i (a ++ s))) ->
    Finds r s s' cs' -> Finds r (a ++ s) s' cs'.
Proof.
  induction a as [|c a IH]; intros s Hfail H; [exact H|].
  intros p. rewrite searchFrom_eq.
  pose proof (Hfail 0 ltac:(simpl; lia) p []) as H0. rewrite drop_0 in H0.
  rewrite H0. cbn [app].
  apply IH; [|exact H]. intros i Hi. apply (Hfail (S i)). simpl; lia.
Qed.

Lemma NotFound_end (r : regex) : Fails r [] -> NotFound r [].
Proof. intros H p. rewrite searchFrom_eq, (H p []). reflexivity. Qed.

Lemma NotFound_skip (r : regex) :
  forall a s,
    (forall i, i < length a -> Fails r (drop i (a ++ s))) ->
    NotFound r s -> NotFound r (a ++ s).
Proof.
  induction a as [|c a IH]; intros s Hfail H; [exact H|].
  intros p. rewrite searchFrom_eq.
  pose proof (Hfail 0 ltac:(simpl; lia) p []) as H0. rewrite drop_0 in H0.
  rewrite H0. cbn [app].
  apply IH; [|exact H]. intros i Hi. apply (Hfail (S i)). simpl; lia.
Qed.

Lemma execLoop_found (r : regex) s s' cs' ms :
  mayMatchEmpty r = false ->
  Finds r s s' cs' ->
  (forall p, execLoop (S (length s')) r p s' = Some ms) ->
  forall p, execLoop (S (length s)) r p s = Some (cs' :: ms).
Proof.
  intros Hne Hfind Hrest p. destruct (Hfind p) as (p' & E).
  pose proof (searchFrom_lt r Hne _ _ _ E) as Hlt. simpl in Hlt.
  simpl. rewrite E. simpl.
  destruct (Nat.ltb_spec (length s') (length s)); [|lia].
  rewrite (execLoop_fuel r Hne (length s) (S (length s')) p' s') by lia.
  rewrite Hrest. reflexivity.
Qed.

Lemma execLoop_not_found (r : regex) s n p :
  NotFound r s -> execLoop (S n) r p s = Some [].
Proof. intros H. simpl. rewrite H. reflexivity. Qed.

End MatchFacts.

(** ** The markdown parsers *)

Module RunManagerFacts.
Import JS Types Regex RunManager JSFacts RegexFacts MatchFacts.

(** *** Totality *)

Lemma blockRegex_consumes : mayMatchEmpty blockRegex = false.
Proof. reflexivity. Qed.

Lemma parseFindingsMarkdown_total (content : jsstring) :
  exists blocks,
    execAll issueRegex content = Some blocks /\
    parseFindingsMarkdown content = Some (imap findingOfMatch blocks).
Proof.
  destruct (execAll_total issueRegex content blockRegex_consumes) as [blocks H].
  exists blocks. split; [exact H|]. unfold parseFindingsMarkdown. rewrite H. reflexivity.
Qed.

(** *** A field whose label is missing *)

Lemma Fails_fieldRegex (field s : jsstring) :
  startsWithI (label field) s = false -> Fails (fieldRegex field) s.
Proof. intros H. apply Fails_seq, Fails_lit. exact H. Qed.

Lemma fails_of_free (field : jsstring) (n : nat) (s : jsstring) :
  freeUpTo eqbI (label field) n s ->
  forall i, i < n -> Fails (fieldRegex field) (drop i s).
Proof. intros H i Hi. apply Fails_fieldRegex. apply H. exact Hi. Qed.

Lemma NotFound_fieldRegex (field : jsstring) :
  forall text, hasLabel text field = false -> NotFound (fieldRegex field) text.
Proof.
  unfold hasLabel, includesI.
  induction text as [|c text IH]; intros H.
  - apply NotFound_end. apply Fails_fieldRegex. reflexivity.
  - simpl in H. apply orb_false_iff in H as [H0 H].
    intros p. rewrite searchFrom_eq.
    rewrite (Fails_fieldRegex field (c :: text) H0 p []).
    apply IH. exact H.
Qed.

Lemma extractField_missing (text field : jsstring) :
  hasLabel text field = false -> extractField text field = None.
Proof.
  intros H. unfold extractField, matchFirst.
  rewrite (NotFound_fieldRegex field text H None). reflexivity.
Qed.

(** C9, as amended. Missing-field tolerance. On every input the findings
    parser returns: its loop ends and every block the pattern matches
    becomes a record, none is rejected. In the record of a block, a field
    whose label occurs nowhere in the block body (in any letter case) takes
    its default: no line for Line, 'unknown' for File, the empty string for
    Description, and 'style-inconsistency' for Category. *)
Theorem findings_parser_tolerates_missing_fields (content : jsstring) :
  exists blocks items,
    execAll issueRegex content = Some blocks /\
    parseFindingsMarkdown content = Some items /\
    length items = length blocks /\
    forall (index : nat) (m : list jsstring),
      blocks !! index = Some m ->
      exists item,
        items !! index = Some item /\
        (hasLabel (nth 2 m []) (js "Line") = false -> si_line item = None) /\
        (hasLabel (nth 2 m []) (js "File") = false -> si_file item = js "unknown") /\
        (hasLabel (nth 2 m []) (js "Description") = false ->
         si_description item = []) /\
        (hasLabel (nth 2 m []) (js "Category") = false ->
         si_category item = js "style-inconsistency").
Proof.
  destruct (parseFindingsMarkdown_total content) as (blocks & Hexec & Hparse).
  exists blocks, (imap findingOfMatch blocks).
  split; [exact Hexec|]. split; [exact Hparse|]. split; [apply length_imap|].
  intros index m Hm. exists (findingOfMatch index m).
  split; [apply list_lookup_imap_Some; exists m; split; [exact Hm | reflexivity]|].
  unfold findingOfMatch. cbn [si_line si_file si_description si_category].
  split; [|split; [|split]]; intros H;
    rewrite (extractField_missing _ _ H); reflexivity.
Qed.

(** C9 as stated fails: a block that has no File bullet and no Line bullet,
    but whose description quotes the two labels. The field pattern is
    searched in the whole body, so the record gets the quoted text as its
    file instead of 'unknown', and the line 7 instead of no line. *)
Lemma missing_bullets_counterexample :
  exists body item,
    execAll issueRegex quotedLabels = Some [[js "LOW"; js "Stale note"; body]] /\
    parseFindingsMarkdown quotedLabels = Some [item] /\
    hasBullet body (js "File") = false /\
    hasBullet body (js "Line") = false /\
    si_file item = js "legacy.ts / **Line:** 7" /\
    si_file item <> js "unknown" /\
    si_line item = Some 7%Z.
Proof.
  eexists _, _. split; [vm_compute; reflexivity|].
  split; [vm_compute; reflexivity|].
  split; [vm_compute; reflexivity|]. split; [vm_compute; reflexivity|].
  split; [reflexivity|]. split; [discriminate | reflexivity].
Qed.

(** A block without a line bullet, and one with no bullets at all. *)
Example missing_line_parses :
  option_map (List.map (fun item => (si_title item, si_file item, si_line item)))
    (parseFindingsMarkdown
       (js "### 1. [LOW] Any cast" ++ [nl] ++ js "- **File:** src/b.ts" ++ [nl] ++
        js "- **Category:** any-cast" ++ [nl] ++
        js "### 2. [HIGH] Bare heading" ++ [nl]))
  = Some [(js "Any cast", js "src/b.ts", None); (js "Bare heading", js "unknown", None)].
Proof. vm_compute. reflexivity. Qed.

(** *** The review sentinel *)

(** C10. The review sentinel overrides the blocks. A document that contains
    'No suggestions', 'NO_SUGGESTIONS' or 'looks good' anywhere parses to the
    empty suggestion list, whatever suggestion blocks it also contains. *)
Theorem review_sentinel_overrides_blocks (content : jsstring) :
  includes content (js "No suggestions") = true \/
  includes content (js "NO_SUGGESTIONS") = true \/
  includes content (js "looks good") = true ->
  parseReviewMarkdown content = Some [].
Proof.
  intros H. unfold parseReviewMarkdown, hasNoSuggestionsMarker.
  destruct H as [->|[->| ->]]; rewrite ?orb_true_r; reflexivity.
Qed.

Lemma review_sentinel_overrides_blocks_witness :
  parseReviewMarkdown reviewWithSentinel = Some [].
Proof.
  apply (review_sentinel_overrides_blocks reviewWithSentinel).
  right; right. vm_compute. reflexivity.
Defined.

(** The document of the witness holds a well-formed suggestion block, which
    the block pattern matches. *)
Example reviewWithSentinel_has_block :
  option_map (List.map (fun m => nth 1 m [])) (execAll suggestionRegex reviewWithSentinel)
  = Some [js "Incomplete fix"].
Proof. vm_compute. reflexivity. Qed.

End RunManagerFacts.

(** ** The findings round trip *)

Module RoundTrip.
Import JS Types Regex RunManager JSFacts RegexFacts MatchFacts RunManagerFacts.

(** *** Code units *)

Lemma digit_range (c : N) : isDigit c = true -> (48 <= c <= 57)%N.
Proof.
  unfold isDigit. rewrite andb_true_iff, !N.leb_le. tauto.
Qed.

Ltac decide_units c :=
  repeat match goal with
  | |- context [N.eqb c ?k] =>
      replace (N.eqb c k) with false by (symmetry; apply N.eqb_neq; lia)
  | |- context [N.eqb ?k c] =>
      replace (N.eqb k c) with false by (symmetry; apply N.eqb_neq; lia)
  | |- context [N.leb ?k c] =>
      first [ replace (N.leb k c) with false by (symmetry; apply N.leb_gt; lia)
            | replace (N.leb k c) with true by (symmetry; apply N.leb_le; lia) ]
  | |- context [N.leb c ?k] =>
      first [ replace (N.leb c k) with false by (symmetry; apply N.leb_gt; lia)
            | replace (N.leb c k) with true by (symmetry; apply N.leb_le; lia) ]
  end.

Lemma digit_not_space (c : N) : isDigit c = true -> isWhiteSpace c = false.
Proof.
  intros H. apply digit_range in H. unfold isWhiteSpace.
  decide_units c. reflexivity.
Qed.

Lemma digit_not_terminator (c : N) : isDigit c = true -> isLineTerminator c = false.
Proof.
  intros H. apply digit_range in H. unfold isLineTerminator.
  decide_units c. reflexivity.
Qed.

Lemma digit_not_hash (c : N) : isDigit c = true -> N.eqb 35 c = false.
Proof. intros H. apply digit_range in H. apply N.eqb_neq. lia. Qed.

Lemma digit_not_star (c : N) : isDigit c = true -> eqbI 42 c = false.
Proof.
  intros H. apply digit_range in H.
  assert (Hc : canon c = c).
  { unfold canon.
    replace (N.leb 97 c) with false by (symmetry; apply N.leb_gt; lia).
    reflexivity. }
  unfold eqbI. rewrite Hc. change (canon 42) with 42%N.
  apply N.eqb_neq. lia.
Qed.

Lemma forallb_last (P : N -> bool) (v : jsstring) (d : N) :
  v <> [] -> forallb P v = true -> P (List.last v d) = true.
Proof.
  intros Hne H. rewrite forallb_forall in H. apply H.
  destruct (exists_last Hne) as (v0 & z & ->).
  rewrite List.last_last. apply in_or_app. right; left; reflexivity.
Qed.

Lemma rev_head_last (v : jsstring) (d : N) :
  v <> [] -> exists t, rev v = List.last v d :: t.
Proof.
  intros Hne. destruct (exists_last Hne) as (v0 & z & ->).
  rewrite rev_app_distr, List.last_last. simpl. eauto.
Qed.

Lemma plain_inv (v : jsstring) :
  plain v = true ->
  exists c v',
    v = c :: v' /\ isWhiteSpace c = false /\
    isWhiteSpace (List.last v c) = false /\
    forallb (fun u => negb (isLineTerminator u)) v = true.
Proof.
  unfold plain. destruct v as [|c v']; [discriminate|].
  rewrite !andb_true_iff, !negb_true_iff. intros [[H1 H2] H3].
  exists c, v'. auto.
Qed.

Lemma plain_nonempty (v : jsstring) : plain v = true -> v <> [].
Proof. destruct v; [discriminate | discriminate]. Qed.

Lemma plain_trim (v : jsstring) : plain v = true -> trim v = v.
Proof.
  intros H. destruct (plain_inv v H) as (c & v' & -> & Hc & Hl & _).
  unfold trim.
  assert (H1 : trimStart (c :: v') = c :: v')
    by (cbn [trimStart]; rewrite Hc; reflexivity).
  rewrite H1. unfold trimEnd.
  destruct (rev_head_last (c :: v') c ltac:(discriminate)) as [t Ht].
  rewrite Ht.
  assert (H2 : trimStart (List.last (c :: v') c :: t) = List.last (c :: v') c :: t)
    by (cbn [trimStart]; rewrite Hl; reflexivity).
  rewrite H2, <- Ht. apply rev_involutive.
Qed.

(** *** Numbers *)

Lemma unitsOfUint_digits (u : Decimal.uint) : forallb isDigit (unitsOfUint u) = true.
Proof. induction u; simpl; auto. Qed.

Lemma unitsOfUint_nonempty (u : Decimal.uint) :
  u <> Decimal.Nil -> unitsOfUint u <> [].
Proof. destruct u; simpl; congruence. Qed.

Lemma numberToString_digits (n : N) : forallb isDigit (numberToString n) = true.
Proof. apply unitsOfUint_digits. Qed.

Lemma numberToString_nonempty (n : N) : numberToString n <> [].
Proof.
  unfold numberToString. apply unitsOfUint_nonempty.
  destruct n as [|p]; simpl; [discriminate|].
  apply DecimalPos.Unsigned.to_uint_nonnil.
Qed.

Lemma parseDigits_acc (d : Decimal.uint) :
  forall acc,
    parseDigits (Some (Z.pos acc)) (unitsOfUint d)
    = Some (Z.pos (Pos.of_uint_acc d acc)).
Proof.
  induction d; intros acc; simpl; [reflexivity| | | | | | | | | |];
    rewrite <- IHd; f_equal; f_equal; lia.
Qed.

Lemma parseDigits_zero (d : Decimal.uint) :
  parseDigits (Some 0%Z) (unitsOfUint d) = Some (Z.of_N (Pos.of_uint d)).
Proof.
  induction d; simpl; [reflexivity | exact IHd | | | | | | | | |];
    apply parseDigits_acc.
Qed.

Lemma parseDigits_start (d : Decimal.uint) :
  d <> Decimal.Nil ->
  parseDigits None (unitsOfUint d) = Some (Z.of_N (Pos.of_uint d)).
Proof.
  destruct d; try congruence; intros _; simpl;
    first [apply parseDigits_zero | apply parseDigits_acc].
Qed.

Lemma parseInt10_numberToString (n : N) :
  parseInt10 (numberToString n) = Some (Z.of_N n).
Proof.
  pose proof (numberToString_nonempty n) as Hne.
  pose proof (numberToString_digits n) as Hd.
  unfold parseInt10.
  destruct (numberToString n) as [|c s] eqn:E; [contradiction|].
  simpl in Hd. apply andb_true_iff in Hd as [Hc _].
  cbn [trimStart]. rewrite (digit_not_space c Hc).
  pose proof (digit_range c Hc) as Hr.
  replace (N.eqb c 45) with false by (symmetry; apply N.eqb_neq; lia).
  replace (N.eqb c 43) with false by (symmetry; apply N.eqb_neq; lia).
  rewrite <- E. unfold numberToString.
  rewrite parseDigits_start.
  - f_equal. f_equal. apply DecimalN.Unsigned.of_to.
  - destruct n as [|p]; simpl; [discriminate|].
    apply DecimalPos.Unsigned.to_uint_nonnil.
Qed.


(** *** Clean values *)

Lemma includesBy_no_head (eq : N -> N -> bool) (h : N) (w : jsstring) :
  forall v, forallb (fun c => negb (eq h c)) v = true ->
            includesBy eq v (h :: w) = false.
Proof.
  induction v as [|c v IH]; intros H; [reflexivity|].
  simpl in H. apply andb_true_iff in H as [Hc H].
  apply negb_true_iff in Hc. simpl. rewrite Hc. simpl. apply IH. exact H.
Qed.

Lemma forallb_impl (P Q : N -> bool) (v : jsstring) :
  (forall c, P c = true -> Q c = true) -> forallb P v = true -> forallb Q v = true.
Proof.
  intros HPQ. induction v as [|c v IH]; simpl; [reflexivity|].
  rewrite !andb_true_iff. intros [Hc Hv]. auto.
Qed.

Lemma label_head (field : jsstring) :
  label field = 42%N :: 42%N :: field ++ js ":**".
Proof. reflexivity. Qed.

Lemma digits_clean (v : jsstring) :
  v <> [] -> forallb isDigit v = true -> cleanValue v = true.
Proof.
  intros Hne Hd. unfold cleanValue. rewrite !andb_true_iff. split; [split|].
  - unfold plain. destruct v as [|c v']; [contradiction|].
    rewrite !andb_true_iff, !negb_true_iff. split; [split|].
    + apply digit_not_space. simpl in Hd. apply andb_true_iff in Hd. tauto.
    + apply digit_not_space. apply (forallb_last isDigit); [discriminate | exact Hd].
    + apply (forallb_impl isDigit); [|exact Hd].
      intros u Hu. apply negb_true_iff. apply digit_not_terminator. exact Hu.
  - apply negb_true_iff. unfold includes.
    change (js "## ") with (35%N :: js "# ").
    apply includesBy_no_head. apply (forallb_impl isDigit); [|exact Hd].
    intros u Hu. apply negb_true_iff. apply digit_not_hash. exact Hu.
  - apply forallb_forall. intros f _. apply negb_true_iff.
    unfold hasLabel, includesI. rewrite label_head.
    apply includesBy_no_head. apply (forallb_impl isDigit); [|exact Hd].
    intros u Hu. apply negb_true_iff. apply digit_not_star. exact Hu.
Qed.

Lemma cleanValue_inv (v : jsstring) :
  cleanValue v = true ->
  plain v = true /\ includes v (js "## ") = false /\
  forall f, In f fieldNames -> hasLabel v f = false.
Proof.
  unfold cleanValue. rewrite !andb_true_iff, negb_true_iff.
  intros [[Hp Hh] Hl]. split; [exact Hp|]. split; [exact Hh|].
  intros f Hf. rewrite forallb_forall in Hl.
  apply negb_true_iff. apply Hl. exact Hf.
Qed.

(** *** Bullets *)

Lemma bullet_split (f v x : jsstring) :
  bullet f v ++ x = bulletHead f ++ v ++ nl :: x.
Proof.
  unfold bullet, bulletHead. rewrite <- !app_assoc. reflexivity.
Qed.

Lemma length_bullet (f v : jsstring) :
  length (bullet f v) = length (bulletHead f) + (length v + 1).
Proof.
  unfold bullet, bulletHead. rewrite !length_app. simpl. lia.
Qed.

Lemma renderBulletList_cons (f v : jsstring) (bs : list (jsstring * jsstring)) :
  renderBulletList ((f, v) :: bs) = bullet f v ++ renderBulletList bs.
Proof. reflexivity. Qed.

(** A text [w] that clashes with the head of a bullet and with the line feed
    and does not occur in the value starts nowhere in the bullet. *)
Lemma bullet_free (eq : N -> N -> bool) (w f v x : jsstring) :
  clashesAll eq w (bulletHead f) = true ->
  includesBy eq v w = false ->
  noneMatch eq w nl = true ->
  clashes eq w [nl] = true ->
  freeUpTo eq w (length (bullet f v)) (bullet f v ++ x).
Proof.
  intros Hhead Hv Hnm Hnl. rewrite bullet_split, length_bullet.
  apply freeUpTo_app; [apply freeUpTo_concrete; exact Hhead|].
  change (nl :: x) with ([nl] ++ x).
  apply freeUpTo_app; [apply freeUpTo_value; assumption|].
  apply (freeUpTo_concrete eq w [nl] x). simpl. rewrite Hnl. reflexivity.
Qed.

Lemma heads_have_no_heading :
  forallb (fun f => clashesAll N.eqb (js "## ") (bulletHead f)) fieldNames = true.
Proof. vm_compute. reflexivity. Qed.

Lemma heading_free_bullets (bs : list (jsstring * jsstring)) (x : jsstring) :
  okBullets bs ->
  freeUpTo N.eqb (js "## ") (length (renderBulletList bs)) (renderBulletList bs ++ x).
Proof.
  induction 1 as [|[f v] bs [Hf Hv] _ IH].
  - apply freeUpTo_nil.
  - rewrite renderBulletList_cons, length_app, <- app_assoc.
    apply freeUpTo_app; [|exact IH].
    simpl in Hf, Hv. destruct (cleanValue_inv v Hv) as (_ & Hh & _).
    apply bullet_free; [|exact Hh | reflexivity | reflexivity].
    pose proof heads_have_no_heading as H.
    rewrite forallb_forall in H. exact (H f Hf).
Qed.

(** *** Reading a field back *)

Lemma field_leads (f v r : jsstring) :
  plain v = true ->
  Leads (fieldRegex f) (label f ++ [32%N] ++ v ++ nl :: r) [] (nl :: r) [v].
Proof.
  intros Hp. destruct (plain_inv v Hp) as (c & v' & Hv & Hc & _ & Hdot).
  unfold fieldRegex.
  eapply Leads_seq; [apply Leads_lit; intros u; apply N.eqb_refl|].
  eapply Leads_seq.
  - unfold space. apply (Leads_star_class isWhiteSpace [32%N]); [reflexivity|].
    rewrite Hv. simpl. rewrite Hc. reflexivity.
  - unfold dot. apply (Leads_group _ v (nl :: r) []).
    apply Leads_plus_class; [apply plain_nonempty; exact Hp | exact Hdot | reflexivity].
Qed.

Lemma label_skips_dash (f x : jsstring) :
  forall i, i < length (js "- ") -> Fails (fieldRegex f) (drop i (js "- " ++ x)).
Proof.
  apply fails_of_free. apply freeUpTo_concrete. rewrite label_head. reflexivity.
Qed.

Lemma bullet_finds (f v x : jsstring) :
  plain v = true ->
  Finds (fieldRegex f) (bullet f v ++ x) (nl :: x) [v].
Proof.
  intros Hp. unfold bullet. rewrite <- !app_assoc.
  apply Finds_skip; [apply label_skips_dash|].
  apply Finds_here. apply field_leads. exact Hp.
Qed.

Lemma labels_clash_with_other_heads :
  forallb (fun f =>
    forallb (fun f' => eqb f' f || clashesAll eqbI (label f) (bulletHead f'))
      fieldNames) fieldNames = true.
Proof. vm_compute. reflexivity. Qed.

Lemma labels_pass_line_feed :
  forallb (fun f => noneMatch eqbI (label f) nl) fieldNames = true.
Proof. vm_compute. reflexivity. Qed.

Lemma other_bullet_free (f f' v x : jsstring) :
  In f fieldNames -> In f' fieldNames -> f' <> f -> cleanValue v = true ->
  forall i, i < length (bullet f' v) ->
            Fails (fieldRegex f) (drop i (bullet f' v ++ x)).
Proof.
  intros Hf Hf' Hne Hv. apply fails_of_free.
  destruct (cleanValue_inv v Hv) as (_ & _ & Hl).
  apply bullet_free; [| apply (Hl f Hf) | |].
  - pose proof labels_clash_with_other_heads as H.
    rewrite forallb_forall in H. specialize (H f Hf).
    rewrite forallb_forall in H. specialize (H f' Hf').
    apply orb_true_iff in H as [H|H]; [|exact H].
    apply eqb_eq in H. contradiction.
  - pose proof labels_pass_line_feed as H.
    rewrite forallb_forall in H. exact (H f Hf).
  - rewrite label_head. reflexivity.
Qed.

Lemma eqb_fieldName (f' f : jsstring) : eqb f' f = false -> f' <> f.
Proof. apply eqb_neq. Qed.

(** The leftmost match of a field pattern in a list of bullets is at the
    first bullet for that field. *)
Lemma field_search (f tail : jsstring) :
  In f fieldNames ->
  NotFound (fieldRegex f) tail ->
  forall bs,
    okBullets bs ->
    match lookupField f bs with
    | Some v => exists s', Finds (fieldRegex f) (renderBulletList bs ++ tail) s' [v]
    | None => NotFound (fieldRegex f) (renderBulletList bs ++ tail)
    end.
Proof.
  intros Hf Htail. induction 1 as [|[f' v] bs [Hf' Hv] _ IH].
  - exact Htail.
  - simpl in Hf', Hv. rewrite renderBulletList_cons, <- app_assoc.
    cbn [lookupField]. destruct (eqb f' f) eqn:E.
    + apply eqb_eq in E. subst f'. eexists. apply bullet_finds.
      apply (cleanValue_inv v Hv).
    + apply eqb_neq in E.
      pose proof (other_bullet_free f f' v (renderBulletList bs ++ tail) Hf Hf' E Hv)
        as Hskip.
      destruct (lookupField f bs) as [v0|].
      * destruct IH as [s' IH]. exists s'. apply Finds_skip; assumption.
      * apply NotFound_skip; assumption.
Qed.

Lemma lookupField_in (f v : jsstring) :
  forall bs, lookupField f bs = Some v -> exists f', In (f', v) bs.
Proof.
  induction bs as [|[f0 v0] bs IH]; [discriminate|].
  cbn [lookupField]. destruct (eqb f0 f).
  - intros [= <-]. exists f0. left; reflexivity.
  - intros H. destruct (IH H) as [f' Hin]. exists f'. right; exact Hin.
Qed.

Lemma extractField_bullets (f tail : jsstring) (bs : list (jsstring * jsstring)) :
  In f fieldNames ->
  NotFound (fieldRegex f) tail ->
  okBullets bs ->
  extractField (renderBulletList bs ++ tail) f = lookupField f bs.
Proof.
  intros Hf Htail Hok.
  pose proof (field_search f tail Hf Htail bs Hok) as H.
  unfold extractField, matchFirst.
  destruct (lookupField f bs) as [v|] eqn:E.
  - destruct H as [s' H]. destruct (H None) as [p' ->]. simpl.
    f_equal. apply plain_trim.
    destruct (lookupField_in f v bs E) as [f' Hin].
    unfold okBullets in Hok. rewrite Forall_forall in Hok.
    apply list_elem_of_In in Hin. destruct (Hok _ Hin) as [_ Hv].
    apply (cleanValue_inv v Hv).
  - rewrite (H None). reflexivity.
Qed.

(** *** One block *)

Lemma Fails_blockRegex (s : jsstring) :
  startsWith (js "### ") s = false -> Fails blockRegex s.
Proof. intros H. apply Fails_seq, Fails_lit. exact H. Qed.

Lemma blockEnd_fails (s : jsstring) :
  s <> [] ->
  startsWith (js "## ") s = false ->
  startsWith (js "## ") (drop 1 s) = false ->
  Fails (Lookahead blockEnd) s.
Proof.
  intros Hne H0 H1. destruct s as [|c s]; [contradiction|].
  apply Fails_lookahead. unfold blockEnd.
  apply Fails_alt; [|apply Fails_alt].
  - apply Fails_seq, Fails_lit.
    change (js "### ") with (35%N :: js "## ").
    cbn [startsWithBy]. change (drop 1 (c :: s)) with s in H1.
    unfold startsWith in H1. rewrite H1. apply andb_false_r.
  - apply Fails_lit. exact H0.
  - apply Fails_eol.
Qed.

Lemma blockEnd_at_end (cs : list jsstring) : Leads (Lookahead blockEnd) [] cs [] cs.
Proof.
  eapply Leads_lookahead. unfold blockEnd.
  apply Leads_alt_r; [apply Fails_seq, Fails_lit; reflexivity|].
  apply Leads_alt_r; [apply Fails_lit; reflexivity|].
  apply Leads_eol.
Qed.

Lemma blockEnd_at_heading (ds x : jsstring) (cs : list jsstring) :
  ds <> [] -> forallb isDigit ds = true ->
  Leads (Lookahead blockEnd) (js "### " ++ ds ++ 46%N :: x) cs
    (js "### " ++ ds ++ 46%N :: x) cs.
Proof.
  intros Hne Hd. eapply Leads_lookahead. unfold blockEnd.
  apply Leads_alt_l.
  eapply Leads_seq; [apply Leads_lit; intros u; apply N.eqb_refl|].
  eapply Leads_seq.
  - unfold digit. apply Leads_plus_class; [exact Hne | exact Hd | reflexivity].
  - apply Leads_chr. reflexivity.
Qed.

Lemma severity_word (s : Severity) :
  severityWritten s <> [] /\ forallb isWordChar (severityWritten s) = true.
Proof. destruct s; split; (discriminate || reflexivity). Qed.

(** The block pattern on a written block: the heading, the bullets, what
    separates them from [next], and [next], where the block ends. *)
Lemma block_leads (ds : jsstring) (sev : Severity) (title body next : jsstring) :
  ds <> [] -> forallb isDigit ds = true ->
  plain title = true ->
  freeUpTo N.eqb (js "## ") (S (length body)) (body ++ next) ->
  (forall cs, Leads (Lookahead blockEnd) next cs next cs) ->
  Leads blockRegex
    (js "### " ++ ds ++ js ". [" ++ severityWritten sev ++ js "] " ++ title
     ++ nl :: body ++ next)
    [] next [severityWritten sev; title; body].
Proof.
  intros Hne Hd Ht Hfree Hnext.
  destruct (plain_inv title Ht) as (c & t' & _ & _ & _ & Hdot).
  destruct (severity_word sev) as [Hsne Hsw].
  unfold blockRegex.
  eapply Leads_seq; [apply Leads_lit; intros u; apply N.eqb_refl|].
  eapply Leads_seq;
    [unfold digit; apply Leads_plus_class; [exact Hne | exact Hd | reflexivity]|].
  eapply Leads_seq; [apply Leads_lit; intros u; apply N.eqb_refl|].
  eapply Leads_seq.
  { unfold word. apply (Leads_group _ (severityWritten sev)).
    apply Leads_plus_class; [exact Hsne | exact Hsw | reflexivity]. }
  eapply Leads_seq; [apply Leads_lit; intros u; apply N.eqb_refl|].
  eapply Leads_seq.
  { unfold dot. apply (Leads_group _ title).
    apply Leads_plus_class;
      [apply plain_nonempty; exact Ht | exact Hdot | reflexivity]. }
  eapply Leads_seq; [apply Leads_chr; reflexivity|].
  apply Leads_lazy_then; [|apply Hnext].
  intros i Hi.
  apply blockEnd_fails.
  - intros E. apply (f_equal length) in E.
    rewrite length_drop, length_app in E. simpl in E. lia.
  - apply Hfree. lia.
  - rewrite drop_drop. replace (i + 1) with (S i) by lia.
    apply Hfree. lia.
Qed.

(** *** The blocks of a document *)

Lemma renderIssues_cons (n : N) (x x' : Issue) (xs : list Issue) :
  renderIssues n (x :: x' :: xs)
  = renderIssue n x ++ [nl] ++ renderIssues (N.succ n) (x' :: xs).
Proof. reflexivity. Qed.

Lemma renderIssue_head (n : N) (x : Issue) :
  exists r, renderIssue n x = js "### " ++ numberToString n ++ 46%N :: r.
Proof.
  unfold renderIssue. eexists.
  change (js ". [") with (46%N :: js " ["). reflexivity.
Qed.

Lemma renderIssues_head (n : N) (x : Issue) (xs : list Issue) :
  exists r, renderIssues n (x :: xs) = js "### " ++ numberToString n ++ 46%N :: r.
Proof.
  destruct (renderIssue_head n x) as [r Hr].
  destruct xs as [|x' xs].
  - exists r. exact Hr.
  - rewrite renderIssues_cons, Hr. eexists.
    rewrite <- !app_assoc. simpl. reflexivity.
Qed.

Lemma cleanIssue_inv (x : Issue) :
  cleanIssue x = true ->
  plain (i_title x) = true /\ okBullets (bulletsOf x) /\
  positiveLine (i_line x) = true.
Proof.
  unfold cleanIssue. rewrite !andb_true_iff. intros [[[[Ht Hf] Hc] Hd] Hl].
  split; [exact Ht|]. split; [|exact Hl].
  unfold okBullets, bulletsOf.
  apply Forall_app; split; [|apply Forall_app; split].
  - constructor; [|constructor]. split; [simpl; auto | exact Hf].
  - destruct (i_line x) as [n|]; [|constructor].
    constructor; [|constructor]. split; [simpl; auto|].
    apply digits_clean; [apply numberToString_nonempty | apply numberToString_digits].
  - constructor; [|constructor; [|constructor]]; (split; [simpl; auto 10 | assumption]).
Qed.

Lemma separates_free (sep next : jsstring) :
  separates sep next ->
  freeUpTo N.eqb (js "## ") (S (length sep)) (sep ++ next).
Proof.
  intros [[-> ->]|[-> (ds & r & _ & _ & ->)]]; intros i Hi; simpl in Hi.
  - destruct i as [|i]; [reflexivity | lia].
  - destruct i as [|[|i]]; [reflexivity | | lia].
    simpl drop. apply (clashes_startsWith N.eqb (js "## ") (js "### ")). reflexivity.
Qed.

Lemma separates_end (sep next : jsstring) :
  separates sep next -> forall cs, Leads (Lookahead blockEnd) next cs next cs.
Proof.
  intros [[-> ->]|[-> (ds & r & Hne & Hd & ->)]] cs.
  - apply blockEnd_at_end.
  - apply blockEnd_at_heading; assumption.
Qed.

Lemma issue_finds (a : jsstring) (n : N) (x : Issue) (sep next : jsstring) :
  cleanIssue x = true ->
  clashesAll N.eqb (js "### ") a = true ->
  separates sep next ->
  Finds blockRegex (a ++ renderIssue n x ++ sep ++ next) next
    [severityWritten (i_severity x); i_title x; renderBullets x ++ sep].
Proof.
  intros Hx Ha Hsep. destruct (cleanIssue_inv x Hx) as (Ht & Hok & _).
  apply Finds_skip.
  { intros i Hi. apply Fails_blockRegex.
    apply (freeUpTo_concrete N.eqb (js "### ") a _ Ha). exact Hi. }
  apply Finds_here. unfold renderIssue. rewrite <- !app_assoc.
  change ([nl] ++ renderBullets x ++ sep ++ next)
    with (nl :: renderBullets x ++ sep ++ next).
  rewrite (app_assoc (renderBullets x) sep next).
  apply block_leads.
  - apply numberToString_nonempty.
  - apply numberToString_digits.
  - exact Ht.
  - rewrite <- app_assoc, length_app, <- Nat.add_succ_r.
    apply freeUpTo_app; [apply heading_free_bullets; exact Hok|].
    apply separates_free. exact Hsep.
  - apply (separates_end sep next Hsep).
Qed.

Lemma blockRegex_not_at_end : NotFound blockRegex [].
Proof. apply NotFound_end. apply Fails_blockRegex. reflexivity. Qed.

Lemma exec_issues :
  forall xs n a,
    Forall (fun x => cleanIssue x = true) xs ->
    clashesAll N.eqb (js "### ") a = true ->
    forall p,
      execLoop (S (length (a ++ renderIssues n xs))) blockRegex p
        (a ++ renderIssues n xs)
      = Some (blocksOf xs).
Proof.
  induction xs as [|x xs IH]; intros n a Hall Ha p.
  - apply execLoop_not_found. apply NotFound_skip.
    + intros i Hi. apply Fails_blockRegex.
      apply (freeUpTo_concrete N.eqb (js "### ") a _ Ha). exact Hi.
    + apply blockRegex_not_at_end.
  - inversion Hall as [|x0 xs0 Hx Hxs]; subst.
    destruct xs as [|x' xs].
    + cbn [renderIssues blocksOf].
      pose proof (issue_finds a n x [] [] Hx Ha ltac:(left; auto)) as Hfind.
      rewrite !app_nil_r in Hfind.
      apply (execLoop_found blockRegex _ [] _ [] blockRegex_consumes Hfind).
      intros p'. apply execLoop_not_found. apply blockRegex_not_at_end.
    + rewrite renderIssues_cons.
      change (blocksOf (x :: x' :: xs))
        with ([severityWritten (i_severity x); i_title x; renderBullets x ++ [nl]]
              :: blocksOf (x' :: xs)).
      destruct (renderIssues_head (N.succ n) x' xs) as [r Hr].
      assert (Hsep : separates [nl] (renderIssues (N.succ n) (x' :: xs))).
      { right. split; [reflexivity|].
        exists (numberToString (N.succ n)), r.
        split; [apply numberToString_nonempty|].
        split; [apply numberToString_digits | exact Hr]. }
      pose proof (issue_finds a n x [nl] _ Hx Ha Hsep) as Hfind.
      apply (execLoop_found blockRegex _ _ _ _ blockRegex_consumes Hfind).
      intros p'. apply (IH (N.succ n) [] Hxs eq_refl p').
Qed.

(** *** The records *)

Lemma stringOr_nonempty (v d : jsstring) : v <> [] -> stringOr (Some v) d = v.
Proof. destruct v; [contradiction | reflexivity]. Qed.

Lemma separator_has_no_label (sep f : jsstring) :
  sep = [] \/ sep = [nl] -> In f fieldNames -> NotFound (fieldRegex f) sep.
Proof.
  intros Hsep Hf. apply NotFound_fieldRegex.
  unfold hasLabel, includesI. rewrite label_head.
  destruct Hsep as [-> | ->]; reflexivity.
Qed.

Lemma lowered_severity (s : Severity) :
  toLowerCase (severityWritten s) = severityRead s.
Proof. destruct s; reflexivity. Qed.

Lemma line_read_back (line : option N) :
  positiveLine line = true ->
  numberOrUndefined
    (parseInt10 (stringOr (option_map numberToString line) (js "0")))
  = option_map Z.of_N line.
Proof.
  destruct line as [n|]; [|reflexivity]. cbn [option_map positiveLine].
  intros Hpos. apply andb_true_iff in Hpos as [Hpos _].
  rewrite stringOr_nonempty by apply numberToString_nonempty.
  rewrite parseInt10_numberToString.
  destruct n as [|p]; [discriminate | reflexivity].
Qed.

Lemma lookup_line (x : Issue) :
  lookupField (js "Line") (bulletsOf x) = option_map numberToString (i_line x).
Proof. unfold bulletsOf. destruct (i_line x); reflexivity. Qed.

Lemma lookup_file (x : Issue) :
  lookupField (js "File") (bulletsOf x) = Some (i_file x).
Proof. reflexivity. Qed.

Lemma lookup_category (x : Issue) :
  lookupField (js "Category") (bulletsOf x) = Some (i_category x).
Proof. unfold bulletsOf. destruct (i_line x); reflexivity. Qed.

Lemma lookup_description (x : Issue) :
  lookupField (js "Description") (bulletsOf x) = Some (i_description x).
Proof. unfold bulletsOf. destruct (i_line x); reflexivity. Qed.

(** The record built from the captures of a written block is the record
    expected of the issue. *)
Lemma finding_of_block (index : nat) (x : Issue) (sep : jsstring) :
  cleanIssue x = true ->
  sep = [] \/ sep = [nl] ->
  findingOfMatch index
    [severityWritten (i_severity x); i_title x; renderBullets x ++ sep]
  = expectedItem index x.
Proof.
  intros Hx Hsep. destruct (cleanIssue_inv x Hx) as (Ht & Hok & Hline).
  pose proof Hx as Hx'. unfold cleanIssue in Hx'.
  rewrite !andb_true_iff in Hx'. destruct Hx' as [[[[_ Hf] Hc] Hd] _].
  unfold findingOfMatch, expectedItem. cbn [nth].
  unfold renderBullets.
  rewrite !extractField_bullets
    by (first [exact Hok | apply separator_has_no_label; [exact Hsep | simpl; auto 10]
              | simpl; auto 10]).
  rewrite lookup_file, lookup_line, lookup_category, lookup_description.
  rewrite (line_read_back _ Hline), lowered_severity, (plain_trim _ Ht).
  rewrite !stringOr_nonempty
    by (apply plain_nonempty; apply cleanValue_inv; assumption).
  reflexivity.
Qed.

Lemma records_of_blocks :
  forall xs k,
    Forall (fun x => cleanIssue x = true) xs ->
    imap (fun i => findingOfMatch (k + i)) (blocksOf xs)
    = imap (fun i => expectedItem (k + i)) xs.
Proof.
  induction xs as [|x xs IH]; intros k Hall; [reflexivity|].
  inversion Hall as [|x0 xs0 Hx Hxs]; subst.
  destruct xs as [|x' xs].
  - cbn [blocksOf imap]. f_equal.
    rewrite <- (app_nil_r (renderBullets x)).
    apply finding_of_block; auto.
  - change (blocksOf (x :: x' :: xs))
      with ([severityWritten (i_severity x); i_title x; renderBullets x ++ [nl]]
            :: blocksOf (x' :: xs)).
    rewrite (imap_cons (fun i => findingOfMatch (k + i))).
    rewrite (imap_cons (fun i => expectedItem (k + i)) x (x' :: xs)).
    f_equal.
    + apply finding_of_block; auto.
    + transitivity (imap (fun i => findingOfMatch (S k + i)) (blocksOf (x' :: xs))).
      { apply imap_ext. intros i m _. unfold compose. f_equal. lia. }
      rewrite IH by exact Hxs.
      apply imap_ext. intros i m _. unfold compose. f_equal. lia.
Qed.

(** Every document written in the scan prompt's format from clean issues
    parses back to the issues, in order. *)
Lemma findings_round_trip_any (xs : list Issue) :
  Forall (fun x => cleanIssue x = true) xs ->
  parseFindingsMarkdown (renderFindings xs) = Some (imap expectedItem xs).
Proof.
  intros Hall. unfold parseFindingsMarkdown, execAll, issueRegex, renderFindings.
  rewrite (exec_issues xs 1 findingsHeader Hall eq_refl None).
  simpl option_map. f_equal.
  apply (records_of_blocks xs 0 Hall).
Qed.

(** C7, as the code has it. A findings document written in the scan
    prompt's format with three issue blocks parses to exactly three records
    with the written title, file, line, category and description and the
    severity in lower case, provided the title and the values of the
    bullets are plain (not empty, on one line, no white space at either end),
    the values contain neither "## " nor a bullet label, and a written line
    number is positive and at most 2^53. *)
Theorem findings_round_trip (x1 x2 x3 : Issue) :
  cleanIssue x1 = true -> cleanIssue x2 = true -> cleanIssue x3 = true ->
  parseFindingsMarkdown (renderFindings [x1; x2; x3])
  = Some [expectedItem 0 x1; expectedItem 1 x2; expectedItem 2 x3].
Proof.
  intros H1 H2 H3.
  apply (findings_round_trip_any [x1; x2; x3]).
  repeat constructor; assumption.
Qed.

Lemma findings_round_trip_witness :
  parseFindingsMarkdown (renderFindings [issue1; issue2'; issue3])
  = Some [expectedItem 0 issue1; expectedItem 1 issue2'; expectedItem 2 issue3].
Proof.
  apply (findings_round_trip issue1 issue2' issue3); vm_compute; reflexivity.
Defined.

(** C7 as stated fails: three well-formed blocks, the second with a
    description that quotes a markdown heading. The parser returns three
    records, but the description of the second is cut at the "## ". *)
Lemma findings_round_trip_counterexample :
  exists items,
    parseFindingsMarkdown (renderFindings [issue1; issue2; issue3]) = Some items /\
    length items = 3 /\
    List.map si_description items
    = [i_description issue1; js "The"; i_description issue3] /\
    js "The" <> i_description issue2.
Proof.
  eexists. split; [vm_compute; reflexivity|].
  split; [reflexivity|]. split; [reflexivity|]. discriminate.
Qed.

(** A block without a line bullet comes back without a line, and so does a
    block whose written line is 0. *)
Example round_trip_without_line :
  option_map (List.map si_line)
    (parseFindingsMarkdown (renderFindings [issue1; issue4]))
  = Some [Some 42%Z; None].
Proof. vm_compute. reflexivity. Qed.

Example round_trip_line_zero :
  option_map (List.map si_line)
    (parseFindingsMarkdown
       (renderFindings
          [{| i_severity := LOW; i_title := js "Header comment";
              i_file := js "src/d.ts"; i_line := Some 0%N;
              i_category := js "extra-comments";
              i_description := js "File header restates the file name" |}]))
  = Some [None].
Proof. vm_compute. reflexivity. Qed.

End RoundTrip.

(** ** The verification cycle as a whole: bounds, outcome, final state *)

Module CycleFacts.
Import JS Types Verify VerifyFacts.





Lemma not_review_in_runs (a : nat) :
  forall cmds i, ~ In EvReview (runEvents a i cmds).
Proof.
  induction cmds as [|c cmds IH]; intros i; simpl; [tauto|].
  intros [H|H]; [discriminate | exact (IH _ H)].
Qed.

(** The review is called in a cycle exactly when it ends passed, and it is
    then the last call. *)
Lemma Cycle_review (maxRetries : nat) (w : World) cmds attempt evs status :
  Cycle maxRetries w cmds attempt evs status ->
  (status = VPassed /\ exists pre, evs = pre ++ [EvReview] /\ ~ In EvReview pre) \/
  (status = VFailed /\ ~ In EvReview evs).
Proof.
  induction 1 as [cmds a Hno|cmds a k c Hf Hge|cmds a k c Hf Hlt Hthrow
                 |cmds a k c evs status Hf Hlt Hthrow Hcyc IH].
  - left. split; [reflexivity|]. eexists; split; [reflexivity|].
    apply not_review_in_runs.
  - right. split; [reflexivity|]. apply not_review_in_runs.
  - right. split; [reflexivity|]. intros Hin.
    apply in_app_or in Hin as [Hin|[Hin|[]]];
      [exact (not_review_in_runs _ _ _ Hin) | discriminate].
  - destruct IH as [(-> & pre & -> & Hpre)|(-> & Hno)].
    + left. split; [reflexivity|].
      exists (runEvents a 0 (take (S k) cmds) ++ fixEvent w a k c :: pre).
      split; [rewrite <- app_assoc; reflexivity|].
      intros Hin. apply in_app_or in Hin as [Hin|[Hin|Hin]];
        [exact (not_review_in_runs _ _ _ Hin) | discriminate | exact (Hpre Hin)].
    + right. split; [reflexivity|]. intros Hin.
      apply in_app_or in Hin as [Hin|[Hin|Hin]];
        [exact (not_review_in_runs _ _ _ Hin) | discriminate | exact (Hno Hin)].
Qed.

(** A pass leaves the phase and the verification status alone. *)
Lemma runPass_frame (w : World) (attempt : nat) (commands : list VerificationCommand)
  (st : AppState) :
  sameFrame st (fst (runPass w attempt commands st)).
Proof.
  unfold runPass.
  destruct (failure_or_not w attempt commands 0) as [Hno|(k & c & Hfirst)].
  - destruct (passLoop_no_failure w attempt commands 0 initialVars st Hno)
      as (st1 & -> & _ & Hframe & _). exact Hframe.
  - destruct (passLoop_first_failure w attempt commands 0 initialVars st k c Hfirst)
      as (st1 & -> & _ & Hframe & _). exact Hframe.
Qed.

Lemma statusOf_restart (fresh : list VerificationCommand) (attempt : nat)
  (st : AppState) :
  is_Some (statusOf st) ->
  is_Some (statusOf (setVerificationState (restartWith fresh attempt) st)).
Proof.
  unfold statusOf, setVerificationState; simpl.
  destruct (verificationState st); simpl; [eauto|]. intros [x Hx]; discriminate.
Qed.

(** The phase changes exactly when the cycle ends passed. *)
Lemma executeVerification_phase (maxRetries : nat) (w : World) :
  forall fuel commands attempt st st',
    executeVerification fuel maxRetries w commands attempt st = Some st' ->
    is_Some (statusOf st) ->
    (statusOf st' = Some VPassed /\ phase st' = Reviewing) \/
    (statusOf st' = Some VFailed /\ phase st' = phase st).
Proof.
  induction fuel as [|fuel IH]; intros commands attempt st st' Hrun Hsome;
    [discriminate|].
  simpl in Hrun.
  pose proof (runPass_frame w attempt commands st) as (Hphase & Hstatus & _).
  destruct (runPass w attempt commands st) as [st1 vars]. simpl in Hphase, Hstatus.
  assert (Hsome1 : is_Some (statusOf st1)) by (rewrite Hstatus; exact Hsome).
  assert (Hfailed : forall s0,
    is_Some (statusOf s0) -> phase s0 = phase st ->
    statusOf (setVerificationState (setStatus VFailed) s0) = Some VFailed /\
    phase (setVerificationState (setStatus VFailed) s0) = phase st).
  { intros s0 H0 Hp. split; [apply statusOf_setStatus; exact H0 | exact Hp]. }
  destruct (allPassed vars).
  - injection Hrun as <-. left. split; [|reflexivity].
    unfold runReview, emit, statusOf; simpl.
    apply statusOf_setStatus. exact Hsome1.
  - destruct (failedCommand vars) as [failed|].
    + destruct (Nat.ltb attempt maxRetries).
      * assert (Hfix : is_Some (statusOf (setVerificationState (setStatus Fixing) st1))).
        { rewrite statusOf_setStatus by exact Hsome1. eauto. }
        destruct (fixThrows w attempt).
        -- injection Hrun as <-. right.
           apply (Hfailed (emit _ (setVerificationState (setStatus Fixing) st1)));
             [exact Hfix | exact Hphase].
        -- apply IH in Hrun.
           ++ destruct Hrun as [Hp|[Hs Hp]]; [left; exact Hp|].
              right. split; [exact Hs|]. rewrite Hp. exact Hphase.
           ++ apply statusOf_restart. exact Hfix.
      * injection Hrun as <-. right. apply Hfailed; assumption.
    + injection Hrun as <-. right. apply Hfailed; assumption.
Qed.


(** When discovery finds no command, [runVerification] starts the review at
    once and installs no verification state. With commands, the review is
    started exactly when the cycle sets the status 'passed': it is then the
    last call, made once, and the phase is 'reviewing'; when no review is
    started the phase is still 'verifying'. *)
Theorem review_exactly_after_passed (maxRetries : nat) (w : World)
  (commands : list VerificationCommand) :
  exists st',
    runVerification maxRetries w commands = Some st' /\
    (commands = [] ->
     verificationState st' = None /\ events st' = [EvReview] /\
     phase st' = Reviewing) /\
    (commands <> [] ->
     (statusOf st' = Some VPassed <-> In EvReview (events st')) /\
     (In EvReview (events st') ->
      phase st' = Reviewing /\
      exists pre, events st' = pre ++ [EvReview] /\ ~ In EvReview pre) /\
     (~ In EvReview (events st') -> phase st' = Verifying)).
Proof.
  destruct commands as [|c commands].
  - eexists. split; [reflexivity|]. split; [intros _; repeat split | congruence].
  - destruct (runVerification_cycle maxRetries w (c :: commands) ltac:(discriminate))
      as (st' & status & Hrun & Hcyc & Hst).
    exists st'. split; [exact Hrun|]. split; [discriminate|]. intros _.
    rewrite runVerification_commands in Hrun by discriminate.
    assert (Hsome : is_Some (statusOf (initialState maxRetries (c :: commands))))
      by (simpl; eauto).
    destruct (executeVerification_phase _ _ _ _ _ _ _ Hrun Hsome) as [[Hs Hp]|[Hs Hp]];
      destruct (Cycle_review _ _ _ _ _ _ Hcyc) as [(-> & pre & Hev & Hpre)|(-> & Hev)];
      try congruence.
    + assert (Hin : In EvReview (events st'))
        by (rewrite Hev; apply in_or_app; right; left; reflexivity).
      split; [tauto|]. split; [|tauto].
      intros _. split; [exact Hp|]. exists pre. auto.
    + split; [|split].
      * split; [congruence | tauto].
      * tauto.
      * intros _. exact Hp.
Qed.

End CycleFacts.

(** ** What the verification state shows when the cycle has ended *)

Module OutcomeFacts.
Import JS Types Verify VerifyFacts CycleFacts.
















(** *** What the cycle never changes *)

Lemma sameCommand_refl (c : VerificationCommand) : sameCommand c c.
Proof. repeat split. Qed.

Lemma sameCommand_trans (a b c : VerificationCommand) :
  sameCommand a b -> sameCommand b c -> sameCommand a c.
Proof.
  unfold sameCommand. intros (H1 & H2 & H3 & H4 & H5) (H6 & H7 & H8 & H9 & H10).
  repeat split; congruence.
Qed.

Lemma sameCommand_mapAt (cs0 cs : list VerificationCommand) (i : nat)
  (g : VerificationCommand -> VerificationCommand) :
  (forall c, sameCommand c (g c)) ->
  Forall2 sameCommand cs0 cs -> Forall2 sameCommand cs0 (mapAt i g cs).
Proof.
  intros Hg H. apply Forall2_same_length_lookup.
  apply Forall2_same_length_lookup in H as [Hlen H].
  split; [rewrite length_mapAt; exact Hlen|].
  intros j x y Hx Hy. rewrite lookup_mapAt in Hy.
  destruct (Nat.eqb j i).
  - destruct (cs !! j) as [y0|] eqn:E; simpl in Hy; [|discriminate].
    injection Hy as <-.
    eapply sameCommand_trans; [exact (H j x y0 Hx E) | apply Hg].
  - exact (H j x y Hx Hy).
Qed.

Lemma sameCommand_fresh (cs0 cs : list VerificationCommand) :
  Forall2 sameCommand cs0 cs -> Forall2 sameCommand cs0 (freshCommands cs).
Proof.
  intros H. unfold freshCommands.
  change (List.map (withStatus Pending) cs) with (withStatus Pending <$> cs).
  apply Forall2_fmap_r. eapply Forall2_impl; [exact H|].
  intros x y Hxy. eapply sameCommand_trans; [exact Hxy | repeat split].
Qed.

Lemma shows_setCommands_mapAt (cs0 : list VerificationCommand) (m a i : nat)
  (g : VerificationCommand -> VerificationCommand) (st : AppState) :
  (forall c, sameCommand c (g c)) ->
  shows cs0 m a st -> shows cs0 m a (setVerificationState (setCommands (mapAt i g)) st).
Proof.
  intros Hg (vs & Hvs & Hsame & Hm & Ha).
  unfold shows, setVerificationState; simpl. rewrite Hvs; simpl.
  eexists; split; [reflexivity|]. simpl.
  split; [apply sameCommand_mapAt; assumption | auto].
Qed.

Lemma shows_begin (cs0 : list VerificationCommand) (m a a' i : nat)
  (cmd : VerificationCommand) (st : AppState) :
  shows cs0 m a st -> shows cs0 m a (beginCommand a' i cmd st).
Proof.
  intros (vs & Hvs & Hsame & Hm & Ha).
  unfold shows, beginCommand, emit, setVerificationState; simpl. rewrite Hvs; simpl.
  eexists; split; [reflexivity|]. simpl.
  split; [apply sameCommand_mapAt; [intros c; repeat split | exact Hsame] | auto].
Qed.

Lemma shows_setStatus (cs0 : list VerificationCommand) (m a : nat)
  (s : VerificationStatus) (st : AppState) :
  shows cs0 m a st -> shows cs0 m a (setVerificationState (setStatus s) st).
Proof.
  intros (vs & Hvs & Hsame & Hm & Ha).
  unfold shows, setVerificationState; simpl. rewrite Hvs; simpl.
  eexists; split; [reflexivity|]. simpl. auto.
Qed.

Lemma passLoop_shows (cs0 : list VerificationCommand) (m a0 : nat) (w : World)
  (a : nat) :
  forall cmds i vars st,
    shows cs0 m a0 st -> shows cs0 m a0 (fst (passLoop w a i cmds vars st)).
Proof.
  induction cmds as [|cmd rest IH]; intros i vars st H; [exact H|].
  simpl.
  destruct (negb (vr_success (runCommand w a i cmd)) && negb (vc_optional cmd)).
  - simpl. apply shows_setCommands_mapAt; [intros c; repeat split|].
    apply shows_begin. exact H.
  - apply IH. apply shows_setCommands_mapAt; [intros c; repeat split|].
    apply shows_begin. exact H.
Qed.

Lemma executeVerification_shows (cs0 : list VerificationCommand) (maxRetries : nat)
  (w : World) :
  forall fuel commands attempt st,
    maxRetries - attempt < fuel ->
    Forall2 sameCommand cs0 commands ->
    shows cs0 maxRetries attempt st ->
    exists st' a,
      executeVerification fuel maxRetries w commands attempt st = Some st' /\
      shows cs0 maxRetries a st' /\
      attempt <= a <= Nat.max attempt maxRetries.
Proof.
  induction fuel as [|fuel IH]; intros commands attempt st Hfuel Hsame Hshows; [lia|].
  simpl. unfold runPass.
  pose proof (passLoop_shows cs0 maxRetries attempt w attempt commands 0 initialVars
                st Hshows) as H1.
  destruct (passLoop w attempt 0 commands initialVars st) as [st1 vars].
  simpl in H1.
  destruct (allPassed vars).
  - eexists _, attempt. split; [reflexivity|]. split; [|lia].
    destruct (shows_setStatus _ _ _ VPassed _ H1) as (vs & Hvs & Hrest).
    exists vs. split; [exact Hvs | exact Hrest].
  - destruct (failedCommand vars) as [failed|].
    + destruct (Nat.ltb_spec attempt maxRetries) as [Hlt|Hge].
      * destruct (fixThrows w attempt).
        -- eexists _, attempt. split; [reflexivity|]. split; [|lia].
           apply shows_setStatus.
           destruct (shows_setStatus _ _ _ Fixing _ H1) as (vs & Hvs & Hrest).
           exists vs. split; [exact Hvs | exact Hrest].
        -- match goal with
           | |- context [executeVerification fuel maxRetries w ?cs ?a ?s] =>
               destruct (IH cs a s) as (st' & a' & Hrun & Hsh & Ha)
           end.
           ++ lia.
           ++ apply sameCommand_fresh. exact Hsame.
           ++ destruct H1 as (vs & Hvs & Hs1 & Hm & Ha1).
              unfold shows, setVerificationState, emit; simpl. rewrite Hvs; simpl.
              eexists; split; [reflexivity|]. simpl.
              split; [apply sameCommand_fresh; exact Hsame | auto].
           ++ exists st', a'. split; [exact Hrun|]. split; [exact Hsh | lia].
      * eexists _, attempt. split; [reflexivity|]. split; [|lia].
        apply shows_setStatus. exact H1.
    + eexists _, attempt. split; [reflexivity|]. split; [|lia].
      apply shows_setStatus. exact H1.
Qed.

Lemma firstCycle_shows (maxRetries : nat) (w : World)
  (commands : list VerificationCommand) :
  exists st' a,
    executeVerification (S maxRetries) maxRetries w commands 1
      (initialState maxRetries commands) = Some st' /\
    shows commands maxRetries a st' /\
    1 <= a <= Nat.max 1 maxRetries.
Proof.
  apply executeVerification_shows.
  - lia.
  - apply Forall2_same_length_lookup. split; [reflexivity|].
    intros j x y Hx Hy. rewrite Hx in Hy. injection Hy as <-. apply sameCommand_refl.
  - eexists; split; [reflexivity|]. simpl. split; [|auto].
    apply Forall2_same_length_lookup. split; [reflexivity|].
    intros j x y Hx Hy. rewrite Hx in Hy. injection Hy as <-. apply sameCommand_refl.
Qed.

(** Without a command, [runVerification] installs no verification state.
    With commands, whatever happens in the cycle, the verification state
    keeps the discovered commands, in order, with their id, name, command
    line, type and optional flag (only status, output and exit code change),
    keeps maxAttempts at the retry limit, and shows an attempt number
    between 1 and the limit (1 when the limit is 0). *)
Theorem cycle_keeps_commands (maxRetries : nat) (w : World)
  (commands : list VerificationCommand) :
  exists st',
    runVerification maxRetries w commands = Some st' /\
    (commands = [] -> verificationState st' = None) /\
    (commands <> [] ->
     exists a, shows commands maxRetries a st' /\ 1 <= a <= Nat.max 1 maxRetries).
Proof.
  destruct commands as [|c0 commands].
  - eexists. split; [reflexivity|]. split; [reflexivity | congruence].
  - destruct (firstCycle_shows maxRetries w (c0 :: commands)) as (st' & a & Hrun & Hsh & Ha).
    exists st'. split; [rewrite runVerification_commands by discriminate; exact Hrun|].
    split; [discriminate|]. intros _. exists a. auto.
Qed.

(** *** The manual retry *)

(** A manual retry without a verification state does nothing. With one, it
    starts a new cycle at attempt 1 on the commands reset to pending: the
    calls it adds are those of a cycle from attempt 1, so again at most
    [maxRetries - 1] fix prompts are sent, whatever was spent before. *)
Theorem manual_retry_restarts_cycle (maxRetries : nat) (w : World) (st : AppState) :
  exists st',
    handleVerificationRetry (S maxRetries) maxRetries w st = Some st' /\
    match verificationState st with
    | None => st' = st
    | Some vs =>
        exists evs status,
          events st' = events st ++ evs /\
          Cycle maxRetries w (freshCommands (vs_commands vs)) 1 evs status /\
          countFixes evs <= maxRetries - 1 /\
          statusOf st' = Some status
    end.
Proof.
  unfold handleVerificationRetry.
  destruct (verificationState st) as [vs|] eqn:Hvs.
  - match goal with
    | |- context [executeVerification _ _ _ ?cs 1 ?s] =>
        destruct (executeVerification_cycle maxRetries w (S maxRetries) cs 1 s
                    ltac:(lia)) as (st' & evs & status & Hrun & Hev & Hcyc & Hst)
    end.
    exists st'. split; [exact Hrun|]. exists evs, status.
    split; [exact Hev|]. split; [exact Hcyc|].
    split; [exact (Cycle_fix_bound _ _ _ _ _ _ Hcyc)|].
    apply Hst. simpl. eauto.
  - exists st. split; reflexivity.
Qed.

(** A cycle that failed after two fix prompts, then a manual retry in which
    the build fails once more and passes after one further fix. *)
Example retry_after_failure :
  option_map (fun st => (statusOf st, fixCount st, phase st))
    (match runVerification 3 allFail buildTestLint with
     | Some st => handleVerificationRetry 4 3 fixedAfterOne st
     | None => None
     end)
  = Some (Some VPassed, 3, Reviewing).
Proof. vm_compute. reflexivity. Qed.

End OutcomeFacts.

(** ** The executor: the result record and the truncation *)

Module ResultFacts.
Import JS Types Runner JSFacts RunnerFacts.

Lemma length_truncationMarker : length truncationMarker = 18.
Proof. reflexivity. Qed.

Lemma sliceLast_all (n : nat) (s : jsstring) : length s <= n -> sliceLast n s = s.
Proof.
  intros H. destruct n as [|n]; [reflexivity|]. unfold sliceLast.
  replace (length s - S n) with 0 by lia. apply drop_0.
Qed.

(** For a cap of at least 1: truncation keeps an output within the cap as
    it is, never returns more than the cap plus the 18 units of the marker,
    and truncating a truncated output changes nothing. *)
Theorem truncateOutput_bounded_idempotent (output : jsstring) (maxLength : nat) :
  1 <= maxLength ->
  (length output <= maxLength -> truncateOutput output maxLength = output) /\
  length (truncateOutput output maxLength) <= maxLength + 18 /\
  truncateOutput (truncateOutput output maxLength) maxLength
  = truncateOutput output maxLength.
Proof.
  intros Hcap. split; [apply truncateOutput_short|].
  destruct (Nat.le_gt_cases (length output) maxLength) as [Hshort|Hlong].
  - rewrite !(truncateOutput_short _ _ Hshort). split; [lia | reflexivity].
  - rewrite (truncateOutput_tail _ _ Hlong).
    assert (Hlen : length (sliceLast maxLength output) = maxLength)
      by (apply sliceLast_length; lia).
    split.
    + rewrite length_app, Hlen, length_truncationMarker. lia.
    + rewrite truncateOutput_tail
        by (rewrite length_app, Hlen, length_truncationMarker; lia).
      f_equal. rewrite sliceLast_app by lia.
      apply sliceLast_all. lia.
Qed.

Lemma truncateOutput_bounded_idempotent_witness :
  length (truncateOutput (js "abcdef") 3) <= 3 + 18 /\
  truncateOutput (truncateOutput (js "abcdef") 3) 3 = truncateOutput (js "abcdef") 3.
Proof.
  apply (truncateOutput_bounded_idempotent (js "abcdef") 3). lia.
Defined.

(** With the cap 0 the slice is the whole output: nothing is cut, the
    marker is added, and each further truncation adds another marker. *)
Example truncateOutput_cap_zero :
  truncateOutput (js "abc") 0 = truncationMarker ++ js "abc" /\
  length (truncateOutput (js "abc") 0) = 21 /\
  truncateOutput (truncateOutput (js "abc") 0) 0
  = truncationMarker ++ truncationMarker ++ js "abc".
Proof. vm_compute. repeat split. Qed.

(** Every result the executor resolves with is consistent: it names the
    command it was asked to run, its success flag is true exactly when its
    exit code is 0, and a process that closes without an exit code (killed
    by a signal, as on a timeout) is a failure with exit code 1. *)
Theorem result_success_iff_exit_zero (spawn : Spawn) (command : VerificationCommand)
  (directory : jsstring) (timeout startTime : Z) (r : VerificationResult) :
  runVerificationCommand spawn command directory timeout startTime = Resolved r ->
  vr_command r = command /\
  (vr_success r = true <-> vr_exitCode r = 0%Z) /\
  (forall evs now,
     spawn (vc_command command) directory (timeout * 1000)%Z = Spawns evs ->
     firstTerminal evs = Some (Close None now) ->
     vr_success r = false /\ vr_exitCode r = 1%Z).
Proof.
  unfold runVerificationCommand.
  destruct (spawn (vc_command command) directory (timeout * 1000)%Z)
    as [message|evs]; [discriminate|].
  rewrite settle_spec.
  destruct (firstTerminal evs) as [[data|data|code now|message now]|] eqn:Hterm;
    try discriminate; intros [= <-]; simpl.
  - split; [reflexivity|]. split.
    + rewrite isZero_spec. destruct code as [z|]; simpl.
      * split; [intros [= ->]; reflexivity | intros ->; reflexivity].
      * split; discriminate.
    + intros evs' now' [= <-] Hterm'. rewrite Hterm in Hterm'.
      injection Hterm' as -> _. split; reflexivity.
  - split; [reflexivity|]. split; [split; discriminate|].
    intros evs' now' [= <-] Hterm'. rewrite Hterm in Hterm'. discriminate.
Qed.

Lemma result_success_iff_exit_zero_witness :
  exists r,
    runVerificationCommand killedRun exampleCommand (js "/repo") 300 100 = Resolved r /\
    vr_command r = exampleCommand /\
    (vr_success r = true <-> vr_exitCode r = 0%Z) /\
    (forall evs now,
       killedRun (vc_command exampleCommand) (js "/repo") (300 * 1000)%Z = Spawns evs ->
       firstTerminal evs = Some (Close None now) ->
       vr_success r = false /\ vr_exitCode r = 1%Z).
Proof.
  eexists. split; [reflexivity|].
  apply (result_success_iff_exit_zero killedRun exampleCommand (js "/repo") 300 100).
  reflexivity.
Defined.

End ResultFacts.

(** ** Discovery: what every result looks like *)

Module DiscoverShape.
Import JS Types Regex Discover JSFacts RegexFacts DiscoverFacts.

Lemma distinct_NoDup (ids : list jsstring) : distinct ids = true -> NoDup ids.
Proof.
  induction ids as [|x ids IH]; intros H; [constructor|].
  simpl in H. apply andb_true_iff in H as [Hx H]. apply negb_true_iff in Hx.
  constructor; [|apply IH; exact H].
  intros Hin. apply list_elem_of_In in Hin.
  assert (Hex : arrayIncludes ids x = true).
  { unfold arrayIncludes. apply existsb_exists. exists x.
    split; [exact Hin | apply eqb_refl]. }
  congruence.
Qed.

Lemma freshlyCreated_spec (c : VerificationCommand) :
  freshlyCreated c = true ->
  vc_status c = Pending /\ vc_output c = None /\ vc_exitCode c = None /\
  vc_name c = dashesToSpaces (vc_id c).
Proof.
  unfold freshlyCreated.
  destruct (vc_status c); try discriminate.
  destruct (vc_output c); try discriminate.
  destruct (vc_exitCode c); try discriminate.
  intros H. apply eqb_eq in H. auto.
Qed.

Lemma packageJson_wellFormed (p : Project) :
  wellFormed (packageJsonBlock p emptyResult) = true.
Proof.
  unfold packageJsonBlock.
  destruct (packageJson p) as [| |[b tc tc' t l]]; try reflexivity.
  destruct b, tc, tc', t, l; vm_compute; reflexivity.
Qed.

Lemma cargo_wellFormed (p : Project) : wellFormed (cargoBlock p emptyResult) = true.
Proof. unfold cargoBlock. destruct (cargoToml p); vm_compute; reflexivity. Qed.

Lemma pyproject_wellFormed (p : Project) :
  wellFormed (pyprojectBlock p emptyResult) = true.
Proof.
  unfold pyprojectBlock.
  destruct (pyproject p) as [| |content]; try reflexivity.
  simpl.
  generalize (includes content (js "[tool.pytest]") || includes content (js "pytest")).
  generalize (includes content (js "[tool.mypy]") || includes content (js "mypy")).
  generalize (includes content (js "[tool.ruff]") || includes content (js "ruff")).
  intros b1 b2 b3. destruct b1, b2, b3; vm_compute; reflexivity.
Qed.

Lemma goMod_wellFormed (p : Project) : wellFormed (goModBlock p emptyResult) = true.
Proof. unfold goModBlock. destruct (goMod p); vm_compute; reflexivity. Qed.

Lemma makefile_wellFormed (p : Project) (y : DiscoveryResult) :
  makefileBlock p emptyResult = Some y -> wellFormed y = true.
Proof.
  unfold makefileBlock.
  destruct (makefile p) as [| |content]; try (intros [= <-]; reflexivity).
  simpl. destruct (extractMakeTargets content) as [targets|]; [|discriminate].
  generalize (arrayIncludes targets (js "build")).
  generalize (arrayIncludes targets (js "test")).
  generalize (arrayIncludes targets (js "lint")).
  generalize (arrayIncludes targets (js "typecheck")).
  generalize (arrayIncludes targets (js "type-check")).
  intros b1 b2 b3 b4 b5 [= <-].
  destruct b1, b2, b3, b4, b5; vm_compute; reflexivity.
Qed.

Lemma firstYield_wellFormed (ys : list (option DiscoveryResult)) (r : DiscoveryResult) :
  (forall y, In (Some y) ys -> wellFormed y = true) ->
  firstYield ys = Some r -> wellFormed r = true.
Proof.
  induction ys as [|[y|] ys IH]; intros Hall H; simpl in H.
  - injection H as <-. reflexivity.
  - destruct (noCommandsYet y).
    + apply IH; [|exact H]. intros y' Hin. apply Hall. right; exact Hin.
    + injection H as <-. apply Hall. left; reflexivity.
  - discriminate.
Qed.

Lemma firstYield_total (p : Project) :
  exists r, firstYield (ecosystemYields p) = Some r.
Proof.
  unfold ecosystemYields. simpl.
  destruct (makefile_yield p) as (y & -> & _).
  repeat match goal with
  | |- context [if ?b then _ else _] => destruct b
  end; eexists; reflexivity.
Qed.

(** For every project, discovery returns a result with at most four
    commands and at most one source; the ids of the commands are pairwise
    distinct; and every command is pending, without output or exit code, and
    named by its id with the dashes turned into spaces. *)
Theorem discovered_commands_well_formed (p : Project) :
  exists r,
    discoverVerificationCommands p = Some r /\
    NoDup (List.map vc_id (commands r)) /\
    Forall (fun c => vc_status c = Pending /\ vc_output c = None /\
                     vc_exitCode c = None /\
                     vc_name c = dashesToSpaces (vc_id c)) (commands r) /\
    length (commands r) <= 4 /\ length (sources r) <= 1.
Proof.
  destruct (firstYield_total p) as (r & Hfirst).
  exists r. split; [rewrite discover_first_yield; exact Hfirst|].
  assert (Hwf : wellFormed r = true).
  { apply (firstYield_wellFormed (ecosystemYields p)); [|exact Hfirst].
    unfold ecosystemYields. intros y [H|[H|[H|[H|[H|[]]]]]].
    - injection H as <-. apply packageJson_wellFormed.
    - injection H as <-. apply cargo_wellFormed.
    - injection H as <-. apply pyproject_wellFormed.
    - injection H as <-. apply goMod_wellFormed.
    - apply (makefile_wellFormed p). exact H. }
  unfold wellFormed in Hwf. rewrite !andb_true_iff in Hwf.
  destruct Hwf as [[[Hd Hf] Hl] Hs].
  split; [apply distinct_NoDup; exact Hd|].
  split.
  - apply Forall_forall. intros c Hc. apply freshlyCreated_spec.
    rewrite forallb_forall in Hf. apply Hf. apply list_elem_of_In. exact Hc.
  - split; [apply Nat.leb_le; exact Hl | apply Nat.leb_le; exact Hs].
Qed.

End DiscoverShape.

(** ** What every match of a pattern looks like *)

Module MatchShape.
Import JS Regex RegexFacts MatchFacts.

Lemma unitBefore_app (p : option N) (a b : jsstring) :
  unitBefore p (a ++ b) = unitBefore (unitBefore p a) b.
Proof. unfold unitBefore. apply fold_left_app. Qed.

Lemma in_run_seq (r1 r2 : regex) (st st' : mstate) :
  In st' (run (Seq r1 r2) st) <-> exists st1, In st1 (run r1 st) /\ In st' (run r2 st1).
Proof. simpl. apply in_flat_map. Qed.

Lemma in_run_chr (pr : N -> bool) (st st' : mstate) :
  In st' (run (Chr pr) st) ->
  exists c s,
    rest st = c :: s /\ pr c = true /\
    st' = {| prev := Some c; rest := s; caps := caps st |}.
Proof.
  simpl. destruct (rest st) as [|c s]; [intros []|].
  destruct (pr c) eqn:E; [|intros []].
  intros [<-|[]]. exists c, s. auto.
Qed.

(** A match consumes a prefix of the input and records the unit before the
    position it ends at. *)
Lemma starLoop_span (step : mstate -> list mstate) (g : bool) :
  (forall st st', In st' (step st) ->
     exists pre, rest st = pre ++ rest st' /\ prev st' = unitBefore (prev st) pre) ->
  forall fuel st st',
    In st' (starLoop step g fuel st) ->
    exists pre, rest st = pre ++ rest st' /\ prev st' = unitBefore (prev st) pre.
Proof.
  intros Hstep fuel; induction fuel as [|n IH]; intros st st' Hin; simpl in Hin.
  - destruct Hin as [<-|[]]. exists []. split; reflexivity.
  - assert (Hmore : forall x,
      In x (List.flat_map (starLoop step g n) (List.filter (progress st) (step st))) ->
      exists pre, rest st = pre ++ rest x /\ prev x = unitBefore (prev st) pre).
    { intros x Hx. apply in_flat_map in Hx as (st1 & H1 & H2).
      apply List.filter_In in H1 as [H1 _].
      destruct (Hstep _ _ H1) as (pre1 & E1 & P1).
      destruct (IH _ _ H2) as (pre2 & E2 & P2).
      exists (pre1 ++ pre2). rewrite <- app_assoc, <- E2, unitBefore_app, <- P1.
      split; assumption. }
    destruct g.
    + apply in_app_or in Hin as [Hin|[<-|[]]]; [auto|].
      exists []. split; reflexivity.
    + destruct Hin as [<-|Hin]; [|auto].
      exists []. split; reflexivity.
Qed.

Lemma run_span (r : regex) :
  forall st st', In st' (run r st) ->
    exists pre, rest st = pre ++ rest st' /\ prev st' = unitBefore (prev st) pre.
Proof.
  induction r as [|p|r1 IH1 r2 IH2|r1 IH1 r2 IH2|g r IH|r IH|r IH| |];
    intros st st' Hin.
  - destruct Hin as [<-|[]]. exists []. split; reflexivity.
  - apply in_run_chr in Hin as (c & s & E & _ & ->).
    exists [c]. split; [exact E | reflexivity].
  - apply in_run_seq in Hin as (st1 & H1 & H2).
    destruct (IH1 _ _ H1) as (pre1 & E1 & P1).
    destruct (IH2 _ _ H2) as (pre2 & E2 & P2).
    exists (pre1 ++ pre2). rewrite <- app_assoc, <- E2, unitBefore_app, <- P1.
    split; assumption.
  - simpl in Hin. apply in_app_or in Hin as [Hin|Hin]; auto.
  - simpl in Hin. eapply starLoop_span; eauto.
  - simpl in Hin. apply in_map_iff in Hin as (st1 & <- & H1). simpl. auto.
  - simpl in Hin. destruct (run r st); [destruct Hin|].
    destruct Hin as [<-|[]]. exists []. split; reflexivity.
  - assert (E : st' = st).
    { simpl in Hin. destruct (prev st) as [c|]; [destruct (isLineTerminator c)|];
        simpl in Hin; intuition congruence. }
    subst st'. exists []. split; reflexivity.
  - assert (E : st' = st).
    { simpl in Hin. destruct (rest st); simpl in Hin; intuition congruence. }
    subst st'. exists []. split; reflexivity.
Qed.

(** The captures of a match extend those it started with. *)
Lemma starLoop_caps (step : mstate -> list mstate) (g : bool) :
  (forall st st', In st' (step st) -> exists new, caps st' = caps st ++ new) ->
  forall fuel st st',
    In st' (starLoop step g fuel st) -> exists new, caps st' = caps st ++ new.
Proof.
  intros Hstep fuel; induction fuel as [|n IH]; intros st st' Hin; simpl in Hin.
  - destruct Hin as [<-|[]]. exists []. rewrite app_nil_r. reflexivity.
  - assert (Hmore : forall x,
      In x (List.flat_map (starLoop step g n) (List.filter (progress st) (step st))) ->
      exists new, caps x = caps st ++ new).
    { intros x Hx. apply in_flat_map in Hx as (st1 & H1 & H2).
      apply List.filter_In in H1 as [H1 _].
      destruct (Hstep _ _ H1) as (n1 & E1). destruct (IH _ _ H2) as (n2 & E2).
      exists (n1 ++ n2). rewrite E2, E1, app_assoc. reflexivity. }
    destruct g.
    + apply in_app_or in Hin as [Hin|[<-|[]]]; [auto|].
      exists []. rewrite app_nil_r. reflexivity.
    + destruct Hin as [<-|Hin]; [|auto].
      exists []. rewrite app_nil_r. reflexivity.
Qed.

(** A consumed prefix is what a group around the match captures. *)
Lemma in_run_group (r : regex) (st st' : mstate) :
  In st' (run (Group r) st) ->
  exists st1 pre,
    In st1 (run r st) /\ rest st = pre ++ rest st1 /\
    st' = {| prev := prev st1; rest := rest st1; caps := caps st1 ++ [pre] |}.
Proof.
  simpl. intros Hin. apply in_map_iff in Hin as (st1 & <- & H1).
  destruct (run_span r _ _ H1) as (pre & E & _).
  exists st1, pre. split; [exact H1|]. split; [exact E|].
  unfold capture. f_equal. f_equal. f_equal.
  rewrite E, length_app.
  replace (length pre + length (rest st1) - length (rest st1)) with (length pre) by lia.
  apply take_app_length.
Qed.

(** Literals and loops over a class of units capture nothing; a literal
    consumes its own text, a loop units of its class. *)
Lemma in_run_lit (w : jsstring) :
  forall st st', In st' (run (Lit w) st) ->
    rest st = w ++ rest st' /\ caps st' = caps st.
Proof.
  unfold Lit. induction w as [|c w IH]; intros st st' Hin.
  - destruct Hin as [<-|[]]. split; reflexivity.
  - change (LitBy N.eqb (c :: w)) with (Seq (Chr (N.eqb c)) (LitBy N.eqb w)) in Hin.
    apply in_run_seq in Hin as (st1 & H1 & H2).
    apply in_run_chr in H1 as (d & s & E & Hd & ->).
    apply N.eqb_eq in Hd. subst d.
    destruct (IH _ _ H2) as (E2 & C2). simpl in E2, C2.
    split; [rewrite E, E2; reflexivity | exact C2].
Qed.

Lemma in_starLoop_class (pr : N -> bool) (g : bool) :
  forall fuel st st',
    In st' (starLoop (run (Chr pr)) g fuel st) ->
    exists pre,
      rest st = pre ++ rest st' /\ forallb pr pre = true /\ caps st' = caps st.
Proof.
  induction fuel as [|n IH]; intros st st' Hin; simpl in Hin.
  - destruct Hin as [<-|[]]. exists []. auto.
  - assert (Hmore : forall x,
      In x (List.flat_map (starLoop (run (Chr pr)) g n)
              (List.filter (progress st) (run (Chr pr) st))) ->
      exists pre, rest st = pre ++ rest x /\ forallb pr pre = true /\ caps x = caps st).
    { intros x Hx. apply in_flat_map in Hx as (st1 & H1 & H2).
      apply List.filter_In in H1 as [H1 _].
      apply in_run_chr in H1 as (c & s & E & Hc & ->).
      destruct (IH _ _ H2) as (pre & E2 & F2 & C2). simpl in E2, C2.
      exists (c :: pre). simpl. rewrite Hc, F2, E, E2. auto. }
    destruct g.
    + apply in_app_or in Hin as [Hin|[<-|[]]]; [auto|]. exists []. auto.
    + destruct Hin as [<-|Hin]; [|auto]. exists []. auto.
Qed.

Lemma in_run_star_class (pr : N -> bool) (g : bool) (st st' : mstate) :
  In st' (run (Star g (Chr pr)) st) ->
  exists pre, rest st = pre ++ rest st' /\ forallb pr pre = true /\ caps st' = caps st.
Proof. simpl. apply in_starLoop_class. Qed.

Lemma in_run_plus_class (pr : N -> bool) (g : bool) (st st' : mstate) :
  In st' (run (Plus g (Chr pr)) st) ->
  exists pre,
    pre <> [] /\ rest st = pre ++ rest st' /\ forallb pr pre = true /\
    caps st' = caps st.
Proof.
  unfold Plus. intros Hin. apply in_run_seq in Hin as (st1 & H1 & H2).
  apply in_run_chr in H1 as (c & s & E & Hc & ->).
  apply in_run_star_class in H2 as (pre & E2 & F2 & C2). simpl in E2, C2.
  exists (c :: pre). split; [discriminate|]. simpl.
  rewrite Hc, F2, E, E2. auto.
Qed.

Lemma in_run_lookahead (r : regex) (st st' : mstate) :
  In st' (run (Lookahead r) st) -> st' = st.
Proof.
  simpl. destruct (run r st); [intros []|]. intros [<-|[]]. reflexivity.
Qed.

(** *** Searching and scanning *)

(** What a search finds is a match at some position of the text. *)
Lemma searchFrom_span (r : regex) :
  forall s p st',
    searchFrom r p s = Some st' ->
    exists a b, s = a ++ b /\ In st' (run r (at_ (unitBefore p a) b [])).
Proof.
  induction s as [|c s IH]; intros p st' H; rewrite searchFrom_eq in H.
  - destruct (run r (at_ p [] [])) as [|x l] eqn:E; [discriminate|].
    injection H as <-. exists [], []. split; [reflexivity|].
    simpl. rewrite E. left; reflexivity.
  - destruct (run r (at_ p (c :: s) [])) as [|x l] eqn:E.
    + destruct (IH _ _ H) as (a & b & -> & Hin).
      exists (c :: a), b. split; [reflexivity | exact Hin].
    + injection H as <-. exists [], (c :: s). split; [reflexivity|].
      simpl. rewrite E. left; reflexivity.
Qed.

(** Every element a scan collects is the captures of a match at some
    position of the text. *)
Lemma execLoop_span (r : regex) :
  forall fuel s p ms,
    execLoop fuel r p s = Some ms ->
    Forall (fun m => exists a b st',
                s = a ++ b /\ In st' (run r (at_ (unitBefore p a) b [])) /\
                caps st' = m) ms.
Proof.
  induction fuel as [|n IH]; intros s p ms H; [discriminate|].
  simpl in H. destruct (searchFrom r p s) as [st'|] eqn:E.
  - destruct (Nat.ltb (length (rest st')) (length s)); [|discriminate].
    destruct (execLoop n r (prev st') (rest st')) as [ms'|] eqn:E'; [|discriminate].
    injection H as <-.
    destruct (searchFrom_span r _ _ _ E) as (a & b & -> & Hin).
    destruct (run_span r _ _ Hin) as (pre & Eb & Ep). simpl in Eb, Ep.
    constructor.
    + exists a, b, st'. auto.
    + specialize (IH _ _ _ E'). eapply Forall_impl; [exact IH|].
      intros m (a2 & b2 & st2 & E2 & Hin2 & Hc).
      exists (a ++ pre ++ a2), b2, st2.
      split; [rewrite Eb, E2, <- !app_assoc; reflexivity|].
      split; [|exact Hc].
      rewrite app_assoc, unitBefore_app, unitBefore_app, <- Ep. exact Hin2.
  - injection H as <-. constructor.
Qed.

End MatchShape.

(** ** The targets of a Makefile *)

Module TargetFacts.
Import JS Types Regex Discover RegexFacts MatchFacts MatchShape DiscoverFacts.

Lemma unitBefore_cases (p : option N) (a : jsstring) :
  (a = [] /\ unitBefore p a = p) \/
  (exists a' c, a = a' ++ [c] /\ unitBefore p a = Some c).
Proof.
  destruct a as [|x a] using rev_ind; [left; split; reflexivity|].
  right. exists a, x. split; [reflexivity|].
  rewrite unitBefore_app. reflexivity.
Qed.

Lemma in_run_bol (st st' : mstate) :
  In st' (run Bol st) ->
  st' = st /\
  (prev st = None \/ exists c, prev st = Some c /\ isLineTerminator c = true).
Proof.
  simpl. destruct (prev st) as [c|] eqn:E.
  - destruct (isLineTerminator c) eqn:L; [|intros []].
    intros [<-|[]]. split; [reflexivity|]. right. exists c. auto.
  - intros [<-|[]]. auto.
Qed.

(** A match of the target pattern: at the start of a line, it captures a
    name that a colon follows. *)
Lemma in_run_targetRegex (st st' : mstate) :
  caps st = [] ->
  In st' (run targetRegex st) ->
  exists t b,
    caps st' = [t] /\ validTarget t = true /\ rest st = t ++ 58%N :: b /\
    rest st' = b /\
    (prev st = None \/ exists c, prev st = Some c /\ isLineTerminator c = true).
Proof.
  intros Hcaps Hin. unfold targetRegex in Hin.
  apply in_run_seq in Hin as (st0 & H0 & Hin).
  apply in_run_bol in H0 as [-> Hprev].
  apply in_run_seq in Hin as (st2 & H2 & Hin).
  apply in_run_group in H2 as (st1 & pre & H1 & Epre & ->).
  apply in_run_seq in H1 as (sa & Ha & H1).
  apply in_run_chr in Ha as (c & s & Ec & Hc & ->).
  apply in_run_star_class in H1 as (pre2 & E2 & F2 & C2). simpl in E2, C2.
  apply in_run_chr in Hin as (d & b & Ed & Hd & ->). simpl in Ed.
  apply N.eqb_eq in Hd. subst d.
  assert (Hpre : pre = c :: pre2).
  { apply (app_inv_tail (rest st1)). rewrite <- Epre, Ec, E2. reflexivity. }
  subst pre. exists (c :: pre2), b. simpl.
  rewrite C2, Hcaps, Hc, F2. split; [reflexivity|]. split; [reflexivity|].
  split; [rewrite Ec, E2, Ed; reflexivity|]. split; [reflexivity | exact Hprev].
Qed.

(** The scan of a Makefile always ends, and every target it extracts is a
    name (a letter or underscore, then letters, digits, underscores and
    dashes) that stands at the start of a line of the file and is followed
    by a colon. *)
Theorem make_targets_are_line_start_names (content : jsstring) :
  exists targets,
    extractMakeTargets content = Some targets /\
    Forall (fun t => validTarget t = true /\ targetLineOf content t) targets.
Proof.
  unfold extractMakeTargets, execAll.
  destruct (execAll_total targetRegex content eq_refl) as [ms Hms].
  unfold execAll in Hms. rewrite Hms. simpl.
  eexists; split; [reflexivity|].
  apply execLoop_span in Hms.
  induction Hms as [|m ms (a & b & st' & E & Hin & Hc) _ IH]; [constructor|].
  simpl. constructor; [|exact IH].
  apply in_run_targetRegex in Hin as (t & b' & Ht & Hvalid & Eb & _ & Hprev);
    [|reflexivity].
  simpl in Eb, Hprev. rewrite <- Hc, Ht. simpl.
  split; [exact Hvalid|].
  exists a, b'. split; [rewrite E, Eb; reflexivity|].
  destruct (unitBefore_cases None a) as [[-> _]|(a' & c & -> & Hu)];
    [left; reflexivity|].
  right. exists a', c. split; [reflexivity|].
  rewrite Hu in Hprev. destruct Hprev as [Hp|(c' & [= <-] & Hl)];
    [discriminate | exact Hl].
Qed.

(** *** Every rule at the start of a line is found *)

Lemma target_found_here (p : option N) (t b : jsstring) :
  (p = None \/ exists c, p = Some c /\ isLineTerminator c = true) ->
  validTarget t = true ->
  exists p' tl, run targetRegex (at_ p (t ++ 58%N :: b) []) = at_ p' b [t] :: tl.
Proof.
  intros Hp Ht. destruct t as [|c us]; [discriminate|].
  simpl in Ht. apply andb_true_iff in Ht as [Hc Hus].
  assert (Hbody : Leads (Seq (Group (Seq (Chr isTargetStart) (Star true (Chr isTargetUnit))))
                             (Chr (N.eqb 58)))
                    ((c :: us) ++ 58%N :: b) [] b [c :: us]).
  { eapply Leads_seq.
    - apply (Leads_group _ (c :: us) (58%N :: b) []).
      eapply Leads_seq.
      + simpl app. apply Leads_chr. exact Hc.
      + apply Leads_star_class; [exact Hus | reflexivity].
    - apply Leads_chr. reflexivity. }
  destruct (Hbody p) as (p' & tl & E).
  exists p', tl. unfold targetRegex.
  change (run (Seq Bol ?r) ?st) with (List.flat_map (run r) (run Bol st)).
  assert (Hbol : run Bol (at_ p ((c :: us) ++ 58%N :: b) [])
                 = [at_ p ((c :: us) ++ 58%N :: b) []]).
  { simpl. destruct Hp as [->|(d & -> & Hd)]; [reflexivity|]. rewrite Hd. reflexivity. }
  rewrite Hbol. cbn [List.flat_map]. rewrite app_nil_r. exact E.
Qed.

(** The leftmost match is the first match at a position, or a match at an
    earlier one. *)
Lemma searchFrom_leftmost (r : regex) (x : mstate) (tl : list mstate) (b : jsstring) :
  forall a p,
    run r (at_ (unitBefore p a) b []) = x :: tl ->
    searchFrom r p (a ++ b) = Some x \/
    exists a1 a2 st',
      a = a1 ++ a2 /\ a2 <> [] /\ searchFrom r p (a ++ b) = Some st' /\
      In st' (run r (at_ (unitBefore p a1) (a2 ++ b) [])).
Proof.
  induction a as [|c a IH]; intros p Hrun.
  - left. simpl in *. rewrite searchFrom_eq, Hrun. reflexivity.
  - rewrite searchFrom_eq.
    destruct (run r (at_ p ((c :: a) ++ b) [])) as [|y l] eqn:E.
    + simpl app. destruct (IH (Some c) Hrun) as [H|(a1 & a2 & st' & -> & Hne & Hs & Hin)].
      * left. exact H.
      * right. exists (c :: a1), a2, st'. auto.
    + right. exists [], (c :: a), y. split; [reflexivity|]. split; [discriminate|].
      split; [reflexivity|]. simpl. simpl in E. rewrite E. left; reflexivity.
Qed.

Lemma unit_not_terminator (c : N) : isTargetUnit c = true -> isLineTerminator c = false.
Proof.
  unfold isTargetUnit, isTargetStart, isDigit, isLineTerminator.
  rewrite !orb_true_iff, !andb_true_iff, !N.leb_le, !N.eqb_eq.
  intros H. rewrite !orb_false_iff, !N.eqb_neq. lia.
Qed.

Lemma start_is_unit (c : N) : isTargetStart c = true -> isTargetUnit c = true.
Proof. unfold isTargetUnit. intros ->. reflexivity. Qed.

Lemma rule_has_no_terminator (t : jsstring) (c : N) :
  validTarget t = true -> In c (t ++ [58%N]) -> isLineTerminator c = false.
Proof.
  intros Ht Hin. destruct t as [|d us]; [discriminate|].
  simpl in Ht. apply andb_true_iff in Ht as [Hd Hus].
  rewrite forallb_forall in Hus.
  apply in_app_or in Hin as [[<-|Hin]|[<-|[]]].
  - apply unit_not_terminator, start_is_unit. exact Hd.
  - apply unit_not_terminator, Hus. exact Hin.
  - reflexivity.
Qed.

Lemma scan_finds_rule (t b : jsstring) :
  validTarget t = true ->
  forall fuel a p,
    length (a ++ t ++ 58%N :: b) < fuel ->
    (unitBefore p a = None \/
     exists c, unitBefore p a = Some c /\ isLineTerminator c = true) ->
    exists ms,
      execLoop fuel targetRegex p (a ++ t ++ 58%N :: b) = Some ms /\ In [t] ms.
Proof.
  intros Ht. induction fuel as [|n IH]; intros a p Hfuel Hline; [lia|].
  destruct (target_found_here (unitBefore p a) t b Hline Ht) as (p' & tl & Hrun).
  simpl execLoop.
  destruct (searchFrom_leftmost targetRegex _ _ _ a p Hrun)
    as [Hs|(a1 & a2 & st' & -> & Hne & Hs & Hin)]; rewrite Hs.
  - pose proof (searchFrom_lt targetRegex eq_refl _ _ _ Hs) as Hlt. simpl in Hlt.
    simpl rest. simpl prev. simpl caps.
    destruct (Nat.ltb_spec (length b) (length (a ++ t ++ 58%N :: b))); [|lia].
    destruct (execLoop_total targetRegex eq_refl n p' b ltac:(lia)) as [ms' ->].
    simpl. eexists; split; [reflexivity | left; reflexivity].
  - pose proof (searchFrom_lt targetRegex eq_refl _ _ _ Hs) as Hlt.
    destruct (Nat.ltb_spec (length (rest st')) (length ((a1 ++ a2) ++ t ++ 58%N :: b)));
      [|lia].
    pose proof (run_span _ _ _ Hin) as (pre & Epre & Eprev). simpl in Epre, Eprev.
    apply in_run_targetRegex in Hin as (t1 & b1 & Hcaps & Ht1 & Erest & Hb1 & _);
      [|reflexivity].
    simpl in Erest.
    assert (Hpre : pre = t1 ++ [58%N]).
    { rewrite Hb1, Erest in Epre.
      replace (t1 ++ 58%N :: b1) with ((t1 ++ [58%N]) ++ b1) in Epre
        by (rewrite <- app_assoc; reflexivity).
      apply app_inv_tail in Epre. symmetry; exact Epre. }
    subst pre.
    (* the rule found ends before the line of [t] starts *)
    assert (Hsplit : exists a3, a2 = (t1 ++ [58%N]) ++ a3 /\ b1 = a3 ++ t ++ 58%N :: b).
    { replace (t1 ++ 58%N :: b1) with ((t1 ++ [58%N]) ++ b1) in Erest
        by (rewrite <- app_assoc; reflexivity).
      apply List.app_eq_app in Erest as (l & [[E1 E2]|[E1 E2]]).
      - exists l. split; assumption.
      - exfalso.
        destruct (exists_last Hne) as (a2' & z & ->).
        assert (Hz : isLineTerminator z = true).
        { rewrite app_assoc, unitBefore_app in Hline. simpl in Hline.
          destruct Hline as [Hl|(c & [= <-] & Hl)]; [discriminate | exact Hl]. }
        assert (Hin : In z (t1 ++ [58%N])).
        { rewrite E1. apply in_or_app. left. apply in_or_app. right. left; reflexivity. }
        rewrite (rule_has_no_terminator t1 z Ht1 Hin) in Hz. discriminate. }
    destruct Hsplit as (a3 & -> & ->).
    destruct (IH a3 (prev st')) as (ms' & Hms & Hin').
    + rewrite Hb1 in H. rewrite !length_app in *. simpl in *. lia.
    + rewrite Eprev, <- !unitBefore_app.
      repeat rewrite <- app_assoc. repeat rewrite <- app_assoc in Hline.
      exact Hline.
    + rewrite Hb1, Hms. simpl. eexists; split; [reflexivity | right; exact Hin'].
Qed.

(** Conversely, every name that stands at the start of a line of the
    Makefile and is followed by a colon is among the extracted targets. *)
Theorem make_targets_found (content t : jsstring) :
  validTarget t = true ->
  targetLineOf content t ->
  exists targets, extractMakeTargets content = Some targets /\ In t targets.
Proof.
  intros Ht (a & b & -> & Hline).
  destruct (scan_finds_rule t b Ht (S (length (a ++ t ++ 58%N :: b))) a None)
    as (ms & Hms & Hin).
  - lia.
  - destruct Hline as [->|(a' & c & -> & Hc)]; [left; reflexivity|].
    right. exists c. rewrite unitBefore_app. split; [reflexivity | exact Hc].
  - unfold extractMakeTargets, execAll. rewrite Hms. simpl.
    eexists; split; [reflexivity|].
    apply (in_map (fun m => nth 0 m []) ms [t]). exact Hin.
Qed.

Lemma make_targets_found_witness :
  exists targets,
    extractMakeTargets (js "all: build" ++ [nl] ++ js "build:" ++ [nl]) = Some targets /\
    In (js "build") targets.
Proof.
  apply (make_targets_found (js "all: build" ++ [nl] ++ js "build:" ++ [nl]) (js "build")).
  - reflexivity.
  - exists (js "all: build" ++ [nl]), [nl]. split; [reflexivity|].
    right. exists (js "all: build"), nl. split; reflexivity.
Defined.

(** A recipe line, a variable assignment and a dot target give no target;
    a rule with prerequisites does. *)
Example makefile_targets :
  extractMakeTargets
    (js ".PHONY: build" ++ [nl] ++ js "CC := gcc" ++ [nl] ++
     js "build: main.o" ++ [nl] ++ [9%N] ++ js "echo test: done" ++ [nl] ++
     js "type-check:" ++ [nl])
  = Some [js "build"; js "type-check"].
Proof. vm_compute. reflexivity. Qed.

End TargetFacts.

(** ** What every parsed record looks like *)

Module ParserShape.
Import JS Types Regex RunManager JSFacts RegexFacts MatchFacts MatchShape RunManagerFacts.

(** *** Trimming *)

Lemma trimStart_spec (v : jsstring) :
  exists pre, v = pre ++ trimStart v /\
    match trimStart v with c :: _ => isWhiteSpace c = false | [] => True end.
Proof.
  induction v as [|c v (pre & E & H)]; [exists []; split; [reflexivity | exact I]|].
  cbn [trimStart]. destruct (isWhiteSpace c) eqn:Hc.
  - exists (c :: pre). split; [simpl; rewrite <- E; reflexivity | exact H].
  - exists []. split; [reflexivity | exact Hc].
Qed.

Lemma trimStart_keeps (c : N) (v : jsstring) :
  isWhiteSpace c = false -> trimStart (v ++ [c]) = trimStart v ++ [c].
Proof.
  intros Hc. induction v as [|d v IH]; cbn [trimStart app].
  - rewrite Hc. reflexivity.
  - destruct (isWhiteSpace d); [exact IH | reflexivity].
Qed.

Lemma forallb_trimStart (P : N -> bool) (v : jsstring) :
  forallb P v = true -> forallb P (trimStart v) = true.
Proof.
  intros H. destruct (trimStart_spec v) as (pre & E & _).
  rewrite E, forallb_app in H. apply andb_true_iff in H as [_ H]. exact H.
Qed.

Lemma forallb_rev (P : N -> bool) (v : jsstring) :
  forallb P (rev v) = forallb P v.
Proof.
  induction v as [|c v IH]; [reflexivity|].
  simpl. rewrite forallb_app, IH. simpl. rewrite andb_true_r. apply andb_comm.
Qed.

(** What [trim] returns is empty, or starts and ends with a unit that is not
    white space; and it keeps every property of the units. *)
Lemma trim_spec (P : N -> bool) (v : jsstring) :
  (forallb P v = true -> forallb P (trim v) = true) /\
  match trim v with
  | [] => True
  | c :: w => isWhiteSpace c = false /\ isWhiteSpace (List.last (c :: w) c) = false
  end.
Proof.
  unfold trim, trimEnd. split.
  - intros H. rewrite forallb_rev. apply forallb_trimStart.
    rewrite forallb_rev. apply forallb_trimStart. exact H.
  - destruct (trimStart_spec v) as (_ & _ & Hhead).
    destruct (trimStart v) as [|c u]; [exact I|].
    simpl rev at 2. rewrite (trimStart_keeps c (rev u) Hhead).
    rewrite rev_app_distr. cbn [rev app].
    split; [exact Hhead|].
    destruct (trimStart_spec (rev u)) as (_ & _ & Hh2).
    destruct (trimStart (rev u)) as [|d x] eqn:E; [simpl; exact Hhead|].
    cbn [rev]. rewrite app_comm_cons, List.last_last. exact Hh2.
Qed.

Lemma trim_emptyOrPlain (v : jsstring) :
  forallb (fun u => negb (isLineTerminator u)) v = true ->
  emptyOrPlain (trim v) = true.
Proof.
  intros H. destruct (trim_spec (fun u => negb (isLineTerminator u)) v) as [Hall Hends].
  specialize (Hall H). unfold emptyOrPlain.
  destruct (trim v) as [|c w]; [reflexivity|].
  destruct Hends as [H1 H2]. unfold plain.
  rewrite H1, H2, Hall. reflexivity.
Qed.

Lemma stringOr_plain (x : option jsstring) (d : jsstring) :
  plain d = true ->
  (forall v, x = Some v -> emptyOrPlain v = true) ->
  plain (stringOr x d) = true.
Proof.
  intros Hd Hx. destruct x as [[|c v]|]; try exact Hd.
  exact (Hx (c :: v) eq_refl).
Qed.

(** *** The captures of the two patterns *)

Lemma in_run_litBy (eq : N -> N -> bool) (w : jsstring) :
  forall st st', In st' (run (LitBy eq w) st) -> caps st' = caps st.
Proof.
  induction w as [|c w IH]; intros st st' Hin.
  - destruct Hin as [<-|[]]. reflexivity.
  - change (LitBy eq (c :: w)) with (Seq (Chr (eq c)) (LitBy eq w)) in Hin.
    apply in_run_seq in Hin as (st1 & H1 & H2).
    apply in_run_chr in H1 as (d & s & E & Hd & ->).
    exact (IH _ _ H2).
Qed.

Lemma in_run_group_plus (pr : N -> bool) (st st' : mstate) :
  In st' (run (Group (Plus true (Chr pr))) st) ->
  exists v,
    v <> [] /\ forallb pr v = true /\ caps st' = caps st ++ [v].
Proof.
  intros Hin. apply in_run_group in Hin as (st1 & pre & H1 & E & ->).
  apply in_run_plus_class in H1 as (pre' & Hne & E' & F & C).
  assert (pre = pre') by (apply (app_inv_tail (rest st1)); congruence).
  subst pre'. exists pre. simpl. rewrite C. auto.
Qed.

(** A match of the block pattern captures a severity word, a title that is
    part of one line, and a body. *)
Lemma in_run_blockRegex (st st' : mstate) :
  caps st = [] ->
  In st' (run blockRegex st) ->
  exists sev title body,
    caps st' = [sev; title; body] /\
    sev <> [] /\ forallb isWordChar sev = true /\
    title <> [] /\ forallb (fun u => negb (isLineTerminator u)) title = true.
Proof.
  intros Hcaps Hin. unfold blockRegex in Hin.
  apply in_run_seq in Hin as (s1 & H1 & Hin).
  apply in_run_lit in H1 as [_ C1].
  apply in_run_seq in Hin as (s2 & H2 & Hin).
  apply in_run_plus_class in H2 as (_ & _ & _ & _ & C2).
  apply in_run_seq in Hin as (s3 & H3 & Hin).
  apply in_run_lit in H3 as [_ C3].
  apply in_run_seq in Hin as (s4 & H4 & Hin).
  apply in_run_group_plus in H4 as (sev & Hsev & Fsev & C4).
  apply in_run_seq in Hin as (s5 & H5 & Hin).
  apply in_run_lit in H5 as [_ C5].
  apply in_run_seq in Hin as (s6 & H6 & Hin).
  apply in_run_group_plus in H6 as (title & Htitle & Ftitle & C6).
  apply in_run_seq in Hin as (s7 & H7 & Hin).
  apply in_run_chr in H7 as (d & s & _ & _ & ->).
  apply in_run_seq in Hin as (s8 & H8 & Hin).
  apply in_run_group in H8 as (s9 & body & H9 & _ & ->).
  apply in_run_star_class in H9 as (_ & _ & _ & C9). simpl in C9.
  apply in_run_lookahead in Hin as ->. simpl.
  exists sev, title, body.
  rewrite C9, C6, C5, C4, C3, C2, C1, Hcaps. simpl. auto.
Qed.

(** A field value is the trimmed rest of one line. *)
Lemma extractField_emptyOrPlain (text field v : jsstring) :
  extractField text field = Some v -> emptyOrPlain v = true.
Proof.
  unfold extractField, matchFirst.
  destruct (searchFrom (fieldRegex field) None text) as [st'|] eqn:E; [|discriminate].
  simpl. intros [= <-].
  apply searchFrom_span in E as (a & b & _ & Hin).
  unfold fieldRegex in Hin.
  apply in_run_seq in Hin as (s1 & H1 & Hin).
  apply in_run_litBy in H1 as C1.
  apply in_run_seq in Hin as (s2 & H2 & Hin).
  apply in_run_star_class in H2 as (_ & _ & _ & C2).
  apply in_run_group_plus in Hin as (v & _ & Fv & Cv).
  rewrite Cv, C2, C1. simpl.
  apply trim_emptyOrPlain. exact Fv.
Qed.

(** *** Ids *)

Lemma unitsOfUint_inj (u v : Decimal.uint) :
  unitsOfUint u = unitsOfUint v -> u = v.
Proof.
  revert v. induction u; intros v H; destruct v; simpl in H;
    try discriminate; try reflexivity;
    injection H as H; f_equal; apply IHu; exact H.
Qed.

Lemma numberToString_inj (n m : N) : numberToString n = numberToString m -> n = m.
Proof.
  unfold numberToString. intros H. apply unitsOfUint_inj in H.
  rewrite <- (DecimalN.Unsigned.of_to n), <- (DecimalN.Unsigned.of_to m), H.
  reflexivity.
Qed.

Lemma lowerUnit_word (c : N) : isWordChar c = true -> isLowerWordChar (lowerUnit c) = true.
Proof.
  unfold isWordChar, isLowerWordChar, lowerUnit, isDigit.
  destruct (N.leb 65 c && N.leb c 90) eqn:U.
  - apply andb_true_iff in U as [U1 U2]. apply N.leb_le in U1, U2.
    intros _.
    replace (N.leb 97 (c + 32)) with true by (symmetry; apply N.leb_le; lia).
    replace (N.leb (c + 32) 122) with true by (symmetry; apply N.leb_le; lia).
    reflexivity.
  - rewrite orb_false_r. intros H. exact H.
Qed.

Lemma imap_ids_distinct (f : nat -> list jsstring -> SlopItem) (blocks : list (list jsstring)) :
  (forall k m, si_id (f k m) = js "slop-" ++ numberToString (N.of_nat k)) ->
  NoDup (List.map si_id (imap f blocks)).
Proof.
  intros Hid. apply NoDup_alt. intros i j x Hi Hj.
  change (List.map si_id (imap f blocks)) with (si_id <$> imap f blocks) in Hi, Hj.
  rewrite list_lookup_fmap, list_lookup_imap in Hi, Hj.
  destruct (blocks !! i) as [mi|]; [|discriminate].
  destruct (blocks !! j) as [mj|]; [|discriminate].
  change (Some (si_id (f i mi)) = Some x) in Hi.
  change (Some (si_id (f j mj)) = Some x) in Hj.
  assert (E : si_id (f i mi) = si_id (f j mj)) by congruence.
  rewrite !Hid in E.
  apply app_inv_head in E. apply numberToString_inj in E. lia.
Qed.

(** On every input the findings parser returns records that are ready for
    the results list: the record at position k has the id "slop-k", so the
    ids are pairwise distinct; none is selected; the severity is a non-empty
    word in lower case (whatever word was written: it is not checked against
    low, medium and high); title and description are empty or a trimmed
    part of one line; file and category are never empty; and the line is
    never 0. *)
Theorem parsed_findings_are_well_formed (content : jsstring) :
  exists items,
    parseFindingsMarkdown content = Some items /\
    NoDup (List.map si_id items) /\
    forall k item, items !! k = Some item ->
      si_id item = js "slop-" ++ numberToString (N.of_nat k) /\
      si_selected item = false /\
      si_severity item <> [] /\
      forallb isLowerWordChar (si_severity item) = true /\
      emptyOrPlain (si_title item) = true /\
      emptyOrPlain (si_description item) = true /\
      plain (si_file item) = true /\
      plain (si_category item) = true /\
      si_line item <> Some 0%Z.
Proof.
  destruct (parseFindingsMarkdown_total content) as (blocks & Hexec & Hparse).
  exists (imap findingOfMatch blocks). split; [exact Hparse|].
  split; [apply imap_ids_distinct; reflexivity|].
  intros k item Hk. apply list_lookup_imap_Some in Hk as (m & Hm & ->).
  unfold execAll in Hexec. apply execLoop_span in Hexec.
  rewrite Forall_forall in Hexec.
  destruct (Hexec m) as (a & b & st' & _ & Hin & Hc);
    [eapply list_elem_of_lookup_2; exact Hm|].
  apply in_run_blockRegex in Hin as (sev & title & body & Hcaps & Hsev & Fsev & _ & Ftitle);
    [|reflexivity].
  rewrite Hcaps in Hc. subst m.
  unfold findingOfMatch. cbn [nth si_id si_selected si_severity si_title
    si_description si_file si_category si_line].
  split; [reflexivity|]. split; [reflexivity|].
  split; [destruct sev; [contradiction | discriminate]|].
  split.
  { unfold toLowerCase. rewrite forallb_forall. intros c Hcin.
    apply in_map_iff in Hcin as (c0 & <- & Hc0).
    apply lowerUnit_word. rewrite forallb_forall in Fsev. apply Fsev. exact Hc0. }
  split; [apply trim_emptyOrPlain; exact Ftitle|].
  split.
  { destruct (extractField body (js "Description")) as [v|] eqn:E; [|reflexivity].
    pose proof (extractField_emptyOrPlain _ _ _ E) as Hv.
    destruct v; [reflexivity | exact Hv]. }
  split; [apply stringOr_plain; [reflexivity | apply extractField_emptyOrPlain]|].
  split; [apply stringOr_plain; [reflexivity | apply extractField_emptyOrPlain]|].
  destruct (parseInt10 _) as [[| |]|]; discriminate.
Qed.

(** A severity word outside the three levels is kept, and a negative line
    number too. *)
Example unchecked_severity_and_line :
  option_map (List.map (fun item => (si_severity item, si_line item)))
    (parseFindingsMarkdown
       (js "### 1. [Critical] Null check" ++ [nl] ++ js "- **Line:** -5" ++ [nl]))
  = Some [(js "critical", Some (-5)%Z)].
Proof. vm_compute. reflexivity. Qed.

(** *** Documents without a block heading *)

Lemma NotFound_blockRegex :
  forall text, includes text (js "### ") = false -> NotFound blockRegex text.
Proof.
  unfold includes.
  induction text as [|c text IH]; intros H.
  - apply NotFound_end. apply Fails_seq, Fails_lit. reflexivity.
  - simpl in H. apply orb_false_iff in H as [H0 H].
    intros p. rewrite searchFrom_eq.
    assert (Hf : Fails blockRegex (c :: text)) by (apply Fails_seq, Fails_lit; exact H0).
    rewrite (Hf p []). apply IH. exact H.
Qed.

(** A document in which "### " does not occur holds no block: both parsers
    return the empty list for it. The documents the prompts ask for when
    nothing is found are of this kind. *)
Theorem no_heading_no_records (content : jsstring) :
  includes content (js "### ") = false ->
  parseFindingsMarkdown content = Some [] /\ parseReviewMarkdown content = Some [].
Proof.
  intros H. pose proof (NotFound_blockRegex content H) as Hnf.
  assert (Hexec : execAll blockRegex content = Some [])
    by (apply execLoop_not_found; exact Hnf).
  unfold parseFindingsMarkdown, parseReviewMarkdown, issueRegex, suggestionRegex.
  rewrite Hexec. split; [reflexivity|].
  destruct (hasNoSuggestionsMarker content); reflexivity.
Qed.

Lemma no_heading_no_records_witness :
  parseFindingsMarkdown noIssuesDocument = Some [] /\
  parseReviewMarkdown noIssuesDocument = Some [].
Proof. apply (no_heading_no_records noIssuesDocument). vm_compute. reflexivity. Defined.

(** The document the review prompt asks for when the code is fine holds none
    of the three marker texts the parser tests for (they differ in letter
    case and wording); it parses to no suggestion because it has no block. *)
Example noSuggestionsDocument_parses :
  hasNoSuggestionsMarker noSuggestionsDocument = false /\
  parseReviewMarkdown noSuggestionsDocument = Some [].
Proof. split; vm_compute; reflexivity. Qed.

End ParserShape.

(** ** The results list and the review screen *)

Module ViewFacts.
Import JS Types Selection RunManager Views JSFacts SelectionFacts ParserShape.

(** *** Selection *)

Lemma setSelected_same (item : SlopItem) : setSelected (si_selected item) item = item.
Proof. destruct item; reflexivity. Qed.

Lemma setSelected_twice (a b : bool) (item : SlopItem) :
  setSelected a (setSelected b item) = setSelected a item.
Proof. reflexivity. Qed.

Lemma lookup_handleToggle (id : jsstring) (items : list SlopItem) (k : nat) :
  handleToggle id items !! k
  = (fun item => if eqb (si_id item) id
                 then setSelected (negb (si_selected item)) item else item)
      <$> items !! k.
Proof. unfold handleToggle. apply list_lookup_fmap. Qed.

(** Toggling a finding twice restores the list. A toggle keeps the number
    and the order of the findings and changes nothing but the selected flag
    of the findings with the given id; when the ids are pairwise distinct (as
    the parser assigns them) that is the one finding toggled. *)
Theorem toggle_flips_one_finding (id : jsstring) (items : list SlopItem) :
  handleToggle id (handleToggle id items) = items /\
  length (handleToggle id items) = length items /\
  (forall k item, items !! k = Some item -> si_id item <> id ->
     handleToggle id items !! k = Some item) /\
  (forall k item, NoDup (List.map si_id items) -> items !! k = Some item ->
     si_id item = id ->
     handleToggle id items
     = <[k := setSelected (negb (si_selected item)) item]> items).
Proof.
  split; [|split; [|split]].
  - unfold handleToggle. rewrite List.map_map.
    rewrite <- (List.map_id items) at 2. apply List.map_ext.
    intros item. destruct (eqb (si_id item) id) eqn:E.
    + simpl. rewrite E. rewrite setSelected_twice, negb_involutive.
      apply setSelected_same.
    + rewrite E. reflexivity.
  - unfold handleToggle. apply List.length_map.
  - intros k item Hk Hne. rewrite lookup_handleToggle, Hk. simpl.
    apply eqb_neq in Hne. rewrite Hne. reflexivity.
  - intros k item Hnd Hk Hid. apply list_eq. intros j.
    rewrite lookup_handleToggle.
    destruct (Nat.eq_dec j k) as [->|Hjk].
    + rewrite list_lookup_insert_eq by (apply lookup_lt_Some in Hk; exact Hk).
      rewrite Hk. simpl. rewrite Hid, eqb_refl. reflexivity.
    + rewrite list_lookup_insert_ne by congruence.
      destruct (items !! j) as [other|] eqn:Hj; [|reflexivity]. simpl.
      destruct (eqb (si_id other) id) eqn:E; [|reflexivity].
      exfalso. apply eqb_eq in E.
      apply Hjk. apply (NoDup_lookup _ j k id Hnd).
      * change (List.map si_id items) with (si_id <$> items).
        rewrite list_lookup_fmap, Hj. simpl. congruence.
      * change (List.map si_id items) with (si_id <$> items).
        rewrite list_lookup_fmap, Hk. simpl. congruence.
Qed.

Lemma toggle_flips_one_finding_witness :
  handleToggle (js "slop-1") [uiSlopFinding; plainFinding]
  = <[1 := setSelected (negb (si_selected plainFinding)) plainFinding]>
      [uiSlopFinding; plainFinding].
Proof.
  apply (toggle_flips_one_finding (js "slop-1") [uiSlopFinding; plainFinding]).
  - apply DiscoverShape.distinct_NoDup. reflexivity.
  - reflexivity.
  - reflexivity.
Defined.

Lemma proceedSelected_selectAll (items : list SlopItem) :
  proceedSelected (handleSelectAll items)
  = List.map (setSelected true) (List.filter (fun i => negb (isHintOnly i)) items).
Proof.
  unfold proceedSelected, handleSelectAll.
  induction items as [|item items IH]; [reflexivity|].
  cbn [List.map List.filter].
  change (si_selected (setSelected true item)) with true.
  change (isHintOnly (setSelected true item)) with (isHintOnly item).
  cbn [andb]. destruct (negb (isHintOnly item)); cbn [List.map]; rewrite IH; reflexivity.
Qed.

Lemma taskIds_of (kept : list SlopItem) :
  List.map t_slopItemId (List.flat_map generateTasksForSlopItem kept)
  = List.map si_id kept.
Proof. induction kept as [|item kept IH]; [reflexivity|]. simpl. rewrite IH. reflexivity. Qed.

(** Select-all followed by proceed generates one task for each finding that
    is not hint-only, in order, and none for a hint-only finding;
    deselect-all leaves nothing selected, so that ENTER does not proceed,
    and a proceed would generate no task. *)
Theorem select_all_then_proceed (items : list SlopItem) (v : View) :
  List.map t_slopItemId (fst (handleProceed (handleSelectAll items)))
  = List.map si_id (List.filter (fun i => negb (isHintOnly i)) items) /\
  selectedCount (handleDeselectAll items) = 0 /\
  slopListKey (handleDeselectAll items) v IReturn = (v, []) /\
  fst (handleProceed (handleDeselectAll items)) = [].
Proof.
  assert (Hnone : List.filter si_selected (handleDeselectAll items) = []).
  { unfold handleDeselectAll. induction items as [|item items IH]; [reflexivity|].
    simpl. exact IH. }
  assert (Hkept : proceedSelected (handleDeselectAll items) = []).
  { clear Hnone. unfold proceedSelected, handleDeselectAll.
    induction items as [|item items IH]; [reflexivity|]. simpl. exact IH. }
  split; [|split; [|split]].
  - unfold handleProceed. cbn [fst]. rewrite taskIds_of, proceedSelected_selectAll.
    rewrite List.map_map. reflexivity.
  - unfold selectedCount. rewrite Hnone. reflexivity.
  - unfold slopListKey, selectedCount. rewrite Hnone. reflexivity.
  - unfold handleProceed. cbn [fst]. rewrite Hkept. reflexivity.
Qed.

(** *** Review suggestions turned into findings *)

Lemma handleApplySuggestions_all_fixable (suggestions : list ReviewSuggestion) :
  proceedSelected (handleApplySuggestions suggestions)
  = handleApplySuggestions suggestions.
Proof.
  unfold proceedSelected. apply List.forallb_filter_id. apply forallb_forall.
  intros item Hin. apply list_elem_of_In in Hin.
  apply list_elem_of_lookup_1 in Hin as [k Hk].
  apply list_lookup_imap_Some in Hk as (s & _ & ->). reflexivity.
Qed.

Lemma imap_ids_distinct_prefixed {A} (prefix : jsstring) (f : nat -> A -> SlopItem)
  (l : list A) :
  (forall k x, si_id (f k x) = prefix ++ numberToString (N.of_nat k)) ->
  NoDup (List.map si_id (imap f l)).
Proof.
  intros Hid. apply NoDup_alt. intros i j x Hi Hj.
  change (List.map si_id (imap f l)) with (si_id <$> imap f l) in Hi, Hj.
  rewrite list_lookup_fmap, list_lookup_imap in Hi, Hj.
  destruct (l !! i) as [xi|]; [|discriminate].
  destruct (l !! j) as [xj|]; [|discriminate].
  change (Some (si_id (f i xi)) = Some x) in Hi.
  change (Some (si_id (f j xj)) = Some x) in Hj.
  assert (E : si_id (f i xi) = si_id (f j xj)) by congruence.
  rewrite !Hid in E.
  apply app_inv_head in E. apply numberToString_inj in E. lia.
Qed.

(** The findings made from review suggestions: one per suggestion, in order,
    with the id "review-slop-k" at position k (pairwise distinct), the
    category style-inconsistency, and selected. Proceeding keeps all of
    them and generates exactly one task for each. *)
Theorem applied_suggestions_all_become_tasks (suggestions : list ReviewSuggestion) :
  let items := handleApplySuggestions suggestions in
  length items = length suggestions /\
  NoDup (List.map si_id items) /\
  (forall k item, items !! k = Some item ->
     si_id item = js "review-slop-" ++ numberToString (N.of_nat k) /\
     si_category item = js "style-inconsistency" /\ si_selected item = true) /\
  snd (handleProceed items) = items /\
  List.map t_slopItemId (fst (handleProceed items)) = List.map si_id items /\
  length (fst (handleProceed items)) = length suggestions.
Proof.
  cbv zeta. unfold handleProceed. cbn [fst snd].
  rewrite handleApplySuggestions_all_fixable.
  split; [apply length_imap|].
  split; [apply imap_ids_distinct_prefixed with (prefix := js "review-slop-"); reflexivity|].
  split.
  { intros k item Hk. apply list_lookup_imap_Some in Hk as (s & _ & ->).
    repeat split. }
  split; [reflexivity|].
  split; [apply taskIds_of|].
  rewrite <- (List.length_map t_slopItemId), taskIds_of, List.length_map.
  apply length_imap.
Qed.

(** *** Moving the cursor *)

Lemma moveUp_onScreen (visibleItems len : Z) (v : View) :
  (0 < visibleItems)%Z ->
  onScreen visibleItems len v -> onScreen visibleItems len (moveUp v).
Proof.
  unfold onScreen, moveUp. cbn [cursor scrollOffset].
  intros Hvis (Hc & Hs & Hw).
  destruct (Z.ltb_spec (Z.max 0 (cursor v - 1)) (scrollOffset v)); lia.
Qed.

Lemma moveDown_onScreen (visibleItems len : Z) (v : View) :
  (0 < visibleItems)%Z ->
  onScreen visibleItems len v -> onScreen visibleItems len (moveDown visibleItems len v).
Proof.
  unfold onScreen, moveDown. cbn [cursor scrollOffset].
  intros Hvis (Hc & Hs & Hw).
  destruct (Z.leb_spec (scrollOffset v + visibleItems) (Z.min (len - 1) (cursor v + 1)));
    lia.
Qed.

Lemma onScreen_displayed {A} (visibleItems : Z) (items : list A) (v : View) :
  onScreen visibleItems (lengthZ items) v ->
  exists item,
    itemAt items (cursor v) = Some item /\
    displayItems visibleItems items v !! Z.to_nat (cursor v - scrollOffset v)
    = Some item.
Proof.
  unfold onScreen, lengthZ, itemAt, displayItems. intros (Hc & Hs & Hw).
  destruct (Z.ltb_spec (cursor v) 0); [lia|].
  destruct (lookup_lt_is_Some_2 items (Z.to_nat (cursor v))) as [item Hitem]; [lia|].
  exists item. split; [exact Hitem|].
  rewrite lookup_take_lt by lia. rewrite lookup_drop.
  replace (Z.to_nat (scrollOffset v) + Z.to_nat (cursor v - scrollOffset v))
    with (Z.to_nat (cursor v)) by lia.
  exact Hitem.
Qed.

(** In the results list and in the review list, the arrow keys keep the
    cursor on an item and inside the window of rows shown: the row under the
    cursor is always displayed, and no prop is called. *)
Theorem arrows_keep_cursor_on_screen (items : list SlopItem)
  (suggestions : list ReviewSuggestion) (v : View) (k : ListInput) :
  k = IUp \/ k = IDown ->
  (onScreen slopListVisible (lengthZ items) v ->
   let '(v', cbs) := slopListKey items v k in
   cbs = [] /\ onScreen slopListVisible (lengthZ items) v' /\
   exists item,
     itemAt items (cursor v') = Some item /\
     displayItems slopListVisible items v' !! Z.to_nat (cursor v' - scrollOffset v')
     = Some item) /\
  (onScreen reviewVisible (lengthZ suggestions) v ->
   let '(v', cbs) := reviewResultsKey suggestions false v k in
   cbs = [] /\ onScreen reviewVisible (lengthZ suggestions) v' /\
   exists s,
     itemAt suggestions (cursor v') = Some s /\
     displayItems reviewVisible suggestions v' !! Z.to_nat (cursor v' - scrollOffset v')
     = Some s).
Proof.
  intros Hk. split; intros Hon.
  - assert (Hon' : onScreen slopListVisible (lengthZ items) (fst (slopListKey items v k)) /\
                   snd (slopListKey items v k) = []).
    { destruct Hk as [-> | ->]; simpl; split; try reflexivity;
        [apply moveUp_onScreen | apply moveDown_onScreen]; auto; reflexivity. }
    destruct (slopListKey items v k) as [v' cbs]. simpl in Hon'.
    destruct Hon' as [Hon' ->]. split; [reflexivity|]. split; [exact Hon'|].
    apply onScreen_displayed. exact Hon'.
  - assert (Hsome : Nat.ltb 0 (length suggestions) = true).
    { apply Nat.ltb_lt. destruct Hon as (Hc & _). unfold lengthZ in Hc. lia. }
    assert (Hon' : onScreen reviewVisible (lengthZ suggestions)
                     (fst (reviewResultsKey suggestions false v k)) /\
                   snd (reviewResultsKey suggestions false v k) = []).
    { unfold reviewResultsKey. rewrite Hsome.
      destruct Hk as [-> | ->]; simpl; split; try reflexivity;
        [apply moveUp_onScreen | apply moveDown_onScreen]; auto; reflexivity. }
    destruct (reviewResultsKey suggestions false v k) as [v' cbs]. simpl in Hon'.
    destruct Hon' as [Hon' ->]. split; [reflexivity|]. split; [exact Hon'|].
    apply onScreen_displayed. exact Hon'.
Qed.

Lemma arrows_keep_cursor_on_screen_witness :
  let '(v', cbs) := slopListKey twelveFindings {| cursor := 9; scrollOffset := 0 |} IDown in
  cbs = [] /\ onScreen slopListVisible (lengthZ twelveFindings) v' /\
  exists item,
    itemAt twelveFindings (cursor v') = Some item /\
    displayItems slopListVisible twelveFindings v' !! Z.to_nat (cursor v' - scrollOffset v')
    = Some item.
Proof.
  apply (arrows_keep_cursor_on_screen twelveFindings [] {| cursor := 9; scrollOffset := 0 |}
           IDown (or_intror eq_refl)).
  unfold onScreen, slopListVisible, lengthZ. simpl. lia.
Defined.

(** *** Marking a finding as not slop *)

Lemma filter_other_ids (items : list SlopItem) (k : nat) (item : SlopItem) :
  NoDup (List.map si_id items) ->
  items !! k = Some item ->
  List.filter (fun i => negb (eqb (si_id i) (si_id item))) items
  = take k items ++ drop (S k) items.
Proof.
  revert k. induction items as [|x items IH]; intros k Hnd Hk; [discriminate|].
  simpl in Hnd. apply NoDup_cons in Hnd as [Hx Hnd].
  destruct k as [|k]; simpl in Hk.
  - injection Hk as ->. cbn [List.filter take drop app].
    rewrite eqb_refl. cbn [negb]. rewrite drop_0.
    apply List.forallb_filter_id. apply forallb_forall. intros y Hy.
    apply negb_true_iff, eqb_neq. intros E. apply Hx.
    apply list_elem_of_In. rewrite <- E. apply in_map. exact Hy.
  - cbn [List.filter take drop app].
    assert (Hne : eqb (si_id x) (si_id item) = false).
    { apply eqb_neq. intros E. apply Hx. apply list_elem_of_In. rewrite E.
      apply in_map. apply list_elem_of_In. eapply list_elem_of_lookup_2. exact Hk. }
    rewrite Hne. cbn [negb]. f_equal. apply IH; assumption.
Qed.

(** With pairwise distinct ids and the cursor on a finding, the key x
    removes exactly that finding and keeps the others in order; the cursor
    stays on a finding, or at 0 when none is left; the scroll offset is not
    changed. *)
Theorem mark_not_slop_removes_finding_under_cursor (items : list SlopItem) (v : View)
  (k : nat) (item : SlopItem) :
  NoDup (List.map si_id items) ->
  cursor v = Z.of_nat k ->
  items !! k = Some item ->
  let '(items', v') := slopListStep (items, v) IKeyX in
  items' = take k items ++ drop (S k) items /\
  length items' = length items - 1 /\
  scrollOffset v' = scrollOffset v /\
  ((items' = [] /\ cursor v' = 0%Z) \/ (0 <= cursor v' < lengthZ items')%Z).
Proof.
  intros Hnd Hc Hk.
  assert (Hlen : k < length items) by (apply lookup_lt_Some in Hk; exact Hk).
  assert (Hat : itemAt items (cursor v) = Some item).
  { unfold itemAt. rewrite Hc. destruct (Z.ltb_spec (Z.of_nat k) 0); [lia|].
    rewrite Nat2Z.id. exact Hk. }
  assert (Hfound : handleMarkNotSlop (si_id item) items
                   = take k items ++ drop (S k) items).
  { unfold handleMarkNotSlop.
    destruct (List.find _ items) eqn:E.
    - apply filter_other_ids; assumption.
    - exfalso.
      assert (Hin : In item items)
        by (apply list_elem_of_In; eapply list_elem_of_lookup_2; exact Hk).
      pose proof (List.find_none _ _ E item Hin) as Hno. simpl in Hno.
      rewrite eqb_refl in Hno. discriminate. }
  unfold slopListStep, slopListKey. rewrite Hat. cbn [fold_left applyToFindings].
  rewrite Hfound.
  assert (Hlen' : length (take k items ++ drop (S k) items) = length items - 1).
  { rewrite length_app, length_take, length_drop. lia. }
  split; [reflexivity|]. split; [exact Hlen'|].
  split; [destruct (_ && _); reflexivity|].
  destruct (Z.leb_spec (lengthZ items - 1) (cursor v));
    destruct (Z.ltb_spec 0 (cursor v)); cbn [andb cursor];
    unfold lengthZ in *; rewrite Hlen'.
  - right. lia.
  - left. split; [|lia].
    apply length_zero_iff_nil. rewrite Hlen'. lia.
  - right. lia.
  - right. lia.
Qed.

Lemma mark_not_slop_removes_finding_under_cursor_witness :
  let '(items', v') :=
    slopListStep (twelveFindings, {| cursor := 11; scrollOffset := 2 |}) IKeyX in
  items' = take 11 twelveFindings ++ drop 12 twelveFindings /\
  length items' = length twelveFindings - 1 /\
  scrollOffset v' = 2%Z /\
  ((items' = [] /\ cursor v' = 0%Z) \/ (0 <= cursor v' < lengthZ items')%Z).
Proof.
  apply (mark_not_slop_removes_finding_under_cursor twelveFindings
           {| cursor := 11; scrollOffset := 2 |} 11 (finding 11)).
  - apply DiscoverShape.distinct_NoDup. vm_compute. reflexivity.
  - reflexivity.
  - reflexivity.
Defined.

(** Since the key x never moves the scroll offset, removing findings at the
    end of a scrolled list can leave the cursor above the window: after ten
    removals two findings are left and no row is shown. *)
Example window_lost_after_removals :
  let '(items', v') :=
    fold_left slopListStep (List.repeat IKeyX 10)
      (twelveFindings, {| cursor := 11; scrollOffset := 2 |}) in
  (length items', cursor v', scrollOffset v', length (displayItems slopListVisible items' v'))
  = (2, 1%Z, 2%Z, 0).
Proof. vm_compute. reflexivity. Qed.

(** *** The keys of the review screen *)

(** The review screen calls onSkip only when there is no suggestion (on s or
    ENTER) and onApply only when there is one (on a); it calls nothing while
    the review is loading. So with at least one suggestion on screen the
    keys s and ENTER do nothing. *)
Theorem review_skip_needs_no_suggestions (suggestions : list ReviewSuggestion)
  (isLoading : bool) (v : View) (k : ListInput) :
  let cbs := snd (reviewResultsKey suggestions isLoading v k) in
  (cbs = [] \/ cbs = [OnSkip] \/ cbs = [OnApply]) /\
  (cbs = [OnSkip] <->
   isLoading = false /\ suggestions = [] /\ (k = IKeyS \/ k = IReturn)) /\
  (cbs = [OnApply] <-> isLoading = false /\ suggestions <> [] /\ k = IKeyA).
Proof.
  cbv zeta. unfold reviewResultsKey.
  destruct isLoading.
  { simpl. split; [auto|]. split; split; try discriminate; intros (H & _); discriminate. }
  destruct suggestions as [|s suggestions]; destruct k; cbn [length Nat.ltb Nat.eqb Nat.leb snd];
    (split; [auto|]); split; split;
    try discriminate; try (intros (_ & H & _); congruence);
    try (intros (_ & _ & [H|H]); discriminate);
    try (intros (_ & _ & H); discriminate);
    try (intros _; repeat split; auto; discriminate).
Qed.

End ViewFacts.

(** ** Tasks grouped by file *)

Module TaskFacts.
Import JS Types Selection Tasks JSFacts SelectionFacts.

Lemma groupTasksByFile_snoc (l : list Task) (t : Task) :
  groupTasksByFile (l ++ [t]) = pushTo (fileKey t) t (groupTasksByFile l).
Proof. unfold groupTasksByFile. rewrite fold_left_app. reflexivity. Qed.

Lemma tasksOf_pushTo (file f : jsstring) (t : Task) (groups : Groups) :
  tasksOf f (pushTo file t groups)
  = if eqb file f then tasksOf f groups ++ [t] else tasksOf f groups.
Proof.
  induction groups as [|[g ts] rest IH]; simpl.
  - destruct (eqb file f); reflexivity.
  - destruct (eqb g file) eqn:E; simpl.
    + apply eqb_eq in E. subst g. destruct (eqb file f); reflexivity.
    + destruct (eqb g f) eqn:E2; [|exact IH].
      apply eqb_eq in E2. subst g.
      destruct (eqb file f) eqn:E3; [|reflexivity].
      apply eqb_eq in E3. subst file. rewrite eqb_refl in E. discriminate.
Qed.

Lemma keys_pushTo (file : jsstring) (t : Task) (groups : Groups) :
  List.map fst (pushTo file t groups)
  = if existsb (fun g => eqb g file) (List.map fst groups)
    then List.map fst groups else List.map fst groups ++ [file].
Proof.
  induction groups as [|[g ts] rest IH]; simpl; [reflexivity|].
  destruct (eqb g file); simpl; [reflexivity|].
  rewrite IH. destruct (existsb _ _); reflexivity.
Qed.

Lemma concat_pushTo (file : jsstring) (t : Task) (groups : Groups) :
  Permutation (concat (List.map snd (pushTo file t groups)))
              (concat (List.map snd groups) ++ [t]).
Proof.
  induction groups as [|[g ts] rest IH]; simpl; [reflexivity|].
  destruct (eqb g file); simpl.
  - rewrite <- !app_assoc. apply Permutation_app_head.
    apply Permutation_app_comm.
  - rewrite IH, app_assoc. reflexivity.
Qed.

Lemma onFile_snoc (f : jsstring) (l : list Task) (t : Task) :
  onFile f (l ++ [t]) = if eqb (fileKey t) f then onFile f l ++ [t] else onFile f l.
Proof.
  unfold onFile. rewrite List.filter_app. simpl.
  destruct (eqb (fileKey t) f); [reflexivity | apply app_nil_r].
Qed.

Lemma tasksOf_group (taskList : list Task) (f : jsstring) :
  tasksOf f (groupTasksByFile taskList) = onFile f taskList.
Proof.
  induction taskList as [|t l IH] using rev_ind; [reflexivity|].
  rewrite groupTasksByFile_snoc, tasksOf_pushTo, onFile_snoc, IH. reflexivity.
Qed.

Lemma keys_distinct (taskList : list Task) :
  NoDup (List.map fst (groupTasksByFile taskList)).
Proof.
  induction taskList as [|t l IH] using rev_ind; [constructor|].
  rewrite groupTasksByFile_snoc, keys_pushTo.
  destruct (existsb _ _) eqn:E; [exact IH|].
  apply NoDup_app. split; [exact IH|]. split; [|apply NoDup_singleton].
  intros x Hx Hx'. apply list_elem_of_singleton in Hx'. subst x.
  assert (Hex : existsb (fun g => eqb g (fileKey t)) (List.map fst (groupTasksByFile l)) = true).
  { apply existsb_exists. exists (fileKey t).
    split; [apply list_elem_of_In; exact Hx | apply eqb_refl]. }
  congruence.
Qed.

Lemma tasksOf_in (groups : Groups) (f : jsstring) (ts : list Task) :
  NoDup (List.map fst groups) -> In (f, ts) groups -> tasksOf f groups = ts.
Proof.
  induction groups as [|[g us] rest IH]; intros Hnd Hin; [destruct Hin|].
  simpl in Hnd. apply NoDup_cons in Hnd as [Hg Hnd]. simpl.
  destruct Hin as [[= -> ->]|Hin].
  - rewrite eqb_refl. reflexivity.
  - destruct (eqb g f) eqn:E; [|apply IH; assumption].
    exfalso. apply eqb_eq in E. subst g. apply Hg.
    apply list_elem_of_In. apply (in_map fst rest (f, ts)). exact Hin.
Qed.

Lemma key_present (taskList : list Task) (t : Task) :
  In t taskList -> In (fileKey t) (List.map fst (groupTasksByFile taskList)).
Proof.
  induction taskList as [|u l IH] using rev_ind; [intros []|].
  intros Hin. rewrite groupTasksByFile_snoc, keys_pushTo.
  apply in_app_or in Hin as [Hin|[->|[]]].
  - specialize (IH Hin). destruct (existsb _ _); [exact IH|].
    apply in_or_app. left; exact IH.
  - destruct (existsb _ _) eqn:E.
    + apply existsb_exists in E as (g & Hg & Eg). apply eqb_eq in Eg. subst g. exact Hg.
    + apply in_or_app. right. left; reflexivity.
Qed.

(** Grouping partitions the tasks by file: the keys are pairwise distinct;
    the group of a key holds exactly the tasks of that file (a task without
    a file counting under "unknown"), in the order of the list, and is not
    empty; every task is in the group of its file; and the groups together
    hold the tasks of the list, none lost and none twice. *)
Theorem groups_partition_tasks_by_file (taskList : list Task) :
  let groups := groupTasksByFile taskList in
  NoDup (List.map fst groups) /\
  (forall f ts, In (f, ts) groups -> ts = onFile f taskList /\ ts <> []) /\
  (forall t, In t taskList ->
     exists ts, In (fileKey t, ts) groups /\ In t ts) /\
  Permutation (concat (List.map snd groups)) taskList.
Proof.
  cbv zeta. pose proof (keys_distinct taskList) as Hnd.
  split; [exact Hnd|]. split; [|split].
  - intros f ts Hin.
    pose proof (tasksOf_in _ _ _ Hnd Hin) as E. rewrite tasksOf_group in E.
    split; [symmetry; exact E|].
    clear E Hnd. revert f ts Hin.
    induction taskList as [|t l IH] using rev_ind; [intros f ts []|].
    intros f ts Hin. rewrite groupTasksByFile_snoc in Hin.
    revert Hin. generalize (groupTasksByFile l) as groups, IH.
    induction groups as [|[g us] rest IHg]; intros IH' Hin; simpl in Hin.
    + destruct Hin as [[= <- <-]|[]]. discriminate.
    + destruct (eqb g (fileKey t)).
      * destruct Hin as [[= <- <-]|Hin]; [intros E; destruct us; discriminate|].
        apply (IH' f ts). right; exact Hin.
      * destruct Hin as [[= <- <-]|Hin]; [apply (IH' g us); left; reflexivity|].
        apply IHg; [|exact Hin]. intros f' ts' H'. apply (IH' f' ts'). right; exact H'.
  - intros t Hin. apply key_present in Hin as Hkey.
    apply in_map_iff in Hkey as ([f ts] & Ef & Hg). simpl in Ef. subst f.
    exists ts. split; [exact Hg|].
    pose proof (tasksOf_in _ _ _ Hnd Hg) as E. rewrite tasksOf_group in E.
    rewrite <- E. unfold onFile. apply List.filter_In.
    split; [exact Hin | apply eqb_refl].
  - clear Hnd. induction taskList as [|t l IH] using rev_ind; [reflexivity|].
    rewrite groupTasksByFile_snoc, concat_pushTo, IH. reflexivity.
Qed.

Example three_tasks_grouped :
  List.map (fun g => (fst g, List.map t_id (snd g))) (groupTasksByFile threeTasks)
  = [(js "src/a.ts", [js "task-slop-0"; js "task-slop-2"]);
     (js "src/b.ts", [js "task-slop-1"])].
Proof. vm_compute. reflexivity. Qed.

(** Every task generated at the proceed transition finds a finding with
    its slopItemId among the findings kept, so [executeTask] never returns
    early for it; and it is pending, with the id and the file of the finding
    it was generated from. *)
Theorem generated_tasks_find_their_finding (slopItems : list SlopItem) (task : Task) :
  In task (fst (handleProceed slopItems)) ->
  exists item,
    findingOfTask task (snd (handleProceed slopItems)) = Some item /\
    si_id item = t_slopItemId task /\
    In item (snd (handleProceed slopItems)) /\
    exists src, In src slopItems /\ t_file task = Some (si_file src) /\
                t_id task = js "task-" ++ si_id src /\ t_status task = TPending.
Proof.
  unfold handleProceed. cbn [fst snd]. intros Hin.
  apply in_flat_map in Hin as (src & Hsrc & Htask).
  destruct Htask as [<-|[]]. cbn [t_slopItemId t_file t_id t_status].
  unfold findingOfTask. cbn [t_slopItemId].
  destruct (List.find _ _) as [item|] eqn:E.
  - apply List.find_some in E as [Hitem Hid]. apply eqb_eq in Hid.
    exists item. split; [reflexivity|]. split; [exact Hid|]. split; [exact Hitem|].
    exists src. split; [|auto].
    unfold proceedSelected in Hsrc. apply List.filter_In in Hsrc as [Hsrc _]. exact Hsrc.
  - exfalso. pose proof (List.find_none _ _ E src Hsrc) as Hno. simpl in Hno.
    rewrite eqb_refl in Hno. discriminate.
Qed.

Lemma generated_tasks_find_their_finding_witness :
  exists item,
    findingOfTask plainTask (snd (handleProceed [uiSlopFinding; plainFinding]))
    = Some item /\
    si_id item = t_slopItemId plainTask /\
    In item (snd (handleProceed [uiSlopFinding; plainFinding])) /\
    exists src, In src [uiSlopFinding; plainFinding] /\
                t_file plainTask = Some (si_file src) /\
                t_id plainTask = js "task-" ++ si_id src /\
                t_status plainTask = TPending.
Proof.
  apply (generated_tasks_find_their_finding [uiSlopFinding; plainFinding] plainTask).
  vm_compute. left; reflexivity.
Defined.

End TaskFacts.

(** ** The configuration loader *)

Module ConfigFacts.
Import JS Discover Config.

Lemma stringOr_nonempty_default (x : option jsstring) (d : jsstring) :
  d <> [] -> stringOr x d <> [].
Proof. intros Hd. destruct x as [[|c v]|]; simpl; auto; discriminate. Qed.

Lemma withDefaults_models_nonempty (parsed : Parsed) :
  planning (cfg_models (withDefaults parsed)) <> [] /\
  executing (cfg_models (withDefaults parsed)) <> [] /\
  verification (cfg_models (withDefaults parsed)) <> [].
Proof. repeat split; apply stringOr_nonempty_default; discriminate. Qed.

(** [loadConfig] always returns a configuration whose three model names are
    not empty. A project file that parses decides the result alone: the
    global file is not consulted, and what the project file leaves out comes
    from the defaults, not from the global file. A project file that is
    missing or does not parse gives the global configuration, and that is
    the default configuration when the global file is missing or does not
    parse. A retry limit or timeout that is set is kept as it is, 0
    included, while an empty model name is replaced by the default. *)
Theorem loadConfig_precedence_and_defaults (projectFile globalFile : Probe Parsed) :
  let config := loadConfig projectFile globalFile in
  (planning (cfg_models config) <> [] /\ executing (cfg_models config) <> [] /\
   verification (cfg_models config) <> []) /\
  (forall parsed, projectFile = Content parsed ->
     config = withDefaults parsed /\
     forall otherGlobal, loadConfig projectFile otherGlobal = config) /\
  ((projectFile = Absent \/ projectFile = Unreadable) ->
   config = loadGlobalConfig globalFile) /\
  ((projectFile = Absent \/ projectFile = Unreadable) ->
   (globalFile = Absent \/ globalFile = Unreadable) -> config = DEFAULT_CONFIG) /\
  (forall parsed v n,
     parsed_verification parsed = Some v -> p_maxRetries v = Some n ->
     cfg_maxRetries (cfg_verification (withDefaults parsed)) = n) /\
  (forall parsed m,
     parsed_models parsed = Some m -> p_planning m = Some [] ->
     planning (cfg_models (withDefaults parsed)) = js "claude-4.5-opus-high").
Proof.
  cbv zeta. split; [|split; [|split; [|split; [|split]]]].
  - unfold loadConfig.
    destruct projectFile as [| |p]; destruct globalFile as [| |g]; simpl;
      first [apply withDefaults_models_nonempty | repeat split; discriminate].
  - intros parsed ->. split; [reflexivity|]. intros otherGlobal. reflexivity.
  - intros [-> | ->]; reflexivity.
  - intros [-> | ->] [-> | ->]; reflexivity.
  - intros parsed v n Hv Hn. unfold withDefaults, verificationKey. simpl.
    rewrite Hv, Hn. reflexivity.
  - intros parsed m Hm Hp. unfold withDefaults, modelKey. simpl.
    rewrite Hm, Hp. reflexivity.
Qed.

(** The project file names only the planning model; the global file's retry
    limit of 5 is not used. *)
Example project_config_is_not_merged :
  let config := loadConfig (Content projectOnlyPlanning) (Content globalFiveRetries) in
  (planning (cfg_models config), cfg_maxRetries (cfg_verification config))
  = (js "claude-4.5-haiku", 3%Z) /\
  let globalConfig := loadGlobalConfig (Content globalFiveRetries) in
  (executing (cfg_models globalConfig), cfg_maxRetries (cfg_verification globalConfig),
   cfg_timeout (cfg_verification globalConfig))
  = (js "claude-4.5-opus-high", 5%Z, 0%Z).
Proof. split; reflexivity. Qed.

End ConfigFacts.

(** ** Run ids *)

Module RunFacts.
Import JS Runs.

Lemma digit_kept (c : N) :
  isDigit c = true ->
  (if N.eqb c 58 || N.eqb c 46 then 45%N else c) = c /\ N.eqb c 84 = false.
Proof.
  unfold isDigit. rewrite andb_true_iff, !N.leb_le. intros [H1 H2].
  replace (N.eqb c 58) with false by (symmetry; apply N.eqb_neq; lia).
  replace (N.eqb c 46) with false by (symmetry; apply N.eqb_neq; lia).
  split; [reflexivity | apply N.eqb_neq; lia].
Qed.

Lemma replaceColonsAndDots_digits (s : jsstring) :
  forallb isDigit s = true -> replaceColonsAndDots s = s.
Proof.
  induction s as [|c s IH]; intros H; [reflexivity|].
  simpl in H. apply andb_true_iff in H as [Hc H].
  unfold replaceColonsAndDots in *. cbn [List.map].
  destruct (digit_kept c Hc) as [-> _]. rewrite (IH H). reflexivity.
Qed.

Lemma replaceColonsAndDots_app (a b : jsstring) :
  replaceColonsAndDots (a ++ b) = replaceColonsAndDots a ++ replaceColonsAndDots b.
Proof. apply List.map_app. Qed.

Lemma replaceFirst_digits (x y : N) (s rest : jsstring) :
  x = 84%N -> forallb isDigit s = true ->
  replaceFirst x y (s ++ rest) = s ++ replaceFirst x y rest.
Proof.
  intros -> H. induction s as [|c s IH]; [reflexivity|].
  simpl in H. apply andb_true_iff in H as [Hc H].
  cbn [app replaceFirst]. destruct (digit_kept c Hc) as [_ ->].
  rewrite (IH H). reflexivity.
Qed.

Lemma digitsOfLength_spec (n : nat) (s : jsstring) :
  digitsOfLength n s = true -> length s = n /\ forallb isDigit s = true.
Proof.
  unfold digitsOfLength. rewrite andb_true_iff, Nat.eqb_eq. tauto.
Qed.

(** For every timestamp of the ISO format, the run id is the 19 code units
    YYYY-MM-DD-HH-mm-ss: digits and dashes only, so without a colon, a dot
    or a path separator. The milliseconds are dropped: two runs created
    within the same second get the same id. *)
Theorem runId_is_timestamp_to_the_second (t : Timestamp) :
  wellFormedTimestamp t = true ->
  runIdOf (toISOString t)
  = year t ++ js "-" ++ month t ++ js "-" ++ day t ++ js "-" ++
    hours t ++ js "-" ++ minutes t ++ js "-" ++ seconds t /\
  length (runIdOf (toISOString t)) = 19 /\
  forallb isDigitOrDash (runIdOf (toISOString t)) = true /\
  forall u, wellFormedTimestamp u = true -> sameSecond t u ->
    runIdOf (toISOString u) = runIdOf (toISOString t).
Proof.
  assert (Hid : forall t, wellFormedTimestamp t = true ->
    runIdOf (toISOString t)
    = year t ++ js "-" ++ month t ++ js "-" ++ day t ++ js "-" ++
      hours t ++ js "-" ++ minutes t ++ js "-" ++ seconds t /\
    length (runIdOf (toISOString t)) = 19 /\
    forallb isDigitOrDash (runIdOf (toISOString t)) = true).
  { clear t. intros t H. unfold wellFormedTimestamp in H.
    rewrite !andb_true_iff in H. destruct H as [[[[[[Hy Hmo] Hd] Hh] Hmi] Hs] Hms].
    apply digitsOfLength_spec in Hy as [Ly Dy], Hmo as [Lmo Dmo], Hd as [Ld Dd],
      Hh as [Lh Dh], Hmi as [Lmi Dmi], Hs as [Ls Ds], Hms as [Lms Dms].
    assert (E : runIdOf (toISOString t)
                = year t ++ js "-" ++ month t ++ js "-" ++ day t ++ js "-" ++
                  hours t ++ js "-" ++ minutes t ++ js "-" ++ seconds t).
    { unfold runIdOf, toISOString.
      rewrite !replaceColonsAndDots_app.
      rewrite (replaceColonsAndDots_digits (year t)), (replaceColonsAndDots_digits (month t)),
        (replaceColonsAndDots_digits (day t)), (replaceColonsAndDots_digits (hours t)),
        (replaceColonsAndDots_digits (minutes t)), (replaceColonsAndDots_digits (seconds t)),
        (replaceColonsAndDots_digits (milliseconds t)) by assumption.
      change (replaceColonsAndDots (js "-")) with (js "-").
      change (replaceColonsAndDots (js "T")) with (js "T").
      change (replaceColonsAndDots (js ":")) with (js "-").
      change (replaceColonsAndDots (js ".")) with (js "-").
      change (replaceColonsAndDots (js "Z")) with (js "Z").
      change (js "-") with [45%N]. change (js "T") with [84%N].
      change (js "Z") with [90%N]. cbn [app].
      rewrite (replaceFirst_digits 84 45 (year t)) by auto.
      cbn [replaceFirst N.eqb Pos.eqb].
      rewrite (replaceFirst_digits 84 45 (month t)) by auto.
      cbn [replaceFirst N.eqb Pos.eqb].
      rewrite (replaceFirst_digits 84 45 (day t)) by auto.
      cbn [replaceFirst N.eqb Pos.eqb].
      destruct (year t) as [|y1 [|y2 [|y3 [|y4 [|]]]]]; try discriminate.
      destruct (month t) as [|m1 [|m2 [|]]]; try discriminate.
      destruct (day t) as [|d1 [|d2 [|]]]; try discriminate.
      destruct (hours t) as [|h1 [|h2 [|]]]; try discriminate.
      destruct (minutes t) as [|i1 [|i2 [|]]]; try discriminate.
      destruct (seconds t) as [|s1 [|s2 [|]]]; try discriminate.
      reflexivity. }
    split; [exact E|]. rewrite E. split.
    - rewrite !length_app, Ly, Lmo, Ld, Lh, Lmi, Ls. reflexivity.
    - assert (Hd' : forall s, forallb isDigit s = true -> forallb isDigitOrDash s = true).
      { intros s Hs. rewrite forallb_forall in *. intros c Hc.
        unfold isDigitOrDash. rewrite (Hs c Hc). reflexivity. }
      rewrite !forallb_app, (Hd' (year t)), (Hd' (month t)), (Hd' (day t)),
        (Hd' (hours t)), (Hd' (minutes t)), (Hd' (seconds t)) by assumption.
      reflexivity. }
  intros H. destruct (Hid t H) as (E & L & F).
  split; [exact E|]. split; [exact L|]. split; [exact F|].
  intros u Hu (E1 & E2 & E3 & E4 & E5 & E6).
  destruct (Hid u Hu) as (Eu & _). rewrite Eu, E, E1, E2, E3, E4, E5, E6. reflexivity.
Qed.

Lemma runId_is_timestamp_to_the_second_witness :
  runIdOf (toISOString exampleTimestamp) = js "2025-01-31-23-59-07".
Proof.
  destruct (runId_is_timestamp_to_the_second exampleTimestamp eq_refl) as (E & _).
  rewrite E. reflexivity.
Defined.

End RunFacts.

(** ** The executing phase *)

Module ExecutionFacts.
Import JS Types Selection Tasks Execution JSFacts TaskFacts.

Lemma statusEqb_eq (a b : TaskStatus) : statusEqb a b = true -> a = b.
Proof. destruct a, b; simpl; intros H; try reflexivity; discriminate. Qed.

Lemma stepEqb_eq (a b : Step) : stepEqb a b = true -> a = b.
Proof.
  destruct a as [i s], b as [j t]. simpl. intros H.
  apply andb_true_iff in H as [Hi Hs].
  apply eqb_eq in Hi. apply statusEqb_eq in Hs. subst. reflexivity.
Qed.

Lemma takeHeads_spec (x : Step) :
  forall ls pre ls', In ls' (takeHeads x pre ls) ->
    exists p l post, ls = p ++ (x :: l) :: post /\ ls' = pre ++ p ++ l :: post.
Proof.
  induction ls as [|l post IH]; intros pre ls' Hin; simpl in Hin; [destruct Hin|].
  apply in_app_or in Hin as [Hin|Hin].
  - destruct l as [|y l']; [destruct Hin|].
    destruct (stepEqb x y) eqn:E; [|destruct Hin].
    apply stepEqb_eq in E. subst y. destruct Hin as [<-|[]].
    exists [], l', post. split; reflexivity.
  - apply IH in Hin as (p & l0 & post0 & -> & ->).
    exists (l :: p), l0, post0. split; [reflexivity|].
    rewrite <- app_assoc. reflexivity.
Qed.

Lemma isInterleaving_sound :
  forall s ls, isInterleaving ls s = true -> Interleaving ls s.
Proof.
  induction s as [|x rest IH]; intros ls H; simpl in H.
  - constructor. apply List.Forall_forall. intros l Hl.
    rewrite forallb_forall in H. specialize (H l Hl).
    destruct l; [reflexivity | discriminate].
  - apply existsb_exists in H as (ls' & Hin & H').
    apply takeHeads_spec in Hin as (p & l & post & -> & ->). simpl in H'.
    constructor. apply IH. exact H'.
Qed.

Lemma Interleaving_filter (p : Step -> bool) (ls : list (list Step)) (s : list Step) :
  Interleaving ls s -> Interleaving (List.map (List.filter p) ls) (List.filter p s).
Proof.
  induction 1 as [ls Hnil|pre x l post rest H IH].
  - simpl. constructor. apply List.Forall_map.
    eapply List.Forall_impl; [|exact Hnil]. intros l ->. reflexivity.
  - rewrite List.map_app in *. simpl in *. destruct (p x); [constructor|]; exact IH.
Qed.

Lemma Interleaving_single (ls : list (list Step)) (s : list Step) :
  Interleaving ls s ->
  forall pre l0 post, ls = pre ++ l0 :: post ->
    Forall (fun l => l = []) pre -> Forall (fun l => l = []) post -> s = l0.
Proof.
  induction 1 as [ls Hnil|pre' x l post' rest H IH]; intros pre l0 post E Hpre Hpost.
  - subst ls. apply Forall_app in Hnil as [_ Hn].
    apply Forall_cons in Hn as [-> _]. reflexivity.
  - assert (Hlen : length pre' = length pre).
    { pose proof (list_lookup_middle pre' post' (x :: l) _ eq_refl) as Hmid.
      rewrite E in Hmid.
      destruct (Nat.lt_trichotomy (length pre') (length pre)) as [Hlt|[Heq|Hgt]];
        [|exact Heq|].
      - rewrite lookup_app_l in Hmid by exact Hlt.
        rewrite Forall_lookup in Hpre. specialize (Hpre _ _ Hmid). discriminate.
      - rewrite lookup_app_r in Hmid by lia.
        destruct (length pre' - length pre) as [|k] eqn:Ek; [lia|].
        simpl in Hmid. rewrite Forall_lookup in Hpost.
        specialize (Hpost _ _ Hmid). discriminate. }
    destruct (app_inj_1 _ _ _ _ Hlen E) as [E1 E2].
    injection E2 as E2 E3. subst pre' l0 post'.
    f_equal. apply (IH pre l post eq_refl Hpre Hpost).
Qed.

Lemma Interleaving_prefix :
  forall p ls rest, Interleaving ls (p ++ rest) ->
    exists ls', Forall2 prefix ls' ls /\ Interleaving ls' p.
Proof.
  induction p as [|a p IH]; intros ls rest H.
  - exists (List.map (fun _ => []) ls). split.
    + clear H. induction ls; simpl; constructor; [apply prefix_nil | assumption].
    + constructor. apply List.Forall_map. apply List.Forall_forall. reflexivity.
  - simpl in H. inversion H as [|pre x l post rest' H' E1 E2]; subst.
    apply IH in H' as (ls'' & HF & HI).
    apply Forall2_app_inv_r in HF as (pre'' & tl & Hpre & Htl & ->).
    apply Forall2_cons_inv_r in Htl as (l'' & post'' & Hl & Hpost & ->).
    exists (pre'' ++ (a :: l'') :: post''). split.
    + apply Forall2_app; [exact Hpre|]. constructor; [|exact Hpost].
      apply prefix_cons. exact Hl.
    + constructor. exact HI.
Qed.

(** The marks of one task in a schedule are those of the one sequence that
    holds marks of it. *)
Lemma marks_in_interleaving (i : jsstring) (ls : list (list Step)) (s : list Step) :
  Interleaving ls s ->
  forall pre l0 post, ls = pre ++ l0 :: post ->
    Forall (fun l => marksFor i l = []) pre ->
    Forall (fun l => marksFor i l = []) post ->
    marksFor i s = marksFor i l0.
Proof.
  intros H pre l0 post -> Hpre Hpost.
  apply (Interleaving_filter (fun step => match step with Mark j _ => eqb i j end)) in H.
  rewrite List.map_app in H. simpl in H.
  apply (Interleaving_single _ _ H _ _ _ eq_refl); apply List.Forall_map; assumption.
Qed.

Lemma applyMarks_file (marks : list Step) :
  forall t, t_file (applyMarks marks t) = t_file t.
Proof.
  induction marks as [|[j st] marks IH]; intros t; [reflexivity|].
  unfold applyMarks in *. simpl. rewrite IH. reflexivity.
Qed.

(** The task list after a schedule: each task with its own marks applied. *)
Lemma runSchedule_marks :
  forall s tasks,
    runSchedule tasks s
    = List.map (fun t => applyMarks (marksFor (t_id t) s) t) tasks.
Proof.
  induction s as [|[id st] s IH]; intros tasks.
  - simpl. symmetry. apply List.map_id.
  - change (runSchedule tasks (Mark id st :: s))
      with (runSchedule (setTaskStatus id st tasks) s).
    rewrite IH. unfold setTaskStatus. rewrite List.map_map.
    apply List.map_ext. intros t. unfold marksFor. simpl List.filter.
    destruct (eqb (t_id t) id) eqn:E; reflexivity.
Qed.

Section Agent.
Variable agentThrows : Task -> bool.
Variable selectedItems : list SlopItem.

Lemma marksFor_executeTask_other (i : jsstring) (u : Task) :
  t_id u <> i -> marksFor i (executeTask agentThrows u selectedItems) = [].
Proof.
  intros Hne. unfold executeTask.
  destruct (findingOfTask u selectedItems); [|reflexivity].
  unfold marksFor. simpl.
  destruct (eqb i (t_id u)) eqn:E; [|reflexivity].
  apply eqb_eq in E. congruence.
Qed.

Lemma marksFor_executeTask_own (t : Task) :
  marksFor (t_id t) (executeTask agentThrows t selectedItems)
  = executeTask agentThrows t selectedItems.
Proof.
  unfold executeTask. destruct (findingOfTask t selectedItems); [|reflexivity].
  unfold marksFor. simpl. rewrite eqb_refl. reflexivity.
Qed.

Lemma marksFor_app (i : jsstring) (a b : list Step) :
  marksFor i (a ++ b) = marksFor i a ++ marksFor i b.
Proof. apply List.filter_app. Qed.

Lemma marksFor_groupSteps_other (i : jsstring) (us : list Task) :
  (forall u, In u us -> t_id u <> i) ->
  marksFor i (groupSteps agentThrows selectedItems us) = [].
Proof.
  induction us as [|u us IH]; intros H; [reflexivity|].
  unfold groupSteps in *. simpl. rewrite marksFor_app.
  rewrite marksFor_executeTask_other by (apply H; left; reflexivity).
  apply IH. intros v Hv. apply H. right; exact Hv.
Qed.

Lemma marksFor_groupSteps_own (ts : list Task) (t : Task) :
  NoDup (List.map t_id ts) -> In t ts ->
  marksFor (t_id t) (groupSteps agentThrows selectedItems ts)
  = executeTask agentThrows t selectedItems.
Proof.
  induction ts as [|u ts IH]; intros Hnd Hin; [destruct Hin|].
  simpl in Hnd. apply NoDup_cons in Hnd as [Hu Hnd].
  unfold groupSteps in *. simpl. rewrite marksFor_app.
  destruct Hin as [->|Hin].
  - rewrite marksFor_executeTask_own.
    fold (groupSteps agentThrows selectedItems ts).
    rewrite marksFor_groupSteps_other; [apply app_nil_r|].
    intros v Hv E. apply Hu. rewrite <- E.
    apply list_elem_of_In. apply in_map. exact Hv.
  - rewrite marksFor_executeTask_other; [apply IH; assumption|].
    intros E. apply Hu. rewrite E.
    apply list_elem_of_In. apply in_map. exact Hin.
Qed.

End Agent.

Lemma NoDup_map_inj_in {A B : Type} (f : A -> B) (l : list A) (x y : A) :
  NoDup (List.map f l) -> In x l -> In y l -> f x = f y -> x = y.
Proof.
  induction l as [|a l IH]; intros Hnd Hx Hy E; [destruct Hx|].
  simpl in Hnd. apply NoDup_cons in Hnd as [Ha Hnd].
  destruct Hx as [->|Hx], Hy as [->|Hy]; [reflexivity| | |apply IH; assumption].
  - exfalso. apply Ha. rewrite E. apply list_elem_of_In, in_map. exact Hy.
  - exfalso. apply Ha. rewrite <- E. apply list_elem_of_In, in_map. exact Hx.
Qed.

Lemma NoDup_map_filter {A B : Type} (f : A -> B) (p : A -> bool) (l : list A) :
  NoDup (List.map f l) -> NoDup (List.map f (List.filter p l)).
Proof.
  induction l as [|a l IH]; intros Hnd; [constructor|].
  simpl in Hnd. apply NoDup_cons in Hnd as [Ha Hnd]. simpl.
  destruct (p a); [|apply IH; exact Hnd].
  simpl. apply NoDup_cons. split; [|apply IH; exact Hnd].
  intros Hin. apply Ha. apply list_elem_of_In in Hin. apply list_elem_of_In.
  apply in_map_iff in Hin as (x & Ex & Hx). apply List.filter_In in Hx as [Hx _].
  rewrite <- Ex. apply in_map. exact Hx.
Qed.

(** What the proceed transition generates: tasks with pairwise distinct
    ids, pending, each with its finding among the findings kept. *)
Lemma generated_task (slopItems : list SlopItem) (t : Task) :
  In t (fst (handleProceed slopItems)) ->
  t_status t = TPending /\
  (exists item, findingOfTask t (snd (handleProceed slopItems)) = Some item) /\
  exists src, In src slopItems /\ t_id t = js "task-" ++ si_id src.
Proof.
  unfold handleProceed. cbn [fst snd]. intros Hin.
  apply in_flat_map in Hin as (src & Hsrc & [<-|[]]).
  split; [reflexivity|]. split.
  - unfold findingOfTask. cbn [t_slopItemId].
    destruct (List.find _ _) as [item|] eqn:E; [eauto|].
    pose proof (List.find_none _ _ E src Hsrc) as Hno. simpl in Hno.
    rewrite eqb_refl in Hno. discriminate.
  - exists src. split; [|reflexivity].
    unfold proceedSelected in Hsrc. apply List.filter_In in Hsrc as [Hsrc _]. exact Hsrc.
Qed.

Lemma generated_ids_distinct (slopItems : list SlopItem) :
  NoDup (List.map si_id slopItems) ->
  NoDup (List.map t_id (fst (handleProceed slopItems))).
Proof.
  unfold handleProceed, proceedSelected. cbn [fst].
  induction slopItems as [|a l IH]; intros Hnd; [constructor|].
  simpl in Hnd. apply NoDup_cons in Hnd as [Ha Hnd]. cbn [List.filter].
  destruct (si_selected a && negb (isHintOnly a)); [|apply IH; exact Hnd].
  cbn [List.flat_map generateTasksForSlopItem app List.map t_id].
  apply NoDup_cons. split; [|apply IH; exact Hnd].
  intros Hin. apply list_elem_of_In in Hin.
  apply in_map_iff in Hin as (t & Et & Ht).
  apply in_flat_map in Ht as (src & Hsrc & [<-|[]]). cbn [t_id] in Et.
  apply app_inv_head in Et.
  apply Ha. rewrite <- Et. apply list_elem_of_In, in_map.
  apply List.filter_In in Hsrc as [Hsrc _]. exact Hsrc.
Qed.

Section Family.
Variable agentThrows : Task -> bool.
Variable slopItems : list SlopItem.
Hypothesis distinctIds : NoDup (List.map si_id slopItems).

Let tasks := fst (handleProceed slopItems).
Let selectedItems := snd (handleProceed slopItems).

Lemma generated_steps (t : Task) :
  In t tasks ->
  executeTask agentThrows t selectedItems
  = [Mark (t_id t) TInProgress; Mark (t_id t) (outcome agentThrows t)].
Proof.
  intros Hin. destruct (generated_task slopItems t Hin) as (_ & (item & E) & _).
  unfold executeTask, selectedItems. rewrite E. reflexivity.
Qed.

(** The sequences of [executeTasks], split at the group of a file: no
    other sequence holds a mark of a task of that file. *)
Lemma family_split (t0 : Task) :
  In t0 tasks ->
  exists pre post,
    executeTasks agentThrows tasks selectedItems
    = pre ++ groupSteps agentThrows selectedItems (onFile (fileKey t0) tasks) :: post /\
    forall t, In t tasks -> fileKey t = fileKey t0 ->
      Forall (fun l => marksFor (t_id t) l = []) pre /\
      Forall (fun l => marksFor (t_id t) l = []) post.
Proof.
  intros Hin0.
  pose proof (generated_ids_distinct slopItems distinctIds) as Hids. fold tasks in Hids.
  pose proof (keys_distinct tasks) as Hkeys.
  pose proof (key_present tasks t0 Hin0) as Hkey.
  apply in_map_iff in Hkey as ([f ts] & Ef & Hg). simpl in Ef. subst f.
  pose proof (tasksOf_in _ _ _ Hkeys Hg) as Ets. rewrite tasksOf_group in Ets.
  apply in_split in Hg as (g1 & g2 & Eg).
  assert (Hother : forall t g us, In t tasks -> fileKey t = fileKey t0 ->
            In (g, us) (g1 ++ g2) ->
            marksFor (t_id t) (groupSteps agentThrows selectedItems us) = []).
  { intros t g us Hin Hfile Hin'.
    assert (Hin'' : In (g, us) (groupTasksByFile tasks)).
    { rewrite Eg. apply in_app_or in Hin' as [H|H]; apply in_or_app;
        [left; exact H | right; right; exact H]. }
    pose proof (tasksOf_in _ _ _ Hkeys Hin'') as Eus. rewrite tasksOf_group in Eus.
    assert (Hne : g <> fileKey t0).
    { rewrite Eg, List.map_app in Hkeys. simpl in Hkeys.
      apply NoDup_app in Hkeys as (_ & Hdisj & Hk2).
      apply NoDup_cons in Hk2 as [Hk2 _].
      intros ->. apply in_app_or in Hin' as [H|H].
      - apply (Hdisj (fileKey t0)).
        + apply list_elem_of_In. apply (in_map fst g1 (fileKey t0, us)). exact H.
        + left.
      - apply Hk2. apply list_elem_of_In.
        apply (in_map fst g2 (fileKey t0, us)). exact H. }
    apply marksFor_groupSteps_other. intros u Hu E.
    rewrite <- Eus in Hu. unfold onFile in Hu. apply List.filter_In in Hu as [Hu Hf].
    apply eqb_eq in Hf.
    pose proof (NoDup_map_inj_in t_id tasks u t Hids Hu Hin E). subst u.
    apply Hne. rewrite <- Hfile. symmetry. exact Hf. }
  exists (List.map (fun group => groupSteps agentThrows selectedItems (snd group)) g1),
         (List.map (fun group => groupSteps agentThrows selectedItems (snd group)) g2).
  split.
  - unfold executeTasks. rewrite Eg, List.map_app. simpl. rewrite Ets. reflexivity.
  - intros t Hin Hfile. split.
    + apply List.Forall_map, List.Forall_forall. intros [g us] H. simpl.
      apply (Hother t g us Hin Hfile). apply in_or_app. left; exact H.
    + apply List.Forall_map, List.Forall_forall. intros [g us] H. simpl.
      apply (Hother t g us Hin Hfile). apply in_or_app. right; exact H.
Qed.

Lemma own_group_marks (t : Task) :
  In t tasks ->
  marksFor (t_id t) (groupSteps agentThrows selectedItems (onFile (fileKey t) tasks))
  = [Mark (t_id t) TInProgress; Mark (t_id t) (outcome agentThrows t)].
Proof.
  intros Hin. rewrite marksFor_groupSteps_own.
  - apply generated_steps. exact Hin.
  - unfold onFile. apply NoDup_map_filter.
    apply (generated_ids_distinct slopItems distinctIds).
  - unfold onFile. apply List.filter_In. split; [exact Hin | apply eqb_refl].
Qed.

(** After any part of a schedule, the marks made on the tasks of one file
    are those of a prefix of the sequence of that file; for each of these
    tasks that is none, or the first, or both of its marks. *)
Lemma marks_so_far (schedule : list Step) (n : nat) (t0 : Task) :
  Interleaving (executeTasks agentThrows tasks selectedItems) schedule ->
  In t0 tasks ->
  exists q,
    q `prefix_of` groupSteps agentThrows selectedItems (onFile (fileKey t0) tasks) /\
    forall t, In t tasks -> fileKey t = fileKey t0 ->
      marksFor (t_id t) (take n schedule) = marksFor (t_id t) q /\
      (marksFor (t_id t) q = [] \/
       marksFor (t_id t) q = [Mark (t_id t) TInProgress] \/
       marksFor (t_id t) q
       = [Mark (t_id t) TInProgress; Mark (t_id t) (outcome agentThrows t)]).
Proof.
  intros Hint Hin0.
  rewrite <- (take_drop n schedule) in Hint.
  apply Interleaving_prefix in Hint as (ls' & HF & Hint).
  destruct (family_split t0 Hin0) as (pre & post & E & Hothers).
  rewrite E in HF.
  apply Forall2_app_inv_r in HF as (pre' & tl & Hpre' & Htl & ->).
  apply Forall2_cons_inv_r in Htl as (q & post' & Hq & Hpost' & ->).
  exists q. split; [exact Hq|]. intros t Hin Hfile.
  destruct (Hothers t Hin Hfile) as [Hpre Hpost].
  assert (Hsub : forall l' l, l' `prefix_of` l ->
            marksFor (t_id t) l = [] -> marksFor (t_id t) l' = []).
  { intros l' l [k ->] H. rewrite marksFor_app in H.
    apply app_eq_nil in H as [H _]. exact H. }
  split.
  - apply (marks_in_interleaving _ _ _ Hint pre' q post' eq_refl).
    + eapply Forall2_Forall_l; [exact Hpre'|].
      eapply List.Forall_impl; [|exact Hpre]. intros l Hl l' Hl'. exact (Hsub l' l Hl' Hl).
    + eapply Forall2_Forall_l; [exact Hpost'|].
      eapply List.Forall_impl; [|exact Hpost]. intros l Hl l' Hl'. exact (Hsub l' l Hl' Hl).
  - destruct Hq as [k Hk].
    pose proof (own_group_marks t Hin) as Hown.
    rewrite Hfile, Hk, marksFor_app in Hown.
    destruct (marksFor (t_id t) q) as [|m1 [|m2 [|m3 ms]]]; [left; reflexivity| | |].
    + right; left. injection Hown as -> _. reflexivity.
    + right; right. injection Hown as -> -> _. reflexivity.
    + discriminate.
Qed.

(** In a prefix of the sequence of one file, at most one task has its first
    mark without its second. *)
Lemma one_open_task (ts : list Task) :
  forall q i j,
    q `prefix_of` groupSteps agentThrows selectedItems ts ->
    marksFor i q = [Mark i TInProgress] ->
    marksFor j q = [Mark j TInProgress] -> i = j.
Proof.
  assert (Hone : forall i u, marksFor i [Mark (t_id u) TInProgress] = [Mark i TInProgress] ->
                   i = t_id u).
  { intros i u H. unfold marksFor in H. simpl in H.
    destruct (eqb i (t_id u)) eqn:E; [apply eqb_eq; exact E | discriminate]. }
  induction ts as [|u ts IH]; intros q i j Hq Hi Hj.
  - apply prefix_nil_inv in Hq. subst q. discriminate.
  - unfold groupSteps in Hq. simpl in Hq.
    fold (groupSteps agentThrows selectedItems ts) in Hq.
    unfold executeTask in Hq.
    destruct (findingOfTask u selectedItems); [|exact (IH q i j Hq Hi Hj)].
    simpl in Hq. destruct q as [|m1 [|m2 q]]; [discriminate| |].
    + apply prefix_cons_inv_1 in Hq. subst m1.
      rewrite (Hone i u Hi), (Hone j u Hj). reflexivity.
    + pose proof (prefix_cons_inv_1 _ _ _ _ Hq) as E1.
      apply prefix_cons_inv_2 in Hq.
      pose proof (prefix_cons_inv_1 _ _ _ _ Hq) as E2.
      apply prefix_cons_inv_2 in Hq. subst m1 m2.
      change (Mark (t_id u) TInProgress :: Mark (t_id u) (outcome agentThrows u) :: q)
        with ([Mark (t_id u) TInProgress; Mark (t_id u) (outcome agentThrows u)] ++ q)
        in Hi, Hj.
      rewrite marksFor_app in Hi, Hj.
      assert (Hskip : forall k, marksFor k [Mark (t_id u) TInProgress;
                                            Mark (t_id u) (outcome agentThrows u)]
                                ++ marksFor k q = [Mark k TInProgress] ->
                        marksFor k q = [Mark k TInProgress]).
      { intros k H. unfold marksFor at 1 in H. simpl in H.
        destruct (eqb k (t_id u)); [|exact H].
        simpl in H. injection H as _ H. discriminate. }
      exact (IH q i j Hq (Hskip i Hi) (Hskip j Hj)).
Qed.

End Family.

(** Whatever the interleaving of the file groups, when [executeTasks] is
    through every generated task has been settled: it is completed, or
    failed when the agent threw for it, and nothing else of it has changed.
    No task is left pending or in progress. *)
Theorem executeTasks_settles_every_task (agentThrows : Task -> bool)
  (slopItems : list SlopItem) (schedule : list Step) :
  NoDup (List.map si_id slopItems) ->
  isInterleaving (executeTasks agentThrows (fst (handleProceed slopItems))
                               (snd (handleProceed slopItems))) schedule = true ->
  runSchedule (fst (handleProceed slopItems)) schedule
  = List.map (fun t => withTaskStatus (outcome agentThrows t) t)
             (fst (handleProceed slopItems)) /\
  Forall (fun t => t_status t = TCompleted \/ t_status t = TFailed)
         (runSchedule (fst (handleProceed slopItems)) schedule).
Proof.
  intros Hnd Hint. apply isInterleaving_sound in Hint.
  assert (E : runSchedule (fst (handleProceed slopItems)) schedule
              = List.map (fun t => withTaskStatus (outcome agentThrows t) t)
                         (fst (handleProceed slopItems))).
  { rewrite runSchedule_marks. apply List.map_ext_in. intros t Hin.
    destruct (family_split agentThrows slopItems Hnd t Hin) as (pre & post & E & Hothers).
    destruct (Hothers t Hin eq_refl) as [Hpre Hpost].
    rewrite (marks_in_interleaving _ _ _ Hint pre _ post E Hpre Hpost).
    rewrite (own_group_marks agentThrows slopItems Hnd t Hin). reflexivity. }
  split; [exact E|]. rewrite E.
  apply List.Forall_map, List.Forall_forall. intros t _. simpl.
  unfold outcome. destruct (agentThrows t); auto.
Qed.

Lemma executeTasks_settles_every_task_witness :
  runSchedule (fst (handleProceed threeFindings)) alternating
  = List.map (fun t => withTaskStatus (outcome failsOnSecond t) t)
             (fst (handleProceed threeFindings)) /\
  Forall (fun t => t_status t = TCompleted \/ t_status t = TFailed)
         (runSchedule (fst (handleProceed threeFindings)) alternating).
Proof.
  apply (executeTasks_settles_every_task failsOnSecond threeFindings alternating).
  - apply DiscoverShape.distinct_NoDup. reflexivity.
  - reflexivity.
Defined.

(** At every moment of every schedule, at most one task of a file is in
    progress: two tasks in progress are on different files. *)
Theorem one_task_in_progress_per_file (agentThrows : Task -> bool)
  (slopItems : list SlopItem) (schedule : list Step) (n : nat) (a b : Task) :
  NoDup (List.map si_id slopItems) ->
  isInterleaving (executeTasks agentThrows (fst (handleProceed slopItems))
                               (snd (handleProceed slopItems))) schedule = true ->
  In a (runSchedule (fst (handleProceed slopItems)) (take n schedule)) ->
  In b (runSchedule (fst (handleProceed slopItems)) (take n schedule)) ->
  t_status a = TInProgress -> t_status b = TInProgress ->
  fileKey a = fileKey b -> a = b.
Proof.
  intros Hnd Hint Ha Hb Sa Sb Ef. apply isInterleaving_sound in Hint.
  rewrite runSchedule_marks in Ha, Hb.
  apply in_map_iff in Ha as (a0 & <- & Ha0). apply in_map_iff in Hb as (b0 & <- & Hb0).
  unfold fileKey in Ef. rewrite !applyMarks_file in Ef.
  fold (fileKey a0) in Ef. fold (fileKey b0) in Ef.
  destruct (marks_so_far agentThrows slopItems Hnd schedule n b0 Hint Hb0)
    as (q & Hq & Hmarks).
  destruct (Hmarks a0 Ha0 Ef) as [Ea Ca]. destruct (Hmarks b0 Hb0 eq_refl) as [Eb Cb].
  rewrite Ea in Sa |- *. rewrite Eb in Sb |- *.
  destruct (generated_task slopItems a0 Ha0) as (Pa & _).
  destruct (generated_task slopItems b0 Hb0) as (Pb & _).
  assert (Hopen : forall t, t_status t = TPending ->
            t_status (applyMarks (marksFor (t_id t) q) t) = TInProgress ->
            marksFor (t_id t) q = [] \/
            marksFor (t_id t) q = [Mark (t_id t) TInProgress] \/
            marksFor (t_id t) q
            = [Mark (t_id t) TInProgress; Mark (t_id t) (outcome agentThrows t)] ->
            marksFor (t_id t) q = [Mark (t_id t) TInProgress]).
  { intros t Pt St [C|[C|C]]; [|exact C|]; rewrite C in St; simpl in St.
    - congruence.
    - unfold outcome in St. destruct (agentThrows t); discriminate. }
  pose proof (Hopen a0 Pa Sa Ca) as Ma. pose proof (Hopen b0 Pb Sb Cb) as Mb.
  pose proof (one_open_task agentThrows _ _ q _ _ Hq Ma Mb) as Eid.
  pose proof (NoDup_map_inj_in t_id _ a0 b0 (generated_ids_distinct slopItems Hnd)
                Ha0 Hb0 Eid). subst b0. reflexivity.
Qed.

Lemma one_task_in_progress_per_file_witness :
  In thirdInProgress
     (runSchedule (fst (handleProceed threeFindings)) (take 4 alternating)) /\
  thirdInProgress = thirdInProgress.
Proof.
  split.
  - vm_compute. right; right; left; reflexivity.
  - apply (one_task_in_progress_per_file failsOnSecond threeFindings alternating 4
             thirdInProgress thirdInProgress).
    + apply DiscoverShape.distinct_NoDup. reflexivity.
    + reflexivity.
    + vm_compute. right; right; left; reflexivity.
    + vm_compute. right; right; left; reflexivity.
    + reflexivity.
    + reflexivity.
    + reflexivity.
Defined.

(** Tasks of different files do run at the same time. *)
Example two_files_in_progress :
  List.map t_status (runSchedule (fst (handleProceed threeFindings)) (take 2 alternating))
  = [TInProgress; TInProgress; TPending].
Proof. vm_compute. reflexivity. Qed.

End ExecutionFacts.

(** ** The final screen *)

Module CompleteFacts.
Import JS Types Regex RunManager Complete JSFacts MatchShape.

Lemma setOf_constant (x : jsstring) (n : nat) : setOf (repeat x (S n)) = [x].
Proof.
  unfold setOf. simpl.
  induction n as [|n IH]; [reflexivity|].
  simpl. rewrite eqb_refl. simpl. exact IH.
Qed.

Lemma beforeColon_fix (title : jsstring) :
  startsWith (js "Fix:") title = true -> beforeColon title = js "Fix".
Proof.
  intros H. apply startsWith_true in H as [rest ->]. reflexivity.
Qed.

(** Every task the application generates is titled "Fix: ..."; so the commit
    message does not depend on what was fixed. With at least one completed
    task it is the one-line form with the category "Fix" in lower case;
    with none it is the long form, announcing 0 issues. *)
Theorem commit_message_of_generated_tasks (lower : jsstring -> jsstring)
  (tasks : list Task) :
  Forall (fun t => startsWith (js "Fix:") (t_title t) = true) tasks ->
  generateCommitMessage lower tasks
  = if existsb (hasStatus TCompleted) tasks
    then js "chore: deslop - " ++ lower (js "Fix")
    else js "chore: deslop codebase" ++ [nl; nl] ++ js "Fixed 0 issues:" ++ [nl].
Proof.
  intros Htitles. unfold generateCommitMessage.
  assert (Hcat : List.map (fun t => beforeColon (t_title t))
                          (List.filter (hasStatus TCompleted) tasks)
                 = repeat (js "Fix") (length (List.filter (hasStatus TCompleted) tasks))).
  { induction Htitles as [|t l Ht Hl IH]; [reflexivity|].
    cbn [List.filter]. destruct (hasStatus TCompleted t); [|exact IH].
    cbn [List.map length repeat]. rewrite (beforeColon_fix _ Ht), IH. reflexivity. }
  rewrite Hcat.
  assert (Hex : existsb (hasStatus TCompleted) tasks
                = negb (Nat.eqb (length (List.filter (hasStatus TCompleted) tasks)) 0)).
  { clear. induction tasks as [|t l IH]; [reflexivity|].
    cbn [existsb List.filter]. destruct (hasStatus TCompleted t); [reflexivity | exact IH]. }
  rewrite Hex.
  destruct (List.filter (hasStatus TCompleted) tasks) as [|t l]; [reflexivity|].
  cbn [length]. rewrite setOf_constant. reflexivity.
Qed.

Lemma commit_message_of_generated_tasks_witness :
  generateCommitMessage toLowerCase twoFixed = js "chore: deslop - fix".
Proof.
  rewrite (commit_message_of_generated_tasks toLowerCase twoFixed).
  - reflexivity.
  - repeat constructor.
Defined.

(** What the url pattern extracts is a part of the text that starts with
    the address of the site and goes on with at least one unit, none of
    them white space. *)
Lemma urlMatch_shape (text url : jsstring) :
  urlMatch text = Some url ->
  exists a b path,
    text = a ++ url ++ b /\ url = js "https://github.com/" ++ path /\
    path <> [] /\ forallb (fun c => negb (isWhiteSpace c)) path = true.
Proof.
  unfold urlMatch, matchFirst. intros H.
  destruct (searchFrom urlRegex None text) as [st'|] eqn:E; [|discriminate].
  simpl in H. destruct (caps st') as [|u us] eqn:Ec; [discriminate|].
  injection H as ->.
  apply searchFrom_span in E as (a & b & -> & Hin).
  unfold urlRegex in Hin.
  apply in_run_group in Hin as (st1 & pre & H1 & Erest & ->).
  apply in_run_seq in H1 as (st2 & H2 & H1).
  apply in_run_lit in H2 as [E2 C2].
  apply in_run_plus_class in H1 as (path & Hne & E1 & Hpath & C1).
  unfold at_ in Erest, E2, C2. cbn [rest caps] in Erest, E2, C2, Ec.
  rewrite C1, C2 in Ec. injection Ec as <- _.
  assert (Epre : pre = js "https://github.com/" ++ path).
  { apply (app_inv_tail (rest st1)). rewrite <- app_assoc, <- E1, <- E2. symmetry. exact Erest. }
  exists a, (rest st1), path. split; [|auto].
  rewrite Erest. reflexivity.
Qed.

Section CreatePR.
Variable lower : jsstring -> jsstring.
Variable now : jsstring.
Variable tasks : list Task.
Variable w : World.

Ltac world_known :=
  repeat match goal with
         | H : w ?c = _ |- context [w ?c] => rewrite H
         end.

(** A leaf of the case analysis at which a command stopped [createPR]. *)
Ltac stopped E :=
  injection E as <- <-; cbn [prStatus prUrl errorMessage];
  split; [reflexivity|];
  split;
  [ right; split; [reflexivity|]; split; [reflexivity|];
    eexists; split; [reflexivity|];
    split; [unfold letsThrough; world_known; reflexivity|];
    split;
    [ intros ? Hw; congruence
    | intros r Hw;
      first [ congruence
            | match goal with
              | W : w ?c = Resolved _ |- _ =>
                  rewrite W in Hw; injection Hw as <-; subst; eexists; reflexivity
              end ] ]
  | split;
    [ intros Hreported Hin;
      first [ discriminate Hreported
            | eexists; split; [first [eassumption | reflexivity] | reflexivity]
            | exfalso; simpl in Hin; intuition discriminate ]
    | left; reflexivity ] ].

(** The next command of the plan: it rejects, fails, or lets through. *)
Ltac next c E :=
  unfold letsThrough at 1;
  let W := fresh "W" in
  destruct (w c) as [[[|] ?]|?] eqn:W;
  cbn [success output negb fst snd app upToFirstFailure] in E |- *;
  [ | stopped E | stopped E ].

(** [createPR] runs the commands of the plan in order, up to and including
    the first that does not let it through, and no command after it. Every
    command stops it by rejecting; every command except the branch query
    stops it by failing. The success flag of the branch query is not
    tested: after a branch query that failed, [createPR] goes on with what
    the query printed. It ends 'done' exactly when every command let it
    through, and 'error' otherwise, with the message of the rejection, or a
    label and the output of the command that failed. On a branch reported
    as main or master nothing is staged, committed or pushed unless a new
    branch was created first. A url shown is part of the output of [gh] and
    starts with the address of the site. *)
Theorem createPR_stops_at_first_failure :
  let trace := fst (createPR lower now tasks w) in
  let st := snd (createPR lower now tasks w) in
  trace = upToFirstFailure w (plan lower now tasks w) /\
  (prStatus st = Done /\ errorMessage st = [] /\
   forallb (letsThrough w) (plan lower now tasks w) = true \/
   prStatus st = Error /\ prUrl st = [] /\
   exists c, last trace = Some c /\ letsThrough w c = false /\
     (forall message, w c = Rejected message -> errorMessage st = message) /\
     (forall r, w c = Resolved r ->
        exists label, errorMessage st = label ++ js ": " ++ output r)) /\
  (reportsMain w = true ->
   In AddAll trace \/ In Push trace \/
   In (Commit (generateCommitMessage lower tasks)) trace ->
   exists r, w (CheckoutNewBranch (js "deslop/" ++ now)) = Resolved r /\
             success r = true) /\
  (prUrl st = [] \/
   exists r a b path,
     w (PrCreate (generatePRBody tasks)) = Resolved r /\
     output r = a ++ prUrl st ++ b /\
     prUrl st = js "https://github.com/" ++ path /\ path <> [] /\
     forallb (fun c => negb (isWhiteSpace c)) path = true).
Proof.
  cbv zeta.
  destruct (createPR lower now tasks w) as [trace st] eqn:E. cbn [fst snd].
  unfold createPR, createPRBody, bind, await, check, ret, throw in E.
  unfold plan, reportsMain.
  set (message := generateCommitMessage lower tasks) in *.
  set (body := generatePRBody tasks) in *.
  set (branch := js "deslop/" ++ now) in *.
  remember (js ": ") as sep eqn:Esep.
  remember (js "Failed to create branch") as l1 eqn:El1.
  remember (js "Failed to stage changes") as l2 eqn:El2.
  remember (js "Failed to commit") as l3 eqn:El3.
  remember (js "Failed to push") as l4 eqn:El4.
  remember (js "Failed to create PR") as l5 eqn:El5.
  destruct (w BranchShowCurrent) as [[s0 o0]|m0] eqn:W0;
    cbn [success output negb fst snd app upToFirstFailure] in E |- *;
    unfold letsThrough at 1; rewrite W0; [|stopped E].
  assert (Hdone : forall o url,
            w (PrCreate body) = Resolved {| success := true; output := o |} ->
            default [] (urlMatch o) = url ->
            url = [] \/
            exists r a b path,
              w (PrCreate body) = Resolved r /\ output r = a ++ url ++ b /\
              url = js "https://github.com/" ++ path /\ path <> [] /\
              forallb (fun c => negb (isWhiteSpace c)) path = true).
  { intros o url Wpr <-. destruct (urlMatch o) as [u|] eqn:U; [|left; reflexivity].
    right. apply urlMatch_shape in U as (a & b & path & Eo & Eu & Hne & Hpath).
    exists {| success := true; output := o |}, a, b, path. auto. }
  destruct (onMainBranch (trim o0)) eqn:Hmain;
    cbn [app upToFirstFailure] in E |- *.
  - next (CheckoutNewBranch branch) E.
    next AddAll E. next (Commit message) E. next Push E. next (PrCreate body) E.
    injection E as <- <-. cbn [prStatus prUrl errorMessage].
    split; [reflexivity|]. split; [|split].
    + left. split; [reflexivity|]. split; [reflexivity|].
      cbn [forallb]. unfold letsThrough. world_known. reflexivity.
    + intros _ _. eexists; split; [first [eassumption | reflexivity] | reflexivity].
    + eapply Hdone; [first [eassumption | reflexivity] | reflexivity].
  - next AddAll E. next (Commit message) E. next Push E. next (PrCreate body) E.
    injection E as <- <-. cbn [prStatus prUrl errorMessage].
    split; [reflexivity|]. split; [|split].
    + left. split; [reflexivity|]. split; [reflexivity|].
      cbn [forallb]. unfold letsThrough. world_known. reflexivity.
    + intros Hm. discriminate Hm.
    + eapply Hdone; [first [eassumption | reflexivity] | reflexivity].
Qed.

End CreatePR.

Example pull_request_from_main :
  createPR toLowerCase (js "1700000000000") twoFixed allSucceed
  = ([BranchShowCurrent; CheckoutNewBranch (js "deslop/1700000000000"); AddAll;
      Commit (js "chore: deslop - fix"); Push; PrCreate (generatePRBody twoFixed)],
     {| prStatus := Done; prUrl := js "https://github.com/acme/app/pull/7";
        errorMessage := [] |}).
Proof. vm_compute. reflexivity. Qed.

(** Outside a git repository the branch query fails, and [git add] is run
    all the same: it is the first command whose failure is noticed. *)
Example failed_branch_query_goes_on :
  createPR toLowerCase (js "1700000000000") twoFixed notARepository
  = ([BranchShowCurrent; AddAll],
     {| prStatus := Error; prUrl := [];
        errorMessage := js "Failed to stage changes: fatal: not a git repository" |}).
Proof. vm_compute. reflexivity. Qed.

Example failed_commit_stops_before_push :
  createPR toLowerCase (js "1700000000000") twoFixed commitFails
  = ([BranchShowCurrent; CheckoutNewBranch (js "deslop/1700000000000"); AddAll;
      Commit (js "chore: deslop - fix")],
     {| prStatus := Error; prUrl := [];
        errorMessage := js "Failed to commit: nothing to commit" |}).
Proof. vm_compute. reflexivity. Qed.

End CompleteFacts.

(** ** Code snippets and the preview *)

Module SnippetFacts.
Import JS Discover Lines Snippet.

Lemma splitLines_nonempty (s : jsstring) : splitLines s <> [].
Proof.
  destruct s as [|c s]; simpl; [discriminate|].
  destruct (N.eqb c nl); [discriminate|].
  destruct (splitLines s); discriminate.
Qed.

Lemma splitLines_noLineFeed (s : jsstring) :
  Forall (fun l => noLineFeed l = true) (splitLines s).
Proof.
  induction s as [|c s IH]; simpl; [repeat constructor|].
  destruct (N.eqb c nl) eqn:E; [constructor; [reflexivity | exact IH]|].
  destruct (splitLines s) as [|l ls]; [repeat constructor; simpl; rewrite E; reflexivity|].
  apply Forall_cons in IH as [Hl Hls].
  constructor; [|exact Hls]. unfold noLineFeed in *. simpl. rewrite E, Hl. reflexivity.
Qed.

Lemma splitLines_line (l t : jsstring) :
  noLineFeed l = true -> splitLines (l ++ nl :: t) = l :: splitLines t.
Proof.
  induction l as [|c l IH]; intros H; [reflexivity|].
  unfold noLineFeed in H. simpl in H. apply andb_true_iff in H as [Hc H].
  apply negb_true_iff in Hc. cbn [app splitLines]. rewrite Hc, (IH H). reflexivity.
Qed.

Lemma splitLines_last (l : jsstring) :
  noLineFeed l = true -> splitLines l = [l].
Proof.
  induction l as [|c l IH]; intros H; [reflexivity|].
  unfold noLineFeed in H. simpl in H. apply andb_true_iff in H as [Hc H].
  apply negb_true_iff in Hc. cbn [splitLines]. rewrite Hc, (IH H). reflexivity.
Qed.

(** Joining lines and splitting again gives the lines back. *)
Lemma splitLines_joinLines (ls : list jsstring) :
  ls <> [] -> Forall (fun l => noLineFeed l = true) ls ->
  splitLines (joinLines ls) = ls.
Proof.
  induction ls as [|l ls IH]; intros Hne Hall; [congruence|].
  apply Forall_cons in Hall as [Hl Hls].
  destruct ls as [|l2 ls]; [apply splitLines_last; exact Hl|].
  change (joinLines (l :: l2 :: ls)) with (l ++ nl :: joinLines (l2 :: ls)).
  rewrite (splitLines_line _ _ Hl), IH; [reflexivity | discriminate | exact Hls].
Qed.

(** Splitting and joining gives the text back. *)
Lemma joinLines_splitLines (s : jsstring) : joinLines (splitLines s) = s.
Proof.
  induction s as [|c s IH]; [reflexivity|].
  cbn [splitLines]. destruct (N.eqb c nl) eqn:E.
  - apply N.eqb_eq in E. subst c.
    pose proof (splitLines_nonempty s) as Hne.
    destruct (splitLines s) as [|l ls]; [congruence|].
    change (joinLines ([] :: l :: ls)) with ([] ++ nl :: joinLines (l :: ls)).
    rewrite IH. reflexivity.
  - pose proof (splitLines_nonempty s) as Hne.
    destruct (splitLines s) as [|l ls]; [congruence|].
    destruct ls as [|l2 ls]; simpl in *; rewrite <- IH; reflexivity.
Qed.

Lemma lookup_slice {A : Type} (start finish i : nat) (l : list A) :
  i < finish - start -> slice start finish l !! i = l !! (start + i).
Proof.
  intros H. unfold slice. rewrite lookup_take_lt by exact H. apply lookup_drop.
Qed.

Lemma length_slice {A : Type} (start finish : nat) (l : list A) :
  finish <= length l -> length (slice start finish l) = finish - start.
Proof.
  intros H. unfold slice. rewrite length_take, length_drop. lia.
Qed.

(** For a flagged line that exists in the file, the preview shows lines of
    the file under their own numbers: the text of a row numbered k is line
    k of the file. The rows are consecutive, at most eleven, none more than
    five lines away from the flagged line; the flagged line itself is shown,
    and it is the one row highlighted. *)
Theorem preview_rows_are_file_lines (content : jsstring) (n : Z) :
  (1 <= n <= Z.of_nat (length (splitLines content)))%Z ->
  let rows := codePreviewRows (Content content) (Some n) in
  length rows <= 11 /\
  (forall i row, rows !! i = Some row ->
     splitLines content !! Z.to_nat (lineNum row - 1) = Some (lineContent row) /\
     (1 <= lineNum row)%Z /\ (n - 5 <= lineNum row <= n + 5)%Z /\
     lineNum row = (Z.max 1 (n - 5) + Z.of_nat i)%Z /\
     (isTargetLine row = true <-> lineNum row = n)) /\
  exists i row, rows !! i = Some row /\ lineNum row = n /\
                splitLines content !! Z.to_nat (n - 1) = Some (lineContent row).
Proof.
  intros Hn. cbv zeta.
  set (L := splitLines content) in *.
  set (start := Z.to_nat (Z.max 0 (n - 1 - 5))).
  set (finish := Z.to_nat (Z.min (Z.of_nat (length L)) (n + 5))).
  assert (Hrows : codePreviewRows (Content content) (Some n)
                  = imap (fun i c =>
                            {| lineNum := Z.max 1 (n - 5) + Z.of_nat i;
                               lineContent := c;
                               isTargetLine := Z.eqb (Z.max 1 (n - 5) + Z.of_nat i) n |})
                         (slice start finish L)).
  { unfold codePreviewRows, getCodeSnippet. fold L.
    replace (Z.eqb n 0) with false by (symmetry; apply Z.eqb_neq; lia).
    replace (Z.ltb n 1) with false by (symmetry; apply Z.ltb_ge; lia).
    cbn [orb negb andb]. change (Z.of_nat 5) with 5%Z. fold start finish.
    rewrite splitLines_joinLines; [reflexivity| |].
    - intros E. apply (f_equal length) in E. rewrite length_slice in E by (unfold finish; lia).
      simpl in E. unfold start, finish in E. lia.
    - unfold slice. apply Forall_take, Forall_drop, splitLines_noLineFeed. }
  rewrite Hrows. clear Hrows.
  assert (Hlen : length (slice start finish L) = finish - start)
    by (apply length_slice; unfold finish; lia).
  split; [|split].
  - rewrite length_imap, Hlen. unfold start, finish. lia.
  - intros i row Hi. rewrite list_lookup_imap in Hi.
    destruct (slice start finish L !! i) as [c|] eqn:Ec; [|discriminate].
    injection Hi as <-. cbn [lineNum lineContent isTargetLine].
    assert (Hlt : i < finish - start).
    { rewrite <- Hlen. apply lookup_lt_is_Some. eauto. }
    rewrite lookup_slice in Ec by exact Hlt.
    split.
    + rewrite <- Ec. f_equal. unfold start. lia.
    + split; [lia|]. split; [unfold start, finish in Hlt; lia|].
      split; [reflexivity|]. apply Z.eqb_eq.
  - assert (Hlt : Z.to_nat (n - 1) - start < finish - start)
      by (unfold start, finish; lia).
    destruct (lookup_lt_is_Some_2 (slice start finish L) (Z.to_nat (n - 1) - start))
      as [c Ec]; [rewrite Hlen; exact Hlt|].
    eexists _, _. split; [rewrite list_lookup_imap, Ec; reflexivity|].
    cbn [lineNum lineContent]. split; [unfold start; lia|].
    rewrite lookup_slice in Ec by exact Hlt. rewrite <- Ec. f_equal. unfold start. lia.
Qed.

Lemma preview_rows_are_file_lines_witness :
  exists i row,
    codePreviewRows (Content twentyLines) (Some 12%Z) !! i = Some row /\
    lineNum row = 12%Z /\
    splitLines twentyLines !! Z.to_nat (12 - 1) = Some (lineContent row).
Proof.
  apply (preview_rows_are_file_lines twentyLines 12).
  vm_compute. split; discriminate.
Defined.

(** A flagged line beyond the end of the file: the snippet is empty, and the
    preview shows one empty row under a number the file does not have. *)
Example preview_beyond_end_of_file :
  getCodeSnippet (Content twentyLines) (Some 40%Z) 5 = [] /\
  codePreviewRows (Content twentyLines) (Some 40%Z)
  = [{| lineNum := 35; lineContent := []; isTargetLine := false |}].
Proof. vm_compute. split; reflexivity. Qed.

End SnippetFacts.

(** ** The model configuration screen *)

Module EditorFacts.
Import JS Config Editor.

Lemma derivedFrom_refl (c : DeslopsConfig) : derivedFrom c c.
Proof. unfold derivedFrom. auto. Qed.

Lemma derivedFrom_setModel (original c : DeslopsConfig) (field : Field) (name : jsstring) :
  derivedFrom original c -> name <> [] -> derivedFrom original (setModel field name c).
Proof.
  unfold derivedFrom. intros (Hv & Hp & He & Hr) Hname.
  destruct field; simpl; auto.
Qed.

Lemma itemAtCursor_inRange {A : Type} (a b c d : A) (z : Z) :
  (0 <= z <= 3)%Z ->
  exists x, itemAtCursor [a; b; c; d] z = Some x /\ In x [a; b; c; d].
Proof.
  intros H. assert (E : z = 0%Z \/ z = 1%Z \/ z = 2%Z \/ z = 3%Z) by lia.
  destruct E as [-> | [-> | [-> | ->]]]; eexists; (split; [reflexivity|]); simpl; auto.
Qed.

(** One event keeps the screen in order. *)
Lemma handle_keeps (original : DeslopsConfig) (s : State) (event : Event) :
  inRange s -> derivedFrom original (config s) ->
  exists s' effects,
    handle s event = Some (s', effects) /\
    inRange s' /\ derivedFrom original (config s') /\
    (forall saved, In (CallOnSave saved) effects -> derivedFrom original saved).
Proof.
  intros Hrange Hconfig. unfold inRange in *.
  assert (Hsame : exists s' effects,
            Some (s, @nil Effect) = Some (s', effects) /\
            (0 <= cursor s' <= 3)%Z /\ derivedFrom original (config s') /\
            (forall saved, In (CallOnSave saved) effects -> derivedFrom original saved)).
  { exists s, []. split; [reflexivity|]. split; [exact Hrange|]. split; [exact Hconfig|].
    intros saved []. }
  assert (Hmove : forall c, (0 <= c <= 3)%Z ->
            exists s' effects,
              Some (withCursor c s, @nil Effect) = Some (s', effects) /\
              (0 <= cursor s' <= 3)%Z /\ derivedFrom original (config s') /\
              (forall saved, In (CallOnSave saved) effects -> derivedFrom original saved)).
  { intros c Hc. exists (withCursor c s), []. split; [reflexivity|].
    split; [exact Hc|]. split; [exact Hconfig|]. intros saved []. }
  assert (Hrem : (0 <= Z.rem (cursor s + 1) 4 <= 3)%Z).
  { pose proof (Z.rem_bound_pos (cursor s + 1) 4). lia. }
  assert (Hmodel : forall field,
            exists s' effects,
              match itemAtCursor MODEL_OPTIONS (cursor s) with
              | None => None
              | Some MCustom =>
                  Some ({| step := Custom; cursor := cursor s; config := config s;
                           customInput := []; editingField := field |}, @nil Effect)
              | Some (MName name) =>
                  Some ({| step := Menu; cursor := 0;
                           config := setModel field name (config s);
                           customInput := customInput s; editingField := field |}, [])
              end = Some (s', effects) /\
              (0 <= cursor s' <= 3)%Z /\ derivedFrom original (config s') /\
              (forall saved, In (CallOnSave saved) effects -> derivedFrom original saved)).
  { intros field.
    destruct (itemAtCursor_inRange (MName (js "claude-4.5-opus-high"))
                (MName (js "claude-4.5-sonnet-high")) (MName (js "claude-4.5-haiku"))
                MCustom (cursor s) Hrange) as (x & Ex & Hx).
    unfold MODEL_OPTIONS. rewrite Ex.
    destruct x as [name|].
    - eexists _, _. split; [reflexivity|]. cbn [cursor config].
      split; [lia|]. split; [|intros saved []].
      apply derivedFrom_setModel; [exact Hconfig|].
      destruct Hx as [E|[E|[E|[E|[]]]]]; try discriminate E; injection E as <-; discriminate.
    - eexists _, _. split; [reflexivity|]. cbn [cursor config].
      split; [exact Hrange|]. split; [exact Hconfig | intros saved []]. }
  destruct event as [key|value| ].
  - unfold handle, useInput.
    destruct (step s) eqn:Estep; destruct key;
      try exact Hsame; try (apply Hmove; lia); try apply Hmodel.
    + eexists _, _. split; [reflexivity|]. split; [exact Hrange|].
      split; [exact Hconfig|]. intros saved [E|[]]. discriminate.
    + destruct (itemAtCursor_inRange (MField FPlanning) (MField FExecuting)
                  (MField FVerification) MSave (cursor s) Hrange) as (x & Ex & _).
      unfold MENU_OPTIONS. rewrite Ex. destruct x as [field|].
      * eexists _, _. split; [reflexivity|]. cbn [cursor config].
        split; [lia|]. split; [exact Hconfig | intros saved []].
      * eexists _, _. split; [reflexivity|]. split; [exact Hrange|].
        split; [exact Hconfig|]. intros saved [[= <-]|[]]. exact Hconfig.
    + eexists _, _. split; [reflexivity|]. cbn [cursor config].
      split; [lia|]. split; [exact Hconfig | intros saved []].
    + eexists _, _. split; [reflexivity|]. cbn [cursor config].
      split; [lia|]. split; [exact Hconfig | intros saved []].
    + eexists _, _. split; [reflexivity|]. cbn [cursor config].
      split; [lia|]. split; [exact Hconfig | intros saved []].
  - unfold handle. destruct (step s); try exact Hsame.
    eexists _, _. split; [reflexivity|]. cbn [cursor config].
    split; [exact Hrange|]. split; [exact Hconfig | intros saved []].
  - unfold handle. destruct (step s); try exact Hsame.
    eexists _, _. split; [reflexivity|].
    unfold handleCustomSubmit. destruct (trim (customInput s)) as [|c name] eqn:E.
    + split; [exact Hrange|]. split; [exact Hconfig | intros saved []].
    + cbn [cursor config]. split; [lia|]. split; [|intros saved []].
      apply derivedFrom_setModel; [exact Hconfig | discriminate].
Qed.

(** For every configuration the screen starts from and every sequence of
    keys and text input events: no handler throws (an option is always
    under the cursor, which stays between 0 and 3); the configuration held,
    and every configuration passed to onSave, has the verification settings
    it started with, and each model name is the original one or is not
    empty. The custom step is left only by submitting a name that is not
    blank: escape has no effect there. *)
Theorem editor_saves_only_model_changes (currentConfig : DeslopsConfig)
  (events : list Event) :
  (exists s effects,
     run (initialState currentConfig) events = Some (s, effects) /\
     (0 <= cursor s <= 3)%Z /\
     derivedFrom currentConfig (config s) /\
     forall saved, In (CallOnSave saved) effects -> derivedFrom currentConfig saved) /\
  (forall s event s' effects,
     step s = Custom -> handle s event = Some (s', effects) -> step s' <> Custom ->
     event = Submit /\ trim (customInput s) <> [] /\ step s' = Menu /\ effects = []).
Proof.
  split.
  - assert (Hgen : forall evs s,
              inRange s -> derivedFrom currentConfig (config s) ->
              exists s' effects,
                run s evs = Some (s', effects) /\ inRange s' /\
                derivedFrom currentConfig (config s') /\
                forall saved, In (CallOnSave saved) effects ->
                              derivedFrom currentConfig saved).
    { induction evs as [|event rest IH]; intros s Hrange Hconfig.
      - exists s, []. split; [reflexivity|]. split; [exact Hrange|].
        split; [exact Hconfig | intros saved []].
      - destruct (handle_keeps currentConfig s event Hrange Hconfig)
          as (s1 & fx1 & E1 & Hr1 & Hc1 & Hs1).
        destruct (IH s1 Hr1 Hc1) as (s2 & fx2 & E2 & Hr2 & Hc2 & Hs2).
        exists s2, (fx1 ++ fx2). simpl. rewrite E1, E2.
        split; [reflexivity|]. split; [exact Hr2|]. split; [exact Hc2|].
        intros saved Hin. apply in_app_or in Hin as [Hin|Hin]; auto. }
    apply Hgen; [unfold inRange; simpl; lia | apply derivedFrom_refl].
  - intros s event s' effects Hstep Hhandle Hleft.
    destruct event as [key|value| ]; unfold handle in Hhandle.
    + unfold useInput in Hhandle. rewrite Hstep in Hhandle.
      injection Hhandle as <- <-. congruence.
    + rewrite Hstep in Hhandle. injection Hhandle as <- <-. simpl in Hleft. congruence.
    + rewrite Hstep in Hhandle. injection Hhandle as <- <-.
      unfold handleCustomSubmit in *.
      destruct (trim (customInput s)) as [|c name]; [congruence|].
      split; [reflexivity|]. split; [discriminate|]. split; reflexivity.
Qed.

End EditorFacts.

(** ** The not-slop file *)

Module LearningsFacts.
Import JS Types Regex Discover RunManager Learnings.
Import JSFacts RegexFacts MatchFacts MatchShape ParserShape.

Lemma NotFound_entryRegex :
  forall text, includes text (js "## Entry ") = false -> NotFound entryRegex text.
Proof.
  unfold includes.
  induction text as [|c text IH]; intros H.
  - apply NotFound_end. apply Fails_seq, Fails_seq, Fails_lit. reflexivity.
  - simpl in H. apply orb_false_iff in H as [H0 H].
    intros p. rewrite searchFrom_eq.
    assert (Hf : Fails entryRegex (c :: text))
      by (apply Fails_seq, Fails_seq, Fails_lit; exact H0).
    rewrite (Hf p []). apply IH. exact H.
Qed.

Lemma numberOrUndefined_not_zero (x : option Z) : numberOrUndefined x <> Some 0%Z.
Proof. destruct x as [[| |]|]; discriminate. Qed.

(** Whatever the not-slop file holds, loading it ends and does not throw,
    and every entry read is usable: file, category and title are not empty
    (a missing one reads as "unknown") and are trimmed parts of one line,
    the date is empty or such a part, and the line is never 0. A file
    without the text "## Entry " holds no entry; a missing file holds none,
    and then the scan prompt gets no context. The context is empty exactly
    when there is no entry. *)
Theorem not_slop_file_loads_well_formed (content : jsstring) :
  (exists entries,
     loadNotSlopEntries (Content content) = Some entries /\
     (forall entry, In entry entries ->
        plain (ns_file entry) = true /\ plain (ns_category entry) = true /\
        plain (ns_title entry) = true /\ emptyOrPlain (ns_timestamp entry) = true /\
        ns_line entry <> Some 0%Z) /\
     (includes content (js "## Entry ") = false -> entries = []) /\
     exists context,
       getLearningsPromptContext (Content content) = Some context /\
       (context = [] <-> entries = [])) /\
  loadNotSlopEntries Absent = Some [] /\
  getLearningsPromptContext Absent = Some [].
Proof.
  split; [|split; reflexivity].
  destruct (execAll_total entryRegex content eq_refl) as [ms Hms].
  exists (List.map entryOfMatch ms).
  assert (Hload : loadNotSlopEntries (Content content) = Some (List.map entryOfMatch ms)).
  { unfold loadNotSlopEntries, parseNotSlopMarkdown. rewrite Hms. reflexivity. }
  split; [exact Hload|]. split; [|split].
  - intros entry Hin. apply in_map_iff in Hin as (m & <- & _).
    unfold entryOfMatch. cbn [ns_file ns_category ns_title ns_timestamp ns_line].
    split; [apply stringOr_plain; [reflexivity | apply extractField_emptyOrPlain]|].
    split; [apply stringOr_plain; [reflexivity | apply extractField_emptyOrPlain]|].
    split; [apply stringOr_plain; [reflexivity | apply extractField_emptyOrPlain]|].
    split; [|apply numberOrUndefined_not_zero].
    destruct (extractField (nth 0 m []) (js "Marked as not slop on")) as [v|] eqn:E;
      [|reflexivity].
    apply extractField_emptyOrPlain in E. destruct v; [reflexivity | exact E].
  - intros Hno. pose proof (NotFound_entryRegex content Hno) as Hnf.
    assert (E : execAll entryRegex content = Some [])
      by (apply execLoop_not_found; exact Hnf).
    rewrite E in Hms. injection Hms as <-. reflexivity.
  - unfold getLearningsPromptContext. rewrite Hload. cbn [option_map].
    eexists. split; [reflexivity|].
    destruct (List.map entryOfMatch ms) as [|e es]; [tauto|].
    split; discriminate.
Qed.

(** An entry written by [addNotSlopEntry] to a missing file and read back. *)
Example entry_written_and_read_back :
  option_map (List.map (fun e => (ns_file e, ns_line e, ns_title e, ns_codeSnippet e)))
    (match addNotSlopEntry Absent Selection.plainFinding (js "// adds one") (js "2025-01-31")
     with
     | Some written => loadNotSlopEntries (Content written)
     | None => None
     end)
  = Some [(js "src/a.ts", None, js "Obvious comment", js "// adds one")].
Proof. vm_compute. reflexivity. Qed.

(** For a finding without a line, a line label inside the code snippet is
    read as the line of the entry. *)
Example line_read_from_the_snippet :
  option_map (List.map ns_line)
    (match addNotSlopEntry Absent labelledFinding labelledCode (js "2025-01-31") with
     | Some written => loadNotSlopEntries (Content written)
     | None => None
     end)
  = Some [Some 7%Z].
Proof. vm_compute. reflexivity. Qed.

End LearningsFacts.
